(** * VPLanet: atmospheric escape, stellar tracks and the RK4 driver

    A shallow embedding of the parts of [atmesc.c], [stellar.c], [evolve.c]
    and [vplanet.c] that the dispatch contract talks about.

    Numbers.  A C [double] is idealised as an exact rational ([Q]):
    rounding, overflow, infinities and signed zeros are not modelled, a
    division by zero gives 0 as it does in [Q], and a NaN exists only where
    the source produces or tests one explicitly (there the value is an
    [option Q], [None] being NAN).  C's [==] on doubles is
    [Qeq_bool], [<] is [Qlt_le_dec].  An [int] is a [Z]; a flag is set when
    it is not zero; the cast of a double to [int] is the 32-bit one
    ([double_to_int]).  Enumerations that the headers define as macros are
    inductive types with a catch-all constructor for any other integer. *)

From Stdlib Require Import ZArith QArith Qabs Qminmax Lia Lqa String.
From stdpp Require Import base list.

Local Open Scope Q_scope.

(** ** C conventions *)

Definition truthy (z : Z) : bool := negb (z =? 0)%Z.

Definition Qltb (x y : Q) : bool := if Qlt_le_dec x y then true else false.
Definition Qleb (x y : Q) : bool := if Qlt_le_dec y x then false else true.

#[global] Instance Q_inhabited : Inhabited Q := populate 0.

(** ** What the headers and libm provide

    [vplanet.h], [atmesc.h] and the C mathematics library are not part of
    the translated sources; their constants and functions are the fields of
    these classes. *)

Class Libm := {
  pow : Q -> Q -> Q;
  log10 : Q -> Q;
  sqrt : Q -> Q;
  sin : Q -> Q
}.

Class PhysConst := {
  BIGG : Q;
  ATOMMASS : Q;
  KBOLTZ : Q;
  QOH : Q;
  PI : Q;
  MEARTH : Q;
  LSUN : Q;
  AUM : Q
}.

(** ** The BODY structure

    The [double] and [int] members of a BODY are addressed by name, so that
    a pointer to a member (UPDATE's [pdVar]) is the member's name.  Members
    holding one of an enumeration's macros are record fields of their own. *)

Inductive dfield :=
  | dAge | dMass | dRadius | dSemi | dEcc | dObliquity | dMeanMotion
  | dPositionX | dPositionY | dPositionZ | dVelX | dVelY | dVelZ
  | dEnvelopeMass | dMinEnvelopeMass | dSurfaceWaterMass | dMinSurfaceWaterMass
  | dOxygenMass | dOxygenMantleMass | dXFrac | dKTide | dFXUV
  | dAtmXAbsEffH | dAtmXAbsEffH2O | dFHRef | dFHDiffLim | dFlowTemp
  | dOxygenEta | dCrossoverMass | dMDotWater | dRGDuration | dJeansTime
  | dRadSolid | dGravAccel | dScaleHeight | dAtmGasConst | dThermTemp
  | dPresSurf | dPresXUV | dRadXUV
  | dLuminosity | dTemperature | dRadGyra | dRotRate | dRotPer | dLXUV
  | dSatXUVFrac | dSatXUVTime | dXUVBeta | dLostAngMom | dLostEng.

Inductive ifield :=
  | bBinary | iBodyType | bRocheMessage | bEnvelopeLostMessage | bCalcFXUV
  | bRunaway | bInstantO2Sink | bEvolveRG.

#[global] Instance dfield_eq_dec : EqDecision dfield.
Proof. solve_decision. Defined.
#[global] Instance ifield_eq_dec : EqDecision ifield.
Proof. solve_decision. Defined.

(** atmesc.h: planet radius models, water loss models, XUV absorption
    efficiency models, water escape regimes *)
Inductive PlanetRadiusModel :=
  | ATMESC_LOP12 | ATMESC_PROXCENB | ATMESC_LEHMER17 | ATMESC_RADIUS_OTHER (n : Z).
Inductive WaterLossModel :=
  | ATMESC_LB15 | ATMESC_LBEXACT | ATMESC_TIAN | ATMESC_WATERLOSS_OTHER (n : Z).
Inductive AtmXAbsEffH2OModel :=
  | ATMESC_BOL16 | ATMESC_XABS_OTHER (n : Z).
Inductive WaterEscapeRegime :=
  | ATMESC_NONE | ATMESC_ELIM | ATMESC_DIFFLIM | ATMESC_REGIME_OTHER (n : Z).

(** stellar.h: stellar models, XUV models, the error codes of [fdBaraffe]
    and of [fdProximaCenStellar], the quantities a track tabulates *)
Inductive StellarModel :=
  | STELLAR_MODEL_BARAFFE | STELLAR_MODEL_PROXIMACEN | STELLAR_MODEL_NONE
  | STELLAR_MODEL_CONST | STELLAR_MODEL_OTHER (n : Z).
Inductive XUVModel :=
  | STELLAR_MODEL_REINERS | STELLAR_MODEL_RIBAS | STELLAR_XUV_OTHER (n : Z).
Inductive StellarErr :=
  | STELLAR_ERR_NONE | STELLAR_ERR_LINEAR | STELLAR_ERR_OUTOFBOUNDS_HI
  | STELLAR_ERR_ISNAN | STELLAR_ERR_OUTOFBOUNDS_LO | STELLAR_ERR_FILE
  | STELLAR_ERR_BADORDER | STELLAR_ERR_OTHER (n : Z).
Inductive ProximaCenErr := PROXIMACEN_ERROR | PROXIMACEN_ERR_OTHER (n : Z).
Inductive StellarParam := STELLAR_L | STELLAR_R | STELLAR_T | STELLAR_RG.
Inductive ProximaCenParam := PROXIMACEN_L | PROXIMACEN_T | PROXIMACEN_R.

#[global] Instance PlanetRadiusModel_eq_dec : EqDecision PlanetRadiusModel.
Proof. solve_decision. Defined.
#[global] Instance WaterLossModel_eq_dec : EqDecision WaterLossModel.
Proof. solve_decision. Defined.
#[global] Instance AtmXAbsEffH2OModel_eq_dec : EqDecision AtmXAbsEffH2OModel.
Proof. solve_decision. Defined.
#[global] Instance WaterEscapeRegime_eq_dec : EqDecision WaterEscapeRegime.
Proof. solve_decision. Defined.
#[global] Instance StellarModel_eq_dec : EqDecision StellarModel.
Proof. solve_decision. Defined.
#[global] Instance XUVModel_eq_dec : EqDecision XUVModel.
Proof. solve_decision. Defined.
#[global] Instance StellarErr_eq_dec : EqDecision StellarErr.
Proof. solve_decision. Defined.
#[global] Instance ProximaCenErr_eq_dec : EqDecision ProximaCenErr.
Proof. solve_decision. Defined.

Record BODY := mkBODY {
  dbl : dfield -> Q;
  int : ifield -> Z;
  cName : string;
  iPlanetRadiusModel : PlanetRadiusModel;
  iWaterLossModel : WaterLossModel;
  iAtmXAbsEffH2OModel : AtmXAbsEffH2OModel;
  iWaterEscapeRegime : WaterEscapeRegime;
  iStellarModel : StellarModel;
  iXUVModel : XUVModel
}.

Definition setd (f : dfield) (v : Q) (b : BODY) : BODY :=
  mkBODY (fun g => if decide (g = f) then v else dbl b g) (int b) (cName b)
         (iPlanetRadiusModel b) (iWaterLossModel b) (iAtmXAbsEffH2OModel b)
         (iWaterEscapeRegime b) (iStellarModel b) (iXUVModel b).

Definition seti (f : ifield) (v : Z) (b : BODY) : BODY :=
  mkBODY (dbl b) (fun g => if decide (g = f) then v else int b g) (cName b)
         (iPlanetRadiusModel b) (iWaterLossModel b) (iAtmXAbsEffH2OModel b)
         (iWaterEscapeRegime b) (iStellarModel b) (iXUVModel b).

Definition set_iWaterEscapeRegime (v : WaterEscapeRegime) (b : BODY) : BODY :=
  mkBODY (dbl b) (int b) (cName b)
         (iPlanetRadiusModel b) (iWaterLossModel b) (iAtmXAbsEffH2OModel b)
         v (iStellarModel b) (iXUVModel b).

Definition set_iStellarModel (v : StellarModel) (b : BODY) : BODY :=
  mkBODY (dbl b) (int b) (cName b)
         (iPlanetRadiusModel b) (iWaterLossModel b) (iAtmXAbsEffH2OModel b)
         (iWaterEscapeRegime b) v (iXUVModel b).

#[global] Instance BODY_inhabited : Inhabited BODY :=
  populate (mkBODY (fun _ => 0) (fun _ => 0%Z) EmptyString
                   (ATMESC_RADIUS_OTHER 0) (ATMESC_WATERLOSS_OTHER 0)
                   (ATMESC_XABS_OTHER 0) (ATMESC_REGIME_OTHER 0)
                   (STELLAR_MODEL_OTHER 0) (STELLAR_XUV_OTHER 0)).

(** [body[iBody].f = v;] and its [int] and enumeration counterparts *)
Definition store_d (iBody : nat) (f : dfield) (v : Q) (body : list BODY) : list BODY :=
  alter (setd f v) iBody body.
Definition store_i (iBody : nat) (f : ifield) (v : Z) (body : list BODY) : list BODY :=
  alter (seti f v) iBody body.

(** ** UPDATE, EVOLVE, IO, HALT, CONTROL

    Arrays are lists, a count is the [nat] the source loops up to.  In
    [UPDATE], [pdVar[iVar]] names the member of this body that the variable
    lives in: for [update[iBody]] that is a member of [body[iBody]], for
    [evolve->tmpUpdate[iBody]] the same member of [evolve->tmpBody[iBody]]. *)

Record UPDATE := mkUPDATE {
  iNumVars : nat;
  iNumEqns : list nat;
  iaType : list (list Z);
  pdVar : list dfield;
  daDerivProc : list (list Q);
  daDeriv : list Q;
  iaBody : list (list (list nat));
  iXobl : Z; iYobl : Z; iZobl : Z; iHecc : Z; iKecc : Z
}.

Definition set_daDerivProc (v : list (list Q)) (u : UPDATE) : UPDATE :=
  mkUPDATE (iNumVars u) (iNumEqns u) (iaType u) (pdVar u) v (daDeriv u)
           (iaBody u) (iXobl u) (iYobl u) (iZobl u) (iHecc u) (iKecc u).

Definition set_daDeriv (v : list Q) (u : UPDATE) : UPDATE :=
  mkUPDATE (iNumVars u) (iNumEqns u) (iaType u) (pdVar u) (daDerivProc u) v
           (iaBody u) (iXobl u) (iYobl u) (iZobl u) (iHecc u) (iKecc u).

#[global] Instance dfield_inhabited : Inhabited dfield := populate dAge.
#[global] Instance UPDATE_inhabited : Inhabited UPDATE :=
  populate (mkUPDATE 0 [] [] [] [] [] [] 0 0 0 0 0).

Record IO := mkIO { iVerbose : Z; dOutputTime : Q }.

Record HALT := mkHALT { iMinIceDt : Z }.
#[global] Instance HALT_inhabited : Inhabited HALT := populate (mkHALT 0).

Record EVOLVE := mkEVOLVE {
  iNumBodies : nat;
  iNumModules : list nat;
  bFirstStep : Z;
  bVarDt : Z;
  dTimeStep : Q;
  dTime : Q;
  dEta : Q;
  dCurrentDt : Q;
  bSpiNBodyDistOrb : Z;
  bUsingSpiNBody : Z;
  tmpBody : list BODY;
  tmpUpdate : list UPDATE;
  evolve_daDeriv : list (list (list Q))   (* evolve->daDeriv[4][iBody][iVar] *)
}.

(** A call either returns or ends the program through [exit], after
    writing to stderr. *)
Inductive ExitStatus := EXIT_INPUT | EXIT_INT.

Inductive outcome (A : Type) :=
  | Ret (a : A)
  | Exit (status : ExitStatus) (stderr : list string).
Arguments Ret {A} a.
Arguments Exit {A} status stderr.

#[global] Instance outcome_ret : MRet outcome := fun A a => Ret a.
#[global] Instance outcome_bind : MBind outcome := fun A B k m =>
  match m with
  | Ret a => k a
  | Exit st msg => Exit st msg
  end.

(** [for (i = 0; i < n; i++) s = f(i, s);] *)
Definition for_loop {S : Type} (n : nat) (f : nat -> S -> S) (s : S) : S :=
  fold_left (fun s i => f i s) (seq 0 n) s.

(** The same loop when the body may leave the program. *)
Definition for_loopM {S : Type} (n : nat) (f : nat -> S -> outcome S) (s : S)
  : outcome S :=
  fold_left (fun m i => m ≫= f i) (seq 0 n) (Ret s).

(** Whether the program is still running *)
Definition returned {A : Type} (o : outcome A) : bool :=
  match o with
  | Ret _ => true
  | Exit _ _ => false
  end.

Definition nl : string := String (Ascii.ascii_of_nat 10) EmptyString.

(** What the rest of the repository provides to these files: code of
    [system.c], [body.c], [control.c] and the stellar-track tables, and
    macros of [vplanet.h]. *)
Class VplanetH := {
  SYSTEM : Type;
  VERBINPUT : Z;
  DAYSEC : Q;
  YEARSEC : Q;
  fdXUVFlux : list BODY -> nat -> Q;
  fdInstellation : list BODY -> nat -> Q;
  fdLehmerPres : Q -> Q -> Q -> Q;
  fdLehmerRadius : Q -> Q -> Q -> Q -> Q;
  fdSemiToMeanMotion : Q -> Q -> Q;
  fdFreqToPer : Q -> Q;
  bFloatComparison : Q -> Q -> Z;
  fdBaraffe : StellarParam -> Q -> Q -> Z -> option Q * StellarErr;
  fdProximaCenStellar : ProximaCenParam -> Q -> Q -> option Q * ProximaCenErr;
  BodyCopy : list BODY -> list BODY -> EVOLVE -> list BODY
}.

(** [<float.h>]: the largest finite double *)
Definition DBL_MAX : Q := inject_Z ((2 ^ 53 - 1) * 2 ^ 971).

(** vplanet.c *)
Definition dHUGE : Q := DBL_MAX.
Definition dTINY : Q := 1 / DBL_MAX.

(** * atmesc.c *)

Section AtmEsc.
Context `{Libm} `{PhysConst} `{VplanetH}.

(** [fdAtomicOxygenMixingRatio] *)
Definition fdAtomicOxygenMixingRatio (dSurfaceWaterMass dOxygenMass : Q) : Q :=
  let NO2 := dOxygenMass / (32 * ATOMMASS) in
  let NH2O := dSurfaceWaterMass / (18 * ATOMMASS) in
  if Qltb 0 NH2O then
    1 / (1 + 1 / (0.5 + NO2 / NH2O))
  else
    if Qltb 0 NO2 then 1 else 0.

(** [fvLinearFit]: the slope and the intercept, [daCoeffs[0]] and
    [daCoeffs[1]] *)
Definition fvLinearFit (x y : list Q) (iLen : nat) : list Q :=
  let '(xavg, yavg) :=
    for_loop iLen (fun i '(xavg, yavg) => (xavg + x !!! i, yavg + y !!! i)) (0, 0) in
  let xavg := xavg / inject_Z (Z.of_nat iLen) in
  let yavg := yavg / inject_Z (Z.of_nat iLen) in
  let '(num, den) :=
    for_loop iLen (fun i '(num, den) =>
      (num + (x !!! i - xavg) * (y !!! i - yavg),
       den + (x !!! i - xavg) * (x !!! i - xavg))) (0, 0) in
  let m := num / den in
  [m; yavg - m * xavg].

(** [fdHZRG14] *)
Definition fdHZRG14 (body : list BODY) (iBody : nat) : Q :=
  let tstar := dbl (body !!! 0%nat) dTemperature - 5780 in
  let daLogMP := [-1.0; 0; 0.69897] in
  let seffsun := [0.99; 1.107; 1.188] in
  let a := [1.209e-4; 1.332e-4; 1.433e-4] in
  let b := [1.404e-8; 1.58e-8; 1.707e-8] in
  let c := [-7.418e-12; -8.308e-12; -8.968e-12] in
  let d := [-1.713e-15; -1.931e-15; -2.084e-15] in
  let seff :=
    for_loop 3 (fun i seff =>
      <[i := seffsun !!! i + a !!! i * tstar + b !!! i * tstar * tstar
             + c !!! i * pow tstar 3 + d !!! i * pow tstar 4]> seff) [0; 0; 0] in
  let daCoeffs := fvLinearFit daLogMP seff 3 in
  (daCoeffs !!! 0%nat * log10 (dbl (body !!! iBody) dMass / MEARTH) + daCoeffs !!! 1%nat)
    * LSUN / (4 * PI * AUM * AUM).

(** [fdXUVEfficiencyBolmont2016] *)
Definition fdXUVEfficiencyBolmont2016 (dFXUV : Q) : Q :=
  let a0 := 1.49202 in
  let a1 := 5.57875 in
  let a2 := 2.27482 in
  let b0 := 0.59182134 in
  let b1 := -0.36140798 in
  let b2 := -0.04011933 in
  let b3 := -0.8988 in
  let c0 := -0.00441536 in
  let c1 := -0.03068399 in
  let c2 := 0.04946948 in
  let c3 := -0.89880083 in
  let x := log10 (dFXUV * 1e3) in
  if Qleb (-2) x && Qltb x (-1) then
    pow 10 (a0 * x * x + a1 * x + a2)
  else if Qleb (-1) x && Qltb x 0 then
    pow 10 (b0 * x * x * x + b1 * x * x + b2 * x + b3)
  else if Qleb 0 x && Qleb x 5 then
    pow 10 (c0 * x * x * x + c1 * x * x + c2 * x + c3)
  else
    0.

(** [fbDoesWaterEscape]: the returned flag and the bodies, whose
    [dRGDuration] the function may set *)
Definition fbDoesWaterEscape (body : list BODY) (iBody : nat) : Z * list BODY :=
  if Qltb 0 (dbl (body !!! iBody) dEnvelopeMass) then
    let body :=
      if Qeq_bool (dbl (body !!! iBody) dRGDuration) 0
         && Qltb (fdInstellation body iBody) (fdHZRG14 body iBody)
      then store_d iBody dRGDuration (dbl (body !!! iBody) dAge) body
      else body in
    (0%Z, body)
  else if Qltb (fdInstellation body iBody) (fdHZRG14 body iBody) then
    let body :=
      if Qeq_bool (dbl (body !!! iBody) dRGDuration) 0
      then store_d iBody dRGDuration (dbl (body !!! iBody) dAge) body
      else body in
    (0%Z, body)
  else if Qleb (dbl (body !!! iBody) dSurfaceWaterMass) 0 then
    (0%Z, body)
  else if Qltb (dbl (body !!! iBody) dJeansTime) (dbl (body !!! iBody) dAge) then
    (0%Z, body)
  else
    (1%Z, body).

(** [fnPropsAuxAtmEsc]: the bodies after the call and what the call wrote
    to stderr *)
Definition fnPropsAuxAtmEsc (body : list BODY) (evolve : EVOLVE) (io : IO)
    (update : list UPDATE) (iBody : nat) : list BODY * list string :=
  let body := store_d iBody dAge (dbl (body !!! 0%nat) dAge) body in

  let body :=
    if decide (iPlanetRadiusModel (body !!! iBody) = ATMESC_LEHMER17) then
      let body := store_d iBody dRadSolid
        (1.3 * pow (dbl (body !!! iBody) dMass - dbl (body !!! iBody) dEnvelopeMass) 0.27) body in
      let body := store_d iBody dGravAccel
        (BIGG * (dbl (body !!! iBody) dMass - dbl (body !!! iBody) dEnvelopeMass)
         / (dbl (body !!! iBody) dRadSolid * dbl (body !!! iBody) dRadSolid)) body in
      let body := store_d iBody dScaleHeight
        (dbl (body !!! iBody) dAtmGasConst * dbl (body !!! iBody) dThermTemp
         / dbl (body !!! iBody) dGravAccel) body in
      let body := store_d iBody dPresSurf
        (fdLehmerPres (dbl (body !!! iBody) dEnvelopeMass) (dbl (body !!! iBody) dGravAccel)
                      (dbl (body !!! iBody) dRadSolid)) body in
      store_d iBody dRadXUV
        (fdLehmerRadius (dbl (body !!! iBody) dRadSolid) (dbl (body !!! iBody) dPresXUV)
                        (dbl (body !!! iBody) dScaleHeight) (dbl (body !!! iBody) dPresSurf)) body
    else body in

  (* Ktide (due to body zero only) *)
  let xi := (pow (dbl (body !!! iBody) dMass / (3 * dbl (body !!! 0%nat) dMass)) (1 / 3)
             * dbl (body !!! iBody) dSemi)
            / (dbl (body !!! iBody) dRadius * dbl (body !!! iBody) dXFrac) in

  let '(body, stderr) :=
    if truthy (int (body !!! iBody) bBinary) && (int (body !!! iBody) iBodyType =? 0)%Z then
      (store_d iBody dKTide 1 body, [])
    else
      let '(body, stderr) :=
        if Qltb 1 xi then
          (store_d iBody dKTide (1 - 3 / (2 * xi) + 1 / (2 * pow xi 3)) body, [])
        else
          if negb (truthy (int (body !!! iBody) bRocheMessage))
             && (VERBINPUT <=? iVerbose io)%Z then
            (store_i iBody bRocheMessage 1 body,
             [("WARNING: Roche lobe radius is larger than XUV radius for "
               ++ cName (body !!! iBody)
               ++ ", evolution may not be accurate." ++ nl)%string])
          else (body, []) in
      (store_d iBody dKTide 1 body, stderr) in

  (* The XUV flux *)
  let body :=
    if truthy (int (body !!! iBody) bCalcFXUV)
    then store_d iBody dFXUV (fdXUVFlux body iBody) body
    else body in

  (* The H2O XUV escape efficiency *)
  let body :=
    if decide (iAtmXAbsEffH2OModel (body !!! iBody) = ATMESC_BOL16)
    then store_d iBody dAtmXAbsEffH2O
           (fdXUVEfficiencyBolmont2016 (dbl (body !!! iBody) dFXUV)) body
    else body in

  (* Reference hydrogen flux for the water loss *)
  let body := store_d iBody dFHRef
    ((dbl (body !!! iBody) dAtmXAbsEffH2O * dbl (body !!! iBody) dFXUV
      * dbl (body !!! iBody) dRadius)
     / (4 * BIGG * dbl (body !!! iBody) dMass * dbl (body !!! iBody) dKTide * ATOMMASS)) body in

  (* Surface gravity *)
  let g := (BIGG * dbl (body !!! iBody) dMass)
           / (dbl (body !!! iBody) dRadius * dbl (body !!! iBody) dRadius) in

  (* Oxygen mixing ratio *)
  let XO := fdAtomicOxygenMixingRatio (dbl (body !!! iBody) dSurfaceWaterMass)
                                      (dbl (body !!! iBody) dOxygenMass) in

  (* Diffusion-limited H escape rate *)
  let BDIFF := 4.8e19 * pow (dbl (body !!! iBody) dFlowTemp) 0.75 in
  let body := store_d iBody dFHDiffLim
    (BDIFF * g * ATOMMASS * (QOH - 1)
     / (KBOLTZ * dbl (body !!! iBody) dFlowTemp * (1 + XO / (1 - XO)))) body in

  (* Is water escaping? *)
  let '(bEscape, body) := fbDoesWaterEscape body iBody in
  if negb (truthy bEscape) then
    let body := store_d iBody dOxygenEta 0 body in
    let body := store_d iBody dCrossoverMass 0 body in
    let body := store_i iBody bRunaway 0 body in
    let body := alter (set_iWaterEscapeRegime ATMESC_NONE) iBody body in
    let body := store_d iBody dMDotWater 0 body in
    (body, stderr)
  else
    let body := store_i iBody bRunaway 1 body in

    (* Select an escape/oxygen buildup model *)
    let body :=
      if decide (iWaterLossModel (body !!! iBody) = ATMESC_LB15) then
        (* Luger and Barnes (2015) *)
        let x := (KBOLTZ * dbl (body !!! iBody) dFlowTemp * dbl (body !!! iBody) dFHRef)
                 / (10 * BDIFF * g * ATOMMASS) in
        if Qltb x 1 then
          let body := store_d iBody dOxygenEta 0 body in
          store_d iBody dCrossoverMass
            (ATOMMASS + 1.5 * KBOLTZ * dbl (body !!! iBody) dFlowTemp
                        * dbl (body !!! iBody) dFHRef / (BDIFF * g)) body
        else
          let body := store_d iBody dOxygenEta ((x - 1) / (x + 8)) body in
          store_d iBody dCrossoverMass
            (43 / 3 * ATOMMASS + KBOLTZ * dbl (body !!! iBody) dFlowTemp
                                 * dbl (body !!! iBody) dFHRef / (6 * BDIFF * g)) body
      else if bool_decide (iWaterLossModel (body !!! iBody) = ATMESC_LBEXACT)
              || bool_decide (iWaterLossModel (body !!! iBody) = ATMESC_TIAN) then
        let x := (QOH - 1) * (1 - XO) * (BDIFF * g * ATOMMASS)
                 / (KBOLTZ * dbl (body !!! iBody) dFlowTemp) in
        (* Get the crossover mass *)
        if Qltb (dbl (body !!! iBody) dFHRef) x then
          (* mcross < mo *)
          let body := store_d iBody dCrossoverMass
            (ATOMMASS + (1 / (1 - XO))
                        * (KBOLTZ * dbl (body !!! iBody) dFlowTemp * dbl (body !!! iBody) dFHRef)
                        / (BDIFF * g)) body in
          let FH := dbl (body !!! iBody) dFHRef in
          let rat := (dbl (body !!! iBody) dCrossoverMass / ATOMMASS - QOH)
                     / (dbl (body !!! iBody) dCrossoverMass / ATOMMASS - 1) in
          store_d iBody dOxygenEta 0 body
        else
          (* mcross >= mo *)
          let num := 1 + (XO / (1 - XO)) * QOH * QOH in
          let den := 1 + (XO / (1 - XO)) * QOH in
          let body := store_d iBody dCrossoverMass
            (ATOMMASS * num / den
             + (KBOLTZ * dbl (body !!! iBody) dFlowTemp * dbl (body !!! iBody) dFHRef)
               / ((1 + XO * (QOH - 1)) * BDIFF * g)) body in
          let rat := (dbl (body !!! iBody) dCrossoverMass / ATOMMASS - QOH)
                     / (dbl (body !!! iBody) dCrossoverMass / ATOMMASS - 1) in
          let FH := dbl (body !!! iBody) dFHRef
                    * pow (1 + (XO / (1 - XO)) * QOH * rat) (-1) in
          store_d iBody dOxygenEta (2 * XO / (1 - XO) * rat) body
      else body in

    if Qltb 0.6 XO && bool_decide (iWaterLossModel (body !!! iBody) = ATMESC_LBEXACT) then
      (* Schaefer et al. (2016) prescription, section 2.2 *)
      let body := alter (set_iWaterEscapeRegime ATMESC_DIFFLIM) iBody body in
      let body := store_d iBody dOxygenEta 0 body in
      let body := store_d iBody dMDotWater
        (dbl (body !!! iBody) dFHDiffLim
         * (4 * ATOMMASS * PI * dbl (body !!! iBody) dRadius * dbl (body !!! iBody) dRadius
            * dbl (body !!! iBody) dXFrac * dbl (body !!! iBody) dXFrac)) body in
      (body, stderr)
    else
      let body := alter (set_iWaterEscapeRegime ATMESC_ELIM) iBody body in
      let body := store_d iBody dMDotWater
        (dbl (body !!! iBody) dFHRef
         * (4 * ATOMMASS * PI * dbl (body !!! iBody) dRadius * dbl (body !!! iBody) dRadius
            * dbl (body !!! iBody) dXFrac * dbl (body !!! iBody) dXFrac)) body in
      (body, stderr).

(** [fdDSurfaceWaterMassDt] *)
Definition fdDSurfaceWaterMassDt (body : list BODY) (system : SYSTEM)
    (iaBody : list nat) : Q :=
  let b := body !!! (iaBody !!! 0%nat) in
  if truthy (int b bRunaway) && Qltb 0 (dbl b dSurfaceWaterMass) then
    - (9 / (1 + 8 * dbl b dOxygenEta)) * dbl b dMDotWater
  else 0.

(** [fdDOxygenMassDt] *)
Definition fdDOxygenMassDt (body : list BODY) (system : SYSTEM)
    (iaBody : list nat) : Q :=
  let b := body !!! (iaBody !!! 0%nat) in
  if truthy (int b bRunaway) && negb (truthy (int b bInstantO2Sink))
     && Qltb 0 (dbl b dSurfaceWaterMass) then
    if decide (iWaterLossModel b = ATMESC_LB15) then
      (* Rodrigo and Barnes (2015) *)
      if Qleb (16 * ATOMMASS) (dbl b dCrossoverMass) then
        let BDIFF := 4.8e19 * pow (dbl b dFlowTemp) 0.75 in
        (320 * PI * BIGG * ATOMMASS * ATOMMASS * BDIFF * dbl b dMass)
        / (KBOLTZ * dbl b dFlowTemp)
      else
        (8 - 8 * dbl b dOxygenEta) / (1 + 8 * dbl b dOxygenEta) * dbl b dMDotWater
    else
      (* Exact *)
      (8 - 8 * dbl b dOxygenEta) / (1 + 8 * dbl b dOxygenEta) * dbl b dMDotWater
  else 0.

(** [fdDOxygenMantleMassDt] *)
Definition fdDOxygenMantleMassDt (body : list BODY) (system : SYSTEM)
    (iaBody : list nat) : Q :=
  let b := body !!! (iaBody !!! 0%nat) in
  if truthy (int b bRunaway) && truthy (int b bInstantO2Sink)
     && Qltb 0 (dbl b dSurfaceWaterMass) then
    if decide (iWaterLossModel b = ATMESC_LB15) then
      (* Rodrigo and Barnes (2015) *)
      if Qleb (16 * ATOMMASS) (dbl b dCrossoverMass) then
        let BDIFF := 4.8e19 * pow (dbl b dFlowTemp) 0.75 in
        (320 * PI * BIGG * ATOMMASS * ATOMMASS * BDIFF * dbl b dMass)
        / (KBOLTZ * dbl b dFlowTemp)
      else
        (8 - 8 * dbl b dOxygenEta) / (1 + 8 * dbl b dOxygenEta) * dbl b dMDotWater
    else
      (* Exact *)
      (8 - 8 * dbl b dOxygenEta) / (1 + 8 * dbl b dOxygenEta) * dbl b dMDotWater
  else 0.

(** [fdDEnvelopeMassDt] *)
Definition fdDEnvelopeMassDt (body : list BODY) (system : SYSTEM)
    (iaBody : list nat) : Q :=
  let b := body !!! (iaBody !!! 0%nat) in
  if Qleb (dbl b dEnvelopeMass) 0 || Qltb (dbl b dJeansTime) (dbl b dAge) then
    dTINY
  else if decide (iPlanetRadiusModel b = ATMESC_LEHMER17) then
    - dbl b dAtmXAbsEffH * PI * dbl b dFXUV * pow (dbl b dRadXUV) 3
    / (BIGG * (dbl b dMass - dbl b dEnvelopeMass))
  else
    - dbl b dFHRef * (dbl b dAtmXAbsEffH / dbl b dAtmXAbsEffH2O)
    * (4 * ATOMMASS * PI * dbl b dRadius * dbl b dRadius * dbl b dXFrac * dbl b dXFrac).

End AtmEsc.

(** * stellar.c *)

Section Stellar.
Context `{Libm} `{PhysConst} `{VplanetH}.

(** The message of the fatal branch that the four Baraffe wrappers share *)
Definition BaraffeErrorMessage (iError : StellarErr) : string :=
  if decide (iError = STELLAR_ERR_OUTOFBOUNDS_LO) then
    "ERROR: Out of bounds (low) in fdBaraffe()." ++ nl
  else if decide (iError = STELLAR_ERR_FILE) then
    "ERROR: File access error in routine fdBaraffe()." ++ nl
  else if decide (iError = STELLAR_ERR_BADORDER) then
    "ERROR: Bad interpolation order in routine fdBaraffe()." ++ nl
  else
    "ERROR: Undefined error in fdBaraffe()." ++ nl.

(** [fdLuminosityFunctionBaraffe]; [None] is the NAN the function returns *)
Definition fdLuminosityFunctionBaraffe (dAge dMass : Q) : outcome (option Q) :=
  let '(L, iError) := fdBaraffe STELLAR_L dAge dMass 3 in
  if bool_decide (iError = STELLAR_ERR_NONE) || bool_decide (iError = STELLAR_ERR_LINEAR) then
    Ret L
  else if bool_decide (iError = STELLAR_ERR_OUTOFBOUNDS_HI)
          || bool_decide (iError = STELLAR_ERR_ISNAN) then
    Ret None
  else
    Exit EXIT_INT [BaraffeErrorMessage iError].

(** [fdRadiusFunctionBaraffe] *)
Definition fdRadiusFunctionBaraffe (dAge dMass : Q) : outcome (option Q) :=
  let '(R, iError) := fdBaraffe STELLAR_R dAge dMass 3 in
  if bool_decide (iError = STELLAR_ERR_NONE) || bool_decide (iError = STELLAR_ERR_LINEAR) then
    Ret R
  else if bool_decide (iError = STELLAR_ERR_OUTOFBOUNDS_HI)
          || bool_decide (iError = STELLAR_ERR_ISNAN) then
    Ret None
  else
    Exit EXIT_INT [BaraffeErrorMessage iError].

(** [fdRadGyraFunctionBaraffe] *)
Definition fdRadGyraFunctionBaraffe (dAge dMass : Q) : outcome (option Q) :=
  let '(rg, iError) := fdBaraffe STELLAR_RG dAge dMass 3 in
  if bool_decide (iError = STELLAR_ERR_NONE) || bool_decide (iError = STELLAR_ERR_LINEAR) then
    Ret rg
  else if bool_decide (iError = STELLAR_ERR_OUTOFBOUNDS_HI)
          || bool_decide (iError = STELLAR_ERR_ISNAN) then
    Ret None
  else
    Exit EXIT_INT [BaraffeErrorMessage iError].

(** [fdTemperatureFunctionBaraffe] *)
Definition fdTemperatureFunctionBaraffe (dAge dMass : Q) : outcome (option Q) :=
  let '(T, iError) := fdBaraffe STELLAR_T dAge dMass 3 in
  if bool_decide (iError = STELLAR_ERR_NONE) || bool_decide (iError = STELLAR_ERR_LINEAR) then
    Ret T
  else if bool_decide (iError = STELLAR_ERR_OUTOFBOUNDS_HI)
          || bool_decide (iError = STELLAR_ERR_ISNAN) then
    Ret None
  else
    Exit EXIT_INT [BaraffeErrorMessage iError].

(** [fdLuminosityFunctionProximaCen], [fdTemperatureFunctionProximaCen],
    [fdRadiusFunctionProximaCen] *)
Definition fdLuminosityFunctionProximaCen (dAge dMass : Q) : option Q :=
  let '(L, iError) := fdProximaCenStellar PROXIMACEN_L dAge dMass in
  if decide (iError = PROXIMACEN_ERROR) then None else L.

Definition fdTemperatureFunctionProximaCen (dAge dMass : Q) : option Q :=
  let '(L, iError) := fdProximaCenStellar PROXIMACEN_T dAge dMass in
  if decide (iError = PROXIMACEN_ERROR) then None else L.

Definition fdRadiusFunctionProximaCen (dAge dMass : Q) : option Q :=
  let '(L, iError) := fdProximaCenStellar PROXIMACEN_R dAge dMass in
  if decide (iError = PROXIMACEN_ERROR) then None else L.

(** The tail that [fdLuminosity], [fdRadius], [fdTemperature] and
    [fdRadGyra] share: the stored member [f] under the NONE and CONST
    models, 0 under any other. *)
Definition stellar_stored (f : dfield) (body : list BODY) (i : nat) : Q :=
  if bool_decide (iStellarModel (body !!! i) = STELLAR_MODEL_NONE)
     || bool_decide (iStellarModel (body !!! i) = STELLAR_MODEL_CONST)
  then dbl (body !!! i) f
  else 0.

(** [fdLuminosity]: the returned value and the bodies, whose
    [iStellarModel] the function sets to CONST when the lookup is a NAN *)
Definition fdLuminosity (body : list BODY) (system : SYSTEM) (iaBody : list nat)
  : outcome (Q * list BODY) :=
  let i := iaBody !!! 0%nat in
  if decide (iStellarModel (body !!! i) = STELLAR_MODEL_BARAFFE) then
    foo ← fdLuminosityFunctionBaraffe (dbl (body !!! i) dAge) (dbl (body !!! i) dMass);
    match foo with
    | Some foo => Ret (foo, body)
    | None =>
        let body := alter (set_iStellarModel STELLAR_MODEL_CONST) i body in
        Ret (stellar_stored dLuminosity body i, body)
    end
  else if decide (iStellarModel (body !!! i) = STELLAR_MODEL_PROXIMACEN) then
    match fdLuminosityFunctionProximaCen (dbl (body !!! i) dAge) (dbl (body !!! i) dMass) with
    | Some foo => Ret (foo, body)
    | None =>
        let body := alter (set_iStellarModel STELLAR_MODEL_CONST) i body in
        Ret (stellar_stored dLuminosity body i, body)
    end
  else Ret (stellar_stored dLuminosity body i, body).

(** [fdRadius] *)
Definition fdRadius (body : list BODY) (system : SYSTEM) (iaBody : list nat)
  : outcome (Q * list BODY) :=
  let i := iaBody !!! 0%nat in
  if decide (iStellarModel (body !!! i) = STELLAR_MODEL_BARAFFE) then
    foo ← fdRadiusFunctionBaraffe (dbl (body !!! i) dAge) (dbl (body !!! i) dMass);
    match foo with
    | Some foo => Ret (foo, body)
    | None =>
        let body := alter (set_iStellarModel STELLAR_MODEL_CONST) i body in
        Ret (stellar_stored dRadius body i, body)
    end
  else if decide (iStellarModel (body !!! i) = STELLAR_MODEL_PROXIMACEN) then
    match fdRadiusFunctionProximaCen (dbl (body !!! i) dAge) (dbl (body !!! i) dMass) with
    | Some foo => Ret (foo, body)
    | None =>
        let body := alter (set_iStellarModel STELLAR_MODEL_CONST) i body in
        Ret (stellar_stored dRadius body i, body)
    end
  else Ret (stellar_stored dRadius body i, body).

(** [fdTemperature] *)
Definition fdTemperature (body : list BODY) (system : SYSTEM) (iaBody : list nat)
  : outcome (Q * list BODY) :=
  let i := iaBody !!! 0%nat in
  if decide (iStellarModel (body !!! i) = STELLAR_MODEL_BARAFFE) then
    foo ← fdTemperatureFunctionBaraffe (dbl (body !!! i) dAge) (dbl (body !!! i) dMass);
    match foo with
    | Some foo => Ret (foo, body)
    | None =>
        let body := alter (set_iStellarModel STELLAR_MODEL_CONST) i body in
        Ret (stellar_stored dTemperature body i, body)
    end
  else if decide (iStellarModel (body !!! i) = STELLAR_MODEL_PROXIMACEN) then
    match fdTemperatureFunctionProximaCen (dbl (body !!! i) dAge) (dbl (body !!! i) dMass) with
    | Some foo => Ret (foo, body)
    | None =>
        let body := alter (set_iStellarModel STELLAR_MODEL_CONST) i body in
        Ret (stellar_stored dTemperature body i, body)
    end
  else Ret (stellar_stored dTemperature body i, body).

(** [fdRadGyra]; under the Proxima Centauri model the stored member is a
    number, so the [isnan] test there never fires *)
Definition fdRadGyra (body : list BODY) (system : SYSTEM) (iaBody : list nat)
  : outcome (Q * list BODY) :=
  let i := iaBody !!! 0%nat in
  if negb (truthy (int (body !!! i) bEvolveRG)) then
    Ret (dbl (body !!! i) dRadGyra, body)
  else if decide (iStellarModel (body !!! i) = STELLAR_MODEL_BARAFFE) then
    foo ← fdRadGyraFunctionBaraffe (dbl (body !!! i) dAge) (dbl (body !!! i) dMass);
    match foo with
    | Some foo => Ret (foo, body)
    | None =>
        let body := alter (set_iStellarModel STELLAR_MODEL_CONST) i body in
        Ret (stellar_stored dRadGyra body i, body)
    end
  else if decide (iStellarModel (body !!! i) = STELLAR_MODEL_PROXIMACEN) then
    Ret (dbl (body !!! i) dRadGyra, body)
  else Ret (stellar_stored dRadGyra body i, body).

(** [fbHaltEndBaraffeGrid], without its progress message *)
Definition fbHaltEndBaraffeGrid (body : list BODY) (iBody : nat) : Z :=
  if decide (iStellarModel (body !!! iBody) = STELLAR_MODEL_CONST) then 1%Z else 0%Z.

(** [fnPropsAuxStellar] *)
Definition fnPropsAuxStellar (body : list BODY) (evolve : EVOLVE) (io : IO)
    (update : list UPDATE) (iBody : nat) : list BODY * list string :=
  let body := store_d iBody dRotPer (fdFreqToPer (dbl (body !!! iBody) dRotRate)) body in
  if decide (iXUVModel (body !!! iBody) = STELLAR_MODEL_REINERS) then
    let dPer := 2 * PI / dbl (body !!! iBody) dRotRate in
    let dLXRay := 1e-7 * pow 10 (30.71 - 2.01 * log10 (dPer / DAYSEC)) in
    let dLXRaySat := dbl (body !!! iBody) dLuminosity
                     * pow 10 (-3.12 - 0.11 * log10 (dPer / DAYSEC)) in
    let dLXRay := if Qltb dLXRaySat dLXRay then dLXRaySat else dLXRay in
    let dLEUV := 1e7 * pow 10 (4.80 + 0.860 * log10 (dLXRay * 1e-7)) in
    (store_d iBody dLXUV dLXRay body, [])
  else if decide (iXUVModel (body !!! iBody) = STELLAR_MODEL_RIBAS) then
    let dAge := dbl (body !!! iBody) dAge / (1e9 * YEARSEC) in
    let dTMin := dbl (body !!! iBody) dSatXUVTime / (1e9 * YEARSEC) in
    if Qleb dTMin dAge then
      (store_d iBody dLXUV
         (dbl (body !!! iBody) dSatXUVFrac * dbl (body !!! iBody) dLuminosity
          * pow (dAge / dTMin) (- dbl (body !!! iBody) dXUVBeta)) body, [])
    else
      (store_d iBody dLXUV
         (dbl (body !!! iBody) dSatXUVFrac * dbl (body !!! iBody) dLuminosity) body, [])
  else
    (store_d iBody dLXUV
       (dbl (body !!! iBody) dSatXUVFrac * dbl (body !!! iBody) dLuminosity) body, []).

End Stellar.

(** * evolve.c *)

(** A module's auxiliary-properties function, [control->fnPropsAux[iBody][iModule]] *)
Definition fnPropsAuxModule : Type :=
  list BODY -> EVOLVE -> IO -> list UPDATE -> nat -> list BODY * list string.

#[global] Instance fnPropsAuxModule_inhabited : Inhabited fnPropsAuxModule :=
  populate (fun body _ _ _ _ => (body, [])).

Record CONTROL := mkCONTROL {
  Evolve : EVOLVE;
  Io : IO;
  Halt : list HALT;
  fnPropsAux : list (list fnPropsAuxModule);
  iNumMultiProps : list nat;
  fnPropsAuxMulti : list (list fnPropsAuxModule)
}.

Definition set_Evolve (e : EVOLVE) (c : CONTROL) : CONTROL :=
  mkCONTROL e (Io c) (Halt c) (fnPropsAux c) (iNumMultiProps c) (fnPropsAuxMulti c).

Definition set_bFirstStep (v : Z) (e : EVOLVE) : EVOLVE :=
  mkEVOLVE (iNumBodies e) (iNumModules e) v (bVarDt e) (dTimeStep e) (dTime e)
           (dEta e) (dCurrentDt e) (bSpiNBodyDistOrb e) (bUsingSpiNBody e)
           (tmpBody e) (tmpUpdate e) (evolve_daDeriv e).

Definition set_dCurrentDt (v : Q) (e : EVOLVE) : EVOLVE :=
  mkEVOLVE (iNumBodies e) (iNumModules e) (bFirstStep e) (bVarDt e) (dTimeStep e)
           (dTime e) (dEta e) v (bSpiNBodyDistOrb e) (bUsingSpiNBody e)
           (tmpBody e) (tmpUpdate e) (evolve_daDeriv e).

Definition set_tmpBody (v : list BODY) (e : EVOLVE) : EVOLVE :=
  mkEVOLVE (iNumBodies e) (iNumModules e) (bFirstStep e) (bVarDt e) (dTimeStep e)
           (dTime e) (dEta e) (dCurrentDt e) (bSpiNBodyDistOrb e) (bUsingSpiNBody e)
           v (tmpUpdate e) (evolve_daDeriv e).

Definition set_tmpUpdate (v : list UPDATE) (e : EVOLVE) : EVOLVE :=
  mkEVOLVE (iNumBodies e) (iNumModules e) (bFirstStep e) (bVarDt e) (dTimeStep e)
           (dTime e) (dEta e) (dCurrentDt e) (bSpiNBodyDistOrb e) (bUsingSpiNBody e)
           (tmpBody e) v (evolve_daDeriv e).

Definition set_evolve_daDeriv (v : list (list (list Q))) (e : EVOLVE) : EVOLVE :=
  mkEVOLVE (iNumBodies e) (iNumModules e) (bFirstStep e) (bVarDt e) (dTimeStep e)
           (dTime e) (dEta e) (dCurrentDt e) (bSpiNBodyDistOrb e) (bUsingSpiNBody e)
           (tmpBody e) (tmpUpdate e) v.

(** [update[iBody].daDerivProc[iVar][iEqn] = v;] *)
Definition store_DerivProc (iBody iVar iEqn : nat) (v : Q) (update : list UPDATE)
  : list UPDATE :=
  alter (fun u => set_daDerivProc (alter (fun row => <[iEqn := v]> row) iVar (daDerivProc u)) u)
        iBody update.

(** [update[iBody].daDeriv[iVar] = v;] *)
Definition store_Deriv (iBody iVar : nat) (v : Q) (update : list UPDATE) : list UPDATE :=
  alter (fun u => set_daDeriv (<[iVar := v]> (daDeriv u)) u) iBody update.

(** [d[k][iBody][iVar]] and [d[k][iBody][iVar] = x;] for [evolve->daDeriv] *)
Definition get3 (d : list (list (list Q))) (k iBody iVar : nat) : Q :=
  ((d !!! k) !!! iBody) !!! iVar.

Definition put3 (k iBody iVar : nat) (x : Q) (d : list (list (list Q)))
  : list (list (list Q)) :=
  alter (fun plane => alter (fun row => <[iVar := x]> row) iBody plane) k d.

(** [evolve->daDeriv[k][iBody][iVar] = v;] *)
Definition store_evolve_daDeriv (k iBody iVar : nat) (v : Q) (e : EVOLVE) : EVOLVE :=
  set_evolve_daDeriv (put3 k iBody iVar v (evolve_daDeriv e)) e.

(** The bounds of the 32-bit [int], from [limits.h] *)
Definition INT_MIN : Z := (- 2 ^ 31)%Z.
Definition INT_MAX : Z := (2 ^ 31 - 1)%Z.

(** The C cast [(int)x] of a double: truncation towards zero when the
    truncated value is an [int].  For any other value the C standard leaves
    the conversion undefined; the result here is the one that the
    conversion instruction of x86-64 ([cvttsd2si]) delivers, [INT_MIN]. *)
Definition double_to_int (x : Q) : Z :=
  let n := (Qnum x ÷ Z.pos (Qden x))%Z in
  if (INT_MIN <=? n)%Z && (n <=? INT_MAX)%Z then n else INT_MIN.

(** [AssignDt] *)
Definition AssignDt (dMin dNextOutput dEta : Q) : Q :=
  let dMin := dEta * dMin in
  let dMin := if Qltb dNextOutput dMin then dNextOutput else dMin in
  dMin.

(** [fdNextOutput] *)
Definition fdNextOutput (dTime dOutputInterval : Q) : Q :=
  let nSteps := double_to_int (dTime / dOutputInterval) in
  (inject_Z nSteps + 1) * dOutputInterval.

(** An UPDATE array's [pdVar] point into a BODY array: either the one a
    function receives as [body], or another one.  [fdGetTimeStep] is called
    with [update] (whose pointers go into [body]) by [Evolve] and
    [EulerStep], and with [evolve->tmpUpdate] (whose pointers go into
    [evolve->tmpBody]) by [RungeKutta4Step]. *)
Inductive pdVarHome :=
  | InBodyArgument
  | InArray (vars : list BODY).

(** [*(update[iBody].pdVar[iVar])] *)
Definition deref (home : pdVarHome) (body : list BODY) (update : list UPDATE)
    (iBody iVar : nat) : Q :=
  match home with
  | InBodyArgument => dbl (body !!! iBody) (pdVar (update !!! iBody) !!! iVar)
  | InArray vars => dbl (vars !!! iBody) (pdVar (update !!! iBody) !!! iVar)
  end.

(** The variable kinds that [RungeKutta4Step] assigns instead of
    integrating: [iaType[iVar][0]] is 0, 3 or 10 *)
Definition is_value_type (update : list UPDATE) (iBody iVar : nat) : bool :=
  let t := (iaType (update !!! iBody) !!! iVar) !!! 0%nat in
  (t =? 0)%Z || (t =? 3)%Z || (t =? 10)%Z.

Section Evolve.
Context `{Libm} `{PhysConst} `{VplanetH}.

(** A derivative (or value) function of the matrix, [fnUpdate[iBody][iVar][iEqn]]:
    what it returns and the bodies as it leaves them *)
Definition fnUpdateVariable : Type :=
  list BODY -> SYSTEM -> list nat -> outcome (Q * list BODY).

(** A function of the matrix that only reads the bodies *)
Definition reads (f : list BODY -> SYSTEM -> list nat -> Q) : fnUpdateVariable :=
  fun body system iaBody => Ret (f body system iaBody, body).

#[global] Instance fnUpdateVariable_inhabited : Inhabited fnUpdateVariable :=
  populate (reads (fun _ _ _ => 0)).

(** [PropsAuxGeneral] *)
Definition PropsAuxGeneral (body : list BODY) (control : CONTROL) : list BODY :=
  for_loop (iNumBodies (Evolve control)) (fun iBody body =>
    if negb (iBody =? 0)%nat && (int (body !!! iBody) bBinary =? 0)%Z then
      store_d iBody dMeanMotion
        (fdSemiToMeanMotion (dbl (body !!! iBody) dSemi)
                            (dbl (body !!! 0%nat) dMass + dbl (body !!! iBody) dMass)) body
    else body) body.

(** [PropertiesAuxiliary]: the bodies afterwards and what the modules wrote
    to stderr *)
Definition PropertiesAuxiliary (body : list BODY) (control : CONTROL)
    (update : list UPDATE) : list BODY * list string :=
  let body := PropsAuxGeneral body control in
  for_loop (iNumBodies (Evolve control)) (fun iBody st =>
    (* Uni-module properties *)
    let st :=
      for_loop (iNumModules (Evolve control) !!! iBody) (fun iModule st =>
        let r := ((fnPropsAux control !!! iBody) !!! iModule) st.1 (Evolve control)
                   (Io control) update iBody in
        (r.1, st.2 ++ r.2)) st in
    (* Multi-module properties *)
    for_loop (iNumMultiProps control !!! iBody) (fun iModule st =>
      let r := ((fnPropsAuxMulti control !!! iBody) !!! iModule) st.1 (Evolve control)
                 (Io control) update iBody in
      (r.1, st.2 ++ r.2)) st) (body, []).

(** The loop that [fdGetTimeStep] and [fdGetUpdateInfo] repeat for a
    variable:
    [for (iEqn...) update[iBody].daDerivProc[iVar][iEqn] = fnUpdate[iBody][iVar][iEqn](body,system,update[iBody].iaBody[iVar][iEqn]);] *)
Definition EvalEqn (fnUpdate : list (list (list fnUpdateVariable))) (system : SYSTEM)
    (iBody iVar iEqn : nat) (st : list BODY * list UPDATE)
  : outcome (list BODY * list UPDATE) :=
  let '(body, update) := st in
  '(d, body) ← (((fnUpdate !!! iBody) !!! iVar) !!! iEqn) body system
                 ((iaBody (update !!! iBody) !!! iVar) !!! iEqn);
  Ret (body, store_DerivProc iBody iVar iEqn d update).

Definition EvalEqns (fnUpdate : list (list (list fnUpdateVariable))) (system : SYSTEM)
    (iBody iVar : nat) (st : list BODY * list UPDATE)
  : outcome (list BODY * list UPDATE) :=
  for_loopM (iNumEqns (st.2 !!! iBody) !!! iVar) (EvalEqn fnUpdate system iBody iVar) st.

(** [dVarTotal = 0.; for (iEqn...) dVarTotal += update[iBody].daDerivProc[iVar][iEqn];] *)
Definition SumEqns (update : list UPDATE) (iBody iVar : nat) : Q :=
  for_loop (iNumEqns (update !!! iBody) !!! iVar)
           (fun iEqn dVarTotal => dVarTotal + (daDerivProc (update !!! iBody) !!! iVar) !!! iEqn) 0.

(** [if (dMinNow < dMin) dMin = dMinNow;] *)
Definition lower (dMinNow dMin : Q) : Q :=
  if Qltb dMinNow dMin then dMinNow else dMin.

(** The state [fdGetTimeStep] threads through its loops *)
Record TimeStepState := mkTimeStepState {
  ts_body : list BODY;
  ts_control : CONTROL;
  ts_update : list UPDATE;
  ts_dMin : Q
}.

(** The body of [fdGetTimeStep]'s loop over the variables of a body.
    [integr] is the copy of [control->Evolve] taken on entry. *)
Definition fdGetTimeStep_var (home : pdVarHome) (integr : EVOLVE) (system : SYSTEM)
    (fnUpdate : list (list (list fnUpdateVariable))) (iBody iVar : nat)
    (st : TimeStepState) : outcome TimeStepState :=
  let '(mkTimeStepState body control update dMin) := st in
  let t0 := (iaType (update !!! iBody) !!! iVar) !!! 0%nat in
  if (t0 =? 0)%Z then
    (* explicit function of age *)
    let dVarNow := deref home body update iBody iVar in
    '(body, update) ← EvalEqns fnUpdate system iBody iVar (body, update);
    if truthy (bFirstStep (Evolve control)) then
      Ret (mkTimeStepState body (set_Evolve (set_bFirstStep 0 (Evolve control)) control)
                           update (dTimeStep integr))
    else
      let dVarTotal := SumEqns update iBody iVar in
      if negb (Qeq_bool dVarNow dVarTotal) then
        let dMinNow := Qabs (dVarNow / ((dVarNow - dVarTotal) / dTimeStep integr)) in
        Ret (mkTimeStepState body control update (lower dMinNow dMin))
      else Ret (mkTimeStepState body control update dMin)
  else if (t0 =? 5)%Z then
    (* integrated, but not allowed to dictate the timestep *)
    '(body, update) ← EvalEqns fnUpdate system iBody iVar (body, update);
    Ret (mkTimeStepState body control update dMin)
  else if (t0 =? 10)%Z then
    (* explicit function of time: the time of the next output *)
    let dMinNow := fdNextOutput (dTime (Evolve control)) (dOutputTime (Io control)) in
    Ret (mkTimeStepState body control update (lower dMinNow dMin))
  else if (t0 =? 3)%Z then
    (* explicit function of age, sinusoidal quantity *)
    let dVarNow := deref home body update iBody iVar in
    '(body, update) ← EvalEqns fnUpdate system iBody iVar (body, update);
    if truthy (bFirstStep (Evolve control)) then
      Ret (mkTimeStepState body (set_Evolve (set_bFirstStep 0 (Evolve control)) control)
                           update (dTimeStep integr))
    else
      let dVarTotal := SumEqns update iBody iVar in
      if negb (Qeq_bool dVarNow dVarTotal) then
        let dMinNow := Qabs (1 / ((dVarNow - dVarTotal) / dTimeStep integr)) in
        Ret (mkTimeStepState body control update (lower dMinNow dMin))
      else Ret (mkTimeStepState body control update dMin)
  else
    for_loopM (iNumEqns (update !!! iBody) !!! iVar) (fun iEqn st =>
      let '(mkTimeStepState body control update dMin) := st in
      let t := (iaType (update !!! iBody) !!! iVar) !!! iEqn in
      if (t =? 2)%Z then
        (* polar/sinusoidal quantity controlled by a time derivative *)
        '(body, update) ← EvalEqn fnUpdate system iBody iVar iEqn (body, update);
        let d := (daDerivProc (update !!! iBody) !!! iVar) !!! iEqn in
        if negb (Qeq_bool d 0) then
          let dMinNow :=
            if (Z.of_nat iVar =? iXobl (update !!! iBody))%Z
               || (Z.of_nat iVar =? iYobl (update !!! iBody))%Z
               || (Z.of_nat iVar =? iZobl (update !!! iBody))%Z then
              if negb (Qeq_bool (dbl (body !!! iBody) dObliquity) 0)
              then Qabs (sin (dbl (body !!! iBody) dObliquity) / d)
              else dHUGE
            else if (Z.of_nat iVar =? iHecc (update !!! iBody))%Z
                    || (Z.of_nat iVar =? iKecc (update !!! iBody))%Z then
              if negb (Qeq_bool (dbl (body !!! iBody) dEcc) 0)
              then Qabs (dbl (body !!! iBody) dEcc / d)
              else dHUGE
            else Qabs (1 / d) in
          Ret (mkTimeStepState body control update (lower dMinNow dMin))
        else Ret (mkTimeStepState body control update dMin)
      else if (t =? 9)%Z then
        (* a minimum step size for ice sheets *)
        '(body, update) ← EvalEqn fnUpdate system iBody iVar iEqn (body, update);
        let d := (daDerivProc (update !!! iBody) !!! iVar) !!! iEqn in
        if negb (Qeq_bool d 0) && negb (Qeq_bool (deref home body update iBody iVar) 0) then
          let dMinNow := Qabs (deref home body update iBody iVar / d) in
          if Qltb dMinNow dMin then
            let floor := inject_Z (iMinIceDt (Halt control !!! iBody))
                         * (2 * PI / dbl (body !!! iBody) dMeanMotion)
                         / dEta (Evolve control) in
            if Qltb dMinNow floor
            then Ret (mkTimeStepState body control update floor)
            else Ret (mkTimeStepState body control update dMinNow)
          else Ret (mkTimeStepState body control update dMin)
        else Ret (mkTimeStepState body control update dMin)
      else if (t =? 7)%Z then
        (* SpiNBody timestep *)
        if (bSpiNBodyDistOrb (Evolve control) =? 0)%Z
           || (bUsingSpiNBody (Evolve control) =? 1)%Z then
          '(body, update) ← EvalEqn fnUpdate system iBody iVar iEqn (body, update);
          let b := body !!! iBody in
          let dMinNow :=
            sqrt ((dbl b dPositionX * dbl b dPositionX + dbl b dPositionY * dbl b dPositionY
                   + dbl b dPositionZ * dbl b dPositionZ)
                  / (dbl b dVelX * dbl b dVelX + dbl b dVelY * dbl b dVelY
                     + dbl b dVelZ * dbl b dVelZ)) in
          Ret (mkTimeStepState body control update (lower dMinNow dMin))
        else Ret (mkTimeStepState body control update dMin)
      else
        (* the parameter is controlled by a time derivative *)
        '(body, update) ← EvalEqn fnUpdate system iBody iVar iEqn (body, update);
        let d := (daDerivProc (update !!! iBody) !!! iVar) !!! iEqn in
        if negb (truthy (bFloatComparison d 0))
           && negb (truthy (bFloatComparison (deref home body update iBody iVar) 0)) then
          let dMinNow := Qabs (deref home body update iBody iVar / d) in
          Ret (mkTimeStepState body control update (lower dMinNow dMin))
        else Ret (mkTimeStepState body control update dMin)) st.

(** [fdGetTimeStep]: the smallest timescale, and the bodies, the control
    structure (whose [bFirstStep] it may clear) and the UPDATE array (whose
    [daDerivProc] it fills) as it leaves them *)
Definition fdGetTimeStep (body : list BODY) (home : pdVarHome) (control : CONTROL)
    (system : SYSTEM) (update : list UPDATE)
    (fnUpdate : list (list (list fnUpdateVariable)))
  : outcome (Q * list BODY * CONTROL * list UPDATE) :=
  let integr := Evolve control in
  let dMin := dHUGE in
  st ← for_loopM (iNumBodies (Evolve control)) (fun iBody st =>
          if (0 <? iNumVars (ts_update st !!! iBody))%nat then
            for_loopM (iNumVars (ts_update st !!! iBody))
                      (fdGetTimeStep_var home integr system fnUpdate iBody) st
          else Ret st)
        (mkTimeStepState body control update dMin);
  Ret (ts_dMin st, ts_body st, ts_control st, ts_update st).

(** [fdGetUpdateInfo] *)
Definition fdGetUpdateInfo (body : list BODY) (control : CONTROL) (system : SYSTEM)
    (update : list UPDATE) (fnUpdate : list (list (list fnUpdateVariable)))
  : outcome (list BODY * list UPDATE) :=
  let iNumBodies := iNumBodies (Evolve control) in
  for_loopM iNumBodies (fun iBody st =>
    if (0 <? iNumVars (st.2 !!! iBody))%nat then
      let iNumVars := iNumVars (st.2 !!! iBody) in
      for_loopM iNumVars (fun iVar st => EvalEqns fnUpdate system iBody iVar st) st
    else Ret st) (body, update).

(** ** RungeKutta4Step

    The source function is one body in five commented parts; each part is a
    definition here, and [RungeKutta4Step] runs them in order. *)

(** What a step works on: the bodies, the control structure (with
    [evolve->tmpBody], [evolve->tmpUpdate] and [evolve->daDeriv] inside),
    the UPDATE array, the step [dDt], and what was written to stderr *)
Record StepState := mkStepState {
  st_body : list BODY;
  st_control : CONTROL;
  st_update : list UPDATE;
  st_dDt : Q;
  st_stderr : list string
}.

(** [evolve->daDeriv[k][iBody][iVar] = 0;
     for (iEqn...) evolve->daDeriv[k][iBody][iVar] += iDir*evolve->tmpUpdate[iBody].daDerivProc[iVar][iEqn];] *)
Definition SumDeriv (k : nat) (iDir : Z) (update : list UPDATE) (iBody iVar : nat)
    (evolve : EVOLVE) : EVOLVE :=
  let evolve := store_evolve_daDeriv k iBody iVar 0 evolve in
  let iNumEqns := iNumEqns (update !!! iBody) !!! iVar in
  for_loop iNumEqns (fun iEqn evolve =>
    store_evolve_daDeriv k iBody iVar
      (get3 (evolve_daDeriv evolve) k iBody iVar
       + inject_Z iDir * ((daDerivProc (tmpUpdate evolve !!! iBody) !!! iVar) !!! iEqn))
      evolve) evolve.

(** The loop over bodies and variables that follows each of the first three
    derivative evaluations: it sums the derivatives into
    [evolve->daDeriv[k]] and moves the variables of [evolve->tmpBody];
    [step d] is half the step times [d] for k = 0 and 1, the step times [d]
    for k = 2. *)
Definition AdvanceTmpBody (k : nat) (step : Q -> Q) (iDir : Z) (body : list BODY)
    (update : list UPDATE) (evolve : EVOLVE) : EVOLVE :=
  let iNumBodies := iNumBodies evolve in
  for_loop iNumBodies (fun iBody evolve =>
    let iNumVars := iNumVars (update !!! iBody) in
    for_loop iNumVars (fun iVar evolve =>
      let evolve := SumDeriv k iDir update iBody iVar evolve in
      let d := get3 (evolve_daDeriv evolve) k iBody iVar in
      if is_value_type update iBody iVar then
        (* the VALUE of the variable, contrary to what the names suggest *)
        set_tmpBody (store_d iBody (pdVar (tmpUpdate evolve !!! iBody) !!! iVar) d
                             (tmpBody evolve)) evolve
      else
        set_tmpBody (store_d iBody (pdVar (tmpUpdate evolve !!! iBody) !!! iVar)
                             (dbl (body !!! iBody) (pdVar (update !!! iBody) !!! iVar) + step d)
                             (tmpBody evolve)) evolve) evolve) evolve.

(** The loop of the full-step derivative: nothing is summed for the kinds
    that are assigned *)
Definition SumFullStep (iDir : Z) (update : list UPDATE) (evolve : EVOLVE) : EVOLVE :=
  let iNumBodies := iNumBodies evolve in
  for_loop iNumBodies (fun iBody evolve =>
    let iNumVars := iNumVars (update !!! iBody) in
    for_loop iNumVars (fun iVar evolve =>
      if is_value_type update iBody iVar then
        (* NOTHING! *)
        evolve
      else SumDeriv 3 iDir update iBody iVar evolve) evolve) evolve.

(** The loop that writes the step back to the bodies *)
Definition UpdateVariables (evolve : EVOLVE) (dDt : Q) (body : list BODY)
    (update : list UPDATE) : list BODY * list UPDATE :=
  let iNumBodies := iNumBodies evolve in
  for_loop iNumBodies (fun iBody bu =>
    let iNumVars := iNumVars (bu.2 !!! iBody) in
    for_loop iNumVars (fun iVar bu =>
      let body := bu.1 in
      let update := store_Deriv iBody iVar
        (1 / 6 * (get3 (evolve_daDeriv evolve) 0 iBody iVar
                  + 2 * get3 (evolve_daDeriv evolve) 1 iBody iVar
                  + 2 * get3 (evolve_daDeriv evolve) 2 iBody iVar
                  + get3 (evolve_daDeriv evolve) 3 iBody iVar)) bu.2 in
      if is_value_type update iBody iVar then
        (store_d iBody (pdVar (update !!! iBody) !!! iVar)
                 (get3 (evolve_daDeriv evolve) 0 iBody iVar) body, update)
      else
        (store_d iBody (pdVar (update !!! iBody) !!! iVar)
                 (dbl (body !!! iBody) (pdVar (update !!! iBody) !!! iVar)
                  + daDeriv (update !!! iBody) !!! iVar * dDt) body, update)) bu)
    (body, update).

(** Derivatives at start (the copy of the bodies, [fdGetTimeStep], the
    choice of the step, the move to the midpoint) *)
Definition rk4_start (body : list BODY) (control : CONTROL) (system : SYSTEM)
    (update : list UPDATE) (fnUpdate : list (list (list fnUpdateVariable))) (iDir : Z)
  : outcome StepState :=
  (* Create a copy of BODY array *)
  let control :=
    set_Evolve (set_tmpBody (BodyCopy (tmpBody (Evolve control)) body (Evolve control))
                            (Evolve control)) control in
  '(dDt, body, control, tmpUpdate') ←
    fdGetTimeStep body (InArray (tmpBody (Evolve control))) control system
                  (tmpUpdate (Evolve control)) fnUpdate;
  let evolve := set_tmpUpdate tmpUpdate' (Evolve control) in
  (* Adjust dt? *)
  let dDt :=
    if truthy (bVarDt evolve) then
      let dTimeOut := fdNextOutput (dTime evolve) (dOutputTime (Io control)) in
      AssignDt dDt (dTimeOut - dTime evolve) (dEta evolve)
    else dTimeStep evolve in
  let evolve := set_dCurrentDt dDt evolve in
  let evolve := AdvanceTmpBody 0 (fun d => 0.5 * dDt * d) iDir body update evolve in
  Ret (mkStepState body (set_Evolve evolve control) update dDt []).

(** First and second midpoint derivative: [PropertiesAuxiliary] and
    [fdGetUpdateInfo] on [evolve->tmpBody], then the move of the variables *)
Definition rk4_midpoint (k : nat) (step : Q -> Q) (system : SYSTEM)
    (fnUpdate : list (list (list fnUpdateVariable))) (iDir : Z) (st : StepState)
  : outcome StepState :=
  let '(mkStepState body control update dDt stderr) := st in
  let '(tmpBody', msg) := PropertiesAuxiliary (tmpBody (Evolve control)) control update in
  let control := set_Evolve (set_tmpBody tmpBody' (Evolve control)) control in
  '(tmpBody', tmpUpdate') ←
    fdGetUpdateInfo (tmpBody (Evolve control)) control system (tmpUpdate (Evolve control))
                    fnUpdate;
  let evolve := set_tmpUpdate tmpUpdate' (set_tmpBody tmpBody' (Evolve control)) in
  let evolve := AdvanceTmpBody k step iDir body update evolve in
  Ret (mkStepState body (set_Evolve evolve control) update dDt (stderr ++ msg)).

(** Full step derivative *)
Definition rk4_fullstep (system : SYSTEM)
    (fnUpdate : list (list (list fnUpdateVariable))) (iDir : Z) (st : StepState)
  : outcome StepState :=
  let '(mkStepState body control update dDt stderr) := st in
  let '(tmpBody', msg) := PropertiesAuxiliary (tmpBody (Evolve control)) control update in
  let control := set_Evolve (set_tmpBody tmpBody' (Evolve control)) control in
  '(tmpBody', tmpUpdate') ←
    fdGetUpdateInfo (tmpBody (Evolve control)) control system (tmpUpdate (Evolve control))
                    fnUpdate;
  let evolve := set_tmpUpdate tmpUpdate' (set_tmpBody tmpBody' (Evolve control)) in
  let evolve := SumFullStep iDir update evolve in
  Ret (mkStepState body (set_Evolve evolve control) update dDt (stderr ++ msg)).

(** Now do the update *)
Definition rk4_update (st : StepState) : StepState :=
  let '(mkStepState body control update dDt stderr) := st in
  let bu := UpdateVariables (Evolve control) dDt body update in
  mkStepState bu.1 control bu.2 dDt stderr.

(** [RungeKutta4Step] *)
Definition RungeKutta4Step (body : list BODY) (control : CONTROL) (system : SYSTEM)
    (update : list UPDATE) (fnUpdate : list (list (list fnUpdateVariable))) (iDir : Z)
  : outcome StepState :=
  st ← rk4_start body control system update fnUpdate iDir;
  st ← rk4_midpoint 1 (fun d => 0.5 * st_dDt st * d) system fnUpdate iDir st;
  st ← rk4_midpoint 2 (fun d => st_dDt st * d) system fnUpdate iDir st;
  st ← rk4_fullstep system fnUpdate iDir st;
  Ret (rk4_update st).

(** [EulerStep]; [dDt] is the value the caller's variable holds on entry,
    which the function keeps when the timestep is fixed *)
Definition EulerStep (body : list BODY) (control : CONTROL) (system : SYSTEM)
    (update : list UPDATE) (fnUpdate : list (list (list fnUpdateVariable)))
    (dDt : Q) (iDir : Z) : outcome StepState :=
  '(dDt, body, control, update) ←
    (* Adjust dt? *)
    (if truthy (bVarDt (Evolve control)) then
       let dTimeOut := fdNextOutput (dTime (Evolve control)) (dOutputTime (Io control)) in
       '(dDt, body, control, update) ←
         fdGetTimeStep body InBodyArgument control system update fnUpdate;
       Ret (AssignDt dDt (dTimeOut - dTime (Evolve control)) (dEta (Evolve control)),
            body, control, update)
     else Ret (dDt, body, control, update));
  let body :=
    for_loop (iNumBodies (Evolve control)) (fun iBody body =>
      for_loop (iNumVars (update !!! iBody)) (fun iVar body =>
        for_loop (iNumEqns (update !!! iBody) !!! iVar) (fun iEqn body =>
          let pd := pdVar (update !!! iBody) !!! iVar in
          let d := (daDerivProc (update !!! iBody) !!! iVar) !!! iEqn in
          if ((iaType (update !!! iBody) !!! iVar) !!! iEqn =? 0)%Z then
            store_d iBody pd d body
          else
            store_d iBody pd (dbl (body !!! iBody) pd + inject_Z iDir * d * dDt) body)
          body) body) body in
  Ret (mkStepState body control update dDt []).

End Evolve.

(** * More of atmesc.c and stellar.c *)

(** What these functions take from the headers and from [body.c],
    [output.c] and [update.c], besides the fields of [VplanetH]:
    [iEnvelopeMass u] is the member [iEnvelopeMass] of an UPDATE, the row
    of the envelope mass in the matrix; [fprintd x io] is the text that
    [fprintd(stdout,x,io->iSciNot,io->iDigits)] writes. *)
Class VplanetH_more `{VplanetH} := {
  VERBPROG : Z;
  TOMASS : Q;
  YEARDAY : Q;
  ALPHA_STRUCT : Q;
  fprintd : Q -> IO -> string;
  iEnvelopeMass : UPDATE -> nat;
  fndUpdateFunctionTiny : list BODY -> SYSTEM -> list nat -> outcome (Q * list BODY);
  fdMassToRad_Sotin07 : Q -> Q;
  fdLopezRadius : Q -> Q -> Q -> Q -> Z -> option Q;
  fdProximaCenBRadius : Q -> Q -> Q -> Q
}.

Definition set_iPlanetRadiusModel (v : PlanetRadiusModel) (b : BODY) : BODY :=
  mkBODY (dbl b) (int b) (cName b)
         v (iWaterLossModel b) (iAtmXAbsEffH2OModel b)
         (iWaterEscapeRegime b) (iStellarModel b) (iXUVModel b).

Definition set_iWaterLossModel (v : WaterLossModel) (b : BODY) : BODY :=
  mkBODY (dbl b) (int b) (cName b)
         (iPlanetRadiusModel b) v (iAtmXAbsEffH2OModel b)
         (iWaterEscapeRegime b) (iStellarModel b) (iXUVModel b).

Definition set_iAtmXAbsEffH2OModel (v : AtmXAbsEffH2OModel) (b : BODY) : BODY :=
  mkBODY (dbl b) (int b) (cName b)
         (iPlanetRadiusModel b) (iWaterLossModel b) v
         (iWaterEscapeRegime b) (iStellarModel b) (iXUVModel b).

(** [dest[iBody].f = src[iBody].f;] *)
Definition copy_d (f : dfield) (iBody : nat) (src dest : list BODY) : list BODY :=
  store_d iBody f (dbl (src !!! iBody) f) dest.
Definition copy_i (f : ifield) (iBody : nat) (src dest : list BODY) : list BODY :=
  store_i iBody f (int (src !!! iBody) f) dest.

(** [BodyCopyAtmEsc]: the array [dest] afterwards *)
Definition BodyCopyAtmEsc (dest src : list BODY) (foo : Z) (iNumBodies : nat)
    (iBody : nat) : list BODY :=
  let dest := copy_d dSurfaceWaterMass iBody src dest in
  let dest := copy_d dOxygenMass iBody src dest in
  let dest := copy_d dOxygenMantleMass iBody src dest in
  let dest := copy_d dEnvelopeMass iBody src dest in
  let dest := copy_d dXFrac iBody src dest in
  let dest := copy_d dAtmXAbsEffH iBody src dest in
  let dest := copy_d dAtmXAbsEffH2O iBody src dest in
  let dest := copy_d dMinSurfaceWaterMass iBody src dest in
  let dest := copy_d dMinEnvelopeMass iBody src dest in
  let dest := alter (set_iWaterLossModel (iWaterLossModel (src !!! iBody))) iBody dest in
  let dest := alter (set_iAtmXAbsEffH2OModel (iAtmXAbsEffH2OModel (src !!! iBody)))
                    iBody dest in
  let dest := copy_d dKTide iBody src dest in
  let dest := copy_d dMDotWater iBody src dest in
  let dest := copy_d dFHRef iBody src dest in
  let dest := copy_d dOxygenEta iBody src dest in
  let dest := copy_d dCrossoverMass iBody src dest in
  let dest := copy_i bRunaway iBody src dest in
  let dest := alter (set_iWaterEscapeRegime (iWaterEscapeRegime (src !!! iBody)))
                    iBody dest in
  let dest := copy_d dFHDiffLim iBody src dest in
  let dest := alter (set_iPlanetRadiusModel (iPlanetRadiusModel (src !!! iBody)))
                    iBody dest in
  let dest := copy_i bInstantO2Sink iBody src dest in
  let dest := copy_d dRGDuration iBody src dest in
  let dest := copy_d dRadXUV iBody src dest in
  let dest := copy_d dRadSolid iBody src dest in
  let dest := copy_d dPresXUV iBody src dest in
  let dest := copy_d dScaleHeight iBody src dest in
  let dest := copy_d dThermTemp iBody src dest in
  let dest := copy_d dFlowTemp iBody src dest in
  let dest := copy_d dAtmGasConst iBody src dest in
  let dest := copy_d dFXUV iBody src dest in
  let dest := copy_i bCalcFXUV iBody src dest in
  let dest := copy_d dJeansTime iBody src dest in
  let dest := copy_i bRocheMessage iBody src dest in
  dest.

Section AtmEscMore.
Context `{Libm} `{PhysConst} `{VplanetH_more}.

(** [fnForceBehaviorAtmEsc]: the bodies and the matrix afterwards, and what
    the call wrote to stdout.  The argument [module], which the function
    does not read, is left out. *)
Definition fnForceBehaviorAtmEsc (body : list BODY) (evolve : EVOLVE) (io : IO)
    (system : SYSTEM) (update : list UPDATE)
    (fnUpdate : list (list (list fnUpdateVariable))) (iBody iModule : nat)
  : list BODY * list (list (list fnUpdateVariable)) * list string :=
  let body :=
    if Qleb (dbl (body !!! iBody) dSurfaceWaterMass)
            (dbl (body !!! iBody) dMinSurfaceWaterMass)
       && Qltb 0 (dbl (body !!! iBody) dSurfaceWaterMass)
    then
      (* Let's desiccate this planet. *)
      store_d iBody dSurfaceWaterMass 0 body
    else body in
  if Qleb (dbl (body !!! iBody) dEnvelopeMass) (dbl (body !!! iBody) dMinEnvelopeMass)
     && Qltb 0 (dbl (body !!! iBody) dEnvelopeMass)
  then
    (* Let's remove its envelope and prevent further evolution. *)
    let body := store_d iBody dEnvelopeMass 0 body in
    let fnUpdate :=
      alter (alter (fun eqns => <[0%nat := fndUpdateFunctionTiny]> eqns)
                   (iEnvelopeMass (update !!! iBody))) iBody fnUpdate in
    (* If using Lopez+2012 radius model, set radius to Sotin+2007 radius *)
    if decide (iPlanetRadiusModel (body !!! iBody) = ATMESC_LOP12) then
      let '(body, stdout) :=
        if (VERBPROG <=? iVerbose io)%Z
           && negb (truthy (int (body !!! iBody) bEnvelopeLostMessage))
        then
          (store_i iBody bEnvelopeLostMessage 1 body,
           [(cName (body !!! iBody)
             ++ "'s envelope removed. Used Lopez+12 radius models for envelope, switching to Sotin+2007 model for solid planet radius."
             ++ nl)%string])
        else (body, []) in
      (* Update radius *)
      let body := store_d iBody dRadius
                          (fdMassToRad_Sotin07 (dbl (body !!! iBody) dMass)) body in
      (body, fnUpdate, stdout)
    else (body, fnUpdate, [])
  else (body, fnUpdate, []).

(** [fbHaltSurfaceDesiccated]: the flag and what the call wrote to stdout *)
Definition fbHaltSurfaceDesiccated (body : list BODY) (evolve : EVOLVE) (halt : list HALT)
    (io : IO) (update : list UPDATE) (iBody : nat) : Z * list string :=
  if Qleb (dbl (body !!! iBody) dSurfaceWaterMass)
          (dbl (body !!! iBody) dMinSurfaceWaterMass) then
    (1%Z,
     if (VERBPROG <=? iVerbose io)%Z then
       [("HALT: " ++ cName (body !!! iBody) ++ "'s surface water mass =  ")%string;
        fprintd (dbl (body !!! iBody) dSurfaceWaterMass / TOMASS) io;
        ("TO." ++ nl)%string]
     else [])
  else (0%Z, []).

(** [fbHaltEnvelopeGone] *)
Definition fbHaltEnvelopeGone (body : list BODY) (evolve : EVOLVE) (halt : list HALT)
    (io : IO) (update : list UPDATE) (iBody : nat) : Z * list string :=
  if Qleb (dbl (body !!! iBody) dEnvelopeMass)
          (dbl (body !!! iBody) dMinEnvelopeMass) then
    (1%Z,
     if (VERBPROG <=? iVerbose io)%Z then
       [("HALT: " ++ cName (body !!! iBody) ++ "'s envelope mass =  ")%string;
        fprintd (dbl (body !!! iBody) dEnvelopeMass / MEARTH) io;
        ("Earth Masses." ++ nl)%string]
     else [])
  else (0%Z, []).

(** [fdPlanetRadius]: the radius and the bodies, whose [dPresSurf] and
    [dRadXUV] the function sets under the model of Lehmer and Catling *)
Definition fdPlanetRadius (body : list BODY) (system : SYSTEM) (iaBody : list nat)
  : Q * list BODY :=
  let i := iaBody !!! 0%nat in
  let body :=
    if decide (iPlanetRadiusModel (body !!! i) = ATMESC_LEHMER17) then
      let body := store_d i dPresSurf
        (fdLehmerPres (dbl (body !!! i) dEnvelopeMass) (dbl (body !!! i) dGravAccel)
                      (dbl (body !!! i) dRadSolid)) body in
      store_d i dRadXUV
        (fdLehmerRadius (dbl (body !!! i) dRadSolid) (dbl (body !!! i) dPresXUV)
                        (dbl (body !!! i) dScaleHeight) (dbl (body !!! i) dPresSurf)) body
    else body in
  if decide (iPlanetRadiusModel (body !!! i) = ATMESC_LOP12) then
    let foo :=
      (* If no envelope, return solid body radius according to Sotin+2007 model *)
      if Qleb (dbl (body !!! i) dEnvelopeMass) (dbl (body !!! i) dMinEnvelopeMass) then
        Some (fdMassToRad_Sotin07 (dbl (body !!! i) dMass))
      else
        (* Envelope present: estimate planetary radius using Lopez models *)
        fdLopezRadius (dbl (body !!! i) dMass)
                      (dbl (body !!! i) dEnvelopeMass / dbl (body !!! i) dMass) 1
                      (dbl (body !!! i) dAge) 0 in
    match foo with
    | Some foo => (foo, body)
    | None => (dbl (body !!! i) dRadius, body)
    end
  else if decide (iPlanetRadiusModel (body !!! i) = ATMESC_PROXCENB) then
    (fdProximaCenBRadius (dbl (body !!! i) dEnvelopeMass / dbl (body !!! i) dMass)
                         (dbl (body !!! i) dAge) (dbl (body !!! i) dMass), body)
  else (dbl (body !!! i) dRadius, body).

End AtmEscMore.

(** Arithmetic on doubles that may be NaN: a NaN operand gives NaN *)
Definition nan1 (f : Q -> Q) (x : option Q) : option Q :=
  match x with
  | Some a => Some (f a)
  | None => None
  end.

Definition nan2 (f : Q -> Q -> Q) (x y : option Q) : option Q :=
  match x, y with
  | Some a, Some b => Some (f a b)
  | _, _ => None
  end.

Section StellarMore.
Context `{Libm} `{PhysConst} `{VplanetH_more}.

(** [fdDRadiusDtStellar] *)
Definition fdDRadiusDtStellar (body : list BODY) (system : SYSTEM) (iaBody : list nat)
  : outcome (option Q) :=
  let i := iaBody !!! 0%nat in
  if negb (bool_decide (iStellarModel (body !!! i) = STELLAR_MODEL_BARAFFE)) then
    Ret (Some dTINY)
  else
    (* Delta t = 10 years since 10 yr << typical stellar evolution timescales *)
    let eps := 10 * YEARDAY * DAYSEC in
    dRadMinus ← fdRadiusFunctionBaraffe (dbl (body !!! i) dAge - eps) (dbl (body !!! i) dMass);
    dRadPlus ← fdRadiusFunctionBaraffe (dbl (body !!! i) dAge + eps) (dbl (body !!! i) dMass);
    Ret (nan2 (fun dRadPlus dRadMinus => (dRadPlus - dRadMinus) / (2 * eps))
              dRadPlus dRadMinus).

(** [fdDRadGyraDtStellar] *)
Definition fdDRadGyraDtStellar (body : list BODY) (system : SYSTEM) (iaBody : list nat)
  : outcome (option Q) :=
  let i := iaBody !!! 0%nat in
  if negb (bool_decide (iStellarModel (body !!! i) = STELLAR_MODEL_BARAFFE))
     || negb (truthy (int (body !!! i) bEvolveRG)) then
    Ret (Some dTINY)
  else
    let eps := 10 * YEARDAY * DAYSEC in
    dRGMinus ← fdRadGyraFunctionBaraffe (dbl (body !!! i) dAge - eps) (dbl (body !!! i) dMass);
    dRGPlus ← fdRadGyraFunctionBaraffe (dbl (body !!! i) dAge + eps) (dbl (body !!! i) dMass);
    Ret (nan2 (fun dRGPlus dRGMinus => (dRGPlus - dRGMinus) / (2 * eps)) dRGPlus dRGMinus).

(** [fdDEDtPotConStellar] *)
Definition fdDEDtPotConStellar (body : list BODY) (system : SYSTEM) (iaBody : list nat)
  : outcome (option Q) :=
  let iBody := iaBody !!! 0%nat in
  dDRadiusDt ← fdDRadiusDtStellar body system iaBody;
  Ret (nan1 (fun dDRadiusDt =>
         let dEdt := ALPHA_STRUCT * BIGG * dbl (body !!! iBody) dMass
                     * dbl (body !!! iBody) dMass * dDRadiusDt
                     / (dbl (body !!! iBody) dRadius * dbl (body !!! iBody) dRadius) in
         - dEdt) dDRadiusDt).

(** [fdDEDtRotConStellar] *)
Definition fdDEDtRotConStellar (body : list BODY) (system : SYSTEM) (iaBody : list nat)
  : outcome (option Q) :=
  let iBody := iaBody !!! 0%nat in
  dDRadiusDt ← fdDRadiusDtStellar body system iaBody;
  Ret (nan1 (fun dDRadiusDt =>
         let dEdt := - dbl (body !!! iBody) dMass * dbl (body !!! iBody) dRadGyra
                     * dbl (body !!! iBody) dRadGyra * dbl (body !!! iBody) dRadius
                     * dDRadiusDt * dbl (body !!! iBody) dRotRate
                     * dbl (body !!! iBody) dRotRate in
         - dEdt) dDRadiusDt).

(** [fdDEDtRotRadGyraStellar] *)
Definition fdDEDtRotRadGyraStellar (body : list BODY) (system : SYSTEM)
    (iaBody : list nat) : outcome (option Q) :=
  let iBody := iaBody !!! 0%nat in
  dDRGDt ← fdDRadGyraDtStellar body system iaBody;
  Ret (nan1 (fun dDRGDt =>
         let dEdt := - dbl (body !!! iBody) dMass * dbl (body !!! iBody) dRadGyra
                     * dbl (body !!! iBody) dRadius * dbl (body !!! iBody) dRadius
                     * dDRGDt * dbl (body !!! iBody) dRotRate
                     * dbl (body !!! iBody) dRotRate in
         - dEdt) dDRGDt).

(** [fdDRotRateDtRadGyra] *)
Definition fdDRotRateDtRadGyra (body : list BODY) (system : SYSTEM) (iaBody : list nat)
  : outcome (option Q) :=
  let i := iaBody !!! 0%nat in
  if negb (bool_decide (iStellarModel (body !!! i) = STELLAR_MODEL_BARAFFE)) then
    Ret (Some dTINY)
  else
    dDRGDt ← fdDRadGyraDtStellar body system iaBody;
    Ret (nan1 (fun dDRGDt =>
           -2 * dDRGDt * dbl (body !!! i) dRotRate / dbl (body !!! i) dRadGyra) dDRGDt).

(** [fdDRotRateDtCon] *)
Definition fdDRotRateDtCon (body : list BODY) (system : SYSTEM) (iaBody : list nat)
  : outcome (option Q) :=
  let i := iaBody !!! 0%nat in
  if negb (bool_decide (iStellarModel (body !!! i) = STELLAR_MODEL_BARAFFE)) then
    Ret (Some dTINY)
  else
    dDRadiusDt ← fdDRadiusDtStellar body system iaBody;
    Ret (nan1 (fun dDRadiusDt =>
           -2 * dDRadiusDt * dbl (body !!! i) dRotRate / dbl (body !!! i) dRadius)
              dDRadiusDt).

End StellarMore.

(** The four value functions of a star, each with the member it falls
    back on *)
Definition stellar_values `{Libm} `{PhysConst} `{VplanetH}
  : list (dfield * (list BODY -> SYSTEM -> list nat -> outcome (Q * list BODY))) :=
  [(dLuminosity, fdLuminosity); (dRadius, fdRadius);
   (dTemperature, fdTemperature); (dRadGyra, fdRadGyra)].

(** * The vocabulary of the statements *)

(** ** The scratch arrays of the integrator *)

(** [d] has room for [evolve->daDeriv[k][iBody][iVar]], [k < 4] *)
Definition has_room (nb : nat) (nv : nat -> nat) (d : list (list (list Q))) : Prop :=
  forall k i, (k < 4)%nat -> (i < nb)%nat ->
    (k < length d)%nat /\ (i < length (d !!! k))%nat /\ (nv i <= length ((d !!! k) !!! i))%nat.

(** What [UpdateVariables] needs of the arrays: every body and UPDATE
    exists, every variable has its slot in [daDeriv], and the variables of
    a body live in distinct members *)
Definition update_ready (nb : nat) (body : list BODY) (update : list UPDATE) : Prop :=
  (nb <= length body)%nat /\ (nb <= length update)%nat
  /\ forall i, (i < nb)%nat ->
       (iNumVars (update !!! i) <= length (daDeriv (update !!! i)))%nat
       /\ (iNumVars (update !!! i) <= length (pdVar (update !!! i)))%nat
       /\ NoDup (pdVar (update !!! i)).

Definition nvars (update : list UPDATE) (i : nat) : nat := iNumVars (update !!! i).

(** ** The sums of derivatives *)

(** What the loop
    [for (iEqn...) evolve->daDeriv[k][iBody][iVar] += iDir*evolve->tmpUpdate[iBody].daDerivProc[iVar][iEqn];]
    adds up, from 0 *)
Definition DirSum (iDir : Z) (row : list Q) (n : nat) : Q :=
  for_loop n (fun iEqn acc => acc + inject_Z iDir * row !!! iEqn) 0.

(** [update[i].daDerivProc[v]] *)
Definition row (update : list UPDATE) (i v : nat) : list Q := daDerivProc (update !!! i) !!! v.

(** The sum, weighted by the direction of integration, of the scratch
    values that the state's [evolve->tmpUpdate] holds for a variable *)
Definition StageSum (iDir : Z) (update : list UPDATE) (s : StepState) (i v : nat) : Q :=
  DirSum iDir (row (tmpUpdate (Evolve (st_control s))) i v) (iNumEqns (update !!! i) !!! v).

(** The step that the integrators choose, from the smallest timescale [dMin] *)
Definition ChooseDt (control : CONTROL) (dMin : Q) : Q :=
  if truthy (bVarDt (Evolve control)) then
    AssignDt dMin
             (fdNextOutput (dTime (Evolve control)) (dOutputTime (Io control))
              - dTime (Evolve control))
             (dEta (Evolve control))
  else dTimeStep (Evolve control).

(** ** Auxiliary-properties hooks and ages *)

(** A hook that leaves the shape of the array and every age as they are *)
Definition keeps_ages (f : fnPropsAuxModule) : Prop :=
  forall body evolve io update iBody,
    length (f body evolve io update iBody).1 = length body
    /\ forall j, dbl ((f body evolve io update iBody).1 !!! j) dAge = dbl (body !!! j) dAge.

(** * Relations between the states of a run *)

(** [y] has the shape of [x] and the age of body 0 that [x] has, and every
    body that had this age in [x] has it in [y] *)
Definition ages_settle (x y : list BODY) : Prop :=
  length y = length x
  /\ dbl (y !!! 0%nat) dAge = dbl (x !!! 0%nat) dAge
  /\ forall j, dbl (x !!! j) dAge = dbl (x !!! 0%nat) dAge ->
               dbl (y !!! j) dAge = dbl (x !!! 0%nat) dAge.

(** [Inv base i P x]: the array [x] has the shape of [base], agrees with it
    away from index [i], and its body [i] satisfies [P]. *)
Definition Inv (base : list BODY) (i : nat) (P : BODY -> Prop) (x : list BODY) : Prop :=
  length x = length base /\ (forall j, j <> i -> x !!! j = base !!! j) /\ P (x !!! i).

(** [holds I Post e]: the postcondition of an expression that is stepped
    through under the invariant [I] *)
Definition holds (I : list BODY -> Prop) {A : Type} (Post : A -> Prop) (e : A) : Prop :=
  Post e.

(** [e'] is [e] but for [evolve->daDeriv] and [evolve->tmpBody] *)
Definition scratch_only (e e' : EVOLVE) : Prop :=
  e' = set_tmpBody (tmpBody e') (set_evolve_daDeriv (evolve_daDeriv e') e).

(** [u'] is [u] but for [daDeriv], whose length is kept *)
Definition deriv_only (u u' : UPDATE) : Prop :=
  u' = set_daDeriv (daDeriv u') u /\ length (daDeriv u') = length (daDeriv u).

Definition derivs_only (update update' : list UPDATE) : Prop :=
  length update' = length update
  /\ forall i, deriv_only (update !!! i) (update' !!! i).

(** [update'] is [update] but for the [daDerivProc] of its elements *)
Definition procs_only (update update' : list UPDATE) : Prop :=
  length update' = length update
  /\ forall i, update' !!! i = set_daDerivProc (daDerivProc (update' !!! i)) (update !!! i).

(** [c'] is [c] but for [Evolve.bFirstStep] *)
Definition first_only (c c' : CONTROL) : Prop :=
  c' = set_Evolve (set_bFirstStep (bFirstStep (Evolve c')) (Evolve c)) c.

(** One variable's turn in [fdGetTimeStep] *)
Definition ts_frame (i v : nat) (st st' : TimeStepState) : Prop :=
  procs_only (ts_update st) (ts_update st')
  /\ first_only (ts_control st) (ts_control st')
  /\ forall i' v', (i', v') <> (i, v) ->
       row (ts_update st') i' v' = row (ts_update st) i' v'.

(** What a stage of [RungeKutta4Step] leaves behind *)
Record stage_ok (k : nat) (iDir : Z) (nb : nat) (s s' : StepState) : Prop := {
  stage_body : st_body s' = st_body s;
  stage_update : st_update s' = st_update s;
  stage_dDt : st_dDt s' = st_dDt s;
  stage_nb : iNumBodies (Evolve (st_control s')) = nb;
  stage_room : has_room nb (nvars (st_update s)) (evolve_daDeriv (Evolve (st_control s')));
  stage_other : forall k' i v, k' <> k ->
    get3 (evolve_daDeriv (Evolve (st_control s'))) k' i v
    = get3 (evolve_daDeriv (Evolve (st_control s))) k' i v;
  stage_sum : forall i v, (i < nb)%nat -> (v < nvars (st_update s) i)%nat ->
    get3 (evolve_daDeriv (Evolve (st_control s'))) k i v
    = StageSum iDir (st_update s) s' i v
}.

(** ** More vocabulary

    Names for what the further properties say about a body, a function of
    the matrix, and the scratch slots of a variable. *)

(** What keeps water from escaping, read on one body *)
Definition water_held (b : BODY) : Prop :=
  0 < dbl b dEnvelopeMass \/ dbl b dSurfaceWaterMass <= 0 \/ dbl b dJeansTime < dbl b dAge.

(** The warning of [fnPropsAuxAtmEsc] *)
Definition RocheWarning (cName : string) : string :=
  ("WARNING: Roche lobe radius is larger than XUV radius for "
   ++ cName ++ ", evolution may not be accurate." ++ nl)%string.

(** The message of the fatal branch for a lookup below the grid *)
Definition BaraffeLow : string := "ERROR: Out of bounds (low) in fdBaraffe()." ++ nl.

(** The moment of inertia [M rg^2 R^2] of a body, and its rate of change
    when the radius and the radius of gyration change at the rates [dR]
    and [dRG] *)
Definition MomIn (b : BODY) : Q :=
  dbl b dMass * dbl b dRadGyra * dbl b dRadGyra * dbl b dRadius * dbl b dRadius.

Definition DMomInDt (b : BODY) (dR dRG : Q) : Q :=
  2 * dbl b dMass * dbl b dRadGyra * dbl b dRadGyra * dbl b dRadius * dR
  + 2 * dbl b dMass * dbl b dRadGyra * dRG * dbl b dRadius * dbl b dRadius.

(** What the loop over the equations of a variable in [EulerStep] makes
    of the value [x]: an equation tagged 0 assigns its scratch value, any
    other adds the scratch value times the step *)
Definition EulerVar (iDir : Z) (dDt : Q) (u : UPDATE) (v : nat) (x : Q) : Q :=
  for_loop (iNumEqns u !!! v) (fun e x =>
    if ((iaType u !!! v) !!! e =? 0)%Z then (daDerivProc u !!! v) !!! e
    else x + inject_Z iDir * ((daDerivProc u !!! v) !!! e) * dDt) x.

(** What [UpdateCopy] has made of [evolve->tmpUpdate] for the variable
    [v] of body [i]: the counts and kinds of [update], and a scratch slot
    for each equation *)
Definition copied (update tmp : list UPDATE) (i v : nat) : Prop :=
  iNumVars (tmp !!! i) = iNumVars (update !!! i)
  /\ iNumEqns (tmp !!! i) !!! v = iNumEqns (update !!! i) !!! v
  /\ iaType (tmp !!! i) !!! v = iaType (update !!! i) !!! v
  /\ (iNumEqns (update !!! i) !!! v <= length (row tmp i v))%nat.

(** The first [ne] scratch slots of the variable [v0] of body [i0] hold
    the values [c] *)
Definition filled (i0 v0 : nat) (c : list Q) (ne : nat) (update : list UPDATE) : Prop :=
  forall e, (e < ne)%nat -> row update i0 v0 !!! e = c !!! e.

(** [update'] is [update] but for scratch values, and the variable has as
    many scratch slots as before *)
Definition scratch_kept (i0 v0 : nat) (update update' : list UPDATE) : Prop :=
  procs_only update update'
  /\ length (row update' i0 v0) = length (row update i0 v0).

(** What the evaluations of a step need of [evolve->tmpUpdate] *)
Definition fillable (i0 v0 : nat) (ne : nat) (tmp : list UPDATE) : Prop :=
  (v0 < iNumVars (tmp !!! i0))%nat
  /\ iNumEqns (tmp !!! i0) !!! v0 = ne
  /\ (ne <= length (row tmp i0 v0))%nat.

(** No equation of the matrix is tagged 9 *)
Definition no_ice_sheets (nb : nat) (update : list UPDATE) : Prop :=
  forall i v e, (i < nb)%nat -> (v < iNumVars (update !!! i))%nat ->
    (e < iNumEqns (update !!! i) !!! v)%nat ->
    (iaType (update !!! i) !!! v) !!! e <> 9%Z.

(** No variable of the matrix is tagged 0 or 3 *)
Definition no_explicit (nb : nat) (update : list UPDATE) : Prop :=
  forall i v, (i < nb)%nat -> (v < iNumVars (update !!! i))%nat ->
    (iaType (update !!! i) !!! v) !!! 0%nat <> 0%Z
    /\ (iaType (update !!! i) !!! v) !!! 0%nat <> 3%Z.

Section MatrixVocabulary.
Context `{Libm} `{PhysConst} `{VplanetH}.

(** A function of the matrix that returns [c] whenever it returns *)
Definition returns_constant (f : fnUpdateVariable) (c : Q) : Prop :=
  forall body system iaBody d body', f body system iaBody = Ret (d, body') -> d = c.

(** A function of the matrix that returns the bodies as it received them *)
Definition keeps_bodies (f : fnUpdateVariable) : Prop :=
  forall body system iaBody d body', f body system iaBody = Ret (d, body') -> body' = body.

Definition matrix_keeps_bodies (fnUpdate : list (list (list fnUpdateVariable))) : Prop :=
  forall i v e, keeps_bodies (((fnUpdate !!! i) !!! v) !!! e).

(** [dMin] is at most the timescale [|x / d|] of the equation [e0] of the
    variable [v0] of body [i0], for the value [x] of the variable and the
    scratch value [d] in [u], when [bFloatComparison] finds neither zero *)
Definition resolves (home : pdVarHome) (body : list BODY) (update : list UPDATE)
    (i0 v0 e0 : nat) (dMin : Q) (u : list UPDATE) : Prop :=
  let d := row u i0 v0 !!! e0 in
  let x := deref home body update i0 v0 in
  truthy (bFloatComparison d 0) = false ->
  truthy (bFloatComparison x 0) = false ->
  dMin <= Qabs (x / d).

End MatrixVocabulary.

(** A state of [fdGetTimeStep] on its way: the bodies are those it began
    with, the UPDATE array differs in scratch values only, the control
    structure in [bFirstStep] only; and the first-step branch can no more
    be taken *)
Definition running (body : list BODY) (update : list UPDATE) (nb : nat)
    (control : CONTROL) (s : TimeStepState) : Prop :=
  procs_only update (ts_update s)
  /\ ts_body s = body
  /\ first_only control (ts_control s)
  /\ (truthy (bFirstStep (Evolve (ts_control s))) = false \/ no_explicit nb update).

(** The members that [InitializeUpdateAtmEsc] and [InitializeUpdateStellar]
    put in the matrix *)
Definition matrix_members : list dfield :=
  [dSurfaceWaterMass; dOxygenMass; dOxygenMantleMass; dEnvelopeMass; dMass; dRadius;
   dLuminosity; dRadGyra; dRotRate; dTemperature; dLostAngMom; dLostEng].

(** A hook that leaves the shape of the array and the members [F] of every
    body as they are *)
Definition keeps_members (F : list dfield) (f : fnPropsAuxModule) : Prop :=
  forall body evolve io update iBody,
    length (f body evolve io update iBody).1 = length body
    /\ forall j g, In g F ->
         dbl ((f body evolve io update iBody).1 !!! j) g = dbl (body !!! j) g.

(** ** The evaluations of a step

    [RungeKutta4Step] evaluates the functions of the matrix four times:
    [fdGetTimeStep] does it on the bodies at the start of the step, and
    [fdGetUpdateInfo] three times on [evolve->tmpBody].  These definitions
    say what a scratch slot holds after an evaluation, and where the
    variables are in [evolve->tmpBody]. *)

(** Whether [fdGetTimeStep] calls the contributor [e] of the variable [v]
    of body [i]: it calls none for a variable tagged 10 and all of them
    for a variable tagged 0, 5 or 3; for any other variable it calls the
    contributor of every equation, but of one tagged 7 only when
    [bSpiNBodyDistOrb] is 0 or [bUsingSpiNBody] is 1 *)
Definition called_at_start (evolve : EVOLVE) (update : list UPDATE) (i v e : nat) : bool :=
  let t0 := (iaType (update !!! i) !!! v) !!! 0%nat in
  let t := (iaType (update !!! i) !!! v) !!! e in
  if (t0 =? 10)%Z then false
  else if (t0 =? 0)%Z || (t0 =? 5)%Z || (t0 =? 3)%Z then true
  else if (t =? 7)%Z then (bSpiNBodyDistOrb evolve =? 0)%Z || (bUsingSpiNBody evolve =? 1)%Z
  else true.

(** What [UpdateCopy] has made of [evolve->tmpUpdate]: the variables of a
    body are the members that they are in [update], and each of them is
    [copied] *)
Definition tmp_ready (nb : nat) (update tmp : list UPDATE) : Prop :=
  forall i, (i < nb)%nat ->
    pdVar (tmp !!! i) = pdVar (update !!! i)
    /\ forall v, (v < iNumVars (update !!! i))%nat -> copied update tmp i v.

(** What the moves of the variables in [evolve->tmpBody] need: every
    variable of a body has its member, and the members are distinct *)
Definition movable (nb : nat) (update tmp : list UPDATE) : Prop :=
  forall i, (i < nb)%nat ->
    (iNumVars (update !!! i) <= length (pdVar (tmp !!! i)))%nat
    /\ NoDup (pdVar (tmp !!! i)).

Section SubEvaluations.
Context `{Libm} `{PhysConst} `{VplanetH}.

(** [R] is a preorder on arrays of bodies, and a function of the matrix
    that returns leaves bodies that [R] relates to those it was called on.
    Equality is such a relation when the functions only read the bodies;
    for [fdLuminosity] and the like, which may set [iStellarModel], it is
    the relation of two arrays that differ in that member at most. *)
Definition matrix_respects (R : relation (list BODY))
    (fnUpdate : list (list (list fnUpdateVariable))) : Prop :=
  Reflexive R /\ Transitive R
  /\ forall i v e body system iaBody d body',
       (((fnUpdate !!! i) !!! v) !!! e) body system iaBody = Ret (d, body') -> R body body'.

(** [d] is what the contributor [e] of the variable [v] of body [i]
    returns when it is called, with its [iaBody], in an evaluation that
    began on the bodies [B]: it is called on bodies that [R] relates to
    [B], those that the contributors called before it have left *)
Definition derivative_on (R : relation (list BODY))
    (fnUpdate : list (list (list fnUpdateVariable))) (system : SYSTEM)
    (update : list UPDATE) (B : list BODY) (i v e : nat) (d : Q) : Prop :=
  exists B1 B2,
    R B B1
    /\ (((fnUpdate !!! i) !!! v) !!! e) B1 system ((iaBody (update !!! i) !!! v) !!! e)
       = Ret (d, B2).

(** What a scratch slot holds after [fdGetTimeStep]: what its contributor
    returned, when [fdGetTimeStep] calls it, and otherwise what the slot
    held in [update] *)
Definition derivative_at_start (R : relation (list BODY))
    (fnUpdate : list (list (list fnUpdateVariable))) (system : SYSTEM)
    (update : list UPDATE) (B : list BODY) (evolve : EVOLVE) (i v e : nat) (d : Q) : Prop :=
  if called_at_start evolve update i v e
  then derivative_on R fnUpdate system update B i v e d
  else d = row update i v !!! e.

(** The bodies on which the evaluation that follows the state [s] begins:
    [evolve->tmpBody] as [PropertiesAuxiliary] leaves it *)
Definition aux_bodies (update : list UPDATE) (s : StepState) : list BODY :=
  (PropertiesAuxiliary (tmpBody (Evolve (st_control s))) (st_control s) update).1.

(** The scratch slots of a variable in the state [s] *)
Definition slots (s : StepState) (i v : nat) : list Q :=
  row (tmpUpdate (Evolve (st_control s))) i v.

(** In [evolve->tmpBody] of the state [s] the variable [v] of body [i] is
    [y], if the array has a body [i] *)
Definition tmp_holds (tmp : list UPDATE) (s : StepState) (i v : nat) (y : Q) : Prop :=
  (i < length (tmpBody (Evolve (st_control s))))%nat ->
  dbl (tmpBody (Evolve (st_control s)) !!! i) (pdVar (tmp !!! i) !!! v) = y.

End SubEvaluations.

(** * A small system to run the code on

    A star (body 0) and a planet (body 1).  [Libm'] is exact where the
    result is rational and cheap to know (integer exponents, base 0 or 1)
    and a stand-in elsewhere; the other functions the headers promise are
    stand-ins of the right type. *)

Module Examples.

Definition pow' (x y : Q) : Q :=
  let y := Qred y in
  if (Z.pos (Qden y) =? 1)%Z then Qpower x (Qnum y)
  else if Qeq_bool x 1 then 1
  else if Qeq_bool x 0 then 0
  else 1.

Definition Libm' : Libm :=
  {| pow := pow'; log10 := fun _ => 0; sqrt := fun x => x; sin := fun x => x |}.

Definition PhysConst' : PhysConst :=
  {| BIGG := 6.67428e-11; ATOMMASS := 1.660538921e-27; KBOLTZ := 1.38064852e-23;
     QOH := 16; PI := 3.1415926535; MEARTH := 5.972186e24; LSUN := 3.846e26;
     AUM := 1.49597870700e11 |}.

Definition VplanetH' : VplanetH :=
  {| SYSTEM := unit;
     VERBINPUT := 3;
     DAYSEC := 86400;
     YEARSEC := 3.15576e7;
     fdXUVFlux := fun body iBody =>
       dbl (body !!! 0%nat) dLXUV
       / (4 * 3.1415926535 * dbl (body !!! iBody) dSemi * dbl (body !!! iBody) dSemi);
     fdInstellation := fun body iBody =>
       dbl (body !!! 0%nat) dLuminosity
       / (4 * 3.1415926535 * dbl (body !!! iBody) dSemi * dbl (body !!! iBody) dSemi);
     fdLehmerPres := fun _ _ _ => 0;
     fdLehmerRadius := fun _ _ _ _ => 0;
     fdSemiToMeanMotion := fun _ _ => 1;
     fdFreqToPer := fun w => 2 * 3.1415926535 / w;
     bFloatComparison := fun x y => if Qeq_bool x y then 1%Z else 0%Z;
     fdBaraffe := fun _ _ _ _ => (Some 1, STELLAR_ERR_NONE);
     fdProximaCenStellar := fun _ _ _ => (Some 1, PROXIMACEN_ERR_OTHER 0);
     BodyCopy := fun dest src _ => src |}.

Definition blank : BODY :=
  mkBODY (fun _ => 0) (fun _ => 0%Z) EmptyString
         ATMESC_LOP12 ATMESC_LBEXACT (ATMESC_XABS_OTHER 0) ATMESC_NONE
         STELLAR_MODEL_NONE (STELLAR_XUV_OTHER 0).

Definition star : BODY :=
  setd dAge 100 (setd dMass 1 (setd dLuminosity 1 (setd dTemperature 5780
    (setd dRotRate 1 (setd dSatXUVFrac 0.001 blank))))).

(** A planet with [xi = pow(3/(3*1), 1/3) * 2 / (1 * 1) = 2] *)
Definition planet : BODY :=
  setd dAge 7 (setd dMass 3 (setd dSemi 2 (setd dRadius 1 (setd dXFrac 1
    (setd dSurfaceWaterMass 1 (setd dJeansTime 1000 (setd dFlowTemp 400
      (setd dAtmXAbsEffH2O 0.15 (setd dFXUV 1 blank))))))))).

Definition bodies : list BODY := [star; planet].

Definition evolve0 : EVOLVE :=
  mkEVOLVE 2 [0; 0]%nat 0 1 1 0 0.01 0 0 0 [] [] [].

Definition io0 : IO := mkIO 5 10.

(** The one [SYSTEM] of [VplanetH'] *)
Definition sys : @SYSTEM VplanetH' := tt.

(** ** A one-body matrix for the integrator

    Body 0 has three variables: its surface water, lost at the rate 1
    (kind 1); its radius, whose contributor returns the new value 2 (kind
    0, VALUE); its semi-major axis, an explicit function of time that
    returns the age (kind 10, EXPLICIT).  The age is 3, and the scratch slot
    of the third variable holds the 2 of an evaluation at age 2. *)

Definition b0 : BODY :=
  setd dSurfaceWaterMass 10 (setd dRadius 1 (setd dSemi 2 (setd dAge 3 blank))).

Definition upd0 : UPDATE :=
  mkUPDATE 3 [1; 1; 1]%nat [[1%Z]; [0%Z]; [10%Z]] [dSurfaceWaterMass; dRadius; dSemi]
           [[0]; [0]; [2]] [0; 0; 0] [[[0%nat]]; [[0%nat]]; [[0%nat]]]
           (-1) (-1) (-1) (-1) (-1).

Definition fns : list (list (list (@fnUpdateVariable VplanetH'))) :=
  [[ [reads (fun _ _ _ => -1)];
     [reads (fun _ _ _ => 2)];
     [reads (fun body _ _ => dbl (body !!! 0%nat) dAge)] ]].

(** The same body with the radius taken out of the matrix *)
Definition upd_norad : UPDATE :=
  mkUPDATE 2 [1; 1]%nat [[1%Z]; [10%Z]] [dSurfaceWaterMass; dSemi]
           [[0]; [2]] [0; 0] [[[0%nat]]; [[0%nat]]]
           (-1) (-1) (-1) (-1) (-1).

Definition fns_norad : list (list (list (@fnUpdateVariable VplanetH'))) :=
  [[ [reads (fun _ _ _ => -1)];
     [reads (fun body _ _ => dbl (body !!! 0%nat) dAge)] ]].

(** Variable timestep, [dTimeStep = 1], [dTime = 0], [dEta = 0.1]; an
    output every 100 *)
Definition ev : EVOLVE :=
  mkEVOLVE 1 [0%nat] 0 1 1 0 0.1 0 0 0 [b0] [upd0]
           [[[0; 0; 0]]; [[0; 0; 0]]; [[0; 0; 0]]; [[0; 0; 0]]].

Definition ctl : CONTROL := mkCONTROL ev (mkIO 0 100) [mkHALT 0] [[]] [0%nat] [[]].

(** ** A star and a planet with their hooks *)

Definition ev_hooks : EVOLVE := mkEVOLVE 2 [1; 1]%nat 0 1 1 0 0.01 0 0 0 [] [] [].

Definition ctl_hooks : CONTROL :=
  mkCONTROL ev_hooks io0 [mkHALT 0; mkHALT 0]
            [[@fnPropsAuxStellar Libm' PhysConst' VplanetH'];
             [@fnPropsAuxAtmEsc Libm' PhysConst' VplanetH']]
            [0; 0]%nat [[]; []].

(** ** A star on the Baraffe track whose lookup reports NaN *)

Definition VplanetH_nan : VplanetH :=
  {| SYSTEM := unit;
     VERBINPUT := VERBINPUT (VplanetH := VplanetH');
     DAYSEC := DAYSEC (VplanetH := VplanetH');
     YEARSEC := YEARSEC (VplanetH := VplanetH');
     fdXUVFlux := fdXUVFlux (VplanetH := VplanetH');
     fdInstellation := fdInstellation (VplanetH := VplanetH');
     fdLehmerPres := fdLehmerPres (VplanetH := VplanetH');
     fdLehmerRadius := fdLehmerRadius (VplanetH := VplanetH');
     fdSemiToMeanMotion := fdSemiToMeanMotion (VplanetH := VplanetH');
     fdFreqToPer := fdFreqToPer (VplanetH := VplanetH');
     bFloatComparison := bFloatComparison (VplanetH := VplanetH');
     fdBaraffe := fun _ _ _ _ => (None, STELLAR_ERR_ISNAN);
     fdProximaCenStellar := fdProximaCenStellar (VplanetH := VplanetH');
     BodyCopy := fun dest src _ => src |}.

Definition sys_nan : @SYSTEM VplanetH_nan := tt.

Definition star_baraffe : BODY := set_iStellarModel STELLAR_MODEL_BARAFFE star.

(** ** A planet that is losing its water *)

Definition planet_runaway : BODY := seti bRunaway 1 planet.

End Examples.

(** * More inputs

    What the further functions need of the headers, and bodies for them. *)
Module MoreExamples.
Import Examples.

Definition VplanetH_more' : @VplanetH_more VplanetH' :=
  {| VERBPROG := 2;
     TOMASS := 1.39e21;
     YEARDAY := 365.25;
     ALPHA_STRUCT := 0.6;
     fprintd := fun _ _ => "x"%string;
     iEnvelopeMass := fun _ => 0%nat;
     fndUpdateFunctionTiny := fun body _ _ => Ret (dTINY, body);
     fdMassToRad_Sotin07 := fun m => m / 2;
     fdLopezRadius := fun _ _ _ _ _ => None;
     fdProximaCenBRadius := fun _ _ _ => 1 |}.

Definition VplanetH_more_nan : @VplanetH_more VplanetH_nan :=
  {| VERBPROG := 2;
     TOMASS := 1.39e21;
     YEARDAY := 365.25;
     ALPHA_STRUCT := 0.6;
     fprintd := fun _ _ => "x"%string;
     iEnvelopeMass := fun _ => 0%nat;
     fndUpdateFunctionTiny := fun body _ _ => Ret (dTINY, body);
     fdMassToRad_Sotin07 := fun m => m / 2;
     fdLopezRadius := fun _ _ _ _ _ => None;
     fdProximaCenBRadius := fun _ _ _ => 1 |}.

(** The planet of [Examples] under a gaseous envelope *)
Definition planet_env : BODY := setd dEnvelopeMass 1 planet.

(** The planet with an envelope below the minimum that is kept *)
Definition planet_thin : BODY := setd dEnvelopeMass 1 (setd dMinEnvelopeMass 2 planet).

(** A star on the Baraffe track that rotates *)
Definition star_spin : BODY :=
  setd dRadius 1 (setd dRadGyra 0.5 (seti bEvolveRG 1 star_baraffe)).

(** Three points of the line [y = 2 x + 1] *)
Definition line_x : list Q := [0; 1; 2].
Definition line_y : list Q := [1; 3; 5].

(** ** A star that contracts

    A track on which, for each second of age, the radius falls by 1 and the
    radius of gyration by 1e-12; the star has the radius and the radius of
    gyration of this track at its age. *)

Definition VplanetH_contracting : VplanetH :=
  {| SYSTEM := unit;
     VERBINPUT := VERBINPUT (VplanetH := VplanetH');
     DAYSEC := DAYSEC (VplanetH := VplanetH');
     YEARSEC := YEARSEC (VplanetH := VplanetH');
     fdXUVFlux := fdXUVFlux (VplanetH := VplanetH');
     fdInstellation := fdInstellation (VplanetH := VplanetH');
     fdLehmerPres := fdLehmerPres (VplanetH := VplanetH');
     fdLehmerRadius := fdLehmerRadius (VplanetH := VplanetH');
     fdSemiToMeanMotion := fdSemiToMeanMotion (VplanetH := VplanetH');
     fdFreqToPer := fdFreqToPer (VplanetH := VplanetH');
     bFloatComparison := bFloatComparison (VplanetH := VplanetH');
     fdBaraffe := fun iParam dAge _ _ =>
       match iParam with
       | STELLAR_R => (Some (1e10 - dAge), STELLAR_ERR_NONE)
       | STELLAR_RG => (Some (0.5 - dAge * 1e-12), STELLAR_ERR_NONE)
       | _ => (Some 1, STELLAR_ERR_NONE)
       end;
     fdProximaCenStellar := fdProximaCenStellar (VplanetH := VplanetH');
     BodyCopy := fun dest src _ => src |}.

Definition sys_contracting : @SYSTEM VplanetH_contracting := tt.

Definition VplanetH_more_contracting : @VplanetH_more VplanetH_contracting :=
  {| VERBPROG := 2;
     TOMASS := 1.39e21;
     YEARDAY := 365.25;
     ALPHA_STRUCT := 0.6;
     fprintd := fun _ _ => "x"%string;
     iEnvelopeMass := fun _ => 0%nat;
     fndUpdateFunctionTiny := fun body _ _ => Ret (dTINY, body);
     fdMassToRad_Sotin07 := fun m => m / 2;
     fdLopezRadius := fun _ _ _ _ _ => None;
     fdProximaCenBRadius := fun _ _ _ => 1 |}.

Definition star_contracting : BODY :=
  setd dRadius (1e10 - 100) (setd dRadGyra (0.5 - 100 * 1e-12)
    (seti bEvolveRG 1 star_baraffe)).

End MoreExamples.

(** * A matrix with a variable of every treatment

    Body 0 has four variables: its surface water, lost at the rate 1 (kind
    1); its radius, whose contributor returns a tenth of the surface water
    as the new value (kind 0, VALUE); its semi-major axis, an explicit
    function of time that returns the age (kind 10, EXPLICIT); and a
    position, whose contributor returns the velocity 5 (kind 7, NBODY).  The
    age is 3; the scratch slot of the semi-major axis holds the 2 of an
    evaluation at age 2, and the slot of the position holds a 7.
    [bSpiNBodyDistOrb] is 1 and [bUsingSpiNBody] is 0.  The timestep is
    variable, [dTimeStep = 1], [dTime = 0], [dEta = 0.1], with an output
    every 100. *)
Module StepExamples.
Import Examples.

Definition b1 : BODY :=
  setd dSurfaceWaterMass 10 (setd dRadius 1 (setd dSemi 2 (setd dPositionX 4
    (setd dAge 3 blank)))).

Definition upd1 : UPDATE :=
  mkUPDATE 4 [1; 1; 1; 1]%nat [[1%Z]; [0%Z]; [10%Z]; [7%Z]]
           [dSurfaceWaterMass; dRadius; dSemi; dPositionX]
           [[0]; [0]; [2]; [7]] [0; 0; 0; 0]
           [[[0%nat]]; [[0%nat]]; [[0%nat]]; [[0%nat]]]
           (-1) (-1) (-1) (-1) (-1).

Definition fns1 : list (list (list (@fnUpdateVariable VplanetH'))) :=
  [[ [reads (fun _ _ _ => -1)];
     [reads (fun body _ _ => dbl (body !!! 0%nat) dSurfaceWaterMass / 10)];
     [reads (fun body _ _ => dbl (body !!! 0%nat) dAge)];
     [reads (fun _ _ _ => 5)] ]].

Definition ev1 : EVOLVE :=
  mkEVOLVE 1 [0%nat] 0 1 1 0 0.1 0 1 0 [b1] [upd1]
           [[[0; 0; 0; 0]]; [[0; 0; 0; 0]]; [[0; 0; 0; 0]]; [[0; 0; 0; 0]]].

Definition ctl1 : CONTROL := mkCONTROL ev1 (mkIO 0 100) [mkHALT 0] [[]] [0%nat] [[]].

End StepExamples.

(** * Properties *)

(** ** Comparisons *)

Lemma Qltb_true x y : Qltb x y = true <-> x < y.
Proof. unfold Qltb. destruct (Qlt_le_dec x y); split; intros; try done; exfalso; lra. Qed.

Lemma Qltb_false x y : Qltb x y = false <-> y <= x.
Proof. unfold Qltb. destruct (Qlt_le_dec x y); split; intros; try done; exfalso; lra. Qed.

Lemma Qleb_true x y : Qleb x y = true <-> x <= y.
Proof. unfold Qleb. destruct (Qlt_le_dec y x); split; intros; try done; exfalso; lra. Qed.

Lemma Qleb_false x y : Qleb x y = false <-> y < x.
Proof. unfold Qleb. destruct (Qlt_le_dec y x); split; intros; try done; exfalso; lra. Qed.

Lemma truthy_true z : truthy z = true <-> z <> 0%Z.
Proof. unfold truthy. destruct (Z.eqb_spec z 0); split; intros; try done. Qed.

Lemma truthy_false z : truthy z = false <-> z = 0%Z.
Proof. unfold truthy. destruct (Z.eqb_spec z 0); split; intros; try done. Qed.

Lemma Qdiv_nonneg a b : 0 <= a -> 0 <= b -> 0 <= a / b.
Proof.
  intros Ha Hb. destruct (Qlt_le_dec 0 b) as [Hpos|Hle].
  - apply Qle_shift_div_l; [done|]. lra.
  - assert (Hb0 : b == 0) by lra. unfold Qdiv. rewrite Hb0.
    assert (E : / 0 == 0) by reflexivity. rewrite E. lra.
Qed.

Lemma Qdiv_nonneg_nonpos a b : 0 <= a -> b <= 0 -> a / b <= 0.
Proof.
  intros Ha Hb. destruct (Qeq_dec b 0) as [E|NE].
  - unfold Qdiv. rewrite E. assert (E0 : / 0 == 0) by reflexivity. rewrite E0. lra.
  - assert (E : a / b == (- a) / (- b)) by (field; done).
    rewrite E. apply Qle_shift_div_r; lra.
Qed.

Lemma Qinv_pos_le_one x : 1 <= x -> 0 < 1 / x /\ 1 / x <= 1.
Proof.
  intros Hx. split.
  - apply Qlt_shift_div_l; lra.
  - apply Qle_shift_div_r; lra.
Qed.

(** ** Reading a body after a store *)

Lemma length_store_d i f v body : length (store_d i f v body) = length body.
Proof. apply length_alter. Qed.

Lemma length_store_i i f v body : length (store_i i f v body) = length body.
Proof. apply length_alter. Qed.

Lemma lookup_store_d_ne i j f v body : i <> j -> store_d i f v body !!! j = body !!! j.
Proof. intros. unfold store_d. by rewrite list_lookup_total_alter_ne. Qed.

Lemma dbl_store_d_eq i f v body :
  (i < length body)%nat -> dbl (store_d i f v body !!! i) f = v.
Proof.
  intros. unfold store_d. rewrite list_lookup_total_alter_eq by done.
  cbn. by rewrite decide_True.
Qed.

Lemma dbl_store_d_other i j f g v body :
  g <> f -> dbl (store_d i f v body !!! j) g = dbl (body !!! j) g.
Proof.
  intros. unfold store_d. rewrite list_lookup_total_alter.
  case_decide as E; [destruct E as [-> _]|done]. cbn. by rewrite decide_False.
Qed.

Lemma dbl_setd_eq f v b : dbl (setd f v b) f = v.
Proof. cbn. by rewrite decide_True. Qed.

Lemma dbl_setd_ne f g v b : g <> f -> dbl (setd f v b) g = dbl b g.
Proof. intros. cbn. by rewrite decide_False. Qed.

(** ** Loops *)

Lemma for_loop_S {S : Type} n (f : nat -> S -> S) s :
  for_loop (Datatypes.S n) f s = f n (for_loop n f s).
Proof. unfold for_loop. by rewrite seq_S, fold_left_app. Qed.

Lemma for_loop_ind {S : Type} (P : nat -> S -> Prop) n (f : nat -> S -> S) s :
  P 0%nat s ->
  (forall i s, (i < n)%nat -> P i s -> P (Datatypes.S i) (f i s)) ->
  P n (for_loop n f s).
Proof.
  intros H0 Hstep. induction n as [|n IH]; [done|].
  rewrite for_loop_S. apply Hstep; [lia|]. apply IH. intros; apply Hstep; [lia|done].
Qed.

Lemma for_loopM_S {S : Type} n (f : nat -> S -> outcome S) s :
  for_loopM (Datatypes.S n) f s = for_loopM n f s ≫= f n.
Proof. unfold for_loopM. by rewrite seq_S, fold_left_app. Qed.

Lemma for_loopM_ind {S : Type} (P : nat -> S -> Prop) n (f : nat -> S -> outcome S) s s' :
  P 0%nat s ->
  (forall i s s', (i < n)%nat -> P i s -> f i s = Ret s' -> P (Datatypes.S i) s') ->
  for_loopM n f s = Ret s' -> P n s'.
Proof.
  intros H0 Hstep. revert s'. induction n as [|n IH]; intros s' Hrun.
  - cbv in Hrun. by injection Hrun as <-.
  - rewrite for_loopM_S in Hrun.
    destruct (for_loopM n f s) as [s1|] eqn:E; [|done]. cbn in Hrun.
    apply (Hstep n s1); [lia| |done]. apply IH; [|done].
    intros; eapply Hstep; [lia|done..].
Qed.

(** ** A body-local invariant *)

Lemma Inv_init base i (P : BODY -> Prop) : P (base !!! i) -> Inv base i P base.
Proof. by intros; repeat split. Qed.

Lemma Inv_alter base i (P Q : BODY -> Prop) g x :
  (forall b, P b -> Q b) -> (forall b, P b -> Q (g b)) ->
  Inv base i P x -> Inv base i Q (alter g i x).
Proof.
  intros HPQ Hg (Hl & Ho & HP). repeat split.
  - by rewrite length_alter.
  - intros j Hj. rewrite list_lookup_total_alter_ne by done. by apply Ho.
  - rewrite list_lookup_total_alter. case_decide; auto.
Qed.

Lemma Inv_alter_same base i (P : BODY -> Prop) g x :
  (forall b, P b -> P (g b)) -> Inv base i P x -> Inv base i P (alter g i x).
Proof. intros. by apply (Inv_alter base i P P). Qed.

Lemma Inv_weaken base i (P Q : BODY -> Prop) x :
  (forall b, P b -> Q b) -> Inv base i P x -> Inv base i Q x.
Proof. intros HPQ (Hl & Ho & HP). repeat split; auto. Qed.

Lemma Inv_alter_set base i (P Q : BODY -> Prop) g x :
  (i < length base)%nat -> (forall b, P b -> Q (g b)) ->
  Inv base i P x -> Inv base i Q (alter g i x).
Proof.
  intros Hi Hg (Hl & Ho & HP). repeat split.
  - by rewrite length_alter.
  - intros j Hj. rewrite list_lookup_total_alter_ne by done. by apply Ho.
  - rewrite list_lookup_total_alter_eq by lia. auto.
Qed.

(** Stepping through a function body under an invariant *)

Lemma holds_let_body I {A} (Post : A -> Prop) (v : list BODY) (k : list BODY -> A) :
  holds I I v -> (forall x, I x -> holds I Post (k x)) -> holds I Post (let x := v in k x).
Proof. unfold holds. auto. Qed.

Lemma holds_let_other I {A B} (Post : A -> Prop) (v : B) (k : B -> A) :
  (forall x, holds I Post (k x)) -> holds I Post (let x := v in k x).
Proof. unfold holds. auto. Qed.

Lemma holds_let_pair1 I {A B} (Post : A -> Prop) (v : list BODY * B)
    (k : list BODY -> B -> A) :
  holds I (fun r => I r.1) v -> (forall x y, I x -> holds I Post (k x y)) ->
  holds I Post (let '(x, y) := v in k x y).
Proof. unfold holds. destruct v. auto. Qed.

Lemma holds_let_pair2 I {A B} (Post : A -> Prop) (v : B * list BODY)
    (k : B -> list BODY -> A) :
  holds I (fun r => I r.2) v -> (forall y x, I x -> holds I Post (k y x)) ->
  holds I Post (let '(y, x) := v in k y x).
Proof. unfold holds. destruct v. auto. Qed.

Lemma holds_pair1 I {B} (a : list BODY) (b : B) :
  holds I I a -> holds I (fun r : list BODY * B => I r.1) (a, b).
Proof. unfold holds. auto. Qed.

Lemma holds_pair2 I {B} (a : list BODY) (b : B) :
  holds I I a -> holds I (fun r : B * list BODY => I r.2) (b, a).
Proof. unfold holds. auto. Qed.

Ltac field_side :=
  let b := fresh "b" in
  let Hb := fresh "Hb" in
  intros b Hb; cbn; first [exact Hb | done].

Ltac hstep :=
  lazymatch goal with
  | |- holds ?I _ (let x := ?v in @?k x) =>
      lazymatch type of v with
      | list BODY => refine (holds_let_body I _ v k _ _); [|intros ? ?]
      | _ => refine (holds_let_other I _ v k _); intros ?
      end
  | |- holds ?I _ (match ?v with (x, y) => @?k x y end) =>
      lazymatch type of v with
      | (list BODY * _)%type => refine (holds_let_pair1 I _ v k _ _); [|intros ? ? ?]
      | (_ * list BODY)%type => refine (holds_let_pair2 I _ v k _ _); [|intros ? ? ?]
      end
  | |- holds _ _ (if ?c then _ else _) => destruct c
  | |- holds _ _ (_, _) => first [apply holds_pair1 | apply holds_pair2]
  | |- holds (Inv _ _ _) (Inv _ _ _) (store_d _ _ _ _) =>
      unfold store_d; unfold holds; apply Inv_alter_same; [field_side|]
  | |- holds (Inv _ _ _) (Inv _ _ _) (store_i _ _ _ _) =>
      unfold store_i; unfold holds; apply Inv_alter_same; [field_side|]
  | |- holds (Inv _ _ _) (Inv _ _ _) (alter _ _ _) =>
      unfold holds; apply Inv_alter_same; [field_side|]
  | |- holds ?I ?I ?x => is_var x; unfold holds; assumption
  | |- Inv _ _ _ (store_d _ _ _ _) =>
      unfold store_d; apply Inv_alter_same; [field_side|]
  | |- Inv _ _ _ (store_i _ _ _ _) =>
      unfold store_i; apply Inv_alter_same; [field_side|]
  | |- Inv _ _ _ (alter _ _ _) => apply Inv_alter_same; [field_side|]
  | |- Inv _ _ _ ?x => is_var x; assumption
  end.

Section AtmEscProperties.
Context `{Libm} `{PhysConst} `{VplanetH}.

Lemma fbDoesWaterEscape_Inv base i P x :
  (forall b v, P b -> P (setd dRGDuration v b)) ->
  Inv base i P x -> Inv base i P (fbDoesWaterEscape x i).2.
Proof.
  intros HP HI. unfold fbDoesWaterEscape.
  repeat (lazymatch goal with
          | |- context [if ?c then _ else _] => destruct c
          end; cbn [snd]); try done;
    unfold store_d; (apply Inv_alter_same; [intros; by apply HP|done]).
Qed.

Ltac hstep_atmesc :=
  first
    [ hstep
    | lazymatch goal with
      | |- holds _ _ (fbDoesWaterEscape _ _) =>
          unfold holds; apply fbDoesWaterEscape_Inv;
          [intros ? ? ?; cbn; first [assumption | done] | assumption]
      end ].

(** [fnPropsAuxAtmEsc] changes body [iBody] only, and leaves in it the age
    of body 0 *)
Lemma fnPropsAuxAtmEsc_age body evolve io update iBody :
  (iBody < length body)%nat ->
  Inv body iBody (fun b => dbl b dAge = dbl (body !!! 0%nat) dAge)
      (fnPropsAuxAtmEsc body evolve io update iBody).1.
Proof.
  intros Hi.
  set (P := fun b => dbl b dAge = dbl (body !!! 0%nat) dAge).
  change (holds (Inv body iBody P) (fun r => Inv body iBody P r.1)
                (fnPropsAuxAtmEsc body evolve io update iBody)).
  cbv beta delta [fnPropsAuxAtmEsc].
  lazymatch goal with
  | |- holds ?I _ (let x := ?v in @?k x) =>
      refine (holds_let_body I _ v k _ _); [|intros ? ?]
  end.
  { unfold holds, store_d.
    apply (Inv_alter_set body iBody (fun _ => True)); [done| |by apply Inv_init].
    intros b _. unfold P. apply dbl_setd_eq. }
  repeat hstep_atmesc.
Qed.

(** [fnPropsAuxAtmEsc] leaves 1 in [dKTide], whatever [xi] is *)
Lemma fnPropsAuxAtmEsc_dKTide body evolve io update iBody :
  (iBody < length body)%nat ->
  dbl ((fnPropsAuxAtmEsc body evolve io update iBody).1 !!! iBody) dKTide = 1.
Proof.
  intros Hi.
  set (T := fun _ : BODY => True).
  set (P := fun b => dbl b dKTide = 1).
  cut (Inv body iBody P (fnPropsAuxAtmEsc body evolve io update iBody).1).
  { by intros (_ & _ & ?). }
  change (holds (Inv body iBody T) (fun r => Inv body iBody P r.1)
                (fnPropsAuxAtmEsc body evolve io update iBody)).
  cbv beta delta [fnPropsAuxAtmEsc].
  (* up to the Ktide block only the shape of the array matters *)
  hstep. { hstep. by apply Inv_init. }
  hstep. { repeat hstep. }
  hstep.
  (* the Ktide block ends in [dKTide = 1] on both sides *)
  lazymatch goal with
  | |- holds _ ?Post ?e => change (holds (Inv body iBody P) Post e)
  end.
  hstep.
  - assert (HK : forall (y : list BODY) (e : list string), Inv body iBody T y ->
               Inv body iBody P (store_d iBody dKTide 1 y, e).1).
    { intros y e Hy. cbn [fst]. unfold store_d.
      apply (Inv_alter_set body iBody T); [done|intros; apply dbl_setd_eq|done]. }
    lazymatch goal with |- holds _ _ (if ?c then _ else _) => destruct c end.
    + by apply HK.
    + lazymatch goal with
      | |- holds _ ?Post ?e => change (holds (Inv body iBody T) Post e)
      end.
      hstep; [repeat hstep|]. by apply HK.
  - repeat hstep_atmesc.
Qed.

(** C4. [fbDoesWaterEscape] says yes exactly when the envelope mass is not
    positive, the instellation is at least the runaway-greenhouse limit of
    [fdHZRG14], surface water remains, and the age is at most the Jeans
    time. *)
Theorem fbDoesWaterEscape_iff (body : list BODY) (iBody : nat) :
  truthy (fbDoesWaterEscape body iBody).1 = true <->
  dbl (body !!! iBody) dEnvelopeMass <= 0
  /\ fdHZRG14 body iBody <= fdInstellation body iBody
  /\ 0 < dbl (body !!! iBody) dSurfaceWaterMass
  /\ dbl (body !!! iBody) dAge <= dbl (body !!! iBody) dJeansTime.
Proof.
  unfold fbDoesWaterEscape.
  destruct (Qltb 0 (dbl (body !!! iBody) dEnvelopeMass)) eqn:E1.
  { apply Qltb_true in E1. cbn. split; [done|]. intros (? & _). lra. }
  apply Qltb_false in E1.
  destruct (Qltb (fdInstellation body iBody) (fdHZRG14 body iBody)) eqn:E2.
  { apply Qltb_true in E2. cbn. split; [done|]. intros (_ & ? & _). lra. }
  apply Qltb_false in E2.
  destruct (Qleb (dbl (body !!! iBody) dSurfaceWaterMass) 0) eqn:E3.
  { apply Qleb_true in E3. cbn. split; [done|]. intros (_ & _ & ? & _). lra. }
  apply Qleb_false in E3.
  destruct (Qltb (dbl (body !!! iBody) dJeansTime) (dbl (body !!! iBody) dAge)) eqn:E4.
  { apply Qltb_true in E4. cbn. split; [done|]. intros (_ & _ & _ & ?). lra. }
  apply Qltb_false in E4. cbn. by repeat split.
Qed.

(** C5, as amended.  Once the envelope mass is not positive, or the age is
    past the Jeans time, [fdDEnvelopeMassDt] returns [dTINY], the positive
    constant [1/DBL_MAX] of vplanet.c, not 0. *)
Theorem fdDEnvelopeMassDt_expired (body : list BODY) (system : SYSTEM)
    (iaBody : list nat) :
  let b := body !!! (iaBody !!! 0%nat) in
  dbl b dEnvelopeMass <= 0 \/ dbl b dJeansTime < dbl b dAge ->
  fdDEnvelopeMassDt body system iaBody = dTINY /\ 0 < dTINY.
Proof.
  intros b Hb. split; [|by vm_compute].
  unfold fdDEnvelopeMassDt. fold b.
  destruct Hb as [Hb|Hb].
  - apply Qleb_true in Hb. by rewrite Hb.
  - apply Qltb_true in Hb. rewrite Hb. by rewrite orb_true_r.
Qed.

(** C8. While water escapes ([bRunaway] set, surface water left): with the
    instant O2 sink, [fdDOxygenMassDt] is 0 and [fdDOxygenMantleMassDt] is
    what [fdDOxygenMassDt] returns on the same bodies with the sink flag
    cleared; without it, [fdDOxygenMantleMassDt] is 0 and [fdDOxygenMassDt]
    is what [fdDOxygenMantleMassDt] returns with the flag set. *)
Theorem oxygen_routing (body : list BODY) (system : SYSTEM) (iaBody : list nat) :
  let i := iaBody !!! 0%nat in
  truthy (int (body !!! i) bRunaway) = true ->
  0 < dbl (body !!! i) dSurfaceWaterMass ->
  (truthy (int (body !!! i) bInstantO2Sink) = true ->
     fdDOxygenMassDt body system iaBody = 0
     /\ fdDOxygenMantleMassDt body system iaBody
        = fdDOxygenMassDt (store_i i bInstantO2Sink 0 body) system iaBody)
  /\ (truthy (int (body !!! i) bInstantO2Sink) = false ->
     fdDOxygenMantleMassDt body system iaBody = 0
     /\ fdDOxygenMassDt body system iaBody
        = fdDOxygenMantleMassDt (store_i i bInstantO2Sink 1 body) system iaBody).
Proof.
  intros i Hr Hw.
  assert (Hi : (i < length body)%nat).
  { destruct (decide (i < length body)%nat) as [|Hge]; [done|].
    rewrite list_lookup_total_alt, lookup_ge_None_2 in Hr by lia. done. }
  assert (Hb : forall v, store_i i bInstantO2Sink v body !!! i
                         = seti bInstantO2Sink v (body !!! i)).
  { intros v. unfold store_i. by rewrite list_lookup_total_alter_eq. }
  apply Qltb_true in Hw.
  unfold fdDOxygenMassDt, fdDOxygenMantleMassDt. fold i. rewrite !Hb.
  cbn [dbl int seti iWaterLossModel].
  rewrite !(decide_False (P := bRunaway = bInstantO2Sink)) by done.
  rewrite !(decide_True (P := bInstantO2Sink = bInstantO2Sink)) by done.
  rewrite Hr, Hw. split; intros ->; done.
Qed.

(** C9. The three cases of [fdAtomicOxygenMixingRatio], and its range on
    masses that are not negative. *)
Theorem fdAtomicOxygenMixingRatio_cases (dSurfaceWaterMass dOxygenMass : Q) :
  0 <= dSurfaceWaterMass -> 0 <= dOxygenMass ->
  let NO2 := dOxygenMass / (32 * ATOMMASS) in
  let NH2O := dSurfaceWaterMass / (18 * ATOMMASS) in
  let XO := fdAtomicOxygenMixingRatio dSurfaceWaterMass dOxygenMass in
  (0 < NH2O -> XO = 1 / (1 + 1 / (0.5 + NO2 / NH2O)))
  /\ (NH2O == 0 -> 0 < NO2 -> XO = 1)
  /\ (NH2O == 0 -> NO2 == 0 -> XO = 0)
  /\ 0 <= XO <= 1.
Proof.
  intros Hw Ho NO2 NH2O XO. unfold XO, fdAtomicOxygenMixingRatio.
  fold NO2 NH2O.
  destruct (Qltb 0 NH2O) eqn:E1.
  - apply Qltb_true in E1.
    split; [done|]. split; [intros; lra|]. split; [intros; lra|].
    assert (HA : 0 < ATOMMASS).
    { destruct (Qlt_le_dec 0 ATOMMASS) as [|HA]; [done|]. exfalso.
      assert (NH2O <= 0); [|lra]. apply Qdiv_nonneg_nonpos; lra. }
    assert (Hr : 0 <= NO2 / NH2O).
    { apply Qdiv_nonneg; [|lra]. apply Qdiv_nonneg; lra. }
    destruct (Qinv_pos_le_one (1 + 1 / (0.5 + NO2 / NH2O))) as [? ?]; [|lra].
    assert (0 < 1 / (0.5 + NO2 / NH2O)); [|lra].
    apply Qlt_shift_div_l; lra.
  - apply Qltb_false in E1.
    split; [intros; lra|].
    destruct (Qltb 0 NO2) eqn:E2.
    + apply Qltb_true in E2. repeat split; try done; intros; lra.
    + apply Qltb_false in E2. repeat split; try done; intros; lra.
Qed.

End AtmEscProperties.

Section StellarProperties.
Context `{Libm} `{PhysConst} `{VplanetH}.

Lemma stellar_stored_latched f body i :
  (i < length body)%nat ->
  stellar_stored f (alter (set_iStellarModel STELLAR_MODEL_CONST) i body) i
  = dbl (body !!! i) f.
Proof.
  intros Hi. unfold stellar_stored.
  rewrite list_lookup_total_alter_eq by done. cbn [iStellarModel set_iStellarModel dbl].
  rewrite (bool_decide_eq_true_2 (STELLAR_MODEL_CONST = STELLAR_MODEL_CONST)) by done.
  by rewrite orb_true_r.
Qed.

Lemma latched_lookup body i :
  (i < length body)%nat ->
  iStellarModel (alter (set_iStellarModel STELLAR_MODEL_CONST) i body !!! i)
  = STELLAR_MODEL_CONST.
Proof. intros Hi. by rewrite list_lookup_total_alter_eq. Qed.

Lemma latched_twice body i :
  (i < length body)%nat ->
  dbl (alter (set_iStellarModel STELLAR_MODEL_CONST) i body !!! i) = dbl (body !!! i).
Proof. intros Hi. by rewrite list_lookup_total_alter_eq. Qed.

(** C7, as amended.  For a star on the Baraffe track: when the lookup
    reports out-of-bounds-high or NaN, each of [fdLuminosity], [fdRadius],
    [fdTemperature] and (with [bEvolveRG]) [fdRadGyra] sets the model to
    CONST and returns the stored member; once the model is CONST, each of
    them returns the stored member and changes nothing; when the lookup
    reports out-of-bounds-low, each of them leaves the program with status
    EXIT_INT after the message on stderr. *)
Theorem stellar_track_out_of_bounds (body : list BODY) (system : SYSTEM)
    (iaBody : list nat) :
  let i := iaBody !!! 0%nat in
  let b := body !!! i in
  let latched := alter (set_iStellarModel STELLAR_MODEL_CONST) i body in
  let low := Exit EXIT_INT [("ERROR: Out of bounds (low) in fdBaraffe()." ++ nl)%string] in
  (i < length body)%nat ->
  iStellarModel b = STELLAR_MODEL_BARAFFE ->
  (forall e, e = STELLAR_ERR_OUTOFBOUNDS_HI \/ e = STELLAR_ERR_ISNAN ->
     ((fdBaraffe STELLAR_L (dbl b dAge) (dbl b dMass) 3).2 = e ->
        fdLuminosity body system iaBody = Ret (dbl b dLuminosity, latched))
     /\ ((fdBaraffe STELLAR_R (dbl b dAge) (dbl b dMass) 3).2 = e ->
        fdRadius body system iaBody = Ret (dbl b dRadius, latched))
     /\ ((fdBaraffe STELLAR_T (dbl b dAge) (dbl b dMass) 3).2 = e ->
        fdTemperature body system iaBody = Ret (dbl b dTemperature, latched))
     /\ (truthy (int b bEvolveRG) = true ->
        (fdBaraffe STELLAR_RG (dbl b dAge) (dbl b dMass) 3).2 = e ->
        fdRadGyra body system iaBody = Ret (dbl b dRadGyra, latched)))
  /\ (fdLuminosity latched system iaBody = Ret (dbl b dLuminosity, latched)
      /\ fdRadius latched system iaBody = Ret (dbl b dRadius, latched)
      /\ fdTemperature latched system iaBody = Ret (dbl b dTemperature, latched)
      /\ fdRadGyra latched system iaBody = Ret (dbl b dRadGyra, latched))
  /\ (((fdBaraffe STELLAR_L (dbl b dAge) (dbl b dMass) 3).2 = STELLAR_ERR_OUTOFBOUNDS_LO ->
        fdLuminosity body system iaBody = low)
      /\ ((fdBaraffe STELLAR_R (dbl b dAge) (dbl b dMass) 3).2 = STELLAR_ERR_OUTOFBOUNDS_LO ->
        fdRadius body system iaBody = low)
      /\ ((fdBaraffe STELLAR_T (dbl b dAge) (dbl b dMass) 3).2 = STELLAR_ERR_OUTOFBOUNDS_LO ->
        fdTemperature body system iaBody = low)
      /\ (truthy (int b bEvolveRG) = true ->
        (fdBaraffe STELLAR_RG (dbl b dAge) (dbl b dMass) 3).2 = STELLAR_ERR_OUTOFBOUNDS_LO ->
        fdRadGyra body system iaBody = low)).
Proof.
  intros i b latched low Hi Hm.
  split; [|split].
  - intros e He.
    unfold fdLuminosity, fdRadius, fdTemperature, fdRadGyra. fold i b. rewrite Hm.
    rewrite !decide_True by done.
    unfold fdLuminosityFunctionBaraffe, fdRadiusFunctionBaraffe,
      fdTemperatureFunctionBaraffe, fdRadGyraFunctionBaraffe.
    repeat split.
    4: intros ->; cbn [negb].
    all: intros Hlook;
      lazymatch goal with
      | |- context [fdBaraffe ?p ?a ?m ?o] =>
          destruct (fdBaraffe p a m o) as [val err] eqn:E
      end; cbn [snd] in Hlook; subst err;
      destruct He as [-> | ->]; cbn;
      fold latched; unfold latched; by rewrite stellar_stored_latched.
  - unfold fdLuminosity, fdRadius, fdTemperature, fdRadGyra. fold i.
    unfold latched. rewrite !latched_lookup by done.
    rewrite !decide_False by done.
    rewrite !stellar_stored_latched by done. fold b.
    repeat split.
    rewrite !latched_twice by done. fold b.
    by destruct (negb _).
  - unfold fdLuminosity, fdRadius, fdTemperature, fdRadGyra. fold i b. rewrite Hm.
    rewrite !decide_True by done.
    unfold fdLuminosityFunctionBaraffe, fdRadiusFunctionBaraffe,
      fdTemperatureFunctionBaraffe, fdRadGyraFunctionBaraffe.
    repeat split.
    4: intros ->; cbn [negb].
    all: intros Hlook;
      lazymatch goal with
      | |- context [fdBaraffe ?p ?a ?m ?o] =>
          destruct (fdBaraffe p a m o) as [val err] eqn:E
      end; cbn [snd] in Hlook; subst err; done.
Qed.

End StellarProperties.

(** * The integrator *)

(** ** Three-dimensional arrays *)

Lemma get3_put3_eq k i v x d :
  (k < length d)%nat -> (i < length (d !!! k))%nat -> (v < length ((d !!! k) !!! i))%nat ->
  get3 (put3 k i v x d) k i v = x.
Proof.
  intros. unfold get3, put3.
  rewrite !list_lookup_total_alter_eq by done.
  by rewrite list_lookup_total_insert_eq.
Qed.

Lemma get3_put3_ne k i v k' i' v' x d :
  (k', i', v') <> (k, i, v) -> get3 (put3 k i v x d) k' i' v' = get3 d k' i' v'.
Proof.
  intros Hne. unfold get3, put3.
  rewrite list_lookup_total_alter. case_decide as E1; [|done]. destruct E1 as [-> ?].
  rewrite list_lookup_total_alter. case_decide as E2; [|done]. destruct E2 as [-> ?].
  rewrite list_lookup_total_insert_ne; [done|]. intros ->. done.
Qed.

Lemma put3_plane_ne k i v k' x d : k' <> k -> put3 k i v x d !!! k' = d !!! k'.
Proof. intros. unfold put3. by rewrite list_lookup_total_alter_ne. Qed.

Lemma has_room_put3 nb nv k i v x d : has_room nb nv d -> has_room nb nv (put3 k i v x d).
Proof.
  intros Hd k' i' Hk' Hi'. destruct (Hd k' i' Hk' Hi') as (H1 & H2 & H3).
  unfold put3. rewrite length_alter. split; [done|].
  rewrite list_lookup_total_alter. case_decide as E1; [destruct E1 as [-> ?]|done].
  rewrite length_alter. split; [done|].
  rewrite list_lookup_total_alter. case_decide as E2; [destruct E2 as [-> ?]|done].
  by rewrite length_insert.
Qed.

(** ** Two nested loops that write one cell per iteration *)

Ltac same_decide :=
  lazymatch goal with
  | |- (if bool_decide ?A then _ else _) = (if bool_decide ?B then _ else _) =>
      rewrite (bool_decide_ext A B) by lia; reflexivity
  end.

Lemma for_loop2_pointwise {S X : Type} (nb : nat) (nv : nat -> S -> nat) (nv0 : nat -> nat)
    (f : nat -> nat -> S -> S) (inv : S -> Prop) (obs : nat -> nat -> S -> X)
    (h : nat -> nat -> X -> X) (s0 : S) :
  inv s0 ->
  (forall i s, inv s -> nv i s = nv0 i) ->
  (forall i v s, (i < nb)%nat -> (v < nv0 i)%nat -> inv s -> inv (f i v s)) ->
  (forall i v s, (i < nb)%nat -> (v < nv0 i)%nat -> inv s ->
     obs i v (f i v s) = h i v (obs i v s)) ->
  (forall i v i' v' s, (i < nb)%nat -> (v < nv0 i)%nat -> (i' < nb)%nat -> (v' < nv0 i')%nat ->
     (i', v') <> (i, v) -> inv s -> obs i' v' (f i v s) = obs i' v' s) ->
  let s' := for_loop nb (fun i s => for_loop (nv i s) (fun v s => f i v s) s) s0 in
  inv s' /\ forall i v, (i < nb)%nat -> (v < nv0 i)%nat -> obs i v s' = h i v (obs i v s0).
Proof.
  intros H0 Hnv Hinv Hobs Hframe.
  set (Pin := fun (i v : nat) (s : S) =>
    inv s /\ forall i' v', (i' < nb)%nat -> (v' < nv0 i')%nat ->
      obs i' v' s = if bool_decide (i' < i \/ (i' = i /\ v' < v))%nat
                    then h i' v' (obs i' v' s0) else obs i' v' s0).
  cut (Pin nb 0%nat (for_loop nb (fun i s => for_loop (nv i s) (fun v s => f i v s) s) s0)).
  { intros [? Hall]. split; [done|]. intros i v Hi Hv.
    rewrite Hall by done. by rewrite bool_decide_eq_true_2 by lia. }
  apply (for_loop_ind (fun i s => Pin i 0%nat s)).
  - split; [done|]. intros i' v' ? ?. by rewrite bool_decide_eq_false_2 by lia.
  - intros i s Hi [Hs Hall].
    rewrite (Hnv i s Hs).
    cut (Pin i (nv0 i) (for_loop (nv0 i) (fun v s => f i v s) s)).
    { intros [? Hall']. split; [done|]. intros i' v' Hi' Hv'. rewrite Hall' by done.
      destruct (decide (i' = i)) as [->|]; same_decide. }
    apply (for_loop_ind (fun v s => Pin i v s)); [by split|].
    intros v s1 Hv [Hs1 Hall1]. split; [by apply Hinv|].
    intros i' v' Hi' Hv'.
    destruct (decide ((i', v') = (i, v))) as [[= -> ->]|Hne].
    + rewrite Hobs, Hall1 by done.
      rewrite bool_decide_eq_false_2 by lia. by rewrite bool_decide_eq_true_2 by lia.
    + rewrite Hframe, Hall1 by done.
      assert (i' <> i \/ v' <> v) by (destruct (decide (i' = i)); [right; congruence|by left]).
      same_decide.
Qed.

(** ** The sums of derivatives *)

Lemma scratch_only_refl e : scratch_only e e.
Proof. by destruct e. Qed.

Lemma scratch_only_trans e1 e2 e3 : scratch_only e1 e2 -> scratch_only e2 e3 -> scratch_only e1 e3.
Proof. unfold scratch_only. intros -> ->. by destruct e1. Qed.

Lemma scratch_only_store k i v x e : scratch_only e (store_evolve_daDeriv k i v x e).
Proof. by destruct e. Qed.

Lemma scratch_only_tmpBody tb e : scratch_only e (set_tmpBody tb e).
Proof. by destruct e. Qed.

Lemma scratch_only_tmpUpdate e e' : scratch_only e e' -> tmpUpdate e' = tmpUpdate e.
Proof. intros ->. by destruct e. Qed.

Lemma scratch_only_iNumBodies e e' : scratch_only e e' -> iNumBodies e' = iNumBodies e.
Proof. intros ->. by destruct e. Qed.

Lemma SumDeriv_spec k iDir update i v e :
  (k < length (evolve_daDeriv e))%nat ->
  (i < length (evolve_daDeriv e !!! k))%nat ->
  (v < length ((evolve_daDeriv e !!! k) !!! i))%nat ->
  let e' := SumDeriv k iDir update i v e in
  get3 (evolve_daDeriv e') k i v
    = DirSum iDir (daDerivProc (tmpUpdate e !!! i) !!! v) (iNumEqns (update !!! i) !!! v)
  /\ (forall k' i' v', (k', i', v') <> (k, i, v) ->
        get3 (evolve_daDeriv e') k' i' v' = get3 (evolve_daDeriv e) k' i' v')
  /\ scratch_only e e'
  /\ tmpBody e' = tmpBody e
  /\ (forall nb nv, has_room nb nv (evolve_daDeriv e) -> has_room nb nv (evolve_daDeriv e')).
Proof.
  intros Hk Hi Hv. unfold SumDeriv, DirSum.
  set (n := iNumEqns (update !!! i) !!! v). clearbody n.
  set (row := daDerivProc (tmpUpdate e !!! i) !!! v).
  set (P := fun (m : nat) (e1 : EVOLVE) =>
    get3 (evolve_daDeriv e1) k i v
      = for_loop m (fun iEqn acc => acc + inject_Z iDir * row !!! iEqn) 0
    /\ (forall k' i' v', (k', i', v') <> (k, i, v) ->
          get3 (evolve_daDeriv e1) k' i' v' = get3 (evolve_daDeriv e) k' i' v')
    /\ scratch_only e e1
    /\ tmpBody e1 = tmpBody e
    /\ (k < length (evolve_daDeriv e1))%nat
    /\ (i < length (evolve_daDeriv e1 !!! k))%nat
    /\ (v < length ((evolve_daDeriv e1 !!! k) !!! i))%nat
    /\ (forall nb nv, has_room nb nv (evolve_daDeriv e) -> has_room nb nv (evolve_daDeriv e1))).
  cut (P n (for_loop n (fun iEqn evolve =>
    store_evolve_daDeriv k i v
      (get3 (evolve_daDeriv evolve) k i v
       + inject_Z iDir * ((daDerivProc (tmpUpdate evolve !!! i) !!! v) !!! iEqn))
      evolve) (store_evolve_daDeriv k i v 0 e))).
  { intros (? & ? & ? & ? & _ & _ & _ & ?). done. }
  assert (Hlen : forall x d, (k < length d)%nat -> (i < length (d !!! k))%nat ->
             (v < length ((d !!! k) !!! i))%nat ->
             (k < length (put3 k i v x d))%nat
             /\ (i < length (put3 k i v x d !!! k))%nat
             /\ (v < length ((put3 k i v x d !!! k) !!! i))%nat).
  { intros x d ? ? ?. unfold put3. rewrite length_alter. split; [done|].
    rewrite list_lookup_total_alter_eq by done. rewrite length_alter. split; [done|].
    rewrite list_lookup_total_alter_eq by done. by rewrite length_insert. }
  assert (Hd : forall x e1, evolve_daDeriv (store_evolve_daDeriv k i v x e1)
                            = put3 k i v x (evolve_daDeriv e1)) by done.
  assert (Htb : forall x e1, tmpBody (store_evolve_daDeriv k i v x e1) = tmpBody e1) by done.
  apply for_loop_ind.
  - unfold P. rewrite Hd, Htb.
    destruct (Hlen 0 (evolve_daDeriv e)) as (? & ? & ?); [done..|].
    split; [by apply get3_put3_eq|]. split; [intros; by apply get3_put3_ne|].
    split; [apply scratch_only_store|]. do 4 (split; [done|]).
    intros nb nv Hr; by apply has_room_put3.
  - intros m e1 Hm (Hsum & Hoth & Hso & Htb1 & Hk1 & Hi1 & Hv1 & Hroom).
    unfold P. rewrite for_loop_S, <- Hsum.
    rewrite (scratch_only_tmpUpdate _ _ Hso). fold row.
    rewrite Hd, Htb.
    destruct (Hlen (get3 (evolve_daDeriv e1) k i v + inject_Z iDir * row !!! m)
                   (evolve_daDeriv e1)) as (? & ? & ?); [done..|].
    split; [by apply get3_put3_eq|].
    split; [intros; rewrite get3_put3_ne by done; by apply Hoth|].
    split; [eapply scratch_only_trans; [done|apply scratch_only_store]|].
    do 4 (split; [done|]).
    intros nb nv Hr; apply has_room_put3; by apply Hroom.
Qed.

Lemma evolve_daDeriv_set_tmpBody tb e : evolve_daDeriv (set_tmpBody tb e) = evolve_daDeriv e.
Proof. done. Qed.

Lemma scratch_only_set_tmpBody e e1 tb : scratch_only e e1 -> scratch_only e (set_tmpBody tb e1).
Proof. intros. eapply scratch_only_trans; [done|apply scratch_only_tmpBody]. Qed.

Lemma AdvanceTmpBody_spec k step iDir body update e0 :
  (k < 4)%nat ->
  has_room (iNumBodies e0) (fun i => iNumVars (update !!! i)) (evolve_daDeriv e0) ->
  let e' := AdvanceTmpBody k step iDir body update e0 in
  has_room (iNumBodies e0) (fun i => iNumVars (update !!! i)) (evolve_daDeriv e')
  /\ scratch_only e0 e'
  /\ (forall k' i v, k' <> k ->
        get3 (evolve_daDeriv e') k' i v = get3 (evolve_daDeriv e0) k' i v)
  /\ forall i v, (i < iNumBodies e0)%nat -> (v < iNumVars (update !!! i))%nat ->
       get3 (evolve_daDeriv e') k i v
       = DirSum iDir (daDerivProc (tmpUpdate e0 !!! i) !!! v) (iNumEqns (update !!! i) !!! v).
Proof.
  intros Hk Hroom e'.
  set (nb := iNumBodies e0) in *. set (nv0 := fun i => iNumVars (update !!! i)) in *.
  set (inv := fun e : EVOLVE =>
    has_room nb nv0 (evolve_daDeriv e) /\ scratch_only e0 e
    /\ forall k' i v, k' <> k -> get3 (evolve_daDeriv e) k' i v = get3 (evolve_daDeriv e0) k' i v).
  set (f := fun (iBody iVar : nat) (evolve : EVOLVE) =>
      let evolve := SumDeriv k iDir update iBody iVar evolve in
      let d := get3 (evolve_daDeriv evolve) k iBody iVar in
      if is_value_type update iBody iVar then
        set_tmpBody (store_d iBody (pdVar (tmpUpdate evolve !!! iBody) !!! iVar) d
                             (tmpBody evolve)) evolve
      else
        set_tmpBody (store_d iBody (pdVar (tmpUpdate evolve !!! iBody) !!! iVar)
                             (dbl (body !!! iBody) (pdVar (update !!! iBody) !!! iVar) + step d)
                             (tmpBody evolve)) evolve).
  assert (Hf : forall i v e, exists tb, f i v e = set_tmpBody tb (SumDeriv k iDir update i v e)).
  { intros i v e. unfold f. cbv zeta. destruct (is_value_type update i v); eauto. }
  destruct (for_loop2_pointwise nb (fun i _ => nv0 i) nv0 f inv
              (fun i v e => get3 (evolve_daDeriv e) k i v)
              (fun i v _ => DirSum iDir (daDerivProc (tmpUpdate e0 !!! i) !!! v)
                                   (iNumEqns (update !!! i) !!! v)) e0)
    as [(H1 & H2 & H3) H4].
  - split; [done|]. split; [apply scratch_only_refl|done].
  - done.
  - intros i v e Hi Hv (Hr & Hso & Hoth).
    destruct (Hf i v e) as [tb ->]. unfold inv. rewrite evolve_daDeriv_set_tmpBody.
    destruct (Hr k i Hk Hi) as (? & ? & ?).
    destruct (SumDeriv_spec k iDir update i v e) as (_ & Hne & Hso' & _ & Hroom');
      [done|done|unfold nv0 in *; lia|].
    split; [by apply Hroom'|].
    split; [apply scratch_only_set_tmpBody; by eapply scratch_only_trans|].
    intros k' i' v' Hk'. rewrite Hne; [by apply Hoth|]. congruence.
  - intros i v e Hi Hv (Hr & Hso & Hoth).
    destruct (Hf i v e) as [tb ->]. rewrite evolve_daDeriv_set_tmpBody.
    destruct (Hr k i Hk Hi) as (? & ? & ?).
    destruct (SumDeriv_spec k iDir update i v e) as (Heq & _);
      [done|done|unfold nv0 in *; lia|].
    rewrite Heq. by rewrite (scratch_only_tmpUpdate _ _ Hso).
  - intros i v i' v' e Hi Hv Hi' Hv' Hne (Hr & Hso & Hoth).
    destruct (Hf i v e) as [tb ->]. rewrite evolve_daDeriv_set_tmpBody.
    destruct (Hr k i Hk Hi) as (? & ? & ?).
    destruct (SumDeriv_spec k iDir update i v e) as (_ & Hne' & _);
      [done|done|unfold nv0 in *; lia|].
    apply Hne'. congruence.
  - done.
Qed.

Lemma SumFullStep_spec iDir update e0 :
  has_room (iNumBodies e0) (fun i => iNumVars (update !!! i)) (evolve_daDeriv e0) ->
  let e' := SumFullStep iDir update e0 in
  has_room (iNumBodies e0) (fun i => iNumVars (update !!! i)) (evolve_daDeriv e')
  /\ scratch_only e0 e'
  /\ tmpBody e' = tmpBody e0
  /\ (forall k' i v, k' <> 3%nat ->
        get3 (evolve_daDeriv e') k' i v = get3 (evolve_daDeriv e0) k' i v)
  /\ forall i v, (i < iNumBodies e0)%nat -> (v < iNumVars (update !!! i))%nat ->
       get3 (evolve_daDeriv e') 3 i v
       = if is_value_type update i v
         then get3 (evolve_daDeriv e0) 3 i v
         else DirSum iDir (daDerivProc (tmpUpdate e0 !!! i) !!! v)
                     (iNumEqns (update !!! i) !!! v).
Proof.
  intros Hroom e'.
  set (nb := iNumBodies e0) in *. set (nv0 := fun i => iNumVars (update !!! i)) in *.
  set (inv := fun e : EVOLVE =>
    has_room nb nv0 (evolve_daDeriv e) /\ scratch_only e0 e /\ tmpBody e = tmpBody e0
    /\ forall k' i v, k' <> 3%nat ->
         get3 (evolve_daDeriv e) k' i v = get3 (evolve_daDeriv e0) k' i v).
  set (f := fun (iBody iVar : nat) (evolve : EVOLVE) =>
      if is_value_type update iBody iVar then evolve
      else SumDeriv 3 iDir update iBody iVar evolve).
  assert (H3 : (3 < 4)%nat) by lia.
  destruct (for_loop2_pointwise nb (fun i _ => nv0 i) nv0 f inv
              (fun i v e => get3 (evolve_daDeriv e) 3 i v)
              (fun i v x => if is_value_type update i v then x
                            else DirSum iDir (daDerivProc (tmpUpdate e0 !!! i) !!! v)
                                        (iNumEqns (update !!! i) !!! v)) e0)
    as [(Ha & Hb & Hc & Hd) He].
  - split; [done|]. split; [apply scratch_only_refl|done].
  - done.
  - intros i v e Hi Hv (Hr & Hso & Htb & Hoth). unfold f.
    destruct (is_value_type update i v); [done|].
    destruct (Hr 3%nat i H3 Hi) as (? & ? & ?).
    destruct (SumDeriv_spec 3 iDir update i v e) as (_ & Hne & Hso' & Htb' & Hroom');
      [done|done|unfold nv0 in *; lia|].
    split; [by apply Hroom'|].
    split; [by eapply scratch_only_trans|]. split; [congruence|].
    intros k' i' v' Hk'. rewrite Hne; [by apply Hoth|]. congruence.
  - intros i v e Hi Hv (Hr & Hso & Htb & Hoth). unfold f.
    destruct (is_value_type update i v); [done|].
    destruct (Hr 3%nat i H3 Hi) as (? & ? & ?).
    destruct (SumDeriv_spec 3 iDir update i v e) as (Heq & _);
      [done|done|unfold nv0 in *; lia|].
    rewrite Heq. by rewrite (scratch_only_tmpUpdate _ _ Hso).
  - intros i v i' v' e Hi Hv Hi' Hv' Hne (Hr & Hso & Htb & Hoth). unfold f.
    destruct (is_value_type update i v); [done|].
    destruct (Hr 3%nat i H3 Hi) as (? & ? & ?).
    destruct (SumDeriv_spec 3 iDir update i v e) as (_ & Hne' & _);
      [done|done|unfold nv0 in *; lia|].
    apply Hne'. congruence.
  - done.
Qed.

(** ** Writing the step back *)

Lemma deriv_only_refl u : deriv_only u u.
Proof. split; [by destruct u|done]. Qed.

Lemma derivs_only_refl update : derivs_only update update.
Proof. split; [done|]. intros; apply deriv_only_refl. Qed.

Lemma derivs_only_store i v x update update' :
  derivs_only update update' -> derivs_only update (store_Deriv i v x update').
Proof.
  intros [Hl Hu]. unfold store_Deriv. split; [by rewrite length_alter|].
  intros j. rewrite list_lookup_total_alter. case_decide as E; [|done].
  destruct E as [-> ?]. destruct (Hu j) as [E1 E2]. split.
  - rewrite E1. by destruct (update !!! j).
  - cbn. by rewrite length_insert.
Qed.

Lemma deriv_only_pdVar u u' : deriv_only u u' -> pdVar u' = pdVar u.
Proof. intros [-> _]. by destruct u. Qed.
Lemma deriv_only_iNumVars u u' : deriv_only u u' -> iNumVars u' = iNumVars u.
Proof. intros [-> _]. by destruct u. Qed.
Lemma deriv_only_iaType u u' : deriv_only u u' -> iaType u' = iaType u.
Proof. intros [-> _]. by destruct u. Qed.

Lemma is_value_type_derivs_only update update' i v :
  derivs_only update update' -> is_value_type update' i v = is_value_type update i v.
Proof. intros [_ Hu]. unfold is_value_type. by rewrite (deriv_only_iaType _ _ (Hu i)). Qed.

Lemma UpdateVariables_spec evolve dDt body update :
  update_ready (iNumBodies evolve) body update ->
  let bu := UpdateVariables evolve dDt body update in
  length bu.1 = length body
  /\ derivs_only update bu.2
  /\ forall i v, (i < iNumBodies evolve)%nat -> (v < iNumVars (update !!! i))%nat ->
       dbl (bu.1 !!! i) (pdVar (update !!! i) !!! v)
       = if is_value_type update i v
         then get3 (evolve_daDeriv evolve) 0 i v
         else dbl (body !!! i) (pdVar (update !!! i) !!! v)
              + 1 / 6 * (get3 (evolve_daDeriv evolve) 0 i v
                         + 2 * get3 (evolve_daDeriv evolve) 1 i v
                         + 2 * get3 (evolve_daDeriv evolve) 2 i v
                         + get3 (evolve_daDeriv evolve) 3 i v) * dDt.
Proof.
  intros (Hnb & Hnu & Hvars) bu.
  set (nb := iNumBodies evolve) in *. set (nv0 := fun i => iNumVars (update !!! i)).
  set (D := fun i v => 1 / 6 * (get3 (evolve_daDeriv evolve) 0 i v
                         + 2 * get3 (evolve_daDeriv evolve) 1 i v
                         + 2 * get3 (evolve_daDeriv evolve) 2 i v
                         + get3 (evolve_daDeriv evolve) 3 i v)).
  set (inv := fun s : list BODY * list UPDATE =>
    length s.1 = length body /\ derivs_only update s.2).
  set (f := fun (iBody iVar : nat) (bu : list BODY * list UPDATE) =>
      let body := bu.1 in
      let update := store_Deriv iBody iVar (D iBody iVar) bu.2 in
      if is_value_type update iBody iVar then
        (store_d iBody (pdVar (update !!! iBody) !!! iVar)
                 (get3 (evolve_daDeriv evolve) 0 iBody iVar) body, update)
      else
        (store_d iBody (pdVar (update !!! iBody) !!! iVar)
                 (dbl (body !!! iBody) (pdVar (update !!! iBody) !!! iVar)
                  + daDeriv (update !!! iBody) !!! iVar * dDt) body, update)).
  assert (Hf : forall i v s, inv s -> (i < nb)%nat -> (v < nv0 i)%nat ->
    f i v s = (store_d i (pdVar (update !!! i) !!! v)
                 (if is_value_type update i v then get3 (evolve_daDeriv evolve) 0 i v
                  else dbl (s.1 !!! i) (pdVar (update !!! i) !!! v) + D i v * dDt) s.1,
               store_Deriv i v (D i v) s.2)).
  { intros i v s [Hl Hd] Hi Hv. unfold f. cbv zeta.
    pose proof (derivs_only_store i v (D i v) _ _ Hd) as Hd'.
    rewrite (is_value_type_derivs_only _ _ _ _ Hd').
    rewrite (deriv_only_pdVar _ _ (proj2 Hd' i)).
    destruct (is_value_type update i v); [done|].
    do 3 f_equal. unfold store_Deriv.
    destruct Hd as [Hl2 Hd]. destruct (Hd i) as [_ Hlen].
    destruct (Hvars i Hi) as (? & _).
    rewrite list_lookup_total_alter_eq by lia. cbn.
    rewrite list_lookup_total_insert_eq; [done|]. unfold nv0 in Hv. lia. }
  destruct (for_loop2_pointwise nb (fun i s => iNumVars (s.2 !!! i)) nv0 f inv
              (fun i v s => dbl (s.1 !!! i) (pdVar (update !!! i) !!! v))
              (fun i v x => if is_value_type update i v
                            then get3 (evolve_daDeriv evolve) 0 i v
                            else x + D i v * dDt) (body, update))
    as [[Ha Hb] Hc].
  - split; [done|apply derivs_only_refl].
  - intros i s [_ [_ Hd]]. by rewrite (deriv_only_iNumVars _ _ (Hd i)).
  - intros i v s Hi Hv Hs. rewrite Hf by done. destruct Hs as [Hl Hd]. split.
    + cbn. by rewrite length_store_d.
    + cbn. by apply derivs_only_store.
  - intros i v s Hi Hv Hs. rewrite Hf by done. destruct Hs as [Hl Hd]. cbn [fst].
    rewrite dbl_store_d_eq by lia. by destruct (is_value_type update i v).
  - intros i v i' v' s Hi Hv Hi' Hv' Hne Hs. rewrite Hf by done. cbn [fst].
    destruct (decide (i' = i)) as [->|Hi'']; [|by rewrite lookup_store_d_ne].
    apply dbl_store_d_other. intros Heq.
    destruct (Hvars i Hi) as (_ & Hlen & Hnd).
    assert (v' = v); [|congruence].
    eapply (NoDup_lookup _ _ _ _ Hnd).
    + apply list_lookup_lookup_total_lt. unfold nv0 in *. lia.
    + rewrite Heq. apply list_lookup_lookup_total_lt. unfold nv0 in *. lia.
  - split; [done|]. split; [done|]. intros i v Hi Hv.
    unfold bu, UpdateVariables. fold nb. fold D in Hc |- *.
    change (for_loop nb _ (body, update))
      with (for_loop nb (fun i s => for_loop (iNumVars (s.2 !!! i)) (fun v s => f i v s) s)
                     (body, update)).
    rewrite Hc by done. destruct (is_value_type update i v); [done|].
    f_equal. 
Qed.

(** ** What [fdGetTimeStep] leaves alone *)

Lemma set_daDerivProc_id u : set_daDerivProc (daDerivProc u) u = u.
Proof. by destruct u. Qed.

Lemma set_daDerivProc_twice p q u :
  set_daDerivProc p (set_daDerivProc q u) = set_daDerivProc p u.
Proof. done. Qed.

Lemma procs_only_refl update : procs_only update update.
Proof. split; [done|]. intros i. by rewrite set_daDerivProc_id. Qed.

Lemma procs_only_trans u1 u2 u3 : procs_only u1 u2 -> procs_only u2 u3 -> procs_only u1 u3.
Proof.
  intros [L1 H1] [L2 H2]. split; [congruence|]. intros i.
  etrans; [apply H2|]. rewrite (H1 i). apply set_daDerivProc_twice.
Qed.

Lemma procs_only_store i v e d update : procs_only update (store_DerivProc i v e d update).
Proof.
  unfold store_DerivProc. split; [by rewrite length_alter|]. intros j.
  rewrite list_lookup_total_alter. case_decide as E; [destruct E as [-> ?]|].
  - done.
  - by rewrite set_daDerivProc_id.
Qed.

Lemma procs_only_iaType u u' i : procs_only u u' -> iaType (u' !!! i) = iaType (u !!! i).
Proof. intros [_ Hu]. by rewrite (Hu i). Qed.

Lemma procs_only_iNumVars u u' i : procs_only u u' -> iNumVars (u' !!! i) = iNumVars (u !!! i).
Proof. intros [_ Hu]. by rewrite (Hu i). Qed.

Lemma procs_only_iNumEqns u u' i : procs_only u u' -> iNumEqns (u' !!! i) = iNumEqns (u !!! i).
Proof. intros [_ Hu]. by rewrite (Hu i). Qed.

Lemma row_store_ne i v e d update i' v' :
  (i', v') <> (i, v) -> row (store_DerivProc i v e d update) i' v' = row update i' v'.
Proof.
  intros Hne. unfold row, store_DerivProc.
  rewrite list_lookup_total_alter. case_decide as E; [destruct E as [-> ?]|done].
  cbn. rewrite list_lookup_total_alter_ne; [done|]. congruence.
Qed.

Lemma first_only_refl c : first_only c c.
Proof. unfold first_only. destruct c as [e ? ? ? ? ?]. by destruct e. Qed.

Lemma first_only_clear c c' :
  first_only c c' -> first_only c (set_Evolve (set_bFirstStep 0 (Evolve c')) c').
Proof. unfold first_only. intros ->. destruct c as [e ? ? ? ? ?]. by destruct e. Qed.

Lemma first_only_trans c1 c2 c3 : first_only c1 c2 -> first_only c2 c3 -> first_only c1 c3.
Proof.
  unfold first_only. intros E1 E2. rewrite E2. rewrite E1 at 1 2.
  destruct c1 as [e ? ? ? ? ?]. by destruct e.
Qed.

Section GetTimeStepFrame.
Context `{Libm} `{PhysConst} `{VplanetH}.

Lemma ts_frame_refl i v st : ts_frame i v st st.
Proof. split; [apply procs_only_refl|]. split; [apply first_only_refl|done]. Qed.

Lemma EvalEqn_frame fnUpdate system i v e body update body' update' :
  EvalEqn fnUpdate system i v e (body, update) = Ret (body', update') ->
  procs_only update update'
  /\ forall i' v', (i', v') <> (i, v) -> row update' i' v' = row update i' v'.
Proof.
  unfold EvalEqn.
  destruct ((((fnUpdate !!! i) !!! v) !!! e) body system _) as [[d b1]|]; [|done].
  cbn. intros [= <- <-]. split; [apply procs_only_store|].
  intros; by apply row_store_ne.
Qed.

Lemma EvalEqns_frame fnUpdate system i v body update body' update' :
  EvalEqns fnUpdate system i v (body, update) = Ret (body', update') ->
  procs_only update update'
  /\ forall i' v', (i', v') <> (i, v) -> row update' i' v' = row update i' v'.
Proof.
  unfold EvalEqns. cbn [snd].
  intros Hrun.
  eapply (for_loopM_ind (fun _ (s : list BODY * list UPDATE) =>
           procs_only update s.2
           /\ forall i' v', (i', v') <> (i, v) -> row s.2 i' v' = row update i' v'))
    in Hrun; [done| |].
  { split; [apply procs_only_refl|done]. }
  intros e [b1 u1] [b2 u2] _ [Hp Hr] Hstep. cbn [snd] in *.
  apply EvalEqn_frame in Hstep as [Hp' Hr']. split; [by eapply procs_only_trans|].
  intros i' v' Hne. rewrite Hr' by done. by apply Hr.
Qed.

Lemma ts_frame_trans i v s1 s2 s3 :
  ts_frame i v s1 s2 -> ts_frame i v s2 s3 -> ts_frame i v s1 s3.
Proof.
  intros (P1 & F1 & R1) (P2 & F2 & R2).
  split; [by eapply procs_only_trans|]. split; [by eapply first_only_trans|].
  intros i' v' Hne. rewrite R2 by done. by apply R1.
Qed.

Lemma ts_frame_eval i v body control update dMin body' control' update' dMin' :
  procs_only update update' ->
  (forall i' v', (i', v') <> (i, v) -> row update' i' v' = row update i' v') ->
  first_only control control' ->
  ts_frame i v (mkTimeStepState body control update dMin)
               (mkTimeStepState body' control' update' dMin').
Proof. intros. unfold ts_frame. cbn. done. Qed.

Ltac run_inv H :=
  repeat
    lazymatch type of H with
    | (if ?c then _ else _) = Ret _ => destruct c eqn:?
    | mbind _ ?m = Ret _ =>
        let E := fresh "E" in
        destruct m as [[? ?]|] eqn:E; [cbn [mbind outcome_bind] in H | discriminate H]
    | Ret _ = Ret _ => injection H as <-
    end.

Lemma fdGetTimeStep_var_frame home integr system fnUpdate i v st st' :
  fdGetTimeStep_var home integr system fnUpdate i v st = Ret st' ->
  ts_frame i v st st'
  /\ ((iaType (ts_update st !!! i) !!! v) !!! 0%nat = 10%Z ->
      row (ts_update st') i v = row (ts_update st) i v).
Proof.
  destruct st as [body control update dMin]. unfold fdGetTimeStep_var. cbn [ts_update].
  set (t0 := (iaType (update !!! i) !!! v) !!! 0%nat).
  intros Hrun.
  destruct (t0 =? 0)%Z eqn:T0.
  { apply Z.eqb_eq in T0. split; [|intros; lia].
    run_inv Hrun; apply EvalEqns_frame in E as [? ?]; apply ts_frame_eval; try done;
      first [apply first_only_refl | apply first_only_clear, first_only_refl]. }
  destruct (t0 =? 5)%Z eqn:T5.
  { apply Z.eqb_eq in T5. split; [|intros; lia].
    run_inv Hrun; apply EvalEqns_frame in E as [? ?]; apply ts_frame_eval; try done;
      apply first_only_refl. }
  destruct (t0 =? 10)%Z eqn:T10.
  { run_inv Hrun. split; [|done].
    apply ts_frame_eval; [apply procs_only_refl|done|apply first_only_refl]. }
  destruct (t0 =? 3)%Z eqn:T3.
  { apply Z.eqb_eq in T3. split; [|intros; lia].
    run_inv Hrun; apply EvalEqns_frame in E as [? ?]; apply ts_frame_eval; try done;
      first [apply first_only_refl | apply first_only_clear, first_only_refl]. }
  apply Z.eqb_neq in T10. split; [|intros; lia].
  eapply (for_loopM_ind (fun _ s => ts_frame i v (mkTimeStepState body control update dMin) s))
    in Hrun; [done|apply ts_frame_refl|].
  clear. intros e [b1 c1 u1 m1] s2 _ Hfr Hstep.
  eapply ts_frame_trans; [done|]. clear Hfr.
  run_inv Hstep;
    try (apply EvalEqn_frame in E as [? ?]);
    apply ts_frame_eval; try done;
    first [apply first_only_refl | apply procs_only_refl].
Qed.

Lemma fdGetTimeStep_frame body home control system update fnUpdate
    dMin body' control' update' :
  fdGetTimeStep body home control system update fnUpdate
    = Ret (dMin, body', control', update') ->
  procs_only update update'
  /\ first_only control control'
  /\ forall i v, (iaType (update !!! i) !!! v) !!! 0%nat = 10%Z ->
       row update' i v = row update i v.
Proof.
  unfold fdGetTimeStep. intros Hrun.
  set (G := fun st : TimeStepState =>
    procs_only update (ts_update st) /\ first_only control (ts_control st)
    /\ forall i v, (iaType (update !!! i) !!! v) !!! 0%nat = 10%Z ->
         row (ts_update st) i v = row update i v).
  assert (Hvar : forall i v st st',
             G st ->
             fdGetTimeStep_var home (Evolve control) system fnUpdate i v st = Ret st' ->
             G st').
  { intros i v st st' (Gp & Gf & Gr) Hstep.
    apply fdGetTimeStep_var_frame in Hstep as ((Fp & Ff & Fr) & F10).
    split; [by eapply procs_only_trans|]. split; [by eapply first_only_trans|].
    intros i' v' Ht. destruct (decide ((i', v') = (i, v))) as [[= -> ->]|Hne].
    - rewrite F10; [by apply Gr|]. by rewrite (procs_only_iaType _ _ _ Gp).
    - rewrite Fr by done. by apply Gr. }
  destruct (for_loopM _ _ _) as [st|] eqn:E; [|done].
  cbn in Hrun. injection Hrun as <- <- <- <-.
  cut (G st); [done|].
  eapply (for_loopM_ind (fun _ s => G s)) in E; [done| |].
  { split; [apply procs_only_refl|]. split; [apply first_only_refl|done]. }
  intros i s1 s2 _ HG Hstep. cbv beta in Hstep.
  destruct (0 <? iNumVars (ts_update s1 !!! i))%nat; [|by injection Hstep as <-].
  eapply (for_loopM_ind (fun _ s => G s)) in Hstep; [done|done|].
  intros v s3 s4 _ HG3 Hstep3. by eapply Hvar.
Qed.

End GetTimeStepFrame.

(** ** The step as a whole *)

Section StepProperties.
Context `{Libm} `{PhysConst} `{VplanetH}.

Lemma rk4_midpoint_spec k step system fnUpdate iDir s s' :
  (k < 4)%nat ->
  has_room (iNumBodies (Evolve (st_control s))) (nvars (st_update s))
           (evolve_daDeriv (Evolve (st_control s))) ->
  rk4_midpoint k step system fnUpdate iDir s = Ret s' ->
  stage_ok k iDir (iNumBodies (Evolve (st_control s))) s s'.
Proof.
  intros Hk Hroom Hrun. destruct s as [body control update dDt stderr].
  unfold rk4_midpoint in Hrun. cbn [st_control st_update st_body st_dDt] in *.
  destruct (PropertiesAuxiliary _ _ _) as [tb msg].
  destruct (fdGetUpdateInfo _ _ _ _ _) as [[tb' tu']|]; [|done].
  cbn [mbind outcome_bind] in Hrun. injection Hrun as <-.
  cbn [st_control st_update st_body st_dDt Evolve set_Evolve].
  set (e1 := set_tmpUpdate tu' _).
  assert (Hnb : iNumBodies e1 = iNumBodies (Evolve control)) by done.
  assert (Hd : evolve_daDeriv e1 = evolve_daDeriv (Evolve control)) by done.
  assert (Htu : tmpUpdate e1 = tu') by done.
  destruct (AdvanceTmpBody_spec k step iDir body update e1) as (R1 & R2 & R3 & R4);
    [done|rewrite Hnb, Hd; exact Hroom|].
  rewrite Hnb in R1, R4.
  split; cbn [st_control st_update st_body st_dDt Evolve set_Evolve].
  - done.
  - done.
  - done.
  - by rewrite (scratch_only_iNumBodies _ _ R2).
  - exact R1.
  - intros. by rewrite R3.
  - intros i v Hi Hv. rewrite R4 by done. unfold StageSum, row.
    cbn [st_control Evolve set_Evolve]. by rewrite (scratch_only_tmpUpdate _ _ R2).
Qed.

Lemma first_only_fields c c' :
  first_only c c' ->
  Io c' = Io c
  /\ iNumBodies (Evolve c') = iNumBodies (Evolve c)
  /\ bVarDt (Evolve c') = bVarDt (Evolve c)
  /\ dTimeStep (Evolve c') = dTimeStep (Evolve c)
  /\ dTime (Evolve c') = dTime (Evolve c)
  /\ dEta (Evolve c') = dEta (Evolve c)
  /\ evolve_daDeriv (Evolve c') = evolve_daDeriv (Evolve c).
Proof. unfold first_only. intros ->. done. Qed.

Lemma rk4_start_spec body control system update fnUpdate iDir s0 :
  let nb := iNumBodies (Evolve control) in
  let tb0 := BodyCopy (tmpBody (Evolve control)) body (Evolve control) in
  let control0 := set_Evolve (set_tmpBody tb0 (Evolve control)) control in
  has_room nb (nvars update) (evolve_daDeriv (Evolve control)) ->
  rk4_start body control system update fnUpdate iDir = Ret s0 ->
  exists dMin control1 tu1,
    fdGetTimeStep body (InArray tb0) control0 system (tmpUpdate (Evolve control)) fnUpdate
      = Ret (dMin, st_body s0, control1, tu1)
    /\ st_update s0 = update
    /\ st_dDt s0 = ChooseDt control dMin
    /\ dCurrentDt (Evolve (st_control s0)) = st_dDt s0
    /\ tmpUpdate (Evolve (st_control s0)) = tu1
    /\ iNumBodies (Evolve (st_control s0)) = nb
    /\ has_room nb (nvars update) (evolve_daDeriv (Evolve (st_control s0)))
    /\ (forall k' i v, k' <> 0%nat ->
          get3 (evolve_daDeriv (Evolve (st_control s0))) k' i v
          = get3 (evolve_daDeriv (Evolve control)) k' i v)
    /\ (forall i v, (i < nb)%nat -> (v < nvars update i)%nat ->
          get3 (evolve_daDeriv (Evolve (st_control s0))) 0 i v = StageSum iDir update s0 i v).
Proof.
  intros nb tb0 control0 Hroom Hrun. unfold rk4_start in Hrun.
  fold tb0 in Hrun. fold control0 in Hrun.
  change (tmpBody (Evolve control0)) with tb0 in Hrun.
  change (tmpUpdate (Evolve control0)) with (tmpUpdate (Evolve control)) in Hrun.
  destruct (fdGetTimeStep _ _ _ _ _ _) as [[[[dMin body1] control1] tu1]|] eqn:E; [|done].
  cbn [mbind outcome_bind] in Hrun. injection Hrun as <-.
  cbn [st_control st_update st_body st_dDt Evolve set_Evolve].
  exists dMin, control1, tu1. split; [done|].
  apply fdGetTimeStep_frame in E as (_ & Hfirst & _).
  apply first_only_fields in Hfirst as (HIo & Hnb & HVar & HTs & HTime & HEta & HD).
  cbn [Evolve set_Evolve Io] in *.
  set (dDt := if truthy _ then _ else _).
  assert (HdDt : dDt = ChooseDt control dMin).
  { unfold dDt, ChooseDt. cbn. by rewrite HIo, HVar, HTs, HTime, HEta. }
  set (e1 := set_dCurrentDt dDt _).
  assert (Hnb1 : iNumBodies e1 = nb) by (cbn; by rewrite Hnb).
  assert (Hd1 : evolve_daDeriv e1 = evolve_daDeriv (Evolve control)) by (cbn; by rewrite HD).
  destruct (AdvanceTmpBody_spec 0 (fun d => 0.5 * dDt * d) iDir body1 update e1)
    as (R1 & R2 & R3 & R4); [lia|rewrite Hnb1, Hd1; exact Hroom|].
  rewrite Hnb1 in R1, R4.
  split; [done|]. split; [done|].
  split. { rewrite R2. cbn. done. }
  split. { by rewrite (scratch_only_tmpUpdate _ _ R2). }
  split. { by rewrite (scratch_only_iNumBodies _ _ R2). }
  split; [exact R1|].
  split. { intros. rewrite R3 by done. by rewrite Hd1. }
  intros i v Hi Hv. rewrite R4 by done. unfold StageSum, row.
  cbn [st_control Evolve set_Evolve]. by rewrite (scratch_only_tmpUpdate _ _ R2).
Qed.

Lemma rk4_fullstep_spec system fnUpdate iDir s s' :
  has_room (iNumBodies (Evolve (st_control s))) (nvars (st_update s))
           (evolve_daDeriv (Evolve (st_control s))) ->
  rk4_fullstep system fnUpdate iDir s = Ret s' ->
  st_body s' = st_body s /\ st_update s' = st_update s /\ st_dDt s' = st_dDt s
  /\ iNumBodies (Evolve (st_control s')) = iNumBodies (Evolve (st_control s))
  /\ (forall k' i v, k' <> 3%nat ->
        get3 (evolve_daDeriv (Evolve (st_control s'))) k' i v
        = get3 (evolve_daDeriv (Evolve (st_control s))) k' i v)
  /\ (forall i v, (i < iNumBodies (Evolve (st_control s)))%nat ->
        (v < nvars (st_update s) i)%nat ->
        get3 (evolve_daDeriv (Evolve (st_control s'))) 3 i v
        = if is_value_type (st_update s) i v
          then get3 (evolve_daDeriv (Evolve (st_control s))) 3 i v
          else StageSum iDir (st_update s) s' i v).
Proof.
  intros Hroom Hrun. destruct s as [body control update dDt stderr].
  unfold rk4_fullstep in Hrun. cbn [st_control st_update st_body st_dDt] in *.
  destruct (PropertiesAuxiliary _ _ _) as [tb msg].
  destruct (fdGetUpdateInfo _ _ _ _ _) as [[tb' tu']|]; [|done].
  cbn [mbind outcome_bind] in Hrun. injection Hrun as <-.
  cbn [st_control st_update st_body st_dDt Evolve set_Evolve].
  set (e1 := set_tmpUpdate tu' _).
  assert (Hnb : iNumBodies e1 = iNumBodies (Evolve control)) by done.
  assert (Hd : evolve_daDeriv e1 = evolve_daDeriv (Evolve control)) by done.
  destruct (SumFullStep_spec iDir update e1) as (R1 & R2 & _ & R3 & R4);
    [rewrite Hnb, Hd; exact Hroom|].
  rewrite Hnb in R1, R4.
  do 3 (split; [done|]).
  split. { by rewrite (scratch_only_iNumBodies _ _ R2). }
  split. { intros. by rewrite R3. }
  intros i v Hi Hv. rewrite R4 by done. rewrite Hd.
  destruct (is_value_type update i v); [done|].
  unfold StageSum, row.
  cbn [st_control Evolve set_Evolve]. by rewrite (scratch_only_tmpUpdate _ _ R2).
Qed.

Lemma SumDeriv_dCurrentDt k iDir update i v e :
  dCurrentDt (SumDeriv k iDir update i v e) = dCurrentDt e.
Proof. unfold SumDeriv. by apply (for_loop_ind (fun _ e1 => dCurrentDt e1 = dCurrentDt e)). Qed.

Lemma AdvanceTmpBody_dCurrentDt k step iDir body update e :
  dCurrentDt (AdvanceTmpBody k step iDir body update e) = dCurrentDt e.
Proof.
  unfold AdvanceTmpBody.
  apply (for_loop_ind (fun _ e1 => dCurrentDt e1 = dCurrentDt e)); [done|].
  intros i e1 _ IH.
  apply (for_loop_ind (fun _ e2 => dCurrentDt e2 = dCurrentDt e)); [done|].
  intros v e2 _ IH2. cbv zeta.
  destruct (is_value_type update i v); cbn; by rewrite SumDeriv_dCurrentDt.
Qed.

Lemma SumFullStep_dCurrentDt iDir update e :
  dCurrentDt (SumFullStep iDir update e) = dCurrentDt e.
Proof.
  unfold SumFullStep.
  apply (for_loop_ind (fun _ e1 => dCurrentDt e1 = dCurrentDt e)); [done|].
  intros i e1 _ IH.
  apply (for_loop_ind (fun _ e2 => dCurrentDt e2 = dCurrentDt e)); [done|].
  intros v e2 _ IH2.
  destruct (is_value_type update i v); [done|]. by rewrite SumDeriv_dCurrentDt.
Qed.

(** The step and its record survive the later stages *)
Lemma rk4_midpoint_dDt k step system fnUpdate iDir s s' :
  rk4_midpoint k step system fnUpdate iDir s = Ret s' ->
  st_dDt s' = st_dDt s
  /\ dCurrentDt (Evolve (st_control s')) = dCurrentDt (Evolve (st_control s)).
Proof.
  destruct s as [body control update dDt stderr]. unfold rk4_midpoint.
  destruct (PropertiesAuxiliary _ _ _) as [tb msg].
  destruct (fdGetUpdateInfo _ _ _ _ _) as [[tb' tu']|]; [|done].
  cbn [mbind outcome_bind]. intros [= <-]. split; [done|].
  cbn [st_control Evolve set_Evolve]. by rewrite AdvanceTmpBody_dCurrentDt.
Qed.

Lemma rk4_fullstep_dDt system fnUpdate iDir s s' :
  rk4_fullstep system fnUpdate iDir s = Ret s' ->
  st_dDt s' = st_dDt s
  /\ dCurrentDt (Evolve (st_control s')) = dCurrentDt (Evolve (st_control s)).
Proof.
  destruct s as [body control update dDt stderr]. unfold rk4_fullstep.
  destruct (PropertiesAuxiliary _ _ _) as [tb msg].
  destruct (fdGetUpdateInfo _ _ _ _ _) as [[tb' tu']|]; [|done].
  cbn [mbind outcome_bind]. intros [= <-]. split; [done|].
  cbn [st_control Evolve set_Evolve]. by rewrite SumFullStep_dCurrentDt.
Qed.

Lemma rk4_start_dDt body control system update fnUpdate iDir s0 :
  let tb0 := BodyCopy (tmpBody (Evolve control)) body (Evolve control) in
  let control0 := set_Evolve (set_tmpBody tb0 (Evolve control)) control in
  rk4_start body control system update fnUpdate iDir = Ret s0 ->
  exists dMin control1 tu1,
    fdGetTimeStep body (InArray tb0) control0 system (tmpUpdate (Evolve control)) fnUpdate
      = Ret (dMin, st_body s0, control1, tu1)
    /\ st_dDt s0 = ChooseDt control dMin
    /\ dCurrentDt (Evolve (st_control s0)) = st_dDt s0.
Proof.
  intros tb0 control0 Hrun. unfold rk4_start in Hrun.
  fold tb0 in Hrun. fold control0 in Hrun.
  change (tmpBody (Evolve control0)) with tb0 in Hrun.
  change (tmpUpdate (Evolve control0)) with (tmpUpdate (Evolve control)) in Hrun.
  destruct (fdGetTimeStep _ _ _ _ _ _) as [[[[dMin body1] control1] tu1]|] eqn:E; [|done].
  cbn [mbind outcome_bind] in Hrun. injection Hrun as <-.
  cbn [st_control st_update st_body st_dDt Evolve set_Evolve].
  exists dMin, control1, tu1. split; [done|].
  apply fdGetTimeStep_frame in E as (_ & Hfirst & _).
  apply first_only_fields in Hfirst as (HIo & Hnb & HVar & HTs & HTime & HEta & HD).
  cbn [Evolve set_Evolve Io] in *.
  rewrite AdvanceTmpBody_dCurrentDt.
  split; [|done].
  unfold ChooseDt. cbn. by rewrite HIo, HVar, HTs, HTime, HEta.
Qed.

Lemma RungeKutta4Step_stages body control system update fnUpdate iDir s :
  RungeKutta4Step body control system update fnUpdate iDir = Ret s ->
  exists s0 s1 s2 s3,
    rk4_start body control system update fnUpdate iDir = Ret s0
    /\ rk4_midpoint 1 (fun d => 0.5 * st_dDt s0 * d) system fnUpdate iDir s0 = Ret s1
    /\ rk4_midpoint 2 (fun d => st_dDt s1 * d) system fnUpdate iDir s1 = Ret s2
    /\ rk4_fullstep system fnUpdate iDir s2 = Ret s3
    /\ s = rk4_update s3.
Proof.
  unfold RungeKutta4Step. intros Hrun.
  destruct (rk4_start _ _ _ _ _ _) as [s0|]; [|done]. cbn [mbind outcome_bind] in Hrun.
  destruct (rk4_midpoint 1 _ _ _ _ _) as [s1|] eqn:E1; [|done].
  cbn [mbind outcome_bind] in Hrun.
  destruct (rk4_midpoint 2 _ _ _ _ _) as [s2|] eqn:E2; [|done].
  cbn [mbind outcome_bind] in Hrun.
  destruct (rk4_fullstep _ _ _ _) as [s3|] eqn:E3; [|done].
  cbn [mbind outcome_bind] in Hrun. injection Hrun as <-.
  by exists s0, s1, s2, s3.
Qed.

Lemma AssignDt_min dMin dNextOutput dEta :
  AssignDt dMin dNextOutput dEta = Qmin (dEta * dMin) dNextOutput
  /\ AssignDt dMin dNextOutput dEta <= dEta * dMin
  /\ AssignDt dMin dNextOutput dEta <= dNextOutput.
Proof.
  unfold AssignDt. cbv zeta.
  destruct (Qltb dNextOutput (dEta * dMin)) eqn:E.
  - apply Qltb_true in E. split; [|split; lra].
    unfold Qmin, GenericMinMax.gmin.
    destruct (Qcompare_spec (dEta * dMin) dNextOutput); try done; exfalso; lra.
  - apply Qltb_false in E. split; [|split; lra].
    unfold Qmin, GenericMinMax.gmin.
    destruct (Qcompare_spec (dEta * dMin) dNextOutput); try done; exfalso; lra.
Qed.

Lemma UpdateVariables_length evolve dDt body update :
  length (UpdateVariables evolve dDt body update).1 = length body.
Proof.
  unfold UpdateVariables.
  apply (for_loop_ind (fun _ (bu : list BODY * list UPDATE) => length bu.1 = length body));
    [done|].
  intros i bu _ IH.
  apply (for_loop_ind (fun _ (bu : list BODY * list UPDATE) => length bu.1 = length body));
    [done|].
  intros v bu2 _ IH2. cbv zeta.
  destruct (is_value_type _ i v); cbn [fst]; by rewrite length_store_d.
Qed.

(** The step in terms of the scratch slots.  A step that returns went
    through the four derivative evaluations, which leave the states
    [s0..s3]; [f0..f3] are, for each variable, the sums over its equations of
    [iDir] times the scratch value that the evaluation left in
    [evolve->tmpUpdate].  A variable whose kind is not 0, 3 or 10 is moved
    from the value it has after the first evaluation by
    [dt * (f0 + 2 f1 + 2 f2 + f3) / 6].  A variable of kind 0, 3 or 10 is
    assigned [f0], and [evolve->daDeriv[3]] keeps for it the value it had
    before the step; when [evolve->tmpUpdate] tags it 10, [f0] is the sum of
    the scratch values that [evolve->tmpUpdate] held when the step began.
    The arrays are as the C program allocates them. *)
Lemma RungeKutta4Step_sums (body : list BODY) (control : CONTROL)
    (system : SYSTEM) (update : list UPDATE)
    (fnUpdate : list (list (list fnUpdateVariable))) (iDir : Z) (s : StepState) :
  let nb := iNumBodies (Evolve control) in
  RungeKutta4Step body control system update fnUpdate iDir = Ret s ->
  has_room nb (nvars update) (evolve_daDeriv (Evolve control)) ->
  update_ready nb (st_body s) update ->
  exists s0 s1 s2 s3,
    rk4_start body control system update fnUpdate iDir = Ret s0
    /\ rk4_midpoint 1 (fun d => 0.5 * st_dDt s0 * d) system fnUpdate iDir s0 = Ret s1
    /\ rk4_midpoint 2 (fun d => st_dDt s1 * d) system fnUpdate iDir s1 = Ret s2
    /\ rk4_fullstep system fnUpdate iDir s2 = Ret s3
    /\ s = rk4_update s3
    /\ forall i v, (i < nb)%nat -> (v < iNumVars (update !!! i))%nat ->
         let pd := pdVar (update !!! i) !!! v in
         let f0 := StageSum iDir update s0 i v in
         let f1 := StageSum iDir update s1 i v in
         let f2 := StageSum iDir update s2 i v in
         let f3 := StageSum iDir update s3 i v in
         if is_value_type update i v then
           dbl (st_body s !!! i) pd = f0
           /\ get3 (evolve_daDeriv (Evolve (st_control s))) 3 i v
              = get3 (evolve_daDeriv (Evolve control)) 3 i v
           /\ ((iaType (tmpUpdate (Evolve control) !!! i) !!! v) !!! 0%nat = 10%Z ->
               f0 = DirSum iDir (row (tmpUpdate (Evolve control)) i v)
                           (iNumEqns (update !!! i) !!! v))
         else
           dbl (st_body s !!! i) pd
           == dbl (st_body s0 !!! i) pd + st_dDt s * (f0 + 2 * f1 + 2 * f2 + f3) / 6.
Proof.
  intros nb Hrun Hroom Hready.
  destruct (RungeKutta4Step_stages _ _ _ _ _ _ _ Hrun) as (s0 & s1 & s2 & s3 & E0 & E1 & E2 & E3 & ->).
  exists s0, s1, s2, s3. do 5 (split; [done|]).
  destruct (rk4_start_spec _ _ _ _ _ _ _ Hroom E0)
    as (dMin & control1 & tu1 & Egts & U0 & _ & _ & T0 & N0 & R0 & O0 & S0).
  apply fdGetTimeStep_frame in Egts as (_ & _ & Hten).
  change (tmpUpdate (Evolve (set_Evolve _ control))) with (tmpUpdate (Evolve control)) in Hten.
  pose proof (fun Hk Hr => rk4_midpoint_spec 1 _ system fnUpdate iDir s0 s1 Hk Hr E1) as M1.
  rewrite N0, U0 in M1. specialize (M1 ltac:(lia) R0).
  destruct M1 as [B1 U1 D1 N1 R1 O1 S1]. rewrite U0 in U1, R1, S1.
  pose proof (fun Hk Hr => rk4_midpoint_spec 2 _ system fnUpdate iDir s1 s2 Hk Hr E2) as M2.
  rewrite N1, U1 in M2. specialize (M2 ltac:(lia) R1).
  destruct M2 as [B2 U2 D2 N2 R2 O2 S2]. rewrite U1 in U2, R2, S2.
  pose proof (fun Hr => rk4_fullstep_spec system fnUpdate iDir s2 s3 Hr E3) as M3.
  rewrite N2, U2 in M3. specialize (M3 R2).
  destruct M3 as (B3 & U3 & D3 & N3 & O3 & S3).
  destruct s3 as [body3 control3 update3 dDt3 stderr3].
  cbn [st_body st_control st_update st_dDt rk4_update] in *. subst update3.
  assert (Hlen : length (UpdateVariables (Evolve control3) dDt3 body3 update).1
                 = length body3) by apply UpdateVariables_length.
  destruct (UpdateVariables_spec (Evolve control3) dDt3 body3 update) as (_ & _ & HU).
  { rewrite N3. destruct Hready as (Hb & Hu & Hv). split; [lia|]. done. }
  intros i v Hi Hv.
  rewrite N3 in HU. specialize (HU i v Hi Hv).
  set (s3 := mkStepState body3 control3 update dDt3 stderr3) in *.
  assert (G0 : get3 (evolve_daDeriv (Evolve control3)) 0 i v = StageSum iDir update s0 i v).
  { rewrite O3, O2, O1 by lia. by apply S0. }
  assert (G1 : get3 (evolve_daDeriv (Evolve control3)) 1 i v = StageSum iDir update s1 i v).
  { rewrite O3, O2 by lia. by apply S1. }
  assert (G2 : get3 (evolve_daDeriv (Evolve control3)) 2 i v = StageSum iDir update s2 i v).
  { rewrite O3 by lia. by apply S2. }
  specialize (S3 i v Hi Hv).
  destruct (is_value_type update i v).
  - split; [by rewrite HU|]. split.
    + rewrite S3, O2, O1, O0 by lia. done.
    + intros Ht. unfold StageSum. rewrite T0. by rewrite Hten.
  - rewrite HU, G0, G1, G2, S3, B3, B2, B1. field.
Qed.

End StepProperties.

(** ** The timestep selector *)

Section TimeStepProperties.
Context `{Libm} `{PhysConst} `{VplanetH}.

Lemma rk4_update_dDt s :
  st_dDt (rk4_update s) = st_dDt s /\ st_control (rk4_update s) = st_control s.
Proof. by destruct s. Qed.

Lemma lower_min a b : lower a b == Qmin a b /\ lower a b <= a /\ lower a b <= b.
Proof.
  unfold lower. destruct (Qltb a b) eqn:E.
  - apply Qltb_true in E. rewrite Q.min_l by lra. lra.
  - apply Qltb_false in E. rewrite Q.min_r by lra. lra.
Qed.

(** C6, as amended.  A variable of kind VALUE (tag 0) takes part in the
    selection of the timestep.  Its turn in [fdGetTimeStep] evaluates its
    contributors; on the first step it sets the running minimum to
    [dTimeStep] and clears [bFirstStep]; afterwards, when the sum of the new
    values differs from the current value [x], it lowers the running minimum
    to [|x / ((x - sum) / dTimeStep)|], and leaves it alone when they are
    equal. *)
Theorem fdGetTimeStep_value_variable (home : pdVarHome) (integr : EVOLVE)
    (system : SYSTEM) (fnUpdate : list (list (list fnUpdateVariable)))
    (iBody iVar : nat) (st : TimeStepState) (body' : list BODY) (update' : list UPDATE) :
  (iaType (ts_update st !!! iBody) !!! iVar) !!! 0%nat = 0%Z ->
  EvalEqns fnUpdate system iBody iVar (ts_body st, ts_update st) = Ret (body', update') ->
  let dVarNow := deref home (ts_body st) (ts_update st) iBody iVar in
  let dVarTotal := SumEqns update' iBody iVar in
  let tau := Qabs (dVarNow / ((dVarNow - dVarTotal) / dTimeStep integr)) in
  exists st',
    fdGetTimeStep_var home integr system fnUpdate iBody iVar st = Ret st'
    /\ ts_body st' = body' /\ ts_update st' = update'
    /\ (truthy (bFirstStep (Evolve (ts_control st))) = true ->
        ts_dMin st' = dTimeStep integr
        /\ bFirstStep (Evolve (ts_control st')) = 0%Z)
    /\ (truthy (bFirstStep (Evolve (ts_control st))) = false ->
        ts_control st' = ts_control st
        /\ (~ dVarNow == dVarTotal ->
            ts_dMin st' == Qmin tau (ts_dMin st) /\ ts_dMin st' <= tau)
        /\ (dVarNow == dVarTotal -> ts_dMin st' = ts_dMin st)).
Proof.
  destruct st as [body control update dMin]. cbn [ts_body ts_update ts_control ts_dMin].
  intros Ht He.
  set (dVarNow := deref home body update iBody iVar).
  set (dVarTotal := SumEqns update' iBody iVar).
  set (tau := Qabs _).
  unfold fdGetTimeStep_var. rewrite Ht, Z.eqb_refl, He. cbn [mbind outcome_bind].
  destruct (truthy (bFirstStep (Evolve control))) eqn:Ef.
  - eexists. split; [reflexivity|]. cbn. repeat split; done.
  - fold dVarNow. fold dVarTotal.
    destruct (Qeq_bool dVarNow dVarTotal) eqn:Eq; cbn [negb].
    + apply Qeq_bool_iff in Eq.
      eexists. split; [reflexivity|]. cbn [ts_body ts_update ts_control ts_dMin].
      repeat split; done.
    + apply Qeq_bool_neq in Eq.
      eexists. split; [reflexivity|]. cbn [ts_body ts_update ts_control ts_dMin].
      fold tau. destruct (lower_min tau dMin) as (Hm & Hl & _).
      repeat split; done.
Qed.

End TimeStepProperties.

(** ** The choice of the step *)

Section StepChoice.
Context `{Libm} `{PhysConst} `{VplanetH}.

Lemma EulerStep_dDt body control system update fnUpdate dDt iDir s :
  truthy (bVarDt (Evolve control)) = true ->
  EulerStep body control system update fnUpdate dDt iDir = Ret s ->
  exists dMin body1 control1 update1,
    fdGetTimeStep body InBodyArgument control system update fnUpdate
      = Ret (dMin, body1, control1, update1)
    /\ st_dDt s = ChooseDt control dMin.
Proof.
  intros HVar Hrun. unfold EulerStep in Hrun. rewrite HVar in Hrun. cbv zeta in Hrun.
  destruct (fdGetTimeStep _ _ _ _ _ _) as [[[[dMin body1] control1] update1]|] eqn:E; [|done].
  cbn [mbind outcome_bind] in Hrun. injection Hrun as <-. cbn [st_dDt].
  exists dMin, body1, control1, update1. split; [done|].
  apply fdGetTimeStep_frame in E as (_ & Hfirst & _).
  apply first_only_fields in Hfirst as (HIo & Hnb & HV & HTs & HTime & HEta & HD).
  unfold ChooseDt. by rewrite HVar, HTime, HEta.
Qed.

(** C2.  [AssignDt] returns the smaller of [dEta * dMin] and
    [dNextOutput].  With variable timestepping, the step that [EulerStep]
    and [RungeKutta4Step] take is that minimum for the [dMin] that
    [fdGetTimeStep] returned and the time left to the next output, so it is
    at most each of them. *)
Theorem timestep_bound (body : list BODY) (control : CONTROL)
    (system : SYSTEM) (update : list UPDATE)
    (fnUpdate : list (list (list fnUpdateVariable))) (dDt : Q) (iDir : Z) :
  truthy (bVarDt (Evolve control)) = true ->
  let eta := dEta (Evolve control) in
  let dNextOutput :=
    fdNextOutput (dTime (Evolve control)) (dOutputTime (Io control))
    - dTime (Evolve control) in
  let tb0 := BodyCopy (tmpBody (Evolve control)) body (Evolve control) in
  let control0 := set_Evolve (set_tmpBody tb0 (Evolve control)) control in
  (forall dMin dNextOutput dEta : Q,
      AssignDt dMin dNextOutput dEta = Qmin (dEta * dMin) dNextOutput)
  /\ (forall s, EulerStep body control system update fnUpdate dDt iDir = Ret s ->
      exists dMin body1 control1 update1,
        fdGetTimeStep body InBodyArgument control system update fnUpdate
          = Ret (dMin, body1, control1, update1)
        /\ st_dDt s = Qmin (eta * dMin) dNextOutput
        /\ st_dDt s <= eta * dMin /\ st_dDt s <= dNextOutput)
  /\ (forall s, RungeKutta4Step body control system update fnUpdate iDir = Ret s ->
      exists dMin body1 control1 update1,
        fdGetTimeStep body (InArray tb0) control0 system (tmpUpdate (Evolve control)) fnUpdate
          = Ret (dMin, body1, control1, update1)
        /\ st_dDt s = Qmin (eta * dMin) dNextOutput
        /\ st_dDt s <= eta * dMin /\ st_dDt s <= dNextOutput
        /\ dCurrentDt (Evolve (st_control s)) = st_dDt s).
Proof.
  intros HVar eta dNextOutput tb0 control0.
  assert (Hchoose : forall dMin, ChooseDt control dMin = AssignDt dMin dNextOutput eta).
  { intros dMin. unfold ChooseDt. by rewrite HVar. }
  split; [intros; apply AssignDt_min|]. split.
  - intros s Hrun.
    apply EulerStep_dDt in Hrun as (dMin & body1 & control1 & update1 & Hts & Hdt); [|done].
    exists dMin, body1, control1, update1. split; [done|].
    rewrite Hdt, Hchoose. apply AssignDt_min.
  - intros s Hrun.
    apply RungeKutta4Step_stages in Hrun as (s0 & s1 & s2 & s3 & E0 & E1 & E2 & E3 & ->).
    apply rk4_start_dDt in E0 as (dMin & control1 & tu1 & Hts & Hdt & Hcur).
    apply rk4_midpoint_dDt in E1 as [D1 C1]. apply rk4_midpoint_dDt in E2 as [D2 C2].
    apply rk4_fullstep_dDt in E3 as [D3 C3].
    exists dMin, (st_body s0), control1, tu1. split; [exact Hts|].
    destruct (rk4_update_dDt s3) as [D4 C4].
    assert (Hs : st_dDt (rk4_update s3) = AssignDt dMin dNextOutput eta).
    { by rewrite D4, D3, D2, D1, Hdt, Hchoose. }
    destruct (AssignDt_min dMin dNextOutput eta) as (Hmin & Hle1 & Hle2).
    rewrite Hs. split; [exact Hmin|]. split; [exact Hle1|]. split; [exact Hle2|].
    by rewrite C4, C3, C2, C1, Hcur, Hdt, Hchoose.
Qed.

End StepChoice.

Lemma ages_settle_refl x : ages_settle x x.
Proof. by repeat split. Qed.

Lemma ages_settle_trans x y z : ages_settle x y -> ages_settle y z -> ages_settle x z.
Proof.
  intros (L1 & Z1 & S1) (L2 & Z2 & S2). repeat split.
  - congruence.
  - congruence.
  - intros j Hj. rewrite <- Z1. apply S2. rewrite Z1. by apply S1.
Qed.

Lemma keeps_ages_settle f body evolve io update iBody :
  keeps_ages f -> ages_settle body (f body evolve io update iBody).1.
Proof.
  intros Hk. destruct (Hk body evolve io update iBody) as [Hl Ha].
  repeat split; [done|apply Ha|]. intros j Hj. by rewrite Ha.
Qed.

Lemma dbl_store_d_age i f v body j :
  f <> dAge -> dbl (store_d i f v body !!! j) dAge = dbl (body !!! j) dAge.
Proof.
  intros Hf. unfold store_d. rewrite list_lookup_total_alter.
  case_decide as Hd; [|done]. destruct Hd as [-> _]. by apply dbl_setd_ne.
Qed.

(** * The auxiliary pass and the ages *)

Section AgeProperties.
Context `{Libm} `{PhysConst} `{VplanetH}.

Lemma fnPropsAuxAtmEsc_settle body evolve io update iBody :
  (iBody < length body)%nat ->
  ages_settle body (fnPropsAuxAtmEsc body evolve io update iBody).1
  /\ dbl ((fnPropsAuxAtmEsc body evolve io update iBody).1 !!! iBody) dAge
     = dbl (body !!! 0%nat) dAge.
Proof.
  intros Hi. destruct (fnPropsAuxAtmEsc_age body evolve io update iBody Hi) as (Hl & Ho & HP).
  split; [|done]. repeat split; [done| |].
  - destruct (decide (0%nat = iBody)) as [<-|Hne]; [done|]. by rewrite Ho.
  - intros j Hj. destruct (decide (j = iBody)) as [->|Hne]; [done|]. by rewrite Ho.
Qed.

Lemma fnPropsAuxStellar_keeps_ages : keeps_ages fnPropsAuxStellar.
Proof.
  intros body evolve io update iBody. unfold fnPropsAuxStellar. cbv zeta.
  repeat case_decide; repeat lazymatch goal with |- context [if ?c then _ else _] => destruct c end;
    cbn [fst]; (split; [by rewrite !length_store_d|]);
    intros j; by rewrite !dbl_store_d_age.
Qed.

Lemma PropsAuxGeneral_ages body control :
  length (PropsAuxGeneral body control) = length body
  /\ forall j, dbl (PropsAuxGeneral body control !!! j) dAge = dbl (body !!! j) dAge.
Proof.
  unfold PropsAuxGeneral.
  apply (for_loop_ind (fun _ (x : list BODY) =>
           length x = length body /\ forall j, dbl (x !!! j) dAge = dbl (body !!! j) dAge));
    [done|].
  intros i x _ [Hl Ha].
  destruct (_ && _); [|done]. split; [by rewrite length_store_d|].
  intros j. by rewrite dbl_store_d_age.
Qed.

Lemma hook_step body x (h : fnPropsAuxModule) evolve io update iBody :
  ages_settle body x -> (iBody < length body)%nat ->
  h = fnPropsAuxAtmEsc \/ keeps_ages h ->
  ages_settle body (h x evolve io update iBody).1
  /\ (forall j, dbl (x !!! j) dAge = dbl (body !!! 0%nat) dAge ->
                dbl ((h x evolve io update iBody).1 !!! j) dAge = dbl (body !!! 0%nat) dAge)
  /\ (h = fnPropsAuxAtmEsc ->
      dbl ((h x evolve io update iBody).1 !!! iBody) dAge = dbl (body !!! 0%nat) dAge).
Proof.
  intros Hx Hi Hh.
  assert (Hr : ages_settle x (h x evolve io update iBody).1).
  { destruct Hh as [->|Hk]; [|by apply keeps_ages_settle].
    apply fnPropsAuxAtmEsc_settle. destruct Hx as [-> _]. done. }
  split; [by eapply ages_settle_trans|].
  destruct Hx as (Hl & Hz & _). split.
  - intros j Hj. destruct Hr as (_ & _ & Hs). rewrite <- Hz. apply Hs. by rewrite Hz.
  - intros ->. rewrite <- Hz. apply fnPropsAuxAtmEsc_settle. by rewrite Hl.
Qed.

(** C10.  [fnPropsAuxAtmEsc] on body [i] leaves in [body[i].dAge] the age
    of body 0.  So after a pass of [PropertiesAuxiliary] whose other hooks
    keep the ages, a body that has [fnPropsAuxAtmEsc] among its hooks has
    the age of body 0, which the pass does not change. *)
Theorem PropertiesAuxiliary_age (body : list BODY) (control : CONTROL)
    (update : list UPDATE) (i m : nat) :
  let nb := iNumBodies (Evolve control) in
  (nb <= length body)%nat ->
  (forall i' m', (i' < nb)%nat -> (m' < iNumModules (Evolve control) !!! i')%nat ->
     (fnPropsAux control !!! i') !!! m' = fnPropsAuxAtmEsc
     \/ keeps_ages ((fnPropsAux control !!! i') !!! m')) ->
  (forall i' m', (i' < nb)%nat -> (m' < iNumMultiProps control !!! i')%nat ->
     keeps_ages ((fnPropsAuxMulti control !!! i') !!! m')) ->
  (i < nb)%nat -> (m < iNumModules (Evolve control) !!! i)%nat ->
  (fnPropsAux control !!! i) !!! m = fnPropsAuxAtmEsc ->
  (forall x, length x = length body ->
     dbl ((fnPropsAuxAtmEsc x (Evolve control) (Io control) update i).1 !!! i) dAge
     = dbl (x !!! 0%nat) dAge)
  /\ dbl ((PropertiesAuxiliary body control update).1 !!! i) dAge = dbl (body !!! 0%nat) dAge
  /\ dbl ((PropertiesAuxiliary body control update).1 !!! 0%nat) dAge
     = dbl (body !!! 0%nat) dAge.
Proof.
  intros nb Hnb Huni Hmulti Hi Hm Hhook. split.
  { intros x Hx. apply fnPropsAuxAtmEsc_settle. rewrite Hx. lia. }
  set (A := dbl (body !!! 0%nat) dAge).
  set (P := fun (k : nat) (st : list BODY * list string) =>
              ages_settle body st.1 /\ ((i < k)%nat -> dbl (st.1 !!! i) dAge = A)).
  cut (P nb (PropertiesAuxiliary body control update)).
  { intros [(_ & Hz & _) Hage]. split; [by apply Hage|done]. }
  unfold PropertiesAuxiliary. cbv zeta. apply (for_loop_ind P).
  { split; [|intros; lia]. cbn [fst]. destruct (PropsAuxGeneral_ages body control) as [Hl Ha].
    repeat split; [done|apply Ha|]. intros j Hj. by rewrite Ha. }
  intros iBody st HiB [Hst Hdone].
  (* the multi-module hooks keep what the uni-module hooks established *)
  apply (for_loop_ind (fun (_ : nat) (st : list BODY * list string) =>
           ages_settle body st.1 /\ ((i < S iBody)%nat -> dbl (st.1 !!! i) dAge = A))).
  - set (Q := fun (k : nat) (st : list BODY * list string) =>
                ages_settle body st.1
                /\ ((i < iBody \/ (i = iBody /\ m < k))%nat -> dbl (st.1 !!! i) dAge = A)).
    lazymatch goal with
    | |- _ /\ (_ -> dbl (fst ?e !!! i) dAge = A) =>
        cut (Q (iNumModules (Evolve control) !!! iBody) e)
    end.
    { intros [Hs Hd]. split; [done|]. intros Hlt. apply Hd.
      destruct (decide (i = iBody)) as [->|]; [right; split; [done|lia]|left; lia]. }
    apply (for_loop_ind Q).
    + split; [done|]. intros [Hlt|[_ Hlt]]; [by apply Hdone|lia].
    + intros k st' Hk [Hst' Hdone']. cbn [fst].
      destruct (hook_step body st'.1 ((fnPropsAux control !!! iBody) !!! k)
                  (Evolve control) (Io control) update iBody Hst') as (Hs & Hkeep & Hset);
        [lia|by apply Huni|].
      split; [done|]. intros [Hlt|[-> Hlt]].
      * apply Hkeep. apply Hdone'. by left.
      * destruct (decide (m = k)) as [->|Hne]; [by apply Hset|].
        apply Hkeep. apply Hdone'. right. split; [done|lia].
  - intros k st' Hk [Hst' Hdone']. cbn [fst].
    destruct (hook_step body st'.1 ((fnPropsAuxMulti control !!! iBody) !!! k)
                (Evolve control) (Io control) update iBody Hst') as (Hs & Hkeep & _);
      [lia|right; by apply Hmulti|].
    split; [done|]. intros Hlt. apply Hkeep. by apply Hdone'.
Qed.

End AgeProperties.

(** * Further properties *)

(** ** Atmospheric escape *)

Section AtmEscFurther.
Context `{Libm} `{PhysConst} `{VplanetH}.

Ltac hstep_atmesc :=
  first
    [ hstep
    | lazymatch goal with
      | |- holds _ _ (fbDoesWaterEscape _ _) =>
          unfold holds; apply fbDoesWaterEscape_Inv;
          [intros ? ? ?; cbn; first [assumption | done] | assumption]
      end ].

Lemma fbDoesWaterEscape_held body iBody :
  water_held (body !!! iBody) -> (fbDoesWaterEscape body iBody).1 = 0%Z.
Proof.
  intros Hh. unfold fbDoesWaterEscape.
  destruct (Qltb 0 _) eqn:E1; [done|]. apply Qltb_false in E1.
  destruct (Qltb (fdInstellation _ _) _); [done|].
  destruct (Qleb _ 0) eqn:E3; [done|]. apply Qleb_false in E3.
  destruct (Qltb (dbl _ dJeansTime) _) eqn:E4; [done|]. apply Qltb_false in E4.
  exfalso. destruct Hh as [?|[?|?]]; lra.
Qed.

Lemma fnPropsAuxAtmEsc_held body evolve io update iBody :
  (iBody < length body)%nat ->
  0 < dbl (body !!! iBody) dEnvelopeMass
  \/ dbl (body !!! iBody) dSurfaceWaterMass <= 0
  \/ dbl (body !!! iBody) dJeansTime < dbl (body !!! 0%nat) dAge ->
  let b' := (fnPropsAuxAtmEsc body evolve io update iBody).1 !!! iBody in
  int b' bRunaway = 0%Z /\ dbl b' dMDotWater = 0 /\ dbl b' dOxygenEta = 0
  /\ dbl b' dCrossoverMass = 0 /\ iWaterEscapeRegime b' = ATMESC_NONE.
Proof.
  intros Hi Hh.
  set (P := fun b => 0 < dbl b dEnvelopeMass \/ dbl b dSurfaceWaterMass <= 0
                     \/ dbl b dJeansTime < dbl b dAge).
  set (Q := fun b => int b bRunaway = 0%Z /\ dbl b dMDotWater = 0 /\ dbl b dOxygenEta = 0
                     /\ dbl b dCrossoverMass = 0 /\ iWaterEscapeRegime b = ATMESC_NONE).
  cut (Inv body iBody Q (fnPropsAuxAtmEsc body evolve io update iBody).1).
  { by intros (_ & _ & ?). }
  change (holds (Inv body iBody P) (fun r => Inv body iBody Q r.1)
                (fnPropsAuxAtmEsc body evolve io update iBody)).
  cbv beta delta [fnPropsAuxAtmEsc].
  lazymatch goal with
  | |- holds ?I _ (let x := ?v in @?k x) =>
      refine (holds_let_body I _ v k _ _); [|intros ? ?]
  end.
  { unfold holds, store_d.
    apply (Inv_alter_set body iBody (fun b => b = body !!! iBody)); [done| |by apply Inv_init].
    intros b ->. unfold P. cbn. done. }
  hstep. { repeat hstep. }
  hstep.
  hstep. { repeat hstep. }
  repeat (hstep; [repeat hstep|]).
  do 3 hstep. hstep; [repeat hstep|].
  lazymatch goal with
  | HI : Inv body iBody P ?x |- holds _ _ (let '(_, _) := fbDoesWaterEscape ?x _ in _) =>
      pose proof (fbDoesWaterEscape_held x iBody (proj2 (proj2 HI))) as Hno;
      pose proof (fbDoesWaterEscape_Inv body iBody (fun _ => True) x
                    (fun _ _ _ => I) (Inv_weaken _ _ _ _ _ (fun _ _ => I) HI)) as Hshape;
      destruct (fbDoesWaterEscape x iBody) as [bEscape y']
  end.
  cbn [fst snd] in Hno, Hshape. subst bEscape. cbn [truthy negb Z.eqb].
  unfold holds. cbv zeta. cbn [fst].
  destruct Hshape as (Hl & Ho & _).
  unfold store_d, store_i. repeat split.
  - by rewrite !length_alter.
  - intros j Hj. rewrite !list_lookup_total_alter_ne by done. by apply Ho.
  - rewrite !list_lookup_total_alter_eq by (rewrite ?length_alter; lia). done.
  - rewrite !list_lookup_total_alter_eq by (rewrite ?length_alter; lia). done.
  - rewrite !list_lookup_total_alter_eq by (rewrite ?length_alter; lia). done.
  - rewrite !list_lookup_total_alter_eq by (rewrite ?length_alter; lia). done.
  - rewrite !list_lookup_total_alter_eq by (rewrite ?length_alter; lia). done.
Qed.

(** X1.  When something holds the water back (the planet has an envelope,
    or no surface water, or the age that [fnPropsAuxAtmEsc] copies from
    body 0 is past the Jeans time), [fnPropsAuxAtmEsc] leaves the planet
    out of the runaway state, with no water loss and the regime NONE, and
    the rates of surface water, atmospheric oxygen and mantle oxygen
    computed on its result are 0. *)
Theorem fnPropsAuxAtmEsc_no_escape (body : list BODY) (evolve : EVOLVE) (io : IO)
    (update : list UPDATE) (system : SYSTEM) (iBody : nat) (iaBody : list nat) :
  (iBody < length body)%nat ->
  iaBody !!! 0%nat = iBody ->
  0 < dbl (body !!! iBody) dEnvelopeMass
  \/ dbl (body !!! iBody) dSurfaceWaterMass <= 0
  \/ dbl (body !!! iBody) dJeansTime < dbl (body !!! 0%nat) dAge ->
  let body' := (fnPropsAuxAtmEsc body evolve io update iBody).1 in
  int (body' !!! iBody) bRunaway = 0%Z
  /\ dbl (body' !!! iBody) dMDotWater = 0
  /\ iWaterEscapeRegime (body' !!! iBody) = ATMESC_NONE
  /\ fdDSurfaceWaterMassDt body' system iaBody = 0
  /\ fdDOxygenMassDt body' system iaBody = 0
  /\ fdDOxygenMantleMassDt body' system iaBody = 0.
Proof.
  intros Hi Hia Hh body'.
  destruct (fnPropsAuxAtmEsc_held body evolve io update iBody Hi Hh)
    as (Hr & Hm & _ & _ & Hreg).
  fold body' in Hr, Hm, Hreg.
  unfold fdDSurfaceWaterMassDt, fdDOxygenMassDt, fdDOxygenMantleMassDt.
  rewrite Hia, Hr. done.
Qed.
Lemma holds_pair_both I (P : list BODY -> Prop) (a : list BODY) (b : list string) :
  P a -> holds I (fun r : list BODY * list string => P r.1 /\ r.2 = b) (a, b).
Proof. unfold holds. auto. Qed.

Lemma holds_weaken (I I' : list BODY -> Prop) {A} (Post Post' : A -> Prop) (e : A) :
  (forall r, Post' r -> Post r) -> holds I' Post' e -> holds I Post e.
Proof. unfold holds. auto. Qed.

Ltac hstep_msg :=
  first
    [ lazymatch goal with
      | |- holds _ (fun r => _ /\ r.2 = _) (_, _) => apply holds_pair_both
      end
    | hstep_atmesc ].

Lemma fnPropsAuxAtmEsc_stderr body evolve io update iBody :
  (iBody < length body)%nat ->
  let r := fnPropsAuxAtmEsc body evolve io update iBody in
  let c0 := cName (body !!! iBody) in
  let f0 := int (body !!! iBody) bRocheMessage in
  (r.2 = [] /\ int (r.1 !!! iBody) bRocheMessage = f0)
  \/ (r.2 = [RocheWarning c0] /\ int (r.1 !!! iBody) bRocheMessage = 1%Z
      /\ truthy f0 = false /\ (VERBINPUT <= iVerbose io)%Z).
Proof.
  intros Hi r c0 f0.
  set (P0 := fun b => cName b = c0 /\ int b bRocheMessage = f0).
  set (P1 := fun b => int b bRocheMessage = 1%Z).
  set (Post := fun r : list BODY * list string =>
     (r.2 = [] /\ int (r.1 !!! iBody) bRocheMessage = f0)
     \/ (r.2 = [RocheWarning c0] /\ int (r.1 !!! iBody) bRocheMessage = 1%Z
         /\ truthy f0 = false /\ (VERBINPUT <= iVerbose io)%Z)).
  change (holds (Inv body iBody P0) Post (fnPropsAuxAtmEsc body evolve io update iBody)).
  cbv beta delta [fnPropsAuxAtmEsc].
  hstep. { hstep. by apply Inv_init. }
  hstep. { repeat hstep. }
  hstep.
  lazymatch goal with
  | HI : Inv body iBody P0 ?x |- holds _ _ (let '(_, _) := ?v in _) =>
      assert (HR : (Inv body iBody P0 v.1 /\ v.2 = [])
                   \/ (Inv body iBody P1 v.1 /\ v.2 = [RocheWarning c0]
                       /\ truthy f0 = false /\ (VERBINPUT <= iVerbose io)%Z));
      [|destruct v as [x' y']]
  end.
  { destruct (_ && _).
    - left. split; [|done]. cbn [fst]. repeat hstep.
    - destruct (Qltb 1 _).
      + left. split; [|done]. cbn [fst]. repeat hstep.
      + destruct (negb _ && _) eqn:E.
        * right. apply andb_prop in E as [E1 E2].
          lazymatch goal with
          | HI : Inv body iBody P0 ?x |- context [store_i iBody bRocheMessage 1 ?x] =>
              destruct HI as (Hl & Ho & Hc & Hf)
          end.
          split; [|split; [|split]].
          -- cbn [fst]. unfold store_d, store_i. repeat split.
             ++ by rewrite !length_alter.
             ++ intros j Hj. rewrite !list_lookup_total_alter_ne by done. by apply Ho.
             ++ unfold P1. rewrite !list_lookup_total_alter_eq by (rewrite ?length_alter; lia).
                done.
          -- cbn [snd]. by rewrite Hc.
          -- rewrite Hf in E1. by destruct (truthy f0).
          -- by apply Z.leb_le.
        * left. split; [|done]. cbn [fst]. repeat hstep. }
  cbn [fst snd] in HR. destruct HR as [[HI ->]|(HI & -> & Hf & Hv)].
  - apply (holds_weaken _ (Inv body iBody P0) _
             (fun r : list BODY * list string => Inv body iBody P0 r.1 /\ r.2 = [])).
    { unfold Post. intros r' [(_ & _ & _ & Hflag) Hs]. left. by split. }
    repeat hstep_msg.
  - apply (holds_weaken _ (Inv body iBody P1) _
             (fun r : list BODY * list string =>
                Inv body iBody P1 r.1 /\ r.2 = [RocheWarning c0])).
    { unfold Post. intros r' [(_ & _ & Hflag) Hs]. right. by repeat split. }
    repeat hstep_msg.
Qed.

(** X2.  [fnPropsAuxAtmEsc] writes to stderr nothing or the one Roche
    warning for this body; nothing when [bRocheMessage] is set; and when it
    writes the warning it sets [bRocheMessage] to 1, so that a second call
    on its result writes nothing, whatever the other arguments. *)
Theorem fnPropsAuxAtmEsc_warns_once (body : list BODY) (evolve evolve' : EVOLVE)
    (io io' : IO) (update update' : list UPDATE) (iBody : nat) :
  (iBody < length body)%nat ->
  let r := fnPropsAuxAtmEsc body evolve io update iBody in
  (truthy (int (body !!! iBody) bRocheMessage) = true -> r.2 = [])
  /\ (r.2 = [] \/ r.2 = [RocheWarning (cName (body !!! iBody))])
  /\ (r.2 <> [] ->
      int (r.1 !!! iBody) bRocheMessage = 1%Z
      /\ (fnPropsAuxAtmEsc r.1 evolve' io' update' iBody).2 = []).
Proof.
  intros Hi r.
  pose proof (fnPropsAuxAtmEsc_stderr body evolve io update iBody Hi) as Hr.
  cbv zeta in Hr. fold r in Hr.
  split; [|split].
  - intros Hset. destruct Hr as [[Hs _]|(_ & _ & Hf & _)]; [done|congruence].
  - destruct Hr as [[Hs _]|(Hs & _)]; auto.
  - intros Hne. destruct Hr as [[Hs _]|(_ & Hflag & _)]; [done|].
    split; [done|].
    assert (Hi' : (iBody < length r.1)%nat).
    { destruct (fnPropsAuxAtmEsc_age body evolve io update iBody Hi) as (Hl & _).
      fold r in Hl. lia. }
    destruct (fnPropsAuxAtmEsc_stderr r.1 evolve' io' update' iBody Hi')
      as [[Hs _]|(_ & _ & Hf & _)]; [done|].
    rewrite Hflag in Hf. done.
Qed.

(** X3.  Outside the runaway state, or without surface water, the rates of
    surface water, atmospheric oxygen and mantle oxygen are all 0.  In the
    runaway state with water, the three rates add up to minus the water
    loss [dMDotWater]: the mass that leaves the water is the oxygen that
    stays (in the atmosphere or the mantle) plus what escapes; under the
    model LB15 this holds below the crossover mass of [16 ATOMMASS], where
    oxygen is dragged along. *)
Theorem water_oxygen_budget (body : list BODY) (system : SYSTEM) (iaBody : list nat) :
  let b := body !!! (iaBody !!! 0%nat) in
  let total := fdDSurfaceWaterMassDt body system iaBody
               + fdDOxygenMassDt body system iaBody
               + fdDOxygenMantleMassDt body system iaBody in
  (truthy (int b bRunaway) = false \/ dbl b dSurfaceWaterMass <= 0 ->
     fdDSurfaceWaterMassDt body system iaBody = 0
     /\ fdDOxygenMassDt body system iaBody = 0
     /\ fdDOxygenMantleMassDt body system iaBody = 0)
  /\ (truthy (int b bRunaway) = true -> 0 < dbl b dSurfaceWaterMass ->
      ~ 1 + 8 * dbl b dOxygenEta == 0 ->
      (iWaterLossModel b = ATMESC_LB15 -> dbl b dCrossoverMass < 16 * ATOMMASS) ->
      total == - dbl b dMDotWater).
Proof.
  intros b total. split.
  - intros Hoff. unfold fdDSurfaceWaterMassDt, fdDOxygenMassDt, fdDOxygenMantleMassDt.
    fold b. destruct Hoff as [->|Hw]; [done|].
    apply Qltb_false in Hw. rewrite Hw. by rewrite !andb_false_r.
  - intros Hr Hw Heta Hlb. apply Qltb_true in Hw.
    unfold total, fdDSurfaceWaterMassDt, fdDOxygenMassDt, fdDOxygenMantleMassDt.
    fold b. rewrite Hr, Hw. cbn [andb].
    assert (Hsat : iWaterLossModel b = ATMESC_LB15 ->
                   Qleb (16 * ATOMMASS) (dbl b dCrossoverMass) = false).
    { intros Hm. apply Qleb_false. by apply Hlb. }
    destruct (truthy (int b bInstantO2Sink)); cbn [negb andb];
      destruct (decide (iWaterLossModel b = ATMESC_LB15)) as [Hm|Hm];
      rewrite ?(Hsat Hm); field; done.
Qed.

Lemma Qlt_div_iff a b c : 0 < c -> (a < b / c <-> a * c < b).
Proof.
  intros Hc. rewrite <- (Qmult_lt_r _ _ c Hc).
  assert (E : b / c * c == b) by (field; lra). by rewrite E.
Qed.

(** With water present the mixing ratio is [(1/2 + r) / (3/2 + r)] for
    [r = 9 O / (16 W)] *)
Lemma fdAtomicOxygenMixingRatio_wet (dSurfaceWaterMass dOxygenMass : Q) :
  0 < ATOMMASS -> 0 < dSurfaceWaterMass -> 0 <= dOxygenMass ->
  let rr := 9 * dOxygenMass / (16 * dSurfaceWaterMass) in
  fdAtomicOxygenMixingRatio dSurfaceWaterMass dOxygenMass == (0.5 + rr) / (1.5 + rr).
Proof.
  intros Hm Hw Ho rr. unfold fdAtomicOxygenMixingRatio.
  assert (Hpos : Qltb 0 (dSurfaceWaterMass / (18 * ATOMMASS)) = true).
  { apply Qltb_true. apply Qlt_shift_div_l; lra. }
  rewrite Hpos. unfold rr. field. repeat split; intros E; lra.
Qed.

(** X4.  [fdAtomicOxygenMixingRatio] never falls when oxygen is added or
    water is taken away: for masses [W' <= W] of water, the smaller one
    positive, and [O <= O'] of oxygen, none negative, the ratio at
    [(W', O')] is at least the ratio at [(W, O)], which is at least the 1/3
    of an atmosphere without oxygen.  So once the ratio is above the 0.6 at
    which [fnPropsAuxAtmEsc] makes the escape diffusion-limited, it stays
    above while water is lost and oxygen builds up. *)
Theorem fdAtomicOxygenMixingRatio_monotone (W W' O O' : Q) :
  0 < ATOMMASS -> 0 < W' -> W' <= W -> 0 <= O -> O <= O' ->
  let XO := fdAtomicOxygenMixingRatio W O in
  let XO' := fdAtomicOxygenMixingRatio W' O' in
  1 / 3 <= XO /\ XO <= XO' /\ (0.6 < XO -> 0.6 < XO').
Proof.
  intros Hm Hw' Hw Ho Ho' XO XO'.
  assert (HX : XO == (0.5 + 9 * O / (16 * W)) / (1.5 + 9 * O / (16 * W))).
  { apply fdAtomicOxygenMixingRatio_wet; lra. }
  assert (HX' : XO' == (0.5 + 9 * O' / (16 * W')) / (1.5 + 9 * O' / (16 * W'))).
  { apply fdAtomicOxygenMixingRatio_wet; lra. }
  set (rr := 9 * O / (16 * W)) in *. set (rr' := 9 * O' / (16 * W')) in *.
  assert (Hr : 0 <= rr) by (unfold rr; apply Qdiv_nonneg; lra).
  assert (Hrr : rr <= rr').
  { unfold rr, rr'. apply Qle_shift_div_l; [lra|].
    assert (E : 9 * O / (16 * W) * (16 * W') == 9 * O * (W' / W)) by (field; lra).
    rewrite E.
    assert (Hq : W' / W <= 1) by (apply Qle_shift_div_r; lra).
    assert (Hq0 : 0 <= W' / W) by (apply Qdiv_nonneg; lra).
    clear -Ho Ho' Hq Hq0. set (q := W' / W) in *. clearbody q. nra. }
  assert (Hle : XO <= XO').
  { rewrite HX, HX'. apply Qle_shift_div_l; [lra|].
    assert (E : (0.5 + rr) / (1.5 + rr) * (1.5 + rr')
                == 0.5 + rr' - (rr' - rr) / (1.5 + rr)) by (field; lra).
    rewrite E.
    assert (0 <= (rr' - rr) / (1.5 + rr)) by (apply Qdiv_nonneg; lra). lra. }
  split; [|split; [done|intros; lra]].
  rewrite HX. change (1 / 3) with (1 # 3). apply Qle_shift_div_l; lra.
Qed.

End AtmEscFurther.

Section MoreAtmEsc.
Context `{Libm} `{PhysConst} `{VplanetH}.

(** X5.  [fbDoesWaterEscape] changes the bodies only to record the end of
    the runaway greenhouse: it leaves them alone when [dRGDuration] is not
    0 or the instellation is at least the limit of [fdHZRG14]; when it
    changes them it returns 0 and stores the age of the body in its
    [dRGDuration], and, unless that age is 0, a second call changes
    nothing. *)
Theorem fbDoesWaterEscape_duration_once (body : list BODY) (iBody : nat) :
  (iBody < length body)%nat ->
  let b := body !!! iBody in
  let r := fbDoesWaterEscape body iBody in
  (~ dbl b dRGDuration == 0 -> r.2 = body)
  /\ (fdHZRG14 body iBody <= fdInstellation body iBody -> r.2 = body)
  /\ (r.2 <> body ->
      r.1 = 0%Z
      /\ r.2 = store_d iBody dRGDuration (dbl b dAge) body
      /\ dbl (r.2 !!! iBody) dRGDuration = dbl b dAge
      /\ (~ dbl b dAge == 0 -> (fbDoesWaterEscape r.2 iBody).2 = r.2)).
Proof.
  intros Hi b r.
  assert (Hcases : r.2 = body
                   \/ (Qeq_bool (dbl b dRGDuration) 0 = true
                       /\ Qltb (fdInstellation body iBody) (fdHZRG14 body iBody) = true
                       /\ r.1 = 0%Z
                       /\ r.2 = store_d iBody dRGDuration (dbl b dAge) body)).
  { unfold r, fbDoesWaterEscape. fold b.
    destruct (Qltb 0 (dbl b dEnvelopeMass)).
    - destruct (Qeq_bool (dbl b dRGDuration) 0) eqn:E1; [|by left].
      destruct (Qltb (fdInstellation body iBody) (fdHZRG14 body iBody)) eqn:E2; [|by left].
      right. by cbn.
    - destruct (Qltb (fdInstellation body iBody) (fdHZRG14 body iBody)) eqn:E2.
      + destruct (Qeq_bool (dbl b dRGDuration) 0) eqn:E1; [|by left]. right. by cbn.
      + destruct (Qleb _ 0); [by left|]. destruct (Qltb (dbl b dJeansTime) _); by left. }
  split; [|split].
  - intros Hne. destruct Hcases as [?|(E1 & _)]; [done|].
    apply Qeq_bool_iff in E1. exfalso. by apply Hne.
  - intros Hle. destruct Hcases as [?|(_ & E2 & _)]; [done|].
    apply Qltb_true in E2. lra.
  - intros Hch. destruct Hcases as [?|(E1 & E2 & Hflag & Hst)]; [done|].
    split; [done|]. split; [done|].
    assert (Hd : dbl (r.2 !!! iBody) dRGDuration = dbl b dAge).
    { rewrite Hst. by rewrite dbl_store_d_eq. }
    split; [done|]. intros Hage.
    assert (Hz : Qeq_bool (dbl (r.2 !!! iBody) dRGDuration) 0 = false).
    { rewrite Hd. destruct (Qeq_bool (dbl b dAge) 0) eqn:E; [|done].
      apply Qeq_bool_iff in E. exfalso. by apply Hage. }
    unfold fbDoesWaterEscape at 1. rewrite Hz. cbn [andb].
    repeat lazymatch goal with
           | |- context [if ?c then _ else _] => destruct c
           end; done.
Qed.

End MoreAtmEsc.

Section AtmEscMoreProperties.
Context `{Libm} `{PhysConst} `{VplanetH_more}.

(** Reading body [i] after stores to body [i] *)
Ltac look :=
  unfold store_d, store_i;
  rewrite ?list_lookup_total_alter_eq by (rewrite ?length_alter; lia).

(** The body that [fnForceBehaviorAtmEsc] leaves at [iBody] *)
Lemma fnForceBehaviorAtmEsc_body body evolve io system update fnUpdate iBody iModule :
  (iBody < length body)%nat ->
  let r := fnForceBehaviorAtmEsc body evolve io system update fnUpdate iBody iModule in
  let b := body !!! iBody in
  let b' := r.1.1 !!! iBody in
  length r.1.1 = length body
  /\ (forall j, j <> iBody -> r.1.1 !!! j = body !!! j)
  /\ dbl b' dMinSurfaceWaterMass = dbl b dMinSurfaceWaterMass
  /\ dbl b' dMinEnvelopeMass = dbl b dMinEnvelopeMass
  /\ dbl b' dMass = dbl b dMass
  /\ iPlanetRadiusModel b' = iPlanetRadiusModel b
  /\ dbl b' dSurfaceWaterMass
     = (if Qleb (dbl b dSurfaceWaterMass) (dbl b dMinSurfaceWaterMass)
           && Qltb 0 (dbl b dSurfaceWaterMass)
        then 0 else dbl b dSurfaceWaterMass)
  /\ dbl b' dEnvelopeMass
     = (if Qleb (dbl b dEnvelopeMass) (dbl b dMinEnvelopeMass)
           && Qltb 0 (dbl b dEnvelopeMass)
        then 0 else dbl b dEnvelopeMass)
  /\ (Qleb (dbl b dEnvelopeMass) (dbl b dMinEnvelopeMass) && Qltb 0 (dbl b dEnvelopeMass)
      = true ->
      iPlanetRadiusModel b = ATMESC_LOP12 ->
      dbl b' dRadius = fdMassToRad_Sotin07 (dbl b dMass)).
Proof.
  intros Hi r b b'. unfold b', r, fnForceBehaviorAtmEsc. cbv zeta. fold b.
  destruct (Qleb (dbl b dSurfaceWaterMass) _ && _) eqn:Ew;
    look; fold b; cbn [dbl setd iPlanetRadiusModel];
    rewrite ?(decide_False (P := dEnvelopeMass = dSurfaceWaterMass)),
            ?(decide_False (P := dMinEnvelopeMass = dSurfaceWaterMass)) by done;
    (destruct (Qleb (dbl b dEnvelopeMass) _ && _) eqn:Ee;
     [look; fold b; cbn [dbl setd iPlanetRadiusModel];
      destruct (decide (iPlanetRadiusModel b = ATMESC_LOP12)) as [Hm|Hm];
      [destruct (_ && negb _)|]|]);
    cbn [fst snd]; look; fold b; repeat split;
    try (by rewrite ?length_alter);
    try (intros j Hj; by rewrite ?list_lookup_total_alter_ne by done);
    try done.
Qed.

Lemma forced_stays (x m : Q) :
  let x' := if Qleb x m && Qltb 0 x then 0 else x in
  Qleb x' m && Qltb 0 x' = false.
Proof.
  cbv zeta. destruct (Qleb x m && Qltb 0 x) eqn:E; [|exact E].
  change (Qltb 0 0) with false. apply andb_false_r.
Qed.

Lemma forced_halts (x m : Q) :
  Qleb (if Qleb x m && Qltb 0 x then 0 else x) m = Qleb x m.
Proof.
  destruct (Qleb x m) eqn:E1; cbn [andb]; [|exact E1].
  destruct (Qltb 0 x) eqn:E2; [|exact E1].
  apply Qleb_true in E1. apply Qltb_true in E2. apply Qleb_true. lra.
Qed.

(** X6.  After [fnForceBehaviorAtmEsc] neither the surface water nor the
    envelope of the body is positive and at most its minimum; each of the
    two masses is what it was, or 0; the other bodies are untouched. *)
Theorem fnForceBehaviorAtmEsc_thresholds (body : list BODY) (evolve : EVOLVE) (io : IO)
    (system : SYSTEM) (update : list UPDATE)
    (fnUpdate : list (list (list fnUpdateVariable))) (iBody iModule : nat) :
  (iBody < length body)%nat ->
  let r := fnForceBehaviorAtmEsc body evolve io system update fnUpdate iBody iModule in
  let b := body !!! iBody in
  let b' := r.1.1 !!! iBody in
  ~ (0 < dbl b' dSurfaceWaterMass
     /\ dbl b' dSurfaceWaterMass <= dbl b' dMinSurfaceWaterMass)
  /\ ~ (0 < dbl b' dEnvelopeMass /\ dbl b' dEnvelopeMass <= dbl b' dMinEnvelopeMass)
  /\ (dbl b' dSurfaceWaterMass = dbl b dSurfaceWaterMass \/ dbl b' dSurfaceWaterMass = 0)
  /\ (dbl b' dEnvelopeMass = dbl b dEnvelopeMass \/ dbl b' dEnvelopeMass = 0)
  /\ (forall j, j <> iBody -> r.1.1 !!! j = body !!! j).
Proof.
  intros Hi r b b'.
  destruct (fnForceBehaviorAtmEsc_body body evolve io system update fnUpdate iBody iModule Hi)
    as (_ & Ho & Hwm & Hem & _ & _ & Hw & He & _).
  fold r in Ho, Hwm, Hem, Hw, He. fold b in Hwm, Hem, Hw, He. fold b' in Hwm, Hem, Hw, He.
  rewrite Hwm, Hem, Hw, He.
  assert (Hgap : forall x m : Q,
             let x' := if Qleb x m && Qltb 0 x then 0 else x in
             ~ (0 < x' /\ x' <= m) /\ (x' = x \/ x' = 0)).
  { intros x m. cbv zeta. destruct (Qleb x m && Qltb 0 x) eqn:E.
    - split; [intros [? ?]; lra|by right].
    - split; [|by left]. intros [Hp Hl].
      rewrite (proj2 (Qleb_true _ _) Hl), (proj2 (Qltb_true _ _) Hp) in E. done. }
  destruct (Hgap (dbl b dSurfaceWaterMass) (dbl b dMinSurfaceWaterMass)) as [? ?].
  destruct (Hgap (dbl b dEnvelopeMass) (dbl b dMinEnvelopeMass)) as [? ?].
  repeat split; done.
Qed.

(** X7.  [fnForceBehaviorAtmEsc] has nothing left to do after itself: a
    second call on the bodies and the matrix that it returned changes
    neither and writes nothing, whatever the other arguments. *)
Theorem fnForceBehaviorAtmEsc_twice (body : list BODY) (evolve evolve' : EVOLVE)
    (io io' : IO) (system : SYSTEM) (update update' : list UPDATE)
    (fnUpdate : list (list (list fnUpdateVariable))) (iBody iModule iModule' : nat) :
  (iBody < length body)%nat ->
  let r := fnForceBehaviorAtmEsc body evolve io system update fnUpdate iBody iModule in
  fnForceBehaviorAtmEsc r.1.1 evolve' io' system update' r.1.2 iBody iModule'
  = (r.1.1, r.1.2, []).
Proof.
  intros Hi r.
  destruct (fnForceBehaviorAtmEsc_body body evolve io system update fnUpdate iBody iModule Hi)
    as (_ & _ & Hwm & Hem & _ & _ & Hw & He & _).
  fold r in Hwm, Hem, Hw, He.
  unfold fnForceBehaviorAtmEsc at 1. cbv zeta.
  assert (Ew : Qleb (dbl (r.1.1 !!! iBody) dSurfaceWaterMass)
                    (dbl (r.1.1 !!! iBody) dMinSurfaceWaterMass)
               && Qltb 0 (dbl (r.1.1 !!! iBody) dSurfaceWaterMass) = false).
  { rewrite Hwm, Hw. apply forced_stays. }
  rewrite Ew.
  assert (Ee : Qleb (dbl (r.1.1 !!! iBody) dEnvelopeMass)
                    (dbl (r.1.1 !!! iBody) dMinEnvelopeMass)
               && Qltb 0 (dbl (r.1.1 !!! iBody) dEnvelopeMass) = false).
  { rewrite Hem, He. apply forced_stays. }
  by rewrite Ee.
Qed.

(** X8.  [fnForceBehaviorAtmEsc] does not change what the halts decide:
    [fbHaltSurfaceDesiccated] and [fbHaltEnvelopeGone] return the same flag
    on the bodies before and after it. *)
Theorem fnForceBehaviorAtmEsc_halts (body : list BODY) (evolve : EVOLVE) (io : IO)
    (system : SYSTEM) (update : list UPDATE)
    (fnUpdate : list (list (list fnUpdateVariable))) (iBody iModule : nat)
    (halt : list HALT) :
  (iBody < length body)%nat ->
  let r := fnForceBehaviorAtmEsc body evolve io system update fnUpdate iBody iModule in
  (fbHaltSurfaceDesiccated r.1.1 evolve halt io update iBody).1
  = (fbHaltSurfaceDesiccated body evolve halt io update iBody).1
  /\ (fbHaltEnvelopeGone r.1.1 evolve halt io update iBody).1
     = (fbHaltEnvelopeGone body evolve halt io update iBody).1.
Proof.
  intros Hi r.
  destruct (fnForceBehaviorAtmEsc_body body evolve io system update fnUpdate iBody iModule Hi)
    as (_ & _ & Hwm & Hem & _ & _ & Hw & He & _).
  fold r in Hwm, Hem, Hw, He.
  unfold fbHaltSurfaceDesiccated, fbHaltEnvelopeGone. rewrite Hwm, Hem, Hw, He.
  rewrite !forced_halts. split; [destruct (Qleb (dbl (body !!! iBody) dSurfaceWaterMass) _)|destruct (Qleb (dbl (body !!! iBody) dEnvelopeMass) _)]; reflexivity.
Qed.

(** X9.  Under the radius model LOP12, when [fnForceBehaviorAtmEsc]
    removes an envelope that is positive and at most its minimum, it sets
    the envelope mass to 0 and the radius to [fdMassToRad_Sotin07] of the
    mass, and this is the radius that [fdPlanetRadius] returns on the
    result, without changing the bodies. *)
Theorem fnForceBehaviorAtmEsc_radius (body : list BODY) (evolve : EVOLVE) (io : IO)
    (system : SYSTEM) (update : list UPDATE)
    (fnUpdate : list (list (list fnUpdateVariable))) (iBody iModule : nat)
    (iaBody : list nat) :
  (iBody < length body)%nat ->
  iaBody !!! 0%nat = iBody ->
  iPlanetRadiusModel (body !!! iBody) = ATMESC_LOP12 ->
  0 < dbl (body !!! iBody) dEnvelopeMass ->
  dbl (body !!! iBody) dEnvelopeMass <= dbl (body !!! iBody) dMinEnvelopeMass ->
  let r := fnForceBehaviorAtmEsc body evolve io system update fnUpdate iBody iModule in
  dbl (r.1.1 !!! iBody) dEnvelopeMass = 0
  /\ dbl (r.1.1 !!! iBody) dRadius = fdMassToRad_Sotin07 (dbl (body !!! iBody) dMass)
  /\ fdPlanetRadius r.1.1 system iaBody = (dbl (r.1.1 !!! iBody) dRadius, r.1.1).
Proof.
  intros Hi Hia Hm Hpos Hmin r.
  destruct (fnForceBehaviorAtmEsc_body body evolve io system update fnUpdate iBody iModule Hi)
    as (_ & _ & _ & Hem & HM & Hmod & _ & He & Hrad).
  fold r in Hem, HM, Hmod, He, Hrad.
  assert (Ec : Qleb (dbl (body !!! iBody) dEnvelopeMass) (dbl (body !!! iBody) dMinEnvelopeMass)
               && Qltb 0 (dbl (body !!! iBody) dEnvelopeMass) = true).
  { apply andb_true_intro. split; [by apply Qleb_true|by apply Qltb_true]. }
  rewrite Ec in He. specialize (Hrad Ec Hm).
  split; [done|]. split; [done|].
  unfold fdPlanetRadius. cbv zeta. rewrite Hia.
  destruct (decide (iPlanetRadiusModel (r.1.1 !!! iBody) = ATMESC_LEHMER17)) as [Hd|_];
    [congruence|].
  destruct (decide (iPlanetRadiusModel (r.1.1 !!! iBody) = ATMESC_LOP12)) as [_|Hd];
    [|congruence].
  rewrite He, Hem, HM, Hrad.
  assert (E0 : Qleb 0 (dbl (body !!! iBody) dMinEnvelopeMass) = true)
    by (apply Qleb_true; lra).
  by rewrite E0.
Qed.

End AtmEscMoreProperties.

Section CopyProperties.
Context `{Libm} `{PhysConst} `{VplanetH_more}.

(** X10.  [BodyCopyAtmEsc] changes body [iBody] of [dest] only, and keeps
    its age, mass and radius.  It copies what the rates of atmesc.c read:
    [fdDSurfaceWaterMassDt] on the copy is what it is on [src]; so are the
    two oxygen rates once the mass agrees, and [fdDEnvelopeMassDt] once the
    mass, the age and the radius agree. *)
Theorem BodyCopyAtmEsc_rates (dest src : list BODY) (foo : Z) (iNumBodies iBody : nat)
    (system : SYSTEM) (iaBody : list nat) :
  (iBody < length dest)%nat ->
  iaBody !!! 0%nat = iBody ->
  let dest' := BodyCopyAtmEsc dest src foo iNumBodies iBody in
  length dest' = length dest
  /\ (forall j, j <> iBody -> dest' !!! j = dest !!! j)
  /\ dbl (dest' !!! iBody) dAge = dbl (dest !!! iBody) dAge
  /\ dbl (dest' !!! iBody) dMass = dbl (dest !!! iBody) dMass
  /\ dbl (dest' !!! iBody) dRadius = dbl (dest !!! iBody) dRadius
  /\ fdDSurfaceWaterMassDt dest' system iaBody = fdDSurfaceWaterMassDt src system iaBody
  /\ (dbl (dest !!! iBody) dMass = dbl (src !!! iBody) dMass ->
      fdDOxygenMassDt dest' system iaBody = fdDOxygenMassDt src system iaBody
      /\ fdDOxygenMantleMassDt dest' system iaBody = fdDOxygenMantleMassDt src system iaBody)
  /\ (dbl (dest !!! iBody) dMass = dbl (src !!! iBody) dMass ->
      dbl (dest !!! iBody) dAge = dbl (src !!! iBody) dAge ->
      dbl (dest !!! iBody) dRadius = dbl (src !!! iBody) dRadius ->
      fdDEnvelopeMassDt dest' system iaBody = fdDEnvelopeMassDt src system iaBody).
Proof.
  intros Hi Hia dest'.
  assert (Hl : length dest' = length dest).
  { unfold dest', BodyCopyAtmEsc, copy_d, copy_i, store_d, store_i. cbv zeta.
    by rewrite !length_alter. }
  assert (Ho : forall j, j <> iBody -> dest' !!! j = dest !!! j).
  { intros j Hj. unfold dest', BodyCopyAtmEsc, copy_d, copy_i, store_d, store_i. cbv zeta.
    by rewrite !list_lookup_total_alter_ne by done. }
  eassert (Hb : dest' !!! iBody = _).
  { unfold dest', BodyCopyAtmEsc, copy_d, copy_i, store_d, store_i. cbv zeta.
    rewrite !list_lookup_total_alter_eq by (rewrite ?length_alter; lia). reflexivity. }
  assert (Hd : forall f, In f [dSurfaceWaterMass; dOxygenEta; dMDotWater; dCrossoverMass;
                               dFlowTemp; dEnvelopeMass; dJeansTime; dAtmXAbsEffH; dFXUV;
                               dRadXUV; dFHRef; dAtmXAbsEffH2O; dXFrac] ->
               dbl (dest' !!! iBody) f = dbl (src !!! iBody) f).
  { intros f Hf. rewrite Hb. cbn [In] in Hf.
    repeat (destruct Hf as [<-|Hf]; [reflexivity|]). done. }
  assert (Hk : forall f, In f [dAge; dMass; dRadius] ->
               dbl (dest' !!! iBody) f = dbl (dest !!! iBody) f).
  { intros f Hf. rewrite Hb. cbn [In] in Hf.
    repeat (destruct Hf as [<-|Hf]; [reflexivity|]). done. }
  assert (Hi1 : int (dest' !!! iBody) bRunaway = int (src !!! iBody) bRunaway)
    by (rewrite Hb; reflexivity).
  assert (Hi2 : int (dest' !!! iBody) bInstantO2Sink = int (src !!! iBody) bInstantO2Sink)
    by (rewrite Hb; reflexivity).
  assert (Hm1 : iWaterLossModel (dest' !!! iBody) = iWaterLossModel (src !!! iBody))
    by (rewrite Hb; reflexivity).
  assert (Hm2 : iPlanetRadiusModel (dest' !!! iBody) = iPlanetRadiusModel (src !!! iBody))
    by (rewrite Hb; reflexivity).
  clear Hb.
  split; [done|]. split; [done|].
  split; [apply Hk; cbn; tauto|]. split; [apply Hk; cbn; tauto|].
  split; [apply Hk; cbn; tauto|].
  unfold fdDSurfaceWaterMassDt, fdDOxygenMassDt, fdDOxygenMantleMassDt, fdDEnvelopeMassDt.
  cbv zeta. rewrite Hia, Hi1, Hi2, Hm1, Hm2.
  rewrite ?(Hd dSurfaceWaterMass), ?(Hd dOxygenEta), ?(Hd dMDotWater), ?(Hd dCrossoverMass), ?(Hd dFlowTemp),
           ?(Hd dEnvelopeMass), ?(Hd dJeansTime), ?(Hd dAtmXAbsEffH), ?(Hd dFXUV), ?(Hd dRadXUV),
           ?(Hd dFHRef), ?(Hd dAtmXAbsEffH2O), ?(Hd dXFrac)
    by (cbn; tauto).
  split; [done|]. split.
  - intros HM. rewrite (Hk dMass), HM by (cbn; tauto). done.
  - intros HM HA HR.
    rewrite (Hk dMass), (Hk dAge), (Hk dRadius), HM, HA, HR by (cbn; tauto). done.
Qed.

End CopyProperties.

(** ** The least-squares fit *)

Lemma for_loop_pair_ind {A B : Type} (P : nat -> A -> B -> Prop) n
    (f : nat -> A * B -> A * B) a b :
  P 0%nat a b ->
  (forall i a b, (i < n)%nat -> P i a b -> P (S i) (f i (a, b)).1 (f i (a, b)).2) ->
  P n (for_loop n f (a, b)).1 (for_loop n f (a, b)).2.
Proof.
  intros H0 Hs.
  apply (for_loop_ind (fun i (s : A * B) => P i s.1 s.2)); [done|].
  intros i [a' b'] Hi HP. by apply Hs.
Qed.

(** X11.  [fvLinearFit] recovers a line: when the [iLen] points lie on
    [y = m x + b] and two of the abscissae differ, the slope it returns is
    [m] and the intercept is [b]. *)
Theorem fvLinearFit_exact (x y : list Q) (iLen : nat) (m b : Q) :
  (forall i, (i < iLen)%nat -> y !!! i == m * x !!! i + b) ->
  (exists j k, (j < iLen)%nat /\ (k < iLen)%nat /\ ~ x !!! j == x !!! k) ->
  fvLinearFit x y iLen !!! 0%nat == m /\ fvLinearFit x y iLen !!! 1%nat == b.
Proof.
  intros Hline (j & k & Hj & Hk & Hjk).
  unfold fvLinearFit.
  (* the sums of the coordinates *)
  pose proof (for_loop_ind
    (fun i (s : Q * Q) => s.2 == m * s.1 + inject_Z (Z.of_nat i) * b) iLen
    (fun i '(xavg, yavg) => (xavg + x !!! i, yavg + y !!! i)) (0, 0)) as Hsum.
  destruct (for_loop iLen _ (0, 0)) as [sx sy].
  cbn [fst snd] in Hsum.
  assert (Hs : sy == m * sx + inject_Z (Z.of_nat iLen) * b).
  { apply Hsum; [cbn; ring|]. intros i [a c] Hi IH. cbn [fst snd] in *.
    rewrite IH, (Hline i Hi), Nat2Z.inj_succ. unfold Z.succ. rewrite inject_Z_plus. ring. }
  clear Hsum.
  set (n := inject_Z (Z.of_nat iLen)) in *.
  assert (Hn : 0 < n).
  { unfold n. change 0 with (inject_Z 0). rewrite <- Zlt_Qlt. lia. }
  set (xavg := sx / n). set (yavg := sy / n).
  assert (Hy : yavg == m * xavg + b).
  { unfold yavg, xavg. rewrite Hs. field. lra. }
  (* the sums of the products of the residuals *)
  pose proof (for_loop_ind
    (fun i (s : Q * Q) =>
       s.1 == m * s.2 /\ 0 <= s.2
       /\ forall l, (l < i)%nat -> (x !!! l - xavg) * (x !!! l - xavg) <= s.2) iLen
    (fun i '(num, den) =>
       (num + (x !!! i - xavg) * (y !!! i - yavg),
        den + (x !!! i - xavg) * (x !!! i - xavg))) (0, 0)) as Hres.
  destruct (for_loop iLen _ (0, 0)) as [num den].
  cbn [fst snd] in Hres.
  destruct Hres as (Hnum & Hden & Hterm).
  { cbn. split; [ring|]. split; [lra|]. intros; lia. }
  { intros i [a c] Hi (IH1 & IH2 & IH3). cbn [fst snd] in *.
    assert (Hsq : 0 <= (x !!! i - xavg) * (x !!! i - xavg)).
    { generalize (x !!! i - xavg). intros u. nra. }
    split; [|split].
    - rewrite IH1, (Hline i Hi), Hy. ring.
    - lra.
    - intros l Hl. destruct (decide (l = i)) as [->|]; [lra|].
      specialize (IH3 l ltac:(lia)). lra. }
  assert (Hpos : 0 < den).
  { assert (Hone : forall l, (l < iLen)%nat -> ~ x !!! l == xavg -> 0 < den).
    { intros l Hl Hne. specialize (Hterm l Hl).
      assert (0 < (x !!! l - xavg) * (x !!! l - xavg)); [|lra].
      assert (Hu : ~ x !!! l - xavg == 0) by (intros Hu; apply Hne; lra).
      revert Hu. generalize (x !!! l - xavg). intros u Hu.
      destruct (Q_dec u 0) as [[?|?]|?]; [nra|nra|done]. }
    destruct (Qeq_dec (x !!! j) xavg) as [Ej|Ej]; [|by apply (Hone j)].
    destruct (Qeq_dec (x !!! k) xavg) as [Ek|Ek]; [|by apply (Hone k)].
    exfalso. apply Hjk. by rewrite Ej, Ek. }
  change ([num / den; yavg - num / den * xavg] !!! 0%nat) with (num / den).
  change ([num / den; yavg - num / den * xavg] !!! 1%nat) with (yavg - num / den * xavg).
  assert (Hm : num / den == m) by (rewrite Hnum; field; lra).
  split; [done|]. rewrite Hm, Hy. ring.
Qed.

(** ** Stellar evolution *)

Section StellarMoreProperties.
Context `{Libm} `{PhysConst} `{VplanetH_more}.

Lemma stellar_value_cases fld f body system iaBody v body' :
  let i := iaBody !!! 0%nat in
  (i < length body)%nat ->
  In (fld, f) stellar_values ->
  f body system iaBody = Ret (v, body') ->
  body' = body
  \/ (iStellarModel (body !!! i) = STELLAR_MODEL_BARAFFE
      \/ iStellarModel (body !!! i) = STELLAR_MODEL_PROXIMACEN)
     /\ body' = alter (set_iStellarModel STELLAR_MODEL_CONST) i body
     /\ v = dbl (body !!! i) fld.
Proof.
  intros i Hi Hin Hrun.
  assert (Hl : forall g, stellar_stored g
                 (alter (set_iStellarModel STELLAR_MODEL_CONST) i body) i
               = dbl (body !!! i) g) by (intros; by apply stellar_stored_latched).
  cbn in Hin.
  destruct Hin as [[= <- <-]|[[= <- <-]|[[= <- <-]|[[= <- <-]|[]]]]];
    revert Hrun;
    unfold fdLuminosity, fdRadius, fdTemperature, fdRadGyra; fold i;
    try (destruct (negb (truthy _)); [intros [= <- <-]; by left|]);
    (destruct (decide (iStellarModel (body !!! i) = STELLAR_MODEL_BARAFFE)) as [Hb|Hb];
     [|destruct (decide (iStellarModel (body !!! i) = STELLAR_MODEL_PROXIMACEN))
         as [Hp|Hp]]);
    try (intros [= <- <-]; by left).
  all: try lazymatch goal with
       | |- mbind _ ?m = _ -> _ => destruct m as [[foo|]|]; cbn [mbind outcome_bind]
       | |- match ?m with _ => _ end = _ -> _ => destruct m as [foo|]
       end;
       try discriminate;
       try (intros [= <- <-]; by left);
       intros [= <- <-]; right; rewrite Hl; split; [tauto|done].
Qed.

(** Once the model is CONST every value function returns the stored
    member and changes nothing *)
Lemma stellar_value_latched fld f body system iaBody :
  let i := iaBody !!! 0%nat in
  let latched := alter (set_iStellarModel STELLAR_MODEL_CONST) i body in
  (i < length body)%nat ->
  In (fld, f) stellar_values ->
  f latched system iaBody = Ret (dbl (body !!! i) fld, latched).
Proof.
  intros i latched Hi Hin. cbn in Hin.
  destruct Hin as [[= <- <-]|[[= <- <-]|[[= <- <-]|[[= <- <-]|[]]]]];
    unfold fdLuminosity, fdRadius, fdTemperature, fdRadGyra; fold i;
    unfold latched; rewrite !latched_lookup by done;
    rewrite !decide_False by done;
    rewrite !stellar_stored_latched by done; try done.
  rewrite !latched_twice by done. by destruct (negb _).
Qed.

(** X12.  For each of [fdLuminosity], [fdRadius], [fdTemperature] and
    [fdRadGyra]: after a call that returns, [fbHaltEndBaraffeGrid] fires
    exactly when it fired before or the call changed the bodies.  A call
    changes the bodies only for a star on the Baraffe or the Proxima
    Centauri track; it then returns the stored member, and from then on
    each of the four functions returns its stored member and changes
    nothing. *)
Theorem fbHaltEndBaraffeGrid_after_lookup (fld : dfield)
    (f : list BODY -> SYSTEM -> list nat -> outcome (Q * list BODY))
    (body : list BODY) (system : SYSTEM) (iaBody : list nat) (v : Q) (body' : list BODY) :
  let i := iaBody !!! 0%nat in
  (i < length body)%nat ->
  In (fld, f) stellar_values ->
  f body system iaBody = Ret (v, body') ->
  (fbHaltEndBaraffeGrid body' i = 1%Z
   <-> fbHaltEndBaraffeGrid body i = 1%Z \/ body' <> body)
  /\ (body' <> body ->
      (iStellarModel (body !!! i) = STELLAR_MODEL_BARAFFE
       \/ iStellarModel (body !!! i) = STELLAR_MODEL_PROXIMACEN)
      /\ v = dbl (body !!! i) fld
      /\ forall fld' f', In (fld', f') stellar_values ->
           f' body' system iaBody = Ret (dbl (body !!! i) fld', body')).
Proof.
  intros i Hi Hin Hrun.
  destruct (stellar_value_cases _ _ _ _ _ _ _ Hi Hin Hrun) as [->|(Hm & -> & ->)].
  - split; [|done]. split; [tauto|]. intros [?|?]; done.
  - assert (Hne : alter (set_iStellarModel STELLAR_MODEL_CONST) i body <> body).
    { intros Heq. pose proof (latched_lookup body i Hi) as Hl. rewrite Heq in Hl.
      subst i. destruct Hm as [Hm|Hm]; rewrite Hm in Hl; discriminate Hl. }
    split.
    + split; [by right|]. intros _. unfold fbHaltEndBaraffeGrid.
      rewrite latched_lookup by done. by rewrite decide_True.
    + intros _. split; [done|]. split; [done|].
      intros fld' f' Hin'. by apply stellar_value_latched.
Qed.

(** X13.  For a star on the Baraffe track whose derivatives
    [fdDRadiusDtStellar] and [fdDRadGyraDtStellar] are numbers [dR] and
    [dRG]: the spin rates [fdDRotRateDtCon] and [fdDRotRateDtRadGyra] keep
    the angular momentum [I w], with [I = M rg^2 R^2], constant, and the
    energies [fdDEDtRotConStellar] and [fdDEDtRotRadGyraStellar] add up to
    minus the rate of change of the rotational energy [I w^2 / 2] under
    these rates. *)
Theorem contraction_conserves_angular_momentum (body : list BODY) (system : SYSTEM)
    (iaBody : list nat) (dR dRG : Q) :
  let b := body !!! (iaBody !!! 0%nat) in
  iStellarModel b = STELLAR_MODEL_BARAFFE ->
  ~ dbl b dRadius == 0 ->
  ~ dbl b dRadGyra == 0 ->
  fdDRadiusDtStellar body system iaBody = Ret (Some dR) ->
  fdDRadGyraDtStellar body system iaBody = Ret (Some dRG) ->
  exists wc wr ec er,
    fdDRotRateDtCon body system iaBody = Ret (Some wc)
    /\ fdDRotRateDtRadGyra body system iaBody = Ret (Some wr)
    /\ fdDEDtRotConStellar body system iaBody = Ret (Some ec)
    /\ fdDEDtRotRadGyraStellar body system iaBody = Ret (Some er)
    /\ MomIn b * (wc + wr) + dbl b dRotRate * DMomInDt b dR dRG == 0
    /\ ec + er == - (MomIn b * dbl b dRotRate * (wc + wr)
                     + dbl b dRotRate * dbl b dRotRate / 2 * DMomInDt b dR dRG).
Proof.
  intros b Hm HR HRG ER ERG.
  unfold fdDRotRateDtCon, fdDRotRateDtRadGyra, fdDEDtRotConStellar, fdDEDtRotRadGyraStellar.
  fold b. rewrite ER, ERG, Hm.
  rewrite bool_decide_eq_true_2 by done. cbn [negb mbind outcome_bind nan1].
  eexists _, _, _, _. do 4 (split; [reflexivity|]).
  unfold MomIn, DMomInDt. split; field; done.
Qed.

(** X14.  For a star on the Baraffe track, [fdDRadiusDtStellar] looks the
    radius up ten years before and after the age.  When the first lookup is
    below the grid, [fdDRadiusDtStellar], [fdDRotRateDtCon],
    [fdDEDtPotConStellar] and [fdDEDtRotConStellar] leave the program with
    EXIT_INT after the message.  When the first lookup returns and the
    second is above the grid or NaN, each of them returns NaN: none falls
    back on a stored value. *)
Theorem fdDRadiusDtStellar_off_grid (body : list BODY) (system : SYSTEM)
    (iaBody : list nat) :
  let b := body !!! (iaBody !!! 0%nat) in
  let eps := 10 * YEARDAY * DAYSEC in
  let before := (fdBaraffe STELLAR_R (dbl b dAge - eps) (dbl b dMass) 3).2 in
  let after := (fdBaraffe STELLAR_R (dbl b dAge + eps) (dbl b dMass) 3).2 in
  let rates := [fdDRadiusDtStellar; fdDRotRateDtCon; fdDEDtPotConStellar;
                fdDEDtRotConStellar] in
  iStellarModel b = STELLAR_MODEL_BARAFFE ->
  (before = STELLAR_ERR_OUTOFBOUNDS_LO ->
   forall f, In f rates -> f body system iaBody = Exit EXIT_INT [BaraffeLow])
  /\ (before = STELLAR_ERR_NONE \/ before = STELLAR_ERR_LINEAR
      \/ before = STELLAR_ERR_OUTOFBOUNDS_HI \/ before = STELLAR_ERR_ISNAN ->
      after = STELLAR_ERR_OUTOFBOUNDS_HI \/ after = STELLAR_ERR_ISNAN ->
      forall f, In f rates -> f body system iaBody = Ret None).
Proof.
  intros b eps before after rates Hm.
  assert (Hlow : before = STELLAR_ERR_OUTOFBOUNDS_LO ->
                 fdDRadiusDtStellar body system iaBody = Exit EXIT_INT [BaraffeLow]).
  { intros Hb. unfold fdDRadiusDtStellar. fold b. rewrite Hm.
    rewrite bool_decide_eq_true_2 by done. cbn [negb]. fold eps.
    assert (E : fdRadiusFunctionBaraffe (dbl b dAge - eps) (dbl b dMass)
                = Exit EXIT_INT [BaraffeLow]).
    { unfold fdRadiusFunctionBaraffe. unfold before in Hb.
      destruct (fdBaraffe STELLAR_R (dbl b dAge - eps) _ _) as [R e]. cbn [snd] in Hb.
      subst e. reflexivity. }
    by rewrite E. }
  assert (Hnan : before = STELLAR_ERR_NONE \/ before = STELLAR_ERR_LINEAR
                 \/ before = STELLAR_ERR_OUTOFBOUNDS_HI \/ before = STELLAR_ERR_ISNAN ->
                 after = STELLAR_ERR_OUTOFBOUNDS_HI \/ after = STELLAR_ERR_ISNAN ->
                 fdDRadiusDtStellar body system iaBody = Ret None).
  { intros Hb Ha. unfold fdDRadiusDtStellar. fold b. rewrite Hm.
    rewrite bool_decide_eq_true_2 by done. cbn [negb]. fold eps.
    unfold fdRadiusFunctionBaraffe. unfold before in Hb. unfold after in Ha.
    destruct (fdBaraffe STELLAR_R (dbl b dAge - eps) _ _) as [R e].
    destruct (fdBaraffe STELLAR_R (dbl b dAge + eps) _ _) as [R' e'].
    cbn [snd] in Hb, Ha.
    destruct Ha as [-> | ->]; destruct Hb as [-> | [-> | [-> | ->]]];
      cbn; by destruct R. }
  split.
  - intros Hb f Hf. specialize (Hlow Hb). cbn in Hf.
    destruct Hf as [<-|[<-|[<-|[<-|[]]]]]; try done;
      unfold fdDRotRateDtCon, fdDEDtPotConStellar, fdDEDtRotConStellar; fold b;
      rewrite ?Hm, ?bool_decide_eq_true_2 by done; cbn [negb]; by rewrite Hlow.
  - intros Hb Ha f Hf. specialize (Hnan Hb Ha). cbn in Hf.
    destruct Hf as [<-|[<-|[<-|[<-|[]]]]]; try done;
      unfold fdDRotRateDtCon, fdDEDtPotConStellar, fdDEDtRotConStellar; fold b;
      rewrite ?Hm, ?bool_decide_eq_true_2 by done; cbn [negb]; by rewrite Hnan.
Qed.

End StellarMoreProperties.

(** ** The driver *)

(** ** The time of the next output *)




Section GeneralProperties.
Context `{Libm} `{PhysConst} `{VplanetH}.

(** X16.  [PropsAuxGeneral] changes nothing but [dMeanMotion]: body 0 and
    the bodies from [iNumBodies] on are untouched, and each body in
    between gets [fdSemiToMeanMotion] of its semi-major axis and of the sum
    of its mass and the mass of body 0 when its [bBinary] is 0, and keeps
    its mean motion otherwise. *)
Theorem PropsAuxGeneral_mean_motion (body : list BODY) (control : CONTROL) :
  let nb := iNumBodies (Evolve control) in
  let body' := PropsAuxGeneral body control in
  (nb <= length body)%nat ->
  length body' = length body
  /\ (forall j f, f <> dMeanMotion -> dbl (body' !!! j) f = dbl (body !!! j) f)
  /\ (forall j, int (body' !!! j) = int (body !!! j))
  /\ body' !!! 0%nat = body !!! 0%nat
  /\ (forall j, (nb <= j)%nat -> body' !!! j = body !!! j)
  /\ forall j, (0 < j < nb)%nat ->
       dbl (body' !!! j) dMeanMotion
       = if (int (body !!! j) bBinary =? 0)%Z
         then fdSemiToMeanMotion (dbl (body !!! j) dSemi)
                                 (dbl (body !!! 0%nat) dMass + dbl (body !!! j) dMass)
         else dbl (body !!! j) dMeanMotion.
Proof.
  intros nb body' Hnb. unfold body', PropsAuxGeneral. fold nb.
  set (f := fun (iBody : nat) (body : list BODY) =>
    if negb (iBody =? 0)%nat && (int (body !!! iBody) bBinary =? 0)%Z then
      store_d iBody dMeanMotion
        (fdSemiToMeanMotion (dbl (body !!! iBody) dSemi)
                            (dbl (body !!! 0%nat) dMass + dbl (body !!! iBody) dMass)) body
    else body).
  set (P := fun (n : nat) (x : list BODY) =>
    length x = length body
    /\ (forall j g, g <> dMeanMotion -> dbl (x !!! j) g = dbl (body !!! j) g)
    /\ (forall j, int (x !!! j) = int (body !!! j))
    /\ x !!! 0%nat = body !!! 0%nat
    /\ (forall j, (n <= j)%nat -> x !!! j = body !!! j)
    /\ forall j, (0 < j < n)%nat ->
         dbl (x !!! j) dMeanMotion
         = if (int (body !!! j) bBinary =? 0)%Z
           then fdSemiToMeanMotion (dbl (body !!! j) dSemi)
                                   (dbl (body !!! 0%nat) dMass + dbl (body !!! j) dMass)
           else dbl (body !!! j) dMeanMotion).
  cut (P nb (for_loop nb f body)); [done|].
  apply for_loop_ind.
  - unfold P. repeat split; try done. intros; lia.
  - intros i x Hi (Hl & Hd & Hint & Hz & Hrest & Hdone). unfold P, f.
    destruct (Nat.eqb_spec i 0) as [->|Hi0]; cbn [negb andb].
    { split; [done|]. split; [done|]. split; [done|]. split; [done|].
      split; [intros; apply Hrest; lia|]. intros; lia. }
    rewrite Hint. rewrite (Hrest i) by lia.
    destruct (int (body !!! i) bBinary =? 0)%Z eqn:Eb.
    + rewrite (Hd 0%nat dMass) by done.
      split; [by rewrite length_store_d|].
      split. { intros j g Hg. destruct (decide (j = i)) as [->|Hne].
               - rewrite dbl_store_d_other by done. by apply Hd.
               - rewrite lookup_store_d_ne by done. by apply Hd. }
      split. { intros j. destruct (decide (j = i)) as [->|Hne].
               - unfold store_d. rewrite list_lookup_total_alter_eq by lia. cbn. apply Hint.
               - rewrite lookup_store_d_ne by done. apply Hint. }
      split; [by rewrite lookup_store_d_ne|].
      split; [intros j Hj; rewrite lookup_store_d_ne by lia; apply Hrest; lia|].
      intros j Hj. destruct (decide (j = i)) as [->|Hne].
      * rewrite dbl_store_d_eq by lia. by rewrite Eb.
      * rewrite lookup_store_d_ne by done. apply Hdone. lia.
    + split; [done|]. split; [done|]. split; [done|]. split; [done|].
      split; [intros; apply Hrest; lia|].
      intros j Hj. destruct (decide (j = i)) as [->|Hne].
      * rewrite (Hrest i) by lia. by rewrite Eb.
      * apply Hdone. lia.
Qed.

End GeneralProperties.

Lemma dbl_store_d_keep i f v body j g :
  g <> f -> dbl (store_d i f v body !!! j) g = dbl (body !!! j) g.
Proof.
  intros Hf. unfold store_d. rewrite list_lookup_total_alter.
  case_decide as Hd; [|done]. destruct Hd as [-> _]. by apply dbl_setd_ne.
Qed.

Section MembersProperties.
Context `{Libm} `{PhysConst} `{VplanetH}.

Ltac hstep_atmesc :=
  first
    [ hstep
    | lazymatch goal with
      | |- holds _ _ (fbDoesWaterEscape _ _) =>
          unfold holds; apply fbDoesWaterEscape_Inv;
          [intros ? ? ?; cbn; first [assumption | done] | assumption]
      end ].

Lemma fnPropsAuxAtmEsc_keeps_members : keeps_members matrix_members fnPropsAuxAtmEsc.
Proof.
  intros body evolve io update iBody.
  set (b := body !!! iBody).
  set (P := fun x : BODY =>
    dbl x dSurfaceWaterMass = dbl b dSurfaceWaterMass
    /\ dbl x dOxygenMass = dbl b dOxygenMass
    /\ dbl x dOxygenMantleMass = dbl b dOxygenMantleMass
    /\ dbl x dEnvelopeMass = dbl b dEnvelopeMass
    /\ dbl x dMass = dbl b dMass
    /\ dbl x dRadius = dbl b dRadius
    /\ dbl x dLuminosity = dbl b dLuminosity
    /\ dbl x dRadGyra = dbl b dRadGyra
    /\ dbl x dRotRate = dbl b dRotRate
    /\ dbl x dTemperature = dbl b dTemperature
    /\ dbl x dLostAngMom = dbl b dLostAngMom
    /\ dbl x dLostEng = dbl b dLostEng).
  assert (Hstart : Inv body iBody P body).
  { apply Inv_init. unfold P. repeat split. }
  assert (Hend : Inv body iBody P (fnPropsAuxAtmEsc body evolve io update iBody).1).
  { change (holds (Inv body iBody P) (fun r => Inv body iBody P r.1)
                  (fnPropsAuxAtmEsc body evolve io update iBody)).
    cbv beta delta [fnPropsAuxAtmEsc]. repeat hstep_atmesc. }
  destruct Hend as (Hl & Ho & HP). split; [done|].
  intros j g Hg. destruct (decide (j = iBody)) as [->|Hne]; [|by rewrite Ho].
  fold b. unfold P in HP. cbn [In matrix_members] in Hg.
  repeat (destruct Hg as [<-|Hg]; [tauto|]). done.
Qed.

Lemma fnPropsAuxStellar_keeps_members : keeps_members matrix_members fnPropsAuxStellar.
Proof.
  intros body evolve io update iBody. unfold fnPropsAuxStellar. cbv zeta.
  repeat case_decide;
    repeat lazymatch goal with |- context [if ?c then _ else _] => destruct c end;
    cbn [fst]; (split; [by rewrite !length_store_d|]);
    intros j g Hg; (rewrite !dbl_store_d_keep; [done|..]);
    cbn [In matrix_members] in Hg; intros ->; repeat (destruct Hg as [Hg|Hg]; [done|]); done.
Qed.

(** X17.  The auxiliary pass does not touch what the matrix integrates.
    When the hooks of the table leave the members [F] of every body alone,
    and [dMeanMotion] is not among them, so does [PropertiesAuxiliary].
    [fnPropsAuxAtmEsc] and [fnPropsAuxStellar] are such hooks for the
    members that [InitializeUpdateAtmEsc] and [InitializeUpdateStellar] put
    in the matrix. *)
Theorem PropertiesAuxiliary_keeps_members (body : list BODY) (control : CONTROL)
    (update : list UPDATE) (F : list dfield) :
  let nb := iNumBodies (Evolve control) in
  ~ In dMeanMotion F ->
  (forall i m, (i < nb)%nat -> (m < iNumModules (Evolve control) !!! i)%nat ->
     keeps_members F ((fnPropsAux control !!! i) !!! m)) ->
  (forall i m, (i < nb)%nat -> (m < iNumMultiProps control !!! i)%nat ->
     keeps_members F ((fnPropsAuxMulti control !!! i) !!! m)) ->
  (length (PropertiesAuxiliary body control update).1 = length body
   /\ forall j g, In g F ->
        dbl ((PropertiesAuxiliary body control update).1 !!! j) g = dbl (body !!! j) g)
  /\ keeps_members matrix_members fnPropsAuxAtmEsc
  /\ keeps_members matrix_members fnPropsAuxStellar
  /\ ~ In dMeanMotion matrix_members.
Proof.
  intros nb HF Huni Hmulti.
  split; [|split; [apply fnPropsAuxAtmEsc_keeps_members|
                   split; [apply fnPropsAuxStellar_keeps_members|]]].
  2: { cbn. intros Hin. repeat (destruct Hin as [Hin|Hin]; [done|]). done. }
  set (K := fun x : list BODY =>
    length x = length body /\ forall j g, In g F -> dbl (x !!! j) g = dbl (body !!! j) g).
  assert (Hhook : forall (h : fnPropsAuxModule) x iBody,
            keeps_members F h -> K x -> K (h x (Evolve control) (Io control) update iBody).1).
  { intros h x iBody Hk [Hl Hg]. destruct (Hk x (Evolve control) (Io control) update iBody)
      as [Hl' Hg']. split; [congruence|]. intros j g Hin. rewrite Hg' by done. by apply Hg. }
  assert (Hgen : K (PropsAuxGeneral body control)).
  { unfold PropsAuxGeneral. apply (for_loop_ind (fun _ x => K x)); [by split|].
    intros i x _ [Hl Hg]. destruct (_ && _); [|by split].
    split; [by rewrite length_store_d|]. intros j g Hin.
    rewrite dbl_store_d_keep; [by apply Hg|]. intros ->. done. }
  cut (K (PropertiesAuxiliary body control update).1); [done|].
  unfold PropertiesAuxiliary. cbv zeta.
  apply (for_loop_ind (fun _ (st : list BODY * list string) => K st.1)); [done|].
  intros iBody st HiB Hst.
  apply (for_loop_ind (fun _ (st : list BODY * list string) => K st.1)).
  - apply (for_loop_ind (fun _ (st : list BODY * list string) => K st.1)); [done|].
    intros k st' Hk Hst'. cbn [fst]. apply Hhook; [by apply Huni|done].
  - intros k st' Hk Hst'. cbn [fst]. apply Hhook; [by apply Hmulti|done].
Qed.

End MembersProperties.

(** ** Loops in loops that may leave the program *)

Lemma for_loopM_guard {S : Type} n (f : nat -> S -> outcome S) s :
  (if (0 <? n)%nat then for_loopM n f s else Ret s) = for_loopM n f s.
Proof. destruct n; done. Qed.

Lemma for_loopM2_at {S : Type} (nb : nat) (nv : nat -> S -> nat) (nv0 : nat -> nat)
    (f : nat -> nat -> S -> outcome S) (g : nat -> S -> outcome S)
    (inv Q : S -> Prop) (i0 v0 : nat) (s0 s' : S) :
  (forall i s, g i s = for_loopM (nv i s) (f i) s) ->
  inv s0 ->
  (i0 < nb)%nat -> (v0 < nv0 i0)%nat ->
  (forall i s, inv s -> nv i s = nv0 i) ->
  (forall i v s s1, (i < nb)%nat -> (v < nv0 i)%nat ->
     inv s -> f i v s = Ret s1 -> inv s1) ->
  (forall s s1, inv s -> f i0 v0 s = Ret s1 -> Q s1) ->
  (forall i v s s1, (i < nb)%nat -> (v < nv0 i)%nat -> (i, v) <> (i0, v0) ->
     inv s -> Q s -> f i v s = Ret s1 -> Q s1) ->
  for_loopM nb g s0 = Ret s' ->
  inv s' /\ Q s'.
Proof.
  intros Hg H0 Hi0 Hv0 Hnv Hinv Hat Hframe Hrun.
  cut (inv s' /\ ((i0 < nb)%nat -> Q s')); [intros [? HQ]; split; [done|by apply HQ]|].
  eapply (for_loopM_ind (fun k s => inv s /\ ((i0 < k)%nat -> Q s))) in Hrun; [exact Hrun| |].
  { split; [done|lia]. }
  intros k s1 s2 Hk [Hs1 HQ1] Hstep. rewrite Hg, (Hnv k s1 Hs1) in Hstep.
  destruct (decide (k = i0)) as [->|Hne].
  - eapply (for_loopM_ind (fun k' s => inv s /\ ((v0 < k')%nat -> Q s))) in Hstep.
    + destruct Hstep as [? HQ]. split; [done|]. intros _. by apply HQ.
    + split; [done|lia].
    + intros k' s3 s4 Hk' [Hs3 HQ3] Hstep3. split; [by eapply Hinv|]. intros Hlt.
      destruct (decide (k' = v0)) as [->|Hne'].
      * by eapply Hat.
      * eapply (Hframe i0 k'); [done|done| |done|apply HQ3; lia|exact Hstep3]. congruence.
  - eapply (for_loopM_ind (fun _ s => inv s /\ ((i0 < k)%nat -> Q s))) in Hstep.
    + destruct Hstep as [? HQ]. split; [done|]. intros Hlt. apply HQ. lia.
    + done.
    + intros k' s3 s4 Hk' [Hs3 HQ3] Hstep3. split; [by eapply Hinv|]. intros Hlt.
      eapply (Hframe k k'); [done|done| |done|by apply HQ3|exact Hstep3]. congruence.
Qed.


(** ** The scratch slots of a variable *)

Lemma lookup_total_ge {A : Type} `{Inhabited A} (l : list A) (i : nat) :
  (length l <= i)%nat -> l !!! i = inhabitant.
Proof. intros Hi. by rewrite list_lookup_total_alt, lookup_ge_None_2. Qed.

Lemma row_nonempty update i v e :
  (e < length (row update i v))%nat ->
  (i < length update)%nat /\ (v < length (daDerivProc (update !!! i)))%nat.
Proof.
  unfold row. intros He.
  destruct (decide (i < length update)%nat) as [Hi|Hi].
  - split; [done|].
    destruct (decide (v < length (daDerivProc (update !!! i)))%nat) as [Hv|Hv]; [done|].
    rewrite (lookup_total_ge (daDerivProc (update !!! i)) v) in He by lia.
    cbv in He. lia.
  - rewrite (lookup_total_ge update i) in He by lia. cbv in He. lia.
Qed.

Lemma row_store_eq i v e d update :
  (e < length (row update i v))%nat ->
  row (store_DerivProc i v e d update) i v = <[e := d]> (row update i v).
Proof.
  intros He. destruct (row_nonempty _ _ _ _ He) as [Hi Hv].
  unfold row, store_DerivProc.
  rewrite list_lookup_total_alter_eq by done. cbn.
  by rewrite list_lookup_total_alter_eq.
Qed.

Lemma SumDeriv_tmpUpdate k iDir update i v e :
  tmpUpdate (SumDeriv k iDir update i v e) = tmpUpdate e.
Proof. unfold SumDeriv. by apply (for_loop_ind (fun _ e1 => tmpUpdate e1 = tmpUpdate e)). Qed.

Lemma AdvanceTmpBody_tmpUpdate k step iDir body update e :
  tmpUpdate (AdvanceTmpBody k step iDir body update e) = tmpUpdate e.
Proof.
  unfold AdvanceTmpBody.
  apply (for_loop_ind (fun _ e1 => tmpUpdate e1 = tmpUpdate e)); [done|].
  intros i e1 _ IH.
  apply (for_loop_ind (fun _ e2 => tmpUpdate e2 = tmpUpdate e)); [done|].
  intros v e2 _ IH2. cbv zeta.
  destruct (is_value_type update i v); cbn; by rewrite SumDeriv_tmpUpdate.
Qed.

Lemma SumFullStep_tmpUpdate iDir update e :
  tmpUpdate (SumFullStep iDir update e) = tmpUpdate e.
Proof.
  unfold SumFullStep.
  apply (for_loop_ind (fun _ e1 => tmpUpdate e1 = tmpUpdate e)); [done|].
  intros i e1 _ IH.
  apply (for_loop_ind (fun _ e2 => tmpUpdate e2 = tmpUpdate e)); [done|].
  intros v e2 _ IH2.
  destruct (is_value_type update i v); [done|]. by rewrite SumDeriv_tmpUpdate.
Qed.

Section ConstantRates.
Context `{Libm} `{PhysConst} `{VplanetH}.

Variable fnUpdate : list (list (list fnUpdateVariable)).
Variable system : SYSTEM.
(** The variable [v0] of body [i0], whose equations return [c] *)
Variables i0 v0 : nat.
Variable c : list Q.

Lemma EvalEqn_cell e body update body' update' :
  EvalEqn fnUpdate system i0 v0 e (body, update) = Ret (body', update') ->
  returns_constant (((fnUpdate !!! i0) !!! v0) !!! e) (c !!! e) ->
  (e < length (row update i0 v0))%nat ->
  row update' i0 v0 = <[e := c !!! e]> (row update i0 v0).
Proof.
  unfold EvalEqn. intros Hrun Hc He.
  destruct ((((fnUpdate !!! i0) !!! v0) !!! e) body system _) as [[d b1]|] eqn:E; [|done].
  cbn in Hrun. injection Hrun as <- <-.
  rewrite (Hc _ _ _ _ _ E). by apply row_store_eq.
Qed.

Lemma EvalEqns_fill body update body' update' :
  let ne := iNumEqns (update !!! i0) !!! v0 in
  EvalEqns fnUpdate system i0 v0 (body, update) = Ret (body', update') ->
  (ne <= length (row update i0 v0))%nat ->
  (forall e, (e < ne)%nat -> returns_constant (((fnUpdate !!! i0) !!! v0) !!! e) (c !!! e)) ->
  length (row update' i0 v0) = length (row update i0 v0) /\ filled i0 v0 c ne update'.
Proof.
  intros ne Hrun Hroom Hc. unfold EvalEqns in Hrun. cbn [snd] in Hrun. fold ne in Hrun.
  eapply (for_loopM_ind (fun n (s : list BODY * list UPDATE) =>
           length (row s.2 i0 v0) = length (row update i0 v0)
           /\ forall e, (e < n)%nat -> row s.2 i0 v0 !!! e = c !!! e)) in Hrun;
    [exact Hrun|split; [done|intros; lia]|].
  intros e [b1 u1] [b2 u2] He [Hl Hf] Hstep. cbn [snd] in *.
  apply EvalEqn_cell in Hstep; [|by apply Hc|lia].
  rewrite Hstep, length_insert. split; [done|].
  intros e' He'. destruct (decide (e' = e)) as [->|Hne].
  - rewrite list_lookup_total_insert_eq; [done|lia].
  - rewrite list_lookup_total_insert_ne by done. apply Hf. lia.
Qed.

Lemma fdGetUpdateInfo_fill body control update body' update' :
  let ne := iNumEqns (update !!! i0) !!! v0 in
  fdGetUpdateInfo body control system update fnUpdate = Ret (body', update') ->
  (i0 < iNumBodies (Evolve control))%nat ->
  (v0 < iNumVars (update !!! i0))%nat ->
  (ne <= length (row update i0 v0))%nat ->
  (forall e, (e < ne)%nat -> returns_constant (((fnUpdate !!! i0) !!! v0) !!! e) (c !!! e)) ->
  scratch_kept i0 v0 update update' /\ filled i0 v0 c ne update'.
Proof.
  intros ne Hrun Hi Hv Hroom Hc. unfold fdGetUpdateInfo in Hrun.
  eapply (for_loopM2_at _ (fun i (s : list BODY * list UPDATE) => iNumVars (s.2 !!! i))
            (fun i => iNumVars (update !!! i))
            (fun i v s => EvalEqns fnUpdate system i v s) _
            (fun s => scratch_kept i0 v0 update s.2) (fun s => filled i0 v0 c ne s.2) i0 v0) in Hrun.
  - exact Hrun.
  - intros i s. cbv zeta. apply for_loopM_guard.
  - split; [apply procs_only_refl|done].
  - done.
  - done.
  - intros i s [Hp _]. cbn. by rewrite (procs_only_iNumVars _ _ _ Hp).
  - intros i v [b1 u1] [b2 u2] _ _ [Hp Hl] Hstep. cbn [snd] in *.
    destruct (decide ((i, v) = (i0, v0))) as [[= -> ->]|Hne].
    + pose proof (EvalEqns_frame _ _ _ _ _ _ _ _ Hstep) as [Hp' _].
      apply EvalEqns_fill in Hstep as [Hl' _].
      * split; [by eapply procs_only_trans|congruence].
      * rewrite (procs_only_iNumEqns _ _ _ Hp). fold ne. lia.
      * rewrite (procs_only_iNumEqns _ _ _ Hp). exact Hc.
    + apply EvalEqns_frame in Hstep as [Hp' Hr]. split; [by eapply procs_only_trans|].
      rewrite Hr; [done|]. congruence.
  - intros [b1 u1] [b2 u2] [Hp Hl] Hstep. cbn [snd] in *.
    apply EvalEqns_fill in Hstep as [_ Hf].
    + by rewrite (procs_only_iNumEqns _ _ _ Hp) in Hf.
    + rewrite (procs_only_iNumEqns _ _ _ Hp). fold ne. lia.
    + rewrite (procs_only_iNumEqns _ _ _ Hp). exact Hc.
  - intros i v [b1 u1] [b2 u2] _ _ Hne [Hp Hl] Hf Hstep. cbn [snd] in *.
    apply EvalEqns_frame in Hstep as [_ Hr]. unfold filled. rewrite Hr; [done|]. congruence.
Qed.

(** The same for [fdGetTimeStep], when the equations of the variable are
    tagged 1 *)
Lemma fdGetTimeStep_var_fill home integr st st' :
  let update := ts_update st in
  let ne := iNumEqns (update !!! i0) !!! v0 in
  fdGetTimeStep_var home integr system fnUpdate i0 v0 st = Ret st' ->
  (0 < ne)%nat ->
  (forall e, (e < ne)%nat -> (iaType (update !!! i0) !!! v0) !!! e = 1%Z) ->
  (ne <= length (row update i0 v0))%nat ->
  (forall e, (e < ne)%nat -> returns_constant (((fnUpdate !!! i0) !!! v0) !!! e) (c !!! e)) ->
  length (row (ts_update st') i0 v0) = length (row update i0 v0)
  /\ filled i0 v0 c ne (ts_update st').
Proof.
  destruct st as [body control update dMin].
  intros u ne Hrun Hpos Hty Hroom Hc. subst u. cbn [ts_update] in *.
  unfold fdGetTimeStep_var in Hrun.
  rewrite (Hty 0%nat Hpos) in Hrun. cbn [Z.eqb Pos.eqb] in Hrun. fold ne in Hrun.
  eapply (for_loopM_ind (fun n (s : TimeStepState) =>
           procs_only update (ts_update s)
           /\ length (row (ts_update s) i0 v0) = length (row update i0 v0)
           /\ forall e, (e < n)%nat -> row (ts_update s) i0 v0 !!! e = c !!! e)) in Hrun.
  - destruct Hrun as (_ & ? & ?). done.
  - split; [apply procs_only_refl|]. split; [done|intros; lia].
  - clear Hrun. intros e [b1 c1 u1 m1] s2 He (Hp & Hl & Hf) Hstep. cbn [ts_update] in *.
    rewrite (procs_only_iaType _ _ _ Hp), (Hty e He) in Hstep.
    cbn [Z.eqb Pos.eqb] in Hstep.
    destruct (EvalEqn fnUpdate system i0 v0 e (b1, u1)) as [[b2 u2]|] eqn:E; [|done].
    cbn [mbind outcome_bind] in Hstep.
    pose proof (EvalEqn_frame _ _ _ _ _ _ _ _ _ E) as [Hp' _].
    apply EvalEqn_cell in E; [|by apply Hc|lia].
    assert (Hu : ts_update s2 = u2) by (destruct (_ && _); by injection Hstep as <-).
    rewrite Hu, E, length_insert.
    split; [by eapply procs_only_trans|]. split; [done|].
    intros e' He'. destruct (decide (e' = e)) as [->|Hne].
    + rewrite list_lookup_total_insert_eq; [done|lia].
    + rewrite list_lookup_total_insert_ne by done. apply Hf. lia.
Qed.

Lemma fdGetTimeStep_fill body home control update dMin body' control' update' :
  let ne := iNumEqns (update !!! i0) !!! v0 in
  fdGetTimeStep body home control system update fnUpdate
    = Ret (dMin, body', control', update') ->
  (i0 < iNumBodies (Evolve control))%nat ->
  (v0 < iNumVars (update !!! i0))%nat ->
  (0 < ne)%nat ->
  (forall e, (e < ne)%nat -> (iaType (update !!! i0) !!! v0) !!! e = 1%Z) ->
  (ne <= length (row update i0 v0))%nat ->
  (forall e, (e < ne)%nat -> returns_constant (((fnUpdate !!! i0) !!! v0) !!! e) (c !!! e)) ->
  scratch_kept i0 v0 update update' /\ filled i0 v0 c ne update'.
Proof.
  intros ne Hrun Hi Hv Hpos Hty Hroom Hc. unfold fdGetTimeStep in Hrun.
  destruct (for_loopM _ _ _) as [st|] eqn:E; [|done].
  cbn in Hrun. injection Hrun as <- <- <- <-.
  eapply (for_loopM2_at _ (fun i (s : TimeStepState) => iNumVars (ts_update s !!! i))
            (fun i => iNumVars (update !!! i))
            (fdGetTimeStep_var home (Evolve control) system fnUpdate) _
            (fun s => scratch_kept i0 v0 update (ts_update s))
            (fun s => filled i0 v0 c ne (ts_update s)) i0 v0) in E.
  - exact E.
  - intros i s. apply for_loopM_guard.
  - split; [apply procs_only_refl|done].
  - done.
  - done.
  - intros i s [Hp _]. by rewrite (procs_only_iNumVars _ _ _ Hp).
  - intros i v s s1 _ _ [Hp Hl] Hstep.
    pose proof (fdGetTimeStep_var_frame _ _ _ _ _ _ _ _ Hstep) as [(Hp' & _ & Hr) _].
    split; [by eapply procs_only_trans|].
    destruct (decide ((i, v) = (i0, v0))) as [[= -> ->]|Hne].
    + apply fdGetTimeStep_var_fill in Hstep as [Hl' _]; [congruence|..];
        rewrite ?(procs_only_iNumEqns _ _ _ Hp), ?(procs_only_iaType _ _ _ Hp);
        fold ne; try done; lia.
    + rewrite Hr; [done|]. congruence.
  - intros s s1 [Hp Hl] Hstep.
    apply fdGetTimeStep_var_fill in Hstep as [_ Hf].
    + by rewrite (procs_only_iNumEqns _ _ _ Hp) in Hf.
    + by rewrite (procs_only_iNumEqns _ _ _ Hp).
    + rewrite (procs_only_iNumEqns _ _ _ Hp), (procs_only_iaType _ _ _ Hp). exact Hty.
    + rewrite (procs_only_iNumEqns _ _ _ Hp). fold ne. lia.
    + rewrite (procs_only_iNumEqns _ _ _ Hp). exact Hc.
  - intros i v s s1 _ _ Hne [Hp Hl] Hf Hstep.
    apply fdGetTimeStep_var_frame in Hstep as [(_ & _ & Hr) _].
    unfold filled. rewrite Hr; [done|]. congruence.
Qed.

Lemma scratch_kept_trans u1 u2 u3 :
  scratch_kept i0 v0 u1 u2 -> scratch_kept i0 v0 u2 u3 -> scratch_kept i0 v0 u1 u3.
Proof. intros [P1 L1] [P2 L2]. split; [by eapply procs_only_trans|congruence]. Qed.

Lemma fillable_kept ne tmp tmp' : fillable i0 v0 ne tmp -> scratch_kept i0 v0 tmp tmp' -> fillable i0 v0 ne tmp'.
Proof.
  intros (Hv & He & Hl) [Hp Hlen]. unfold fillable.
  rewrite (procs_only_iNumVars _ _ _ Hp), (procs_only_iNumEqns _ _ _ Hp), Hlen. done.
Qed.

Lemma rk4_midpoint_fill k step iDir ne s s' :
  rk4_midpoint k step system fnUpdate iDir s = Ret s' ->
  (i0 < iNumBodies (Evolve (st_control s)))%nat ->
  fillable i0 v0 ne (tmpUpdate (Evolve (st_control s))) ->
  (forall e, (e < ne)%nat -> returns_constant (((fnUpdate !!! i0) !!! v0) !!! e) (c !!! e)) ->
  fillable i0 v0 ne (tmpUpdate (Evolve (st_control s')))
  /\ filled i0 v0 c ne (tmpUpdate (Evolve (st_control s'))).
Proof.
  destruct s as [body control update dDt stderr]. unfold rk4_midpoint.
  cbn [st_control]. intros Hrun Hi Hfill Hc.
  destruct (PropertiesAuxiliary _ _ _) as [tb msg].
  destruct (fdGetUpdateInfo _ _ _ _ _) as [[tb' tu']|] eqn:E; [|done].
  cbn [mbind outcome_bind] in Hrun. injection Hrun as <-.
  cbn [st_control Evolve set_Evolve].
  rewrite AdvanceTmpBody_tmpUpdate. cbn [tmpUpdate set_tmpUpdate].
  destruct Hfill as (Hv & He & Hl).
  change (tmpUpdate (Evolve (set_Evolve _ control))) with (tmpUpdate (Evolve control)) in E.
  apply fdGetUpdateInfo_fill in E as [Hk Hf]; [|done|done|by rewrite He|by rewrite He].
  rewrite He in Hf. split; [|done]. by eapply fillable_kept.
Qed.

Lemma rk4_fullstep_fill iDir ne s s' :
  rk4_fullstep system fnUpdate iDir s = Ret s' ->
  (i0 < iNumBodies (Evolve (st_control s)))%nat ->
  fillable i0 v0 ne (tmpUpdate (Evolve (st_control s))) ->
  (forall e, (e < ne)%nat -> returns_constant (((fnUpdate !!! i0) !!! v0) !!! e) (c !!! e)) ->
  filled i0 v0 c ne (tmpUpdate (Evolve (st_control s'))).
Proof.
  destruct s as [body control update dDt stderr]. unfold rk4_fullstep.
  cbn [st_control]. intros Hrun Hi Hfill Hc.
  destruct (PropertiesAuxiliary _ _ _) as [tb msg].
  destruct (fdGetUpdateInfo _ _ _ _ _) as [[tb' tu']|] eqn:E; [|done].
  cbn [mbind outcome_bind] in Hrun. injection Hrun as <-.
  cbn [st_control Evolve set_Evolve].
  rewrite SumFullStep_tmpUpdate. cbn [tmpUpdate set_tmpUpdate].
  destruct Hfill as (Hv & He & Hl).
  change (tmpUpdate (Evolve (set_Evolve _ control))) with (tmpUpdate (Evolve control)) in E.
  apply fdGetUpdateInfo_fill in E as [Hk Hf]; [|done|done|by rewrite He|by rewrite He].
  by rewrite He in Hf.
Qed.

(** ** Functions of the matrix that leave the bodies alone *)

Lemma EvalEqn_body i v e body update body' update' :
  matrix_keeps_bodies fnUpdate ->
  EvalEqn fnUpdate system i v e (body, update) = Ret (body', update') -> body' = body.
Proof.
  intros Hk. unfold EvalEqn.
  destruct ((((fnUpdate !!! i) !!! v) !!! e) body system _) as [[d b1]|] eqn:E; [|done].
  cbn. intros [= <- <-]. by eapply Hk.
Qed.

Lemma EvalEqns_body i v body update body' update' :
  matrix_keeps_bodies fnUpdate ->
  EvalEqns fnUpdate system i v (body, update) = Ret (body', update') -> body' = body.
Proof.
  intros Hk Hrun. unfold EvalEqns in Hrun.
  eapply (for_loopM_ind (fun _ (s : list BODY * list UPDATE) => s.1 = body)) in Hrun;
    [exact Hrun|done|].
  intros e [b1 u1] [b2 u2] _ IH Hstep. cbn [fst] in *. subst b1.
  by eapply EvalEqn_body.
Qed.

Ltac run_body H :=
  repeat
    lazymatch type of H with
    | (if ?c then _ else _) = Ret _ => destruct c eqn:?
    | mbind _ ?m = Ret _ =>
        let E := fresh "E" in
        destruct m as [[? ?]|] eqn:E; [cbn [mbind outcome_bind] in H | discriminate H]
    | Ret _ = Ret _ => injection H as <-
    end.

Lemma fdGetTimeStep_var_body home integr i v st st' :
  matrix_keeps_bodies fnUpdate ->
  fdGetTimeStep_var home integr system fnUpdate i v st = Ret st' ->
  ts_body st' = ts_body st.
Proof.
  intros Hk. destruct st as [body control update dMin]. unfold fdGetTimeStep_var.
  cbn [ts_body]. intros Hrun.
  set (t0 := (iaType (update !!! i) !!! v) !!! 0%nat) in Hrun.
  destruct (t0 =? 0)%Z.
  { run_body Hrun; cbn [ts_body]; by eapply EvalEqns_body. }
  destruct (t0 =? 5)%Z.
  { run_body Hrun; cbn [ts_body]; by eapply EvalEqns_body. }
  destruct (t0 =? 10)%Z.
  { by run_body Hrun. }
  destruct (t0 =? 3)%Z.
  { run_body Hrun; cbn [ts_body]; by eapply EvalEqns_body. }
  eapply (for_loopM_ind (fun _ s => ts_body s = body)) in Hrun; [done|done|].
  clear Hrun. intros e [b1 c1 u1 m1] s2 _ IH Hstep. cbn [ts_body] in IH. subst b1.
  run_body Hstep; cbn [ts_body]; try done; by eapply EvalEqn_body.
Qed.

Lemma fdGetTimeStep_body body home control update dMin body' control' update' :
  matrix_keeps_bodies fnUpdate ->
  fdGetTimeStep body home control system update fnUpdate
    = Ret (dMin, body', control', update') ->
  body' = body.
Proof.
  intros Hk Hrun. unfold fdGetTimeStep in Hrun.
  destruct (for_loopM _ _ _) as [st|] eqn:E; [|done].
  cbn in Hrun. injection Hrun as <- <- <- <-.
  eapply (for_loopM_ind (fun _ s => ts_body s = body)) in E; [done|done|].
  intros i s1 s2 _ IH Hstep. cbv beta in Hstep.
  rewrite for_loopM_guard in Hstep.
  eapply (for_loopM_ind (fun _ s => ts_body s = body)) in Hstep; [done|done|].
  intros v s3 s4 _ IH3 Hstep3. apply fdGetTimeStep_var_body in Hstep3; [|done]. congruence.
Qed.

End ConstantRates.

Section ConstantRateStep.
Context `{Libm} `{PhysConst} `{VplanetH}.

Lemma DirSum_ext iDir r r' n :
  (forall e, (e < n)%nat -> r !!! e = r' !!! e) -> DirSum iDir r n = DirSum iDir r' n.
Proof.
  intros Hr. unfold DirSum. induction n as [|n IH]; [done|].
  rewrite !for_loop_S, IH by (intros; apply Hr; lia). by rewrite Hr by lia.
Qed.

(** X18.  [RungeKutta4Step] is exact on constant rates.  For a variable
    whose equations are tagged 1 and return the constants [c], a step moves
    the variable from the value it has in the bodies that the first
    [fdGetTimeStep] returned by the step [dDt] times the sum of [iDir * c];
    these bodies are the ones the step began with when the functions of
    the matrix leave the bodies alone.  The arrays are as the C program
    allocates them; [evolve->tmpUpdate] has the counts and kinds of
    [update] for this variable, and a scratch slot for each of its
    equations. *)
Theorem RungeKutta4Step_constant_rates (body : list BODY) (control : CONTROL)
    (system : SYSTEM) (update : list UPDATE)
    (fnUpdate : list (list (list fnUpdateVariable))) (iDir : Z) (s : StepState)
    (i v : nat) (c : list Q) :
  let nb := iNumBodies (Evolve control) in
  let tmp := tmpUpdate (Evolve control) in
  let ne := iNumEqns (update !!! i) !!! v in
  let pd := pdVar (update !!! i) !!! v in
  let tb0 := BodyCopy (tmpBody (Evolve control)) body (Evolve control) in
  let control0 := set_Evolve (set_tmpBody tb0 (Evolve control)) control in
  RungeKutta4Step body control system update fnUpdate iDir = Ret s ->
  has_room nb (nvars update) (evolve_daDeriv (Evolve control)) ->
  update_ready nb (st_body s) update ->
  (i < nb)%nat -> (v < iNumVars (update !!! i))%nat -> (0 < ne)%nat ->
  copied update tmp i v ->
  (forall e, (e < ne)%nat -> (iaType (update !!! i) !!! v) !!! e = 1%Z) ->
  (forall e, (e < ne)%nat -> returns_constant (((fnUpdate !!! i) !!! v) !!! e) (c !!! e)) ->
  exists dMin body0 control1 tmp1,
    fdGetTimeStep body (InArray tb0) control0 system tmp fnUpdate
      = Ret (dMin, body0, control1, tmp1)
    /\ st_dDt s = ChooseDt control dMin
    /\ dbl (st_body s !!! i) pd == dbl (body0 !!! i) pd + st_dDt s * DirSum iDir c ne
    /\ (matrix_keeps_bodies fnUpdate -> body0 = body).
Proof.
  intros nb tmp ne pd tb0 control0 Hrun Hroom Hready Hi Hv Hpos Hcopy Hty Hc.
  destruct Hcopy as (Cv & Ce & Ct & Cl). fold ne in Ce, Cl. fold tmp in Cv, Ce, Ct, Cl.
  destruct (RungeKutta4Step_stages _ _ _ _ _ _ _ Hrun)
    as (s0 & s1 & s2 & s3 & E0 & E1 & E2 & E3 & ->).
  destruct (rk4_start_spec _ _ _ _ _ _ _ Hroom E0)
    as (dMin & control1 & tu1 & Egts & U0 & Dt0 & _ & T0 & N0 & R0 & O0 & S0).
  fold nb tb0 control0 tmp in Egts, N0, R0, S0.
  exists dMin, (st_body s0), control1, tu1. split; [exact Egts|].
  (* the scratch slots after each evaluation *)
  assert (F0 : fillable i v ne (tmpUpdate (Evolve (st_control s0)))
               /\ filled i v c ne (tmpUpdate (Evolve (st_control s0)))).
  { rewrite T0.
    pose proof Egts as Efill.
    apply (fdGetTimeStep_fill fnUpdate system i v c) in Efill as [Hk Hf];
      [|done|by rewrite Cv|by rewrite Ce|by rewrite Ce, Ct|by rewrite Ce|by rewrite Ce].
    rewrite Ce in Hf. split; [|done].
    apply (fillable_kept i v ne tmp); [|done]. unfold fillable. by rewrite Cv, Ce. }
  destruct F0 as [A0 F0].
  pose proof (fun Hk Hr => rk4_midpoint_spec 1 _ system fnUpdate iDir s0 s1 Hk Hr E1) as M1.
  rewrite N0, U0 in M1. specialize (M1 ltac:(lia) R0).
  destruct M1 as [B1 U1 D1 N1 R1 O1 S1]. rewrite U0 in U1, R1, S1.
  destruct (rk4_midpoint_fill fnUpdate system i v c 1 _ iDir ne s0 s1 E1) as [A1 F1];
    [by rewrite N0|done|done|].
  pose proof (fun Hk Hr => rk4_midpoint_spec 2 _ system fnUpdate iDir s1 s2 Hk Hr E2) as M2.
  rewrite N1, U1 in M2. specialize (M2 ltac:(lia) R1).
  destruct M2 as [B2 U2 D2 N2 R2 O2 S2]. rewrite U1 in U2, R2, S2.
  destruct (rk4_midpoint_fill fnUpdate system i v c 2 _ iDir ne s1 s2 E2) as [A2 F2];
    [by rewrite N1|done|done|].
  pose proof (fun Hr => rk4_fullstep_spec system fnUpdate iDir s2 s3 Hr E3) as M3.
  rewrite N2, U2 in M3. specialize (M3 R2).
  destruct M3 as (B3 & U3 & D3 & N3 & O3 & S3).
  pose proof (rk4_fullstep_fill fnUpdate system i v c iDir ne s2 s3 E3) as F3.
  specialize (F3 ltac:(by rewrite N2) A2 Hc).
  assert (Hval : is_value_type update i v = false).
  { unfold is_value_type. by rewrite (Hty 0%nat Hpos). }
  assert (Hsum : forall sk, filled i v c ne (tmpUpdate (Evolve (st_control sk))) ->
                   StageSum iDir update sk i v = DirSum iDir c ne).
  { intros sk Hf. unfold StageSum. fold ne. by apply DirSum_ext. }
  destruct (rk4_update_dDt s3) as [D4 _].
  split. { by rewrite D4, D3, D2, D1. }
  split; [|intros Hk; by eapply fdGetTimeStep_body].
  destruct s3 as [body3 control3 update3 dDt3 stderr3].
  cbn [st_body st_control st_update st_dDt rk4_update] in *. subst update3.
  destruct (UpdateVariables_spec (Evolve control3) dDt3 body3 update) as (_ & _ & HU).
  { rewrite N3. destruct Hready as (Hb & Hu & Hvars).
    rewrite UpdateVariables_length in Hb. split; [lia|]. done. }
  rewrite N3 in HU. specialize (HU i v Hi Hv). rewrite Hval in HU.
  fold pd in HU. rewrite HU.
  assert (G0 : get3 (evolve_daDeriv (Evolve control3)) 0 i v = DirSum iDir c ne).
  { rewrite O3, O2, O1 by lia. rewrite S0 by done. by apply Hsum. }
  assert (G1 : get3 (evolve_daDeriv (Evolve control3)) 1 i v = DirSum iDir c ne).
  { rewrite O3, O2 by lia. rewrite S1 by done. by apply Hsum. }
  assert (G2 : get3 (evolve_daDeriv (Evolve control3)) 2 i v = DirSum iDir c ne).
  { rewrite O3 by lia. rewrite S2 by done. by apply Hsum. }
  specialize (S3 i v Hi Hv). rewrite Hval in S3.
  rewrite G0, G1, G2, S3, B3, B2, B1.
  rewrite (Hsum (mkStepState _ control3 update dDt3 stderr3)) by done.
  field.
Qed.

End ConstantRateStep.

Lemma cell_store_ne i v e d update i' v' e' :
  (i', v', e') <> (i, v, e) ->
  row (store_DerivProc i v e d update) i' v' !!! e' = row update i' v' !!! e'.
Proof.
  intros Hne. destruct (decide ((i', v') = (i, v))) as [[= -> ->]|Hiv].
  - unfold row, store_DerivProc.
    rewrite list_lookup_total_alter. case_decide as E1; [|done]. cbn.
    rewrite list_lookup_total_alter. case_decide as E2; [|done].
    rewrite list_lookup_total_insert_ne; [done|]. congruence.
  - by rewrite row_store_ne.
Qed.

Section TimeStepBound.
Context `{Libm} `{PhysConst} `{VplanetH}.

Variable fnUpdate : list (list (list fnUpdateVariable)).
Variable system : SYSTEM.
Variable home : pdVarHome.
Variable body : list BODY.
Variable update : list UPDATE.
Variable nb : nat.
(** The equation [e0] of the variable [v0] of body [i0] *)
Variables i0 v0 e0 : nat.

Hypothesis Hkeeps : matrix_keeps_bodies fnUpdate.
Hypothesis Hice : no_ice_sheets nb update.

Lemma deref_running control s i v :
  running body update nb control s -> deref home (ts_body s) (ts_update s) i v = deref home body update i v.
Proof.
  intros ([_ Hp] & -> & _). unfold deref. rewrite (Hp i). by destruct home.
Qed.

Ltac run_ts H :=
  repeat
    lazymatch type of H with
    | (if ?c then _ else _) = Ret _ => destruct c eqn:?
    | mbind _ ?m = Ret _ =>
        let E := fresh "E" in
        destruct m as [[? ?]|] eqn:E; [cbn [mbind outcome_bind] in H | discriminate H]
    | Ret _ = Ret _ => injection H as <-
    end.

Lemma EvalEqn_cells i v e b1 u1 b2 u2 :
  EvalEqn fnUpdate system i v e (b1, u1) = Ret (b2, u2) ->
  b2 = b1 /\ procs_only u1 u2
  /\ (forall i' v', (i', v') <> (i, v) -> row u2 i' v' = row u1 i' v')
  /\ forall i' v' e', (i', v', e') <> (i, v, e) ->
       row u2 i' v' !!! e' = row u1 i' v' !!! e'.
Proof.
  intros E. split; [by eapply EvalEqn_body|].
  split; [by eapply EvalEqn_frame|].
  split; [by eapply EvalEqn_frame|].
  unfold EvalEqn in E.
  destruct ((((fnUpdate !!! i) !!! v) !!! e) b1 system _) as [[d b]|]; [|done].
  cbn in E. injection E as <- <-. intros; by apply cell_store_ne.
Qed.

Lemma EvalEqns_cells i v b1 u1 b2 u2 :
  EvalEqns fnUpdate system i v (b1, u1) = Ret (b2, u2) ->
  b2 = b1 /\ procs_only u1 u2
  /\ forall i' v', (i', v') <> (i, v) -> row u2 i' v' = row u1 i' v'.
Proof.
  intros E. split; [by eapply EvalEqns_body|]. by eapply EvalEqns_frame.
Qed.

Lemma resolves_step m1 u1 m2 u2 :
  resolves home body update i0 v0 e0 m1 u1 -> m2 <= m1 -> row u2 i0 v0 !!! e0 = row u1 i0 v0 !!! e0 ->
  resolves home body update i0 v0 e0 m2 u2.
Proof.
  unfold resolves. cbv zeta. intros Hr Hm Hc Hd Hx. rewrite Hc in *.
  specialize (Hr Hd Hx). lra.
Qed.

Lemma running_eval control b1 c1 u1 m1 u2 m2 :
  running body update nb control (mkTimeStepState b1 c1 u1 m1) ->
  procs_only u1 u2 ->
  running body update nb control (mkTimeStepState b1 c1 u2 m2).
Proof.
  intros (Hp & Hb & Hf & Hfirst) Hp2. unfold running. cbn in *.
  split; [by eapply procs_only_trans|]. done.
Qed.

Lemma fdGetTimeStep_var_bound control integr i v s s1 :
  (i < nb)%nat -> (v < iNumVars (update !!! i))%nat ->
  running body update nb control s ->
  fdGetTimeStep_var home integr system fnUpdate i v s = Ret s1 ->
  running body update nb control s1
  /\ ts_dMin s1 <= ts_dMin s
  /\ ((forall i' v', (i', v') <> (i, v) -> row (ts_update s1) i' v' = row (ts_update s) i' v'))
  /\ ((i, v) = (i0, v0) ->
      (e0 < iNumEqns (update !!! i0) !!! v0)%nat ->
      let t0 := (iaType (update !!! i0) !!! v0) !!! 0%nat in
      let t := (iaType (update !!! i0) !!! v0) !!! e0 in
      t0 <> 0%Z -> t0 <> 5%Z -> t0 <> 10%Z -> t0 <> 3%Z ->
      t <> 2%Z -> t <> 7%Z ->
      resolves home body update i0 v0 e0 (ts_dMin s1) (ts_update s1)).
Proof.
  intros Hi Hv Hrun Hstep. destruct s as [b c u m].
  pose proof Hrun as (Hp & Hb & Hf & Hfirst). cbn [ts_body ts_update ts_control] in *.
  subst b. unfold fdGetTimeStep_var in Hstep.
  rewrite (procs_only_iaType _ _ _ Hp), (procs_only_iNumEqns _ _ _ Hp) in Hstep.
  set (t0 := (iaType (update !!! i) !!! v) !!! 0%nat) in *.
  assert (Hnofirst : t0 = 0%Z \/ t0 = 3%Z -> truthy (bFirstStep (Evolve c)) = false).
  { intros Ht. destruct Hfirst as [?|Hno]; [done|].
    destruct (Hno i v Hi Hv) as [N0 N3]. exfalso.
    destruct Ht as [Ht|Ht]; [apply N0|apply N3]; exact Ht. }
  destruct (Z.eqb_spec t0 0) as [T0|T0].
  { rewrite (Hnofirst (or_introl T0)) in Hstep.
    destruct (EvalEqns _ _ _ _ _) as [[b2 u2]|] eqn:E; [|done].
    cbn [mbind outcome_bind] in Hstep.
    apply EvalEqns_cells in E as (-> & Hp2 & Hr2).
    assert (Hm : ts_dMin s1 <= m /\ ts_update s1 = u2
                 /\ running body update nb control s1).
    { destruct (negb _); injection Hstep as <-; cbn [ts_dMin ts_update];
        (split; [|split; [done|by eapply running_eval]]); [|lra].
      apply lower_min. }
    destruct Hm as (? & -> & ?). do 3 (split; [done|]).
    intros [= -> ->]. cbv zeta. intros. done. }
  destruct (Z.eqb_spec t0 5) as [T5|T5].
  { destruct (EvalEqns _ _ _ _ _) as [[b2 u2]|] eqn:E; [|done].
    cbn [mbind outcome_bind] in Hstep. injection Hstep as <-. cbn [ts_dMin ts_update].
    apply EvalEqns_cells in E as (-> & Hp2 & Hr2).
    split; [by eapply running_eval|]. split; [lra|]. split; [done|].
    intros [= -> ->]. cbv zeta. intros. done. }
  destruct (Z.eqb_spec t0 10) as [T10|T10].
  { injection Hstep as <-. cbn [ts_dMin ts_update].
    split; [done|]. split; [apply lower_min|]. split; [done|].
    intros [= -> ->]. cbv zeta. intros. done. }
  destruct (Z.eqb_spec t0 3) as [T3|T3].
  { rewrite (Hnofirst (or_intror T3)) in Hstep.
    destruct (EvalEqns _ _ _ _ _) as [[b2 u2]|] eqn:E; [|done].
    cbn [mbind outcome_bind] in Hstep.
    apply EvalEqns_cells in E as (-> & Hp2 & Hr2).
    assert (Hm : ts_dMin s1 <= m /\ ts_update s1 = u2
                 /\ running body update nb control s1).
    { destruct (negb _); injection Hstep as <-; cbn [ts_dMin ts_update];
        (split; [|split; [done|by eapply running_eval]]); [|lra].
      apply lower_min. }
    destruct Hm as (? & -> & ?). do 3 (split; [done|]).
    intros [= -> ->]. cbv zeta. intros. done. }
  (* the variable is controlled by its equations, one by one *)
  set (ne := iNumEqns (update !!! i) !!! v) in *.
  eapply (for_loopM_ind (fun n s' =>
            running body update nb control s'
            /\ ts_dMin s' <= m
            /\ (forall i' v', (i', v') <> (i, v) -> row (ts_update s') i' v' = row u i' v')
            /\ ((i, v) = (i0, v0) ->
                (iaType (update !!! i0) !!! v0) !!! e0 <> 2%Z ->
                (iaType (update !!! i0) !!! v0) !!! e0 <> 7%Z ->
                (e0 < n)%nat -> resolves home body update i0 v0 e0 (ts_dMin s') (ts_update s')))) in Hstep.
  - destruct Hstep as (? & ? & ? & Hres). do 3 (split; [done|]).
    intros Heq He0. cbv zeta. intros. apply Hres; try done.
    injection Heq as -> ->. done.
  - split; [done|]. split; [cbn; lra|]. split; [done|]. intros; lia.
  - clear Hstep. intros e [b1 c1 u1 m1] s2 He (Hrun1 & Hm1 & Hrow1 & Hres1) Hstep.
    pose proof Hrun1 as (Hp1 & Hb1 & Hf1 & Hfirst1).
    cbn [ts_body ts_update ts_control ts_dMin] in *. subst b1.
    rewrite (procs_only_iaType _ _ _ Hp1) in Hstep.
    set (t := (iaType (update !!! i) !!! v) !!! e) in *.
    assert (T9 : t <> 9%Z) by (by apply Hice).
    (* what each branch has in common *)
    assert (Hcommon : forall u2 m2,
              procs_only u1 u2 ->
              (forall i' v' e', (i', v', e') <> (i, v, e) ->
                 row u2 i' v' !!! e' = row u1 i' v' !!! e') ->
              (forall i' v', (i', v') <> (i, v) -> row u2 i' v' = row u1 i' v') ->
              m2 <= m1 ->
              ((i, v) = (i0, v0) -> e = e0 -> t <> 2%Z -> t <> 7%Z -> resolves home body update i0 v0 e0 m2 u2) ->
              let s' := mkTimeStepState body c1 u2 m2 in
              running body update nb control s'
              /\ ts_dMin s' <= m
              /\ (forall i' v', (i', v') <> (i, v) -> row (ts_update s') i' v' = row u i' v')
              /\ ((i, v) = (i0, v0) ->
                  (iaType (update !!! i0) !!! v0) !!! e0 <> 2%Z ->
                  (iaType (update !!! i0) !!! v0) !!! e0 <> 7%Z ->
                  (e0 < S e)%nat -> resolves home body update i0 v0 e0 (ts_dMin s') (ts_update s'))).
    { intros u2 m2 Hp2 Hc2 Hr2 Hm2 Hhere s'. unfold s'. cbn [ts_dMin ts_update].
      split; [by eapply running_eval|]. split; [lra|].
      split; [intros; rewrite Hr2 by done; by apply Hrow1|].
      intros Heq Ht2 Ht7 Hlt. destruct (decide (e = e0)) as [->|Hne].
      - apply Hhere; try done; unfold t; by injection Heq as -> ->.
      - eapply resolves_step; [apply Hres1; try done; lia|done|].
        apply Hc2. injection Heq as -> ->. congruence. }
    destruct (Z.eqb_spec t 2) as [T2|T2].
    { destruct (EvalEqn _ _ _ _ _ _) as [[b2 u2]|] eqn:E; [|done].
      cbn [mbind outcome_bind] in Hstep.
      apply EvalEqn_cells in E as (-> & Hp2 & Hr2 & Hc2).
      destruct (negb _); injection Hstep as <-; apply Hcommon; try done;
        first [apply lower_min | lra]. }
    destruct (Z.eqb_spec t 9) as [?|_]; [done|].
    destruct (Z.eqb_spec t 7) as [T7|T7].
    { destruct (_ || _).
      - destruct (EvalEqn _ _ _ _ _ _) as [[b2 u2]|] eqn:E; [|done].
        cbn [mbind outcome_bind] in Hstep.
        apply EvalEqn_cells in E as (-> & Hp2 & Hr2 & Hc2).
        injection Hstep as <-. apply Hcommon; try done. apply lower_min.
      - injection Hstep as <-. apply Hcommon; try done; [apply procs_only_refl|lra]. }
    destruct (EvalEqn _ _ _ _ _ _) as [[b2 u2]|] eqn:E; [|done].
    cbn [mbind outcome_bind] in Hstep.
    apply EvalEqn_cells in E as (-> & Hp2 & Hr2 & Hc2).
    assert (Hx : deref home body u2 i v = deref home body update i v).
    { apply (deref_running control (mkTimeStepState body c1 u2 m1)).
      by eapply running_eval. }
    rewrite Hx in Hstep.
    destruct (negb (truthy (bFloatComparison _ 0))) eqn:Ed;
      [destruct (negb (truthy (bFloatComparison (deref _ _ _ _ _) 0))) eqn:Ex|];
      cbn [andb] in Hstep; injection Hstep as <-; apply Hcommon; try done;
      try apply lower_min; try lra.
    + intros [= -> ->] -> _ _. unfold resolves. cbv zeta. intros _ _. apply lower_min.
    + intros [= -> ->] -> _ _. unfold resolves. cbv zeta. intros _ Hz.
      rewrite Hz in Ex. done.
    + intros [= -> ->] -> _ _. unfold resolves. cbv zeta. intros Hz _.
      unfold row in Hz. rewrite Hz in Ed. done.
Qed.

End TimeStepBound.

Section TimeStepResolves.
Context `{Libm} `{PhysConst} `{VplanetH}.

(** X19.  When the functions of the matrix leave the bodies alone, no
    equation is tagged 9, and the first-step branch is out of reach
    ([bFirstStep] is clear, or no variable is tagged 0 or 3),
    [fdGetTimeStep] returns the bodies unchanged and a timescale that is at
    most [dHUGE] and at most [|x / d|] for every equation of a variable
    controlled by time derivatives (tags other than 0, 3, 5, 10 for the
    variable, other than 2, 7, 9 for the equation), where [x] is the value
    of the variable and [d] the derivative left in the scratch slot, and
    [bFloatComparison] finds neither of them zero. *)
Theorem fdGetTimeStep_resolves (body : list BODY) (home : pdVarHome) (control : CONTROL)
    (system : SYSTEM) (update : list UPDATE)
    (fnUpdate : list (list (list fnUpdateVariable)))
    (dMin : Q) (body' : list BODY) (control' : CONTROL) (update' : list UPDATE) :
  let nb := iNumBodies (Evolve control) in
  fdGetTimeStep body home control system update fnUpdate
    = Ret (dMin, body', control', update') ->
  matrix_keeps_bodies fnUpdate ->
  no_ice_sheets nb update ->
  truthy (bFirstStep (Evolve control)) = false \/ no_explicit nb update ->
  dMin <= dHUGE
  /\ body' = body
  /\ forall i v e, (i < nb)%nat -> (v < iNumVars (update !!! i))%nat ->
       (e < iNumEqns (update !!! i) !!! v)%nat ->
       let t0 := (iaType (update !!! i) !!! v) !!! 0%nat in
       let t := (iaType (update !!! i) !!! v) !!! e in
       let d := row update' i v !!! e in
       let x := deref home body update i v in
       t0 <> 0%Z -> t0 <> 5%Z -> t0 <> 10%Z -> t0 <> 3%Z -> t <> 2%Z -> t <> 7%Z ->
       truthy (bFloatComparison d 0) = false ->
       truthy (bFloatComparison x 0) = false ->
       dMin <= Qabs (x / d).
Proof.
  intros nb Hrun Hkeeps Hice Hfirst.
  pose proof (fdGetTimeStep_body _ _ _ _ _ _ _ _ _ _ Hkeeps Hrun) as Hbody.
  subst body'. unfold fdGetTimeStep in Hrun.
  destruct (for_loopM _ _ _) as [st|] eqn:E; [|done].
  cbn in Hrun. injection Hrun as <- _ <- <-.
  set (inv := fun s : TimeStepState =>
         running body update nb control s /\ ts_dMin s <= dHUGE).
  assert (Hstart : inv (mkTimeStepState body control update dHUGE)).
  { split; [|cbn; lra]. split; [apply procs_only_refl|]. split; [done|].
    split; [apply first_only_refl|done]. }
  assert (Hnv : forall i s, inv s -> iNumVars (ts_update s !!! i) = iNumVars (update !!! i)).
  { intros i s [(Hp & _) _]. by rewrite (procs_only_iNumVars _ _ _ Hp). }
  assert (Hinv : forall i v s s1, (i < nb)%nat -> (v < iNumVars (update !!! i))%nat ->
            inv s ->
            fdGetTimeStep_var home (Evolve control) system fnUpdate i v s = Ret s1 ->
            inv s1).
  { intros i v s s1 Hi Hv [Hr Hm] Hstep.
    destruct (fdGetTimeStep_var_bound fnUpdate system home body update nb 0%nat 0%nat 0%nat
                Hkeeps Hice control _ i v s s1 Hi Hv Hr Hstep) as (? & ? & _).
    split; [done|lra]. }
  split.
  { eapply (for_loopM_ind (fun _ s => inv s)) in E; [by destruct E|done|].
    intros i s1 s2 Hi Hs1 Hstep. cbv beta in Hstep. rewrite for_loopM_guard in Hstep.
    rewrite (Hnv i s1 Hs1) in Hstep.
    eapply (for_loopM_ind (fun _ s => inv s)) in Hstep; [done|done|].
    intros v s3 s4 Hv Hs3 Hstep3. by eapply Hinv. }
  split; [done|].
  intros i v e Hi Hv He t0 t d x T0 T5 T10 T3 T2 T7 Hd Hx.
  eapply (for_loopM2_at _ (fun i (s : TimeStepState) => iNumVars (ts_update s !!! i))
            (fun i => iNumVars (update !!! i))
            (fdGetTimeStep_var home (Evolve control) system fnUpdate) _
            inv
            (fun s => resolves home body update i v e (ts_dMin s) (ts_update s)) i v) in E.
  - destruct E as [_ Hres]. by apply Hres.
  - intros i' s. apply for_loopM_guard.
  - done.
  - done.
  - done.
  - done.
  - done.
  - intros s s1 [Hr Hm] Hstep.
    destruct (fdGetTimeStep_var_bound fnUpdate system home body update nb i v e
                Hkeeps Hice control _ i v s s1 Hi Hv Hr Hstep) as (_ & _ & _ & Hres).
    by apply Hres.
  - intros i' v' s s1 Hi' Hv' Hne [Hr Hm] HQ Hstep.
    destruct (fdGetTimeStep_var_bound fnUpdate system home body update nb i v e
                Hkeeps Hice control _ i' v' s s1 Hi' Hv' Hr Hstep) as (_ & Hle & Hrow & _).
    eapply resolves_step; [exact HQ|done|]. rewrite Hrow; [done|]. congruence.
Qed.

End TimeStepResolves.

Section EulerProperties.
Context `{Libm} `{PhysConst} `{VplanetH}.

Lemma EulerVar_rates iDir dDt u v x :
  (forall e, (e < iNumEqns u !!! v)%nat -> (iaType u !!! v) !!! e <> 0%Z) ->
  EulerVar iDir dDt u v x == x + dDt * DirSum iDir (daDerivProc u !!! v) (iNumEqns u !!! v).
Proof.
  unfold EulerVar, DirSum. generalize (iNumEqns u !!! v). intros n Hty.
  induction n as [|n IH]; [cbn; ring|].
  rewrite !for_loop_S. destruct (Z.eqb_spec ((iaType u !!! v) !!! n) 0) as [E|_].
  - exfalso. by apply (Hty n); [lia|].
  - rewrite IH by (intros; apply Hty; lia). ring.
Qed.

(** X20.  What [EulerStep] writes.  With variable timestepping it calls
    [fdGetTimeStep] once and takes [AssignDt] of its result as the step;
    with a fixed timestep it calls no function of the matrix and keeps the
    control structure, the UPDATE array and the step it was given.  Each
    variable of the first [iNumBodies] bodies is then taken through its
    equations in order: an equation tagged 0 assigns its scratch value, any
    other adds [iDir] times its scratch value times the step; when no
    equation is tagged 0 the variable moves by the step times the sum of
    [iDir] times the scratch values.  The arrays are as the C program
    allocates them. *)
Theorem EulerStep_writes_back (body : list BODY) (control : CONTROL) (system : SYSTEM)
    (update : list UPDATE) (fnUpdate : list (list (list fnUpdateVariable)))
    (dDt : Q) (iDir : Z) (s : StepState) :
  let nb := iNumBodies (Evolve control) in
  EulerStep body control system update fnUpdate dDt iDir = Ret s ->
  update_ready nb (st_body s) (st_update s) ->
  exists body0,
    (if truthy (bVarDt (Evolve control)) then
       exists dMin,
         fdGetTimeStep body InBodyArgument control system update fnUpdate
           = Ret (dMin, body0, st_control s, st_update s)
         /\ st_dDt s = ChooseDt control dMin
     else
       body0 = body /\ st_control s = control /\ st_update s = update /\ st_dDt s = dDt)
    /\ length (st_body s) = length body0
    /\ forall i v, (i < nb)%nat -> (v < iNumVars (st_update s !!! i))%nat ->
         let u := st_update s !!! i in
         let x := dbl (body0 !!! i) (pdVar u !!! v) in
         dbl (st_body s !!! i) (pdVar u !!! v) = EulerVar iDir (st_dDt s) u v x
         /\ ((forall e, (e < iNumEqns u !!! v)%nat -> (iaType u !!! v) !!! e <> 0%Z) ->
             dbl (st_body s !!! i) (pdVar u !!! v)
             == x + st_dDt s * DirSum iDir (row (st_update s) i v) (iNumEqns u !!! v)).
Proof.
  intros nb Hrun Hready.
  (* the loops that apply the scratch values *)
  set (apply := fun (nb : nat) (update : list UPDATE) (dDt : Q) (body : list BODY) =>
    for_loop nb (fun iBody body =>
      for_loop (iNumVars (update !!! iBody)) (fun iVar body =>
        for_loop (iNumEqns (update !!! iBody) !!! iVar) (fun iEqn body =>
          let pd := pdVar (update !!! iBody) !!! iVar in
          let d := (daDerivProc (update !!! iBody) !!! iVar) !!! iEqn in
          if ((iaType (update !!! iBody) !!! iVar) !!! iEqn =? 0)%Z then
            store_d iBody pd d body
          else
            store_d iBody pd (dbl (body !!! iBody) pd + inject_Z iDir * d * dDt) body)
          body) body) body).
  assert (Happly : forall nb update dDt body0,
    (nb <= length body0)%nat ->
    (forall i, (i < nb)%nat ->
       (iNumVars (update !!! i) <= length (pdVar (update !!! i)))%nat
       /\ NoDup (pdVar (update !!! i))) ->
    length (apply nb update dDt body0) = length body0
    /\ forall i v, (i < nb)%nat -> (v < iNumVars (update !!! i))%nat ->
         dbl (apply nb update dDt body0 !!! i) (pdVar (update !!! i) !!! v)
         = EulerVar iDir dDt (update !!! i) v (dbl (body0 !!! i) (pdVar (update !!! i) !!! v))).
  { clear. intros nb update dDt body0 Hnb Hvars.
    set (f := fun (iBody iVar : nat) (body : list BODY) =>
        for_loop (iNumEqns (update !!! iBody) !!! iVar) (fun iEqn body =>
          let pd := pdVar (update !!! iBody) !!! iVar in
          let d := (daDerivProc (update !!! iBody) !!! iVar) !!! iEqn in
          if ((iaType (update !!! iBody) !!! iVar) !!! iEqn =? 0)%Z then
            store_d iBody pd d body
          else
            store_d iBody pd (dbl (body !!! iBody) pd + inject_Z iDir * d * dDt) body)
          body).
    assert (Hf : forall i v body, (i < length body)%nat ->
      length (f i v body) = length body
      /\ dbl (f i v body !!! i) (pdVar (update !!! i) !!! v)
         = EulerVar iDir dDt (update !!! i) v (dbl (body !!! i) (pdVar (update !!! i) !!! v))
      /\ (forall j, j <> i -> f i v body !!! j = body !!! j)
      /\ (forall g, g <> pdVar (update !!! i) !!! v ->
            dbl (f i v body !!! i) g = dbl (body !!! i) g)).
    { intros i v body Hi. unfold f, EulerVar.
      generalize (iNumEqns (update !!! i) !!! v). intros n.
      induction n as [|n (IH1 & IH2 & IH3 & IH4)]; [done|].
      rewrite !for_loop_S. cbv zeta.
      destruct (_ =? 0)%Z.
      - rewrite length_store_d. split; [done|].
        rewrite dbl_store_d_eq by lia. split; [done|]. split.
        + intros j Hj. rewrite lookup_store_d_ne by done. by apply IH3.
        + intros g Hg. rewrite dbl_store_d_other by done. by apply IH4.
      - rewrite length_store_d. split; [done|].
        rewrite dbl_store_d_eq by lia. split; [by rewrite IH2|]. split.
        + intros j Hj. rewrite lookup_store_d_ne by done. by apply IH3.
        + intros g Hg. rewrite dbl_store_d_other by done. by apply IH4. }
    destruct (for_loop2_pointwise nb (fun i _ => iNumVars (update !!! i))
                (fun i => iNumVars (update !!! i)) f
                (fun body => length body = length body0)
                (fun i v body => dbl (body !!! i) (pdVar (update !!! i) !!! v))
                (fun i v x => EulerVar iDir dDt (update !!! i) v x) body0)
      as [Ha Hb].
    - done.
    - done.
    - intros i v body Hi Hv Hl. destruct (Hf i v body) as (? & _); [lia|]. congruence.
    - intros i v body Hi Hv Hl. destruct (Hf i v body) as (_ & ? & _); [lia|]. done.
    - intros i v i' v' body Hi Hv Hi' Hv' Hne Hl.
      destruct (Hf i v body) as (_ & _ & Hj & Hg); [lia|].
      destruct (decide (i' = i)) as [->|Hi'']; [|by rewrite Hj].
      apply Hg. intros Heq.
      destruct (Hvars i Hi) as (Hlen & Hnd).
      assert (v' = v); [|congruence].
      eapply (NoDup_lookup _ _ _ _ Hnd).
      + apply list_lookup_lookup_total_lt. lia.
      + rewrite Heq. apply list_lookup_lookup_total_lt. lia.
    - split; [exact Ha|]. intros i v Hi Hv. by apply Hb. }
  unfold EulerStep in Hrun.
  destruct (truthy (bVarDt (Evolve control))) eqn:HVar.
  - cbv zeta in Hrun.
    destruct (fdGetTimeStep _ _ _ _ _ _) as [[[[dMin body1] control1] update1]|] eqn:E; [|done].
    cbn [mbind outcome_bind] in Hrun. injection Hrun as <-.
    cbn [st_body st_control st_update st_dDt] in *.
    pose proof (fdGetTimeStep_frame _ _ _ _ _ _ _ _ _ _ E) as (_ & Hfirst & _).
    apply first_only_fields in Hfirst as (HIo & Hnb & HV & HTs & HTime & HEta & HD).
    rewrite Hnb in *. fold nb in Hready |- *.
    fold (apply nb update1
            (AssignDt dMin (fdNextOutput (dTime (Evolve control)) (dOutputTime (Io control))
                            - dTime (Evolve control)) (dEta (Evolve control))) body1) in *.
    set (dt := AssignDt _ _ _) in *.
    destruct Hready as (Hb & Hu & Hvars).
    assert (Hlen : length (apply nb update1 dt body1) = length body1).
    { clear. unfold apply.
      apply (for_loop_ind (fun _ b => length b = length body1)); [done|].
      intros i b _ IH. apply (for_loop_ind (fun _ b => length b = length body1)); [done|].
      intros v b2 _ IH2. apply (for_loop_ind (fun _ b => length b = length body1)); [done|].
      intros e b3 _ IH3. cbv zeta. destruct (_ =? 0)%Z; by rewrite length_store_d. }
    change (nb <= length (apply nb update1 dt body1))%nat in Hb.
    destruct (Happly nb update1 dt body1) as [_ Hall].
    { lia. }
    { intros i Hi. destruct (Hvars i Hi) as (_ & ? & ?). done. }
    exists body1. split.
    { exists dMin. split; [done|]. subst dt. unfold ChooseDt.
      by rewrite HVar, HTime, HEta. }
    split; [done|]. intros i v Hi Hv; cbv zeta.
    split; [by apply Hall|]. intros Hty.
    etransitivity; [|by apply EulerVar_rates].
    rewrite <- (Hall i v Hi Hv). reflexivity.
  - cbn [mbind outcome_bind] in Hrun. injection Hrun as <-.
    cbn [st_body st_control st_update st_dDt] in *. fold nb in Hready |- *.
    fold (apply nb update dDt body) in *.
    destruct Hready as (Hb & Hu & Hvars).
    assert (Hlen : length (apply nb update dDt body) = length body).
    { clear. unfold apply.
      apply (for_loop_ind (fun _ b => length b = length body)); [done|].
      intros i b _ IH. apply (for_loop_ind (fun _ b => length b = length body)); [done|].
      intros v b2 _ IH2. apply (for_loop_ind (fun _ b => length b = length body)); [done|].
      intros e b3 _ IH3. cbv zeta. destruct (_ =? 0)%Z; by rewrite length_store_d. }
    change (nb <= length (apply nb update dDt body))%nat in Hb.
    destruct (Happly nb update dDt body) as [_ Hall].
    { lia. }
    { intros i Hi. destruct (Hvars i Hi) as (_ & ? & ?). done. }
    exists body. split; [done|]. split; [done|]. intros i v Hi Hv; cbv zeta.
    split; [by apply Hall|]. intros Hty.
    etransitivity; [|by apply EulerVar_rates].
    rewrite <- (Hall i v Hi Hv). reflexivity.
Qed.

End EulerProperties.

(** ** The four evaluations of a step

    What each evaluation leaves in the scratch slots of a variable, in
    terms of the functions of the matrix, and where the moves between the
    evaluations leave the variable in [evolve->tmpBody]. *)

Lemma procs_only_iaBody u u' i : procs_only u u' -> iaBody (u' !!! i) = iaBody (u !!! i).
Proof. intros [_ Hu]. rewrite (Hu i). by destruct (u !!! i). Qed.

Lemma procs_only_pdVar u u' i : procs_only u u' -> pdVar (u' !!! i) = pdVar (u !!! i).
Proof. intros [_ Hu]. rewrite (Hu i). by destruct (u !!! i). Qed.

Lemma SumDeriv_tmpBody k iDir update i v e :
  tmpBody (SumDeriv k iDir update i v e) = tmpBody e.
Proof. unfold SumDeriv. by apply (for_loop_ind (fun _ e1 => tmpBody e1 = tmpBody e)). Qed.

(** Where [AdvanceTmpBody] leaves the variables of [evolve->tmpBody] *)
Lemma AdvanceTmpBody_tmpBody k step iDir body update e0 :
  (k < 4)%nat ->
  has_room (iNumBodies e0) (fun i => iNumVars (update !!! i)) (evolve_daDeriv e0) ->
  (forall i, (i < iNumBodies e0)%nat ->
     (iNumVars (update !!! i) <= length (pdVar (tmpUpdate e0 !!! i)))%nat
     /\ NoDup (pdVar (tmpUpdate e0 !!! i))) ->
  let e' := AdvanceTmpBody k step iDir body update e0 in
  length (tmpBody e') = length (tmpBody e0)
  /\ forall i v, (i < iNumBodies e0)%nat -> (v < iNumVars (update !!! i))%nat ->
       (i < length (tmpBody e0))%nat ->
       let d := DirSum iDir (daDerivProc (tmpUpdate e0 !!! i) !!! v)
                       (iNumEqns (update !!! i) !!! v) in
       dbl (tmpBody e' !!! i) (pdVar (tmpUpdate e0 !!! i) !!! v)
       = if is_value_type update i v then d
         else dbl (body !!! i) (pdVar (update !!! i) !!! v) + step d.
Proof.
  intros Hk Hroom Hvars e'.
  set (nb := iNumBodies e0) in *. set (nv0 := fun i => iNumVars (update !!! i)) in *.
  set (D := fun i v => DirSum iDir (daDerivProc (tmpUpdate e0 !!! i) !!! v)
                              (iNumEqns (update !!! i) !!! v)).
  set (inv := fun e : EVOLVE =>
    has_room nb nv0 (evolve_daDeriv e) /\ scratch_only e0 e
    /\ length (tmpBody e) = length (tmpBody e0)).
  set (f := fun (iBody iVar : nat) (evolve : EVOLVE) =>
      let evolve := SumDeriv k iDir update iBody iVar evolve in
      let d := get3 (evolve_daDeriv evolve) k iBody iVar in
      if is_value_type update iBody iVar then
        set_tmpBody (store_d iBody (pdVar (tmpUpdate evolve !!! iBody) !!! iVar) d
                             (tmpBody evolve)) evolve
      else
        set_tmpBody (store_d iBody (pdVar (tmpUpdate evolve !!! iBody) !!! iVar)
                             (dbl (body !!! iBody) (pdVar (update !!! iBody) !!! iVar) + step d)
                             (tmpBody evolve)) evolve).
  assert (Hf : forall i v e, inv e -> (i < nb)%nat -> (v < nv0 i)%nat ->
    f i v e = set_tmpBody
                (store_d i (pdVar (tmpUpdate e0 !!! i) !!! v)
                   (if is_value_type update i v then D i v
                    else dbl (body !!! i) (pdVar (update !!! i) !!! v) + step (D i v))
                   (tmpBody e))
                (SumDeriv k iDir update i v e)).
  { intros i v e (Hr & Hso & Hl) Hi Hv. unfold f. cbv zeta.
    destruct (Hr k i Hk Hi) as (? & ? & ?).
    destruct (SumDeriv_spec k iDir update i v e) as (Heq & _ & Hso' & Htb & _);
      [done|done|unfold nv0 in *; lia|].
    rewrite Heq, Htb.
    rewrite (scratch_only_tmpUpdate _ _ Hso'), (scratch_only_tmpUpdate _ _ Hso).
    fold (D i v). by destruct (is_value_type update i v). }
  destruct (for_loop2_pointwise nb (fun i _ => nv0 i) nv0 f inv
              (fun i v e => if bool_decide (i < length (tmpBody e0))%nat
                            then dbl (tmpBody e !!! i) (pdVar (tmpUpdate e0 !!! i) !!! v)
                            else 0)
              (fun i v _ => if bool_decide (i < length (tmpBody e0))%nat
                            then (if is_value_type update i v then D i v
                                  else dbl (body !!! i) (pdVar (update !!! i) !!! v)
                                       + step (D i v))
                            else 0) e0)
    as [(H1 & H2 & H3) H4].
  - split; [done|]. split; [apply scratch_only_refl|done].
  - done.
  - intros i v e Hi Hv Hinv. rewrite Hf by done. destruct Hinv as (Hr & Hso & Hl).
    unfold inv. rewrite evolve_daDeriv_set_tmpBody.
    destruct (Hr k i Hk Hi) as (? & ? & ?).
    destruct (SumDeriv_spec k iDir update i v e) as (_ & _ & Hso' & _ & Hroom');
      [done|done|unfold nv0 in *; lia|].
    split; [by apply Hroom'|].
    split; [apply scratch_only_set_tmpBody; by eapply scratch_only_trans|].
    cbn. by rewrite length_store_d.
  - intros i v e Hi Hv Hinv. rewrite Hf by done. destruct Hinv as (Hr & Hso & Hl).
    case_bool_decide as Hlen; [|done]. cbn [tmpBody set_tmpBody].
    change (tmpBody (set_tmpBody ?tb _)) with tb.
    rewrite dbl_store_d_eq by lia. done.
  - intros i v i' v' e Hi Hv Hi' Hv' Hne Hinv. rewrite Hf by done.
    destruct Hinv as (Hr & Hso & Hl).
    case_bool_decide as Hlen; [|done].
    change (tmpBody (set_tmpBody ?tb _)) with tb.
    destruct (decide (i' = i)) as [->|Hi'']; [|by rewrite lookup_store_d_ne].
    apply dbl_store_d_other. intros Heq.
    destruct (Hvars i Hi) as (Hlen' & Hnd).
    assert (v' = v); [|congruence].
    eapply (NoDup_lookup _ _ _ _ Hnd).
    + apply list_lookup_lookup_total_lt. unfold nv0 in *. lia.
    + rewrite Heq. apply list_lookup_lookup_total_lt. unfold nv0 in *. lia.
  - split; [done|]. intros i v Hi Hv Hlen d.
    specialize (H4 i v Hi Hv). rewrite !bool_decide_eq_true_2 in H4 by done.
    exact H4.
Qed.

(** [fdGetTimeStep] leaves the flags that decide whether an equation
    tagged 7 is evaluated *)
Lemma first_only_flags c c' :
  first_only c c' ->
  bSpiNBodyDistOrb (Evolve c') = bSpiNBodyDistOrb (Evolve c)
  /\ bUsingSpiNBody (Evolve c') = bUsingSpiNBody (Evolve c).
Proof. unfold first_only. intros ->. done. Qed.

Lemma called_at_start_ext e e' u u' i v eq :
  bSpiNBodyDistOrb e' = bSpiNBodyDistOrb e -> bUsingSpiNBody e' = bUsingSpiNBody e ->
  iaType (u' !!! i) = iaType (u !!! i) ->
  called_at_start e' u' i v eq = called_at_start e u i v eq.
Proof. intros E1 E2 E3. unfold called_at_start. by rewrite E1, E2, E3. Qed.

Section Evaluations.
Context `{Libm} `{PhysConst} `{VplanetH}.

Variable R : relation (list BODY).
Variable fnUpdate : list (list (list fnUpdateVariable)).
Hypothesis Hresp : matrix_respects R fnUpdate.
Variable system : SYSTEM.

(** The three parts of the hypothesis *)
Lemma respects_refl B : R B B.
Proof. destruct Hresp as (Hr & _). apply Hr. Qed.

Lemma respects_trans B1 B2 B3 : R B1 B2 -> R B2 B3 -> R B1 B3.
Proof. destruct Hresp as (_ & Ht & _). apply Ht. Qed.

Lemma respects_call i v e body iaBody d body' :
  (((fnUpdate !!! i) !!! v) !!! e) body system iaBody = Ret (d, body') -> R body body'.
Proof. destruct Hresp as (_ & _ & Hc). apply Hc. Qed.

Lemma derivative_on_procs B update update' i v e d :
  procs_only update update' ->
  derivative_on R fnUpdate system update' B i v e d ->
  derivative_on R fnUpdate system update B i v e d.
Proof.
  intros Hp (B1 & B2 & HR & Hcall). exists B1, B2. split; [done|].
  by rewrite <- (procs_only_iaBody _ _ _ Hp).
Qed.

(** One call: the bodies stay related to [B], and the slot receives what
    the contributor returned *)
Lemma EvalEqn_on B i v e body update body' update' :
  EvalEqn fnUpdate system i v e (body, update) = Ret (body', update') ->
  R B body ->
  R B body'
  /\ exists d, update' = store_DerivProc i v e d update
       /\ derivative_on R fnUpdate system update B i v e d.
Proof.
  unfold EvalEqn. intros Hrun HB.
  destruct ((((fnUpdate !!! i) !!! v) !!! e) body system _) as [[d b1]|] eqn:E; [|done].
  cbn in Hrun. injection Hrun as <- <-.
  split; [eapply respects_trans; [exact HB|by eapply respects_call]|].
  exists d. split; [done|]. by exists body, b1.
Qed.

(** The bodies stay related to [B] *)
Lemma EvalEqns_related B i v body update body' update' :
  EvalEqns fnUpdate system i v (body, update) = Ret (body', update') ->
  R B body -> R B body'.
Proof.
  intros Hrun HB. unfold EvalEqns in Hrun.
  eapply (for_loopM_ind (fun _ (s : list BODY * list UPDATE) => R B s.1)) in Hrun;
    [exact Hrun|done|].
  intros e [b1 u1] [b2 u2] _ IH Hstep. cbn [fst] in *.
  by destruct (EvalEqn_on B _ _ _ _ _ _ _ Hstep IH).
Qed.

(** The slots of the variable after its equations have been evaluated *)
Lemma EvalEqns_on B i v body update body' update' :
  let ne := iNumEqns (update !!! i) !!! v in
  EvalEqns fnUpdate system i v (body, update) = Ret (body', update') ->
  R B body ->
  (ne <= length (row update i v))%nat ->
  length (row update' i v) = length (row update i v)
  /\ forall e, (e < ne)%nat ->
       derivative_on R fnUpdate system update B i v e (row update' i v !!! e).
Proof.
  intros ne Hrun HB Hroom. unfold EvalEqns in Hrun. cbn [snd] in Hrun. fold ne in Hrun.
  eapply (for_loopM_ind (fun n (s : list BODY * list UPDATE) =>
           R B s.1 /\ procs_only update s.2
           /\ length (row s.2 i v) = length (row update i v)
           /\ forall e, (e < n)%nat ->
                derivative_on R fnUpdate system update B i v e (row s.2 i v !!! e))) in Hrun.
  - destruct Hrun as (_ & _ & ? & ?). done.
  - split; [done|]. split; [apply procs_only_refl|]. split; [done|intros; lia].
  - intros e [b1 u1] [b2 u2] He (HR & Hp & Hl & Hf) Hstep. cbn [fst snd] in *.
    destruct (EvalEqn_on B _ _ _ _ _ _ _ Hstep HR) as (HR' & d & -> & Hd).
    rewrite row_store_eq by lia. rewrite length_insert.
    split; [done|]. split; [eapply procs_only_trans; [done|apply procs_only_store]|].
    split; [done|].
    intros e' He'. destruct (decide (e' = e)) as [->|Hne].
    + rewrite list_lookup_total_insert_eq by lia. by eapply derivative_on_procs.
    + rewrite list_lookup_total_insert_ne by done. apply Hf. lia.
Qed.

(** [fdGetUpdateInfo] evaluates every equation of every variable *)
Lemma fdGetUpdateInfo_on B control update body' update' i0 v0 :
  let ne := iNumEqns (update !!! i0) !!! v0 in
  fdGetUpdateInfo B control system update fnUpdate = Ret (body', update') ->
  (i0 < iNumBodies (Evolve control))%nat ->
  (v0 < iNumVars (update !!! i0))%nat ->
  (ne <= length (row update i0 v0))%nat ->
  scratch_kept i0 v0 update update'
  /\ R B body'
  /\ forall e, (e < ne)%nat ->
       derivative_on R fnUpdate system update B i0 v0 e (row update' i0 v0 !!! e).
Proof.
  intros ne Hrun Hi Hv Hroom. unfold fdGetUpdateInfo in Hrun.
  eapply (for_loopM2_at _ (fun i (s : list BODY * list UPDATE) => iNumVars (s.2 !!! i))
            (fun i => iNumVars (update !!! i))
            (fun i v s => EvalEqns fnUpdate system i v s) _
            (fun s => scratch_kept i0 v0 update s.2 /\ R B s.1)
            (fun s => forall e, (e < ne)%nat ->
               derivative_on R fnUpdate system update B i0 v0 e (row s.2 i0 v0 !!! e))
            i0 v0) in Hrun.
  - destruct Hrun as [[? ?] ?]. done.
  - intros i s. cbv zeta. apply for_loopM_guard.
  - split; [|apply respects_refl]. split; [apply procs_only_refl|done].
  - done.
  - done.
  - intros i s [[Hp _] _]. cbn. by rewrite (procs_only_iNumVars _ _ _ Hp).
  - intros i v [b1 u1] [b2 u2] _ _ [[Hp Hl] HR] Hstep. cbn [fst snd] in *.
    split; [|by eapply EvalEqns_related].
    destruct (decide ((i, v) = (i0, v0))) as [[= -> ->]|Hne].
    + pose proof (EvalEqns_frame _ _ _ _ _ _ _ _ Hstep) as [Hp' _].
      apply (EvalEqns_on B) in Hstep as [Hl' _]; [|done|].
      * split; [by eapply procs_only_trans|congruence].
      * rewrite (procs_only_iNumEqns _ _ _ Hp). fold ne. lia.
    + apply EvalEqns_frame in Hstep as [Hp' Hr]. split; [by eapply procs_only_trans|].
      rewrite Hr; [done|]. congruence.
  - intros [b1 u1] [b2 u2] [[Hp Hl] HR] Hstep. cbn [fst snd] in *.
    apply (EvalEqns_on B) in Hstep as [_ Hf]; [|done|].
    + rewrite (procs_only_iNumEqns _ _ _ Hp) in Hf. fold ne in Hf.
      intros e He. eapply derivative_on_procs; [done|]. by apply Hf.
    + rewrite (procs_only_iNumEqns _ _ _ Hp). fold ne. lia.
  - intros i v [b1 u1] [b2 u2] _ _ Hne [[Hp Hl] HR] Hf Hstep. cbn [fst snd] in *.
    apply EvalEqns_frame in Hstep as [_ Hr]. rewrite Hr; [done|]. congruence.
Qed.

Ltac run_ts H :=
  repeat
    lazymatch type of H with
    | (if ?c then _ else _) = Ret _ => destruct c eqn:?
    | mbind _ ?m = Ret _ =>
        let E := fresh "E" in
        destruct m as [[? ?]|] eqn:E; [cbn [mbind outcome_bind] in H | discriminate H]
    | Ret _ = Ret _ => injection H as <-
    end.

Lemma fdGetTimeStep_var_related B home integr i v st st' :
  fdGetTimeStep_var home integr system fnUpdate i v st = Ret st' ->
  R B (ts_body st) -> R B (ts_body st').
Proof.
  destruct st as [body control update dMin]. unfold fdGetTimeStep_var.
  cbn [ts_body]. intros Hrun HB.
  set (t0 := (iaType (update !!! i) !!! v) !!! 0%nat) in Hrun.
  destruct (t0 =? 0)%Z.
  { run_ts Hrun; cbn [ts_body]; by eapply (EvalEqns_related B). }
  destruct (t0 =? 5)%Z.
  { run_ts Hrun; cbn [ts_body]; by eapply (EvalEqns_related B). }
  destruct (t0 =? 10)%Z.
  { by run_ts Hrun. }
  destruct (t0 =? 3)%Z.
  { run_ts Hrun; cbn [ts_body]; by eapply (EvalEqns_related B). }
  eapply (for_loopM_ind (fun _ s => R B (ts_body s))) in Hrun; [done|done|].
  clear Hrun. intros e [b1 c1 u1 m1] s2 _ IH Hstep. cbn [ts_body] in IH.
  run_ts Hstep; cbn [ts_body]; try done;
    by destruct (EvalEqn_on B _ _ _ _ _ _ _ E IH).
Qed.

(** The turn of a variable in [fdGetTimeStep] *)
Lemma fdGetTimeStep_var_on B home integr i v st st' :
  let update := ts_update st in
  let ne := iNumEqns (update !!! i) !!! v in
  fdGetTimeStep_var home integr system fnUpdate i v st = Ret st' ->
  R B (ts_body st) ->
  (ne <= length (row update i v))%nat ->
  length (row (ts_update st') i v) = length (row update i v)
  /\ forall e, (e < ne)%nat ->
       derivative_at_start R fnUpdate system update B (Evolve (ts_control st)) i v e
         (row (ts_update st') i v !!! e).
Proof.
  destruct st as [body control update dMin].
  intros u ne Hrun HB Hroom. subst u. cbn [ts_update ts_body ts_control] in *.
  unfold fdGetTimeStep_var in Hrun. unfold derivative_at_start, called_at_start.
  set (t0 := (iaType (update !!! i) !!! v) !!! 0%nat) in *.
  assert (Hall : forall b u, EvalEqns fnUpdate system i v (body, update) = Ret (b, u) ->
            length (row u i v) = length (row update i v)
            /\ forall e, (e < ne)%nat ->
                 derivative_on R fnUpdate system update B i v e (row u i v !!! e)).
  { intros b u E. by apply (EvalEqns_on B) in E. }
  destruct (t0 =? 0)%Z eqn:T0.
  { apply Z.eqb_eq in T0. rewrite T0. cbn [Z.eqb orb].
    run_ts Hrun; cbn [ts_update]; exact (Hall _ _ eq_refl). }
  destruct (t0 =? 5)%Z eqn:T5.
  { apply Z.eqb_eq in T5. rewrite T5. cbn [Z.eqb Pos.eqb orb].
    run_ts Hrun; cbn [ts_update]; exact (Hall _ _ eq_refl). }
  destruct (t0 =? 10)%Z eqn:T10.
  { run_ts Hrun. cbn [ts_update]. done. }
  destruct (t0 =? 3)%Z eqn:T3.
  { apply Z.eqb_eq in T3. cbn [orb].
    run_ts Hrun; cbn [ts_update]; exact (Hall _ _ eq_refl). }
  cbn [orb]. clear Hall. fold ne in Hrun.
  set (flags := (bSpiNBodyDistOrb (Evolve control) =? 0)%Z
                || (bUsingSpiNBody (Evolve control) =? 1)%Z) in *.
  eapply (for_loopM_ind (fun n (s : TimeStepState) =>
           R B (ts_body s) /\ ts_control s = control
           /\ procs_only update (ts_update s)
           /\ length (row (ts_update s) i v) = length (row update i v)
           /\ (forall e, (e < n)%nat ->
                 if ((iaType (update !!! i) !!! v) !!! e =? 7)%Z
                 then if flags
                      then derivative_on R fnUpdate system update B i v e
                             (row (ts_update s) i v !!! e)
                      else row (ts_update s) i v !!! e = row update i v !!! e
                 else derivative_on R fnUpdate system update B i v e
                        (row (ts_update s) i v !!! e))
           /\ forall e, (n <= e)%nat -> row (ts_update s) i v !!! e = row update i v !!! e))
    in Hrun.
  - destruct Hrun as (_ & _ & _ & Hl & Hf & _). split; [done|].
    intros e He. specialize (Hf e He).
    destruct ((iaType (update !!! i) !!! v) !!! e =? 7)%Z; [|done].
    by destruct flags.
  - split; [done|]. split; [done|]. split; [apply procs_only_refl|]. split; [done|].
    split; [intros; lia|done].
  - clear Hrun. intros e [b1 c1 u1 m1] s2 He (HR & Hc & Hp & Hl & Hf & Hrest) Hstep.
    cbn [ts_update ts_body ts_control] in *. subst c1.
    rewrite (procs_only_iaType _ _ _ Hp) in Hstep.
    set (t := (iaType (update !!! i) !!! v) !!! e) in *.
    assert (Hcall : forall b2 u2,
              EvalEqn fnUpdate system i v e (b1, u1) = Ret (b2, u2) ->
              R B b2 /\ procs_only update u2
              /\ length (row u2 i v) = length (row update i v)
              /\ derivative_on R fnUpdate system update B i v e (row u2 i v !!! e)
              /\ forall e', e' <> e -> row u2 i v !!! e' = row u1 i v !!! e').
    { intros b2 u2 E.
      destruct (EvalEqn_on B _ _ _ _ _ _ _ E HR)
        as (HR' & d & -> & Hd).
      rewrite row_store_eq by lia. rewrite length_insert.
      split; [done|]. split; [eapply procs_only_trans; [done|apply procs_only_store]|].
      split; [done|].
      split; [rewrite list_lookup_total_insert_eq by lia; by eapply derivative_on_procs|].
      intros e' Hne. by rewrite list_lookup_total_insert_ne. }
    assert (Hdone : forall b2 u2 c2 m2,
              s2 = mkTimeStepState b2 c2 u2 m2 -> c2 = control ->
              EvalEqn fnUpdate system i v e (b1, u1) = Ret (b2, u2) ->
              (t =? 7)%Z = false \/ flags = true ->
              R B (ts_body s2) /\ ts_control s2 = control
              /\ procs_only update (ts_update s2)
              /\ length (row (ts_update s2) i v) = length (row update i v)
              /\ (forall e0, (e0 < S e)%nat ->
                    if ((iaType (update !!! i) !!! v) !!! e0 =? 7)%Z
                    then if flags
                         then derivative_on R fnUpdate system update B i v e0
                                (row (ts_update s2) i v !!! e0)
                         else row (ts_update s2) i v !!! e0 = row update i v !!! e0
                    else derivative_on R fnUpdate system update B i v e0
                           (row (ts_update s2) i v !!! e0))
              /\ forall e0, (S e <= e0)%nat ->
                   row (ts_update s2) i v !!! e0 = row update i v !!! e0).
    { intros b2 u2 c2 m2 -> -> E Hcase. cbn [ts_update ts_body ts_control].
      destruct (Hcall _ _ E) as (HR' & Hp' & Hl' & Hd & Hoth).
      do 4 (split; [done|]). split.
      - intros e0 He0. destruct (decide (e0 = e)) as [->|Hne].
        + fold t. destruct Hcase as [-> | ->]; [done|]. by destruct (t =? 7)%Z.
        + rewrite Hoth by done. apply Hf. lia.
      - intros e0 He0. rewrite Hoth by lia. apply Hrest. lia. }
    destruct (t =? 2)%Z eqn:T2.
    { apply Z.eqb_eq in T2.
      run_ts Hstep; (eapply Hdone; [reflexivity|reflexivity|reflexivity|left; rewrite T2; done]). }
    destruct (t =? 9)%Z eqn:T9.
    { apply Z.eqb_eq in T9.
      run_ts Hstep; (eapply Hdone; [reflexivity|reflexivity|reflexivity|left; rewrite T9; done]). }
    destruct (t =? 7)%Z eqn:T7.
    { fold flags in Hstep. destruct flags eqn:Hfl.
      - run_ts Hstep. eapply Hdone; [reflexivity|reflexivity|reflexivity|by right].
      - injection Hstep as <-. cbn [ts_update ts_body ts_control].
        do 4 (split; [done|]). split.
        + intros e0 He0. destruct (decide (e0 = e)) as [->|Hne].
          * fold t. rewrite T7. apply Hrest. lia.
          * apply Hf. lia.
        + intros e0 He0. apply Hrest. lia. }
    run_ts Hstep; (eapply Hdone; [reflexivity|reflexivity|reflexivity|by left]).
Qed.

(** The slots of a variable after [fdGetTimeStep] *)
Lemma fdGetTimeStep_on B home control update dMin body' control' update' i0 v0 :
  let ne := iNumEqns (update !!! i0) !!! v0 in
  fdGetTimeStep B home control system update fnUpdate
    = Ret (dMin, body', control', update') ->
  (i0 < iNumBodies (Evolve control))%nat ->
  (v0 < iNumVars (update !!! i0))%nat ->
  (ne <= length (row update i0 v0))%nat ->
  scratch_kept i0 v0 update update'
  /\ R B body'
  /\ forall e, (e < ne)%nat ->
       derivative_at_start R fnUpdate system update B (Evolve control) i0 v0 e
         (row update' i0 v0 !!! e).
Proof.
  intros ne Hrun Hi Hv Hroom. unfold fdGetTimeStep in Hrun.
  destruct (for_loopM _ _ _) as [st|] eqn:E; [|done].
  cbn in Hrun. injection Hrun as <- <- <- <-.
  eapply (for_loopM2_at _ (fun i (s : TimeStepState) => iNumVars (ts_update s !!! i))
            (fun i => iNumVars (update !!! i))
            (fdGetTimeStep_var home (Evolve control) system fnUpdate) _
            (fun s => scratch_kept i0 v0 update (ts_update s)
                      /\ first_only control (ts_control s) /\ R B (ts_body s)
                      /\ forall e, (e < ne)%nat ->
                           called_at_start (Evolve control) update i0 v0 e = false ->
                           row (ts_update s) i0 v0 !!! e = row update i0 v0 !!! e)
            (fun s => forall e, (e < ne)%nat ->
               derivative_at_start R fnUpdate system update B (Evolve control) i0 v0 e
                 (row (ts_update s) i0 v0 !!! e)) i0 v0) in E.
  - destruct E as [(? & _ & ? & _) ?]. done.
  - intros i s. apply for_loopM_guard.
  - split; [split; [apply procs_only_refl|done]|]. split; [apply first_only_refl|].
    split; [apply respects_refl|done].
  - done.
  - done.
  - intros i s ([Hp _] & _). by rewrite (procs_only_iNumVars _ _ _ Hp).
  - intros i v s s1 _ _ ([Hp Hl] & Hfirst & HR & Hkeep) Hstep.
    pose proof (fdGetTimeStep_var_frame _ _ _ _ _ _ _ _ Hstep) as [(Hp' & Hf' & Hr) _].
    split; [|split; [by eapply first_only_trans|split; [by eapply fdGetTimeStep_var_related|]]].
    + split; [by eapply procs_only_trans|].
      destruct (decide ((i, v) = (i0, v0))) as [[= -> ->]|Hne].
      * apply (fdGetTimeStep_var_on B) in Hstep as [Hl' _]; [congruence|done|].
        rewrite (procs_only_iNumEqns _ _ _ Hp). fold ne. lia.
      * rewrite Hr; [done|]. congruence.
    + intros e He Hno.
      destruct (decide ((i, v) = (i0, v0))) as [[= -> ->]|Hne].
      * apply (fdGetTimeStep_var_on B) in Hstep as [_ Hf]; [|done|].
        -- rewrite (procs_only_iNumEqns _ _ _ Hp) in Hf. fold ne in Hf.
           specialize (Hf e He). unfold derivative_at_start in Hf.
           destruct (first_only_flags _ _ Hfirst) as [F1 F2].
           rewrite (called_at_start_ext (Evolve control) _ update _ i0 v0 e F1 F2
                      (procs_only_iaType _ _ _ Hp)), Hno in Hf.
           rewrite Hf. by apply Hkeep.
        -- rewrite (procs_only_iNumEqns _ _ _ Hp). fold ne. lia.
      * rewrite Hr; [by apply Hkeep|]. congruence.
  - intros s s1 ([Hp Hl] & Hfirst & HR & Hkeep) Hstep.
    apply (fdGetTimeStep_var_on B) in Hstep as [_ Hf]; [|done|].
    + rewrite (procs_only_iNumEqns _ _ _ Hp) in Hf. fold ne in Hf.
      intros e He. specialize (Hf e He). unfold derivative_at_start in *.
      destruct (first_only_flags _ _ Hfirst) as [F1 F2].
      rewrite (called_at_start_ext (Evolve control) _ update _ i0 v0 e F1 F2
                 (procs_only_iaType _ _ _ Hp)) in Hf.
      destruct (called_at_start (Evolve control) update i0 v0 e) eqn:Hc.
      * by eapply derivative_on_procs.
      * rewrite Hf. by apply Hkeep.
    + rewrite (procs_only_iNumEqns _ _ _ Hp). fold ne. lia.
  - intros i v s s1 _ _ Hne ([Hp Hl] & Hfirst & HR & Hkeep) Hf Hstep.
    apply fdGetTimeStep_var_frame in Hstep as [(_ & _ & Hr) _].
    intros e He. specialize (Hf e He). unfold derivative_at_start in *.
    rewrite Hr; [done|]. congruence.
Qed.

Lemma fdGetTimeStep_related B home control update dMin body' control' update' :
  fdGetTimeStep B home control system update fnUpdate
    = Ret (dMin, body', control', update') ->
  R B body'.
Proof.
  intros Hrun. unfold fdGetTimeStep in Hrun.
  destruct (for_loopM _ _ _) as [st|] eqn:E; [|done].
  cbn in Hrun. injection Hrun as <- <- <- <-.
  eapply (for_loopM_ind (fun _ s => R B (ts_body s))) in E; [done|apply respects_refl|].
  intros i s1 s2 _ IH Hstep. cbv beta in Hstep.
  rewrite for_loopM_guard in Hstep.
  eapply (for_loopM_ind (fun _ s => R B (ts_body s))) in Hstep; [done|done|].
  intros v s3 s4 _ IH3 Hstep3.
  by eapply (fdGetTimeStep_var_related B).
Qed.

Lemma movable_procs nb update tmp tmp' :
  procs_only tmp tmp' -> movable nb update tmp -> movable nb update tmp'.
Proof. intros Hp Hm i Hi. rewrite (procs_only_pdVar _ _ _ Hp). by apply Hm. Qed.

(** The moves of the variables in [evolve->tmpBody] after the first three
    evaluations *)
Lemma rk4_start_tmpBody body control update iDir s0 :
  let nb := iNumBodies (Evolve control) in
  let tmp := tmpUpdate (Evolve control) in
  has_room nb (nvars update) (evolve_daDeriv (Evolve control)) ->
  movable nb update tmp ->
  rk4_start body control system update fnUpdate iDir = Ret s0 ->
  forall i v, (i < nb)%nat -> (v < iNumVars (update !!! i))%nat ->
    tmp_holds tmp s0 i v
      (if is_value_type update i v then StageSum iDir update s0 i v
       else dbl (st_body s0 !!! i) (pdVar (update !!! i) !!! v)
            + 0.5 * st_dDt s0 * StageSum iDir update s0 i v).
Proof.
  intros nb tmp Hroom Hmov Hrun i v Hi Hv. unfold rk4_start in Hrun.
  set (tb0 := BodyCopy _ _ _) in Hrun.
  set (control0 := set_Evolve _ control) in Hrun.
  change (tmpBody (Evolve control0)) with tb0 in Hrun.
  change (tmpUpdate (Evolve control0)) with tmp in Hrun.
  destruct (fdGetTimeStep _ _ _ _ _ _) as [[[[dMin body1] control1] tu1]|] eqn:E; [|done].
  cbn [mbind outcome_bind] in Hrun. injection Hrun as <-.
  apply fdGetTimeStep_frame in E as (Hp & Hfirst & _).
  pose proof (first_only_fields _ _ Hfirst) as (HIo & Hnb & HVar & HTs & HTime & HEta & HD).
  cbn [Evolve set_Evolve Io] in *.
  set (dDt := if truthy _ then _ else _).
  set (e1 := set_dCurrentDt dDt _).
  assert (Hnb1 : iNumBodies e1 = nb) by (cbn; by rewrite Hnb).
  assert (Hd1 : evolve_daDeriv e1 = evolve_daDeriv (Evolve control)) by (cbn; by rewrite HD).
  assert (Htu1 : tmpUpdate e1 = tu1) by done.
  destruct (AdvanceTmpBody_tmpBody 0 (fun d => 0.5 * dDt * d) iDir body1 update e1)
    as [Hlen Hval]; [lia|rewrite Hnb1, Hd1; exact Hroom| |].
  { rewrite Hnb1, Htu1. by eapply movable_procs. }
  unfold tmp_holds, StageSum, row.
  cbn [st_control st_body st_dDt Evolve set_Evolve].
  rewrite AdvanceTmpBody_tmpUpdate, Htu1. intros Hin.
  rewrite <- (procs_only_pdVar _ _ _ Hp).
  rewrite <- Htu1 at 1. apply Hval; [by rewrite Hnb1|done|]. by rewrite <- Hlen.
Qed.

Lemma rk4_midpoint_tmpBody k step iDir s s' :
  let nb := iNumBodies (Evolve (st_control s)) in
  let tmp := tmpUpdate (Evolve (st_control s)) in
  (k < 4)%nat ->
  has_room nb (nvars (st_update s)) (evolve_daDeriv (Evolve (st_control s))) ->
  movable nb (st_update s) tmp ->
  rk4_midpoint k step system fnUpdate iDir s = Ret s' ->
  forall i v, (i < nb)%nat -> (v < iNumVars (st_update s !!! i))%nat ->
    tmp_holds tmp s' i v
      (if is_value_type (st_update s) i v then StageSum iDir (st_update s) s' i v
       else dbl (st_body s !!! i) (pdVar (st_update s !!! i) !!! v)
            + step (StageSum iDir (st_update s) s' i v)).
Proof.
  intros nb tmp Hk Hroom Hmov Hrun i v Hi Hv.
  destruct s as [body control update dDt stderr]. cbn [st_control st_update st_body] in *.
  unfold rk4_midpoint in Hrun.
  destruct (PropertiesAuxiliary _ _ _) as [tb msg].
  destruct (fdGetUpdateInfo _ _ _ _ _) as [[tb' tu']|] eqn:E; [|done].
  cbn [mbind outcome_bind] in Hrun. injection Hrun as <-.
  change (tmpUpdate (Evolve (set_Evolve _ control))) with tmp in E.
  assert (Hp : procs_only tmp tu').
  { revert E. unfold fdGetUpdateInfo. intros E.
    eapply (for_loopM_ind (fun _ (s : list BODY * list UPDATE) => procs_only tmp s.2)) in E;
      [exact E|apply procs_only_refl|].
    intros i1 s1 s2 _ IH Hstep. cbv beta zeta in Hstep. rewrite for_loopM_guard in Hstep.
    eapply (for_loopM_ind (fun _ (s : list BODY * list UPDATE) => procs_only tmp s.2)) in Hstep;
      [exact Hstep|done|].
    intros v1 [b3 u3] [b4 u4] _ IH3 Hstep3. cbn [snd] in *.
    apply EvalEqns_frame in Hstep3 as [Hp3 _]. by eapply procs_only_trans. }
  set (e1 := set_tmpUpdate tu' _).
  assert (Hnb1 : iNumBodies e1 = nb) by done.
  assert (Hd1 : evolve_daDeriv e1 = evolve_daDeriv (Evolve control)) by done.
  assert (Htu1 : tmpUpdate e1 = tu') by done.
  destruct (AdvanceTmpBody_tmpBody k step iDir body update e1)
    as [Hlen Hval]; [lia|rewrite Hnb1, Hd1; exact Hroom| |].
  { rewrite Hnb1, Htu1. by eapply movable_procs. }
  unfold tmp_holds, StageSum, row.
  cbn [st_control st_body st_dDt Evolve set_Evolve].
  rewrite AdvanceTmpBody_tmpUpdate, Htu1. intros Hin.
  rewrite <- (procs_only_pdVar _ _ _ Hp).
  rewrite <- Htu1 at 1. apply Hval; [by rewrite Hnb1|done|]. by rewrite <- Hlen.
Qed.

(** The slots after the second, third and fourth evaluation *)
Lemma rk4_midpoint_on k step iDir s s' i v :
  let tmp := tmpUpdate (Evolve (st_control s)) in
  let ne := iNumEqns (tmp !!! i) !!! v in
  rk4_midpoint k step system fnUpdate iDir s = Ret s' ->
  (i < iNumBodies (Evolve (st_control s)))%nat ->
  (v < iNumVars (tmp !!! i))%nat ->
  (ne <= length (row tmp i v))%nat ->
  scratch_kept i v tmp (tmpUpdate (Evolve (st_control s')))
  /\ forall e, (e < ne)%nat ->
       derivative_on R fnUpdate system tmp (aux_bodies (st_update s) s) i v e
                     (slots s' i v !!! e).
Proof.
  intros tmp ne Hrun Hi Hv Hroom.
  destruct s as [body control update dDt stderr]. unfold rk4_midpoint in Hrun.
  unfold aux_bodies, slots. cbn [st_control st_update] in *.
  destruct (PropertiesAuxiliary _ _ _) as [tb msg].
  destruct (fdGetUpdateInfo _ _ _ _ _) as [[tb' tu']|] eqn:E; [|done].
  cbn [mbind outcome_bind] in Hrun. injection Hrun as <-.
  cbn [st_control Evolve set_Evolve fst].
  rewrite AdvanceTmpBody_tmpUpdate. cbn [tmpUpdate set_tmpUpdate].
  change (tmpUpdate (Evolve (set_Evolve _ control))) with tmp in E.
  change (tmpBody (Evolve (set_Evolve _ control))) with tb in E.
  apply (fdGetUpdateInfo_on tb _ _ _ _ i v) in E
    as (Hk & _ & Hf); done.
Qed.

Lemma rk4_fullstep_on iDir s s' i v :
  let tmp := tmpUpdate (Evolve (st_control s)) in
  let ne := iNumEqns (tmp !!! i) !!! v in
  rk4_fullstep system fnUpdate iDir s = Ret s' ->
  (i < iNumBodies (Evolve (st_control s)))%nat ->
  (v < iNumVars (tmp !!! i))%nat ->
  (ne <= length (row tmp i v))%nat ->
  scratch_kept i v tmp (tmpUpdate (Evolve (st_control s')))
  /\ forall e, (e < ne)%nat ->
       derivative_on R fnUpdate system tmp (aux_bodies (st_update s) s) i v e
                     (slots s' i v !!! e).
Proof.
  intros tmp ne Hrun Hi Hv Hroom.
  destruct s as [body control update dDt stderr]. unfold rk4_fullstep in Hrun.
  unfold aux_bodies, slots. cbn [st_control st_update] in *.
  destruct (PropertiesAuxiliary _ _ _) as [tb msg].
  destruct (fdGetUpdateInfo _ _ _ _ _) as [[tb' tu']|] eqn:E; [|done].
  cbn [mbind outcome_bind] in Hrun. injection Hrun as <-.
  cbn [st_control Evolve set_Evolve fst].
  rewrite SumFullStep_tmpUpdate. cbn [tmpUpdate set_tmpUpdate].
  change (tmpUpdate (Evolve (set_Evolve _ control))) with tmp in E.
  change (tmpBody (Evolve (set_Evolve _ control))) with tb in E.
  apply (fdGetUpdateInfo_on tb _ _ _ _ i v) in E
    as (Hk & _ & Hf); done.
Qed.

End Evaluations.

Section StepAsAWhole.
Context `{Libm} `{PhysConst} `{VplanetH}.

Lemma movable_ready nb body update tmp :
  update_ready nb body update -> tmp_ready nb update tmp -> movable nb update tmp.
Proof.
  intros (_ & _ & Hvars) Htmp i Hi.
  destruct (Htmp i Hi) as [-> _]. destruct (Hvars i Hi) as (_ & ? & ?). done.
Qed.

Lemma tmp_holds_procs tmp tmp' s i v y :
  procs_only tmp tmp' -> tmp_holds tmp' s i v y -> tmp_holds tmp s i v y.
Proof. intros Hp Hh Hi. rewrite <- (procs_only_pdVar _ _ _ Hp). by apply Hh. Qed.

(** C3, as amended.  A step that returns went through four evaluations of
    the functions of the matrix, which leave the states [s0..s3]:
    [fdGetTimeStep] on the bodies at the start of the step, then three times
    [fdGetUpdateInfo] on [evolve->tmpBody] as [PropertiesAuxiliary] leaves
    it.  [R] is any preorder on arrays of bodies that the calls of the
    functions of the matrix respect (equality, when they only read the
    bodies): a contributor is called on bodies that [R] relates to those
    the evaluation began on.

    For every variable, each scratch slot holds after an evaluation what its
    contributor returned in that evaluation; after [fdGetTimeStep] this is
    so for the contributors that [fdGetTimeStep] calls, and the slots of the
    others are as they were when the step began.  [f0..f3] are the sums over
    the equations of the variable of [iDir] times its slots after the four
    evaluations.  After each of the first three evaluations the variable is
    in [evolve->tmpBody], when its kind is 0, 3 or 10, the sum [f0], [f1],
    [f2] of that evaluation, and otherwise its value at the start moved by
    [dt/2 * f0], [dt/2 * f1], [dt * f2].

    A variable whose kind is not 0, 3 or 10 is moved from the value it has
    after the first evaluation by [dt * (f0 + 2 f1 + 2 f2 + f3) / 6].  A
    variable of kind 0, 3 or 10 is assigned [f0], and [evolve->daDeriv[3]]
    keeps for it the value it had before the step, although the fourth
    evaluation called its contributors as it called the others.  For the
    kinds 0 and 3 the slots summed in [f0] were filled by [fdGetTimeStep]
    from the bodies at the start of the step; for the kind 10 [f0] is the
    sum of the scratch values that [evolve->tmpUpdate] held when the step
    began.

    The arrays are as the C program allocates them: [evolve->daDeriv] has a
    cell for every variable, and so has [update[i].daDeriv]; the bodies are
    [iNumBodies] at least, and the variables of a body are distinct
    members; [evolve->tmpUpdate] has the variables, the counts, the kinds
    and the scratch slots of [update]. *)
Theorem RungeKutta4Step_writes_back (body : list BODY) (control : CONTROL)
    (system : SYSTEM) (update : list UPDATE)
    (fnUpdate : list (list (list fnUpdateVariable))) (iDir : Z) (s : StepState)
    (R : relation (list BODY)) :
  let nb := iNumBodies (Evolve control) in
  let tmp := tmpUpdate (Evolve control) in
  RungeKutta4Step body control system update fnUpdate iDir = Ret s ->
  has_room nb (nvars update) (evolve_daDeriv (Evolve control)) ->
  update_ready nb (st_body s) update ->
  tmp_ready nb update tmp ->
  matrix_respects R fnUpdate ->
  exists s0 s1 s2 s3,
    rk4_start body control system update fnUpdate iDir = Ret s0
    /\ rk4_midpoint 1 (fun d => 0.5 * st_dDt s0 * d) system fnUpdate iDir s0 = Ret s1
    /\ rk4_midpoint 2 (fun d => st_dDt s1 * d) system fnUpdate iDir s1 = Ret s2
    /\ rk4_fullstep system fnUpdate iDir s2 = Ret s3
    /\ s = rk4_update s3
    /\ R body (st_body s0)
    /\ forall i v, (i < nb)%nat -> (v < iNumVars (update !!! i))%nat ->
         let pd := pdVar (update !!! i) !!! v in
         let ne := iNumEqns (update !!! i) !!! v in
         let t0 := (iaType (update !!! i) !!! v) !!! 0%nat in
         let x := dbl (st_body s0 !!! i) pd in
         let dt := st_dDt s in
         let f0 := StageSum iDir update s0 i v in
         let f1 := StageSum iDir update s1 i v in
         let f2 := StageSum iDir update s2 i v in
         let f3 := StageSum iDir update s3 i v in
         (forall e, (e < ne)%nat ->
            derivative_at_start R fnUpdate system tmp body (Evolve control) i v e
              (slots s0 i v !!! e)
            /\ derivative_on R fnUpdate system tmp (aux_bodies update s0) i v e
                 (slots s1 i v !!! e)
            /\ derivative_on R fnUpdate system tmp (aux_bodies update s1) i v e
                 (slots s2 i v !!! e)
            /\ derivative_on R fnUpdate system tmp (aux_bodies update s2) i v e
                 (slots s3 i v !!! e))
         /\ tmp_holds tmp s0 i v (if is_value_type update i v then f0 else x + 0.5 * dt * f0)
         /\ tmp_holds tmp s1 i v (if is_value_type update i v then f1 else x + 0.5 * dt * f1)
         /\ tmp_holds tmp s2 i v (if is_value_type update i v then f2 else x + dt * f2)
         /\ if is_value_type update i v then
              dbl (st_body s !!! i) pd = f0
              /\ get3 (evolve_daDeriv (Evolve (st_control s))) 3 i v
                 = get3 (evolve_daDeriv (Evolve control)) 3 i v
              /\ (t0 <> 10%Z -> forall e, (e < ne)%nat ->
                    derivative_on R fnUpdate system tmp body i v e (slots s0 i v !!! e))
              /\ (t0 = 10%Z -> f0 = DirSum iDir (row tmp i v) ne)
            else
              dbl (st_body s !!! i) pd == x + dt * (f0 + 2 * f1 + 2 * f2 + f3) / 6.
Proof.
  intros nb tmp Hrun Hroom Hready Htmp Hresp.
  destruct (RungeKutta4Step_sums _ _ _ _ _ _ _ Hrun Hroom Hready)
    as (s0 & s1 & s2 & s3 & E0 & E1 & E2 & E3 & Hs & Hback).
  exists s0, s1, s2, s3. do 5 (split; [done|]).
  destruct (rk4_start_spec _ _ _ _ _ _ _ Hroom E0)
    as (dMin & control1 & tu1 & Egts & U0 & _ & _ & T0 & N0 & R0 & _ & _).
  fold nb tmp in Egts, N0, R0.
  pose proof (fun Hk Hr => rk4_midpoint_spec 1 _ system fnUpdate iDir s0 s1 Hk Hr E1) as M1.
  rewrite N0, U0 in M1. specialize (M1 ltac:(lia) R0).
  destruct M1 as [B1 U1 D1 N1 R1 _ _]. rewrite U0 in U1, R1.
  pose proof (fun Hk Hr => rk4_midpoint_spec 2 _ system fnUpdate iDir s1 s2 Hk Hr E2) as M2.
  rewrite N1, U1 in M2. specialize (M2 ltac:(lia) R1).
  destruct M2 as [B2 U2 D2 N2 R2 _ _]. rewrite U1 in U2, R2.
  destruct (rk4_fullstep_dDt _ _ _ _ _ E3) as [D3 _].
  assert (Hdt : st_dDt s = st_dDt s0).
  { rewrite Hs. destruct (rk4_update_dDt s3) as [-> _]. by rewrite D3, D2, D1. }
  split; [by eapply (fdGetTimeStep_related R fnUpdate Hresp)|].
  assert (Hmov : movable nb update tmp) by (by eapply movable_ready).
  intros i v Hi Hv. specialize (Hback i v Hi Hv). cbv zeta in Hback |- *.
  destruct (Htmp i Hi) as [Hpd Hcopied].
  destruct (Hcopied v Hv) as (Cv & Ce & Ct & Cl).
  fold tmp in Hpd, Cv, Ce, Ct, Cl.
  set (ne := iNumEqns (update !!! i) !!! v) in *.
  (* the evaluation at the start *)
  destruct (fdGetTimeStep_on R fnUpdate Hresp system body
              _ _ _ _ _ _ _ i v Egts) as (K0 & _ & F0);
    [done|by rewrite Cv|by rewrite Ce|].
  rewrite Ce in F0. rewrite <- T0 in K0, F0.
  assert (A0 : fillable i v ne (tmpUpdate (Evolve (st_control s0)))).
  { apply (fillable_kept i v ne tmp); [|done]. unfold fillable. by rewrite Cv, Ce. }
  (* the three that follow *)
  destruct A0 as (Av0 & Ae0 & Al0).
  destruct (rk4_midpoint_on R fnUpdate Hresp system
              1 _ iDir s0 s1 i v E1) as (K1 & F1);
    [by rewrite N0|done|by rewrite Ae0|].
  rewrite Ae0, U0 in F1.
  assert (A1 : fillable i v ne (tmpUpdate (Evolve (st_control s1)))).
  { by apply (fillable_kept i v ne (tmpUpdate (Evolve (st_control s0)))). }
  destruct A1 as (Av1 & Ae1 & Al1).
  destruct (rk4_midpoint_on R fnUpdate Hresp system
              2 _ iDir s1 s2 i v E2) as (K2 & F2);
    [by rewrite N1|done|by rewrite Ae1|].
  rewrite Ae1, U1 in F2.
  assert (A2 : fillable i v ne (tmpUpdate (Evolve (st_control s2)))).
  { by apply (fillable_kept i v ne (tmpUpdate (Evolve (st_control s1)))). }
  destruct A2 as (Av2 & Ae2 & Al2).
  destruct (rk4_fullstep_on R fnUpdate Hresp system
              iDir s2 s3 i v E3) as (K3 & F3);
    [by rewrite N2|done|by rewrite Ae2|].
  rewrite Ae2, U2 in F3.
  pose proof (proj1 K0) as P0.
  assert (P1 : procs_only tmp (tmpUpdate (Evolve (st_control s1)))).
  { eapply procs_only_trans; [exact P0|exact (proj1 K1)]. }
  assert (P2 : procs_only tmp (tmpUpdate (Evolve (st_control s2)))).
  { eapply procs_only_trans; [exact P1|exact (proj1 K2)]. }
  split.
  { intros e He. split; [exact (F0 e He)|].
    split; [eapply derivative_on_procs; [exact P0|by apply F1]|].
    split; [eapply derivative_on_procs; [exact P1|by apply F2]|].
    eapply derivative_on_procs; [exact P2|by apply F3]. }
  (* the moves *)
  split.
  { rewrite Hdt. by apply (rk4_start_tmpBody fnUpdate system body control update iDir s0). }
  split.
  { rewrite Hdt. apply (tmp_holds_procs _ _ _ _ _ _ P0).
    pose proof (rk4_midpoint_tmpBody fnUpdate system 1 (fun d => 0.5 * st_dDt s0 * d)
                  iDir s0 s1) as Hm.
    cbv zeta in Hm. rewrite N0, U0 in Hm.
    apply Hm; [lia|done|by eapply movable_procs|done|done|done]. }
  split.
  { rewrite Hdt, <- D1. apply (tmp_holds_procs _ _ _ _ _ _ P1).
    pose proof (rk4_midpoint_tmpBody fnUpdate system 2 (fun d => st_dDt s1 * d)
                  iDir s1 s2) as Hm.
    cbv zeta in Hm. rewrite N1, U1, B1 in Hm.
    apply Hm; [lia|done|by eapply movable_procs|done|done|done]. }
  (* the write-back *)
  destruct (is_value_type update i v) eqn:Hval; [|exact Hback].
  destruct Hback as (Hb1 & Hb2 & Hb3). do 2 (split; [done|]). split.
  - intros Hne e He. specialize (F0 e He). unfold derivative_at_start, called_at_start in F0.
    rewrite Ct in F0.
    unfold is_value_type in Hval. cbv zeta in Hval.
    destruct ((iaType (update !!! i) !!! v) !!! 0%nat =? 10)%Z eqn:T10;
      [apply Z.eqb_eq in T10; done|].
    rewrite orb_false_r in Hval.
    assert (Hor : ((iaType (update !!! i) !!! v) !!! 0%nat =? 0)%Z
                  || ((iaType (update !!! i) !!! v) !!! 0%nat =? 5)%Z
                  || ((iaType (update !!! i) !!! v) !!! 0%nat =? 3)%Z = true).
    { apply orb_true_iff in Hval as [->| ->]; [done|]. by rewrite orb_true_r. }
    by rewrite Hor in F0.
  - intros Ht. apply Hb3. fold tmp. by rewrite Ct.
Qed.

End StepAsAWhole.

(** * The claims on concrete inputs *)

#[local] Existing Instances Examples.Libm' Examples.PhysConst' Examples.VplanetH'.

Import Examples StepExamples.

(** C1.  [fnPropsAuxAtmEsc] leaves 1 in [dKTide] whatever [xi] is.  For the
    planet of [Examples], which is not circumbinary, [xi] is 2 and
    [1 - 3/(2 xi) + 1/(2 xi^3)] is 5/16; the function leaves 1. *)
Theorem fnPropsAuxAtmEsc_dKTide_overwritten :
  let xi := pow (dbl planet dMass / (3 * dbl star dMass)) (1 / 3) * dbl planet dSemi
            / (dbl planet dRadius * dbl planet dXFrac) in
  let after := (fnPropsAuxAtmEsc bodies evolve0 io0 [] 1).1 in
  (forall body evolve io update iBody, (iBody < length body)%nat ->
     dbl ((fnPropsAuxAtmEsc body evolve io update iBody).1 !!! iBody) dKTide = 1)
  /\ truthy (int planet bBinary) = false
  /\ xi == 2
  /\ 1 - 3 / (2 * xi) + 1 / (2 * pow xi 3) == 5 / 16
  /\ dbl (after !!! 1%nat) dKTide == 1.
Proof.
  intros xi after. split; [apply fnPropsAuxAtmEsc_dKTide|].
  split; [reflexivity|]. split; [by vm_compute|]. split; [by vm_compute|].
  unfold after. by rewrite fnPropsAuxAtmEsc_dKTide by (cbn; lia).
Qed.

(** [timestep_bound] on the matrix of [Examples]: the step is at most the
    100 left to the next output, and [dCurrentDt] records it *)
Lemma timestep_bound_witness :
  truthy (bVarDt (Evolve ctl)) = true
  /\ exists s, RungeKutta4Step [b0] ctl sys [upd0] fns 1 = Ret s
       /\ st_dDt s <= 100 - dTime (Evolve ctl)
       /\ dCurrentDt (Evolve (st_control s)) = st_dDt s.
Proof.
  split; [reflexivity|].
  destruct (timestep_bound [b0] ctl sys [upd0] fns 0 1 eq_refl) as (_ & _ & Hrk).
  assert (Hret : returned (RungeKutta4Step [b0] ctl sys [upd0] fns 1) = true)
    by (vm_compute; reflexivity).
  destruct (RungeKutta4Step [b0] ctl sys [upd0] fns 1) as [s|] eqn:E; [|discriminate Hret].
  exists s. split; [reflexivity|].
  destruct (Hrk s eq_refl) as (dMin & b1 & c1 & u1 & _ & _ & _ & Hle & Hcur).
  split; [exact Hle|exact Hcur].
Defined.

(** The arrays of the matrix of [Examples] are as [RungeKutta4Step] needs
    them *)
Lemma has_room_ev : has_room 1 (nvars [upd0]) (evolve_daDeriv (Evolve ctl)).
Proof.
  intros k i Hk Hi. assert (i = 0%nat) as -> by lia.
  destruct k as [|[|[|[|k]]]]; [..|lia]; vm_compute; repeat split; lia.
Qed.

Lemma update_ready_upd0 body : (1 <= length body)%nat -> update_ready 1 body [upd0].
Proof.
  intros Hb. split; [done|]. split; [cbn; lia|].
  intros i Hi. assert (i = 0%nat) as -> by lia.
  split; [vm_compute; lia|]. split; [vm_compute; lia|].
  change (NoDup [dSurfaceWaterMass; dRadius; dSemi]).
  apply (bool_decide_unpack _). by vm_compute.
Qed.

(** The arrays of the matrix of [StepExamples] are as [RungeKutta4Step]
    needs them, and its functions only read the bodies *)
Lemma has_room_ev1 : has_room 1 (nvars [upd1]) (evolve_daDeriv (Evolve ctl1)).
Proof.
  intros k i Hk Hi. assert (i = 0%nat) as -> by lia.
  destruct k as [|[|[|[|k]]]]; [..|lia]; vm_compute; repeat split; lia.
Qed.

Lemma update_ready_upd1 body : (1 <= length body)%nat -> update_ready 1 body [upd1].
Proof.
  intros Hb. split; [done|]. split; [cbn; lia|].
  intros i Hi. assert (i = 0%nat) as -> by lia.
  split; [vm_compute; lia|]. split; [vm_compute; lia|].
  change (NoDup [dSurfaceWaterMass; dRadius; dSemi; dPositionX]).
  apply (bool_decide_unpack _). by vm_compute.
Qed.

Lemma tmp_ready_upd1 : tmp_ready 1 [upd1] (tmpUpdate (Evolve ctl1)).
Proof.
  intros i Hi. assert (i = 0%nat) as -> by lia. split; [reflexivity|].
  intros v Hv. change (v < 4)%nat in Hv.
  destruct v as [|[|[|[|v]]]]; [..|lia]; repeat split; vm_compute; lia.
Qed.

Lemma fns1_respects : matrix_respects eq fns1.
Proof.
  split; [intros x; reflexivity|]. split; [intros x y z -> ->; reflexivity|].
  intros i v e body system iaBody d body'.
  destruct i as [|i]; [|by intros [= _ <-]].
  destruct v as [|[|[|[|v]]]]; (destruct e as [|e]; by intros [= _ <-]).
Qed.

(** [RungeKutta4Step_writes_back] on the matrix of [StepExamples], whose
    functions only read the bodies.  The surface water, of kind 1, is moved
    by the weighted sum of four sums of derivatives, each slot being what
    its contributor returned on the bodies of its evaluation, and between
    the evaluations it is moved in [evolve->tmpBody]; the radius, of kind
    VALUE, is assigned the sum of the first evaluation, which its
    contributor returned on the bodies at the start, and its contributor
    is called in the fourth evaluation too. *)
Lemma RungeKutta4Step_writes_back_witness :
  exists s s0 s1 s2 s3,
    RungeKutta4Step [b1] ctl1 sys [upd1] fns1 1 = Ret s
    /\ has_room 1 (nvars [upd1]) (evolve_daDeriv (Evolve ctl1))
    /\ update_ready 1 (st_body s) [upd1]
    /\ tmp_ready 1 [upd1] (tmpUpdate (Evolve ctl1))
    /\ matrix_respects eq fns1
    /\ rk4_start [b1] ctl1 sys [upd1] fns1 1 = Ret s0
    /\ rk4_midpoint 1 (fun d => 0.5 * st_dDt s0 * d) sys fns1 1 s0 = Ret s1
    /\ rk4_midpoint 2 (fun d => st_dDt s1 * d) sys fns1 1 s1 = Ret s2
    /\ rk4_fullstep sys fns1 1 s2 = Ret s3
    /\ (let x := dbl (st_body s0 !!! 0%nat) dSurfaceWaterMass in
        let f0 := StageSum 1 [upd1] s0 0 0 in
        let f1 := StageSum 1 [upd1] s1 0 0 in
        let f2 := StageSum 1 [upd1] s2 0 0 in
        let f3 := StageSum 1 [upd1] s3 0 0 in
        derivative_on eq fns1 sys [upd1] [b1] 0 0 0 (slots s0 0 0 !!! 0%nat)
        /\ derivative_on eq fns1 sys [upd1] (aux_bodies [upd1] s0) 0 0 0
             (slots s1 0 0 !!! 0%nat)
        /\ derivative_on eq fns1 sys [upd1] (aux_bodies [upd1] s1) 0 0 0
             (slots s2 0 0 !!! 0%nat)
        /\ derivative_on eq fns1 sys [upd1] (aux_bodies [upd1] s2) 0 0 0
             (slots s3 0 0 !!! 0%nat)
        /\ dbl (tmpBody (Evolve (st_control s0)) !!! 0%nat) dSurfaceWaterMass
           = x + 0.5 * st_dDt s * f0
        /\ dbl (tmpBody (Evolve (st_control s1)) !!! 0%nat) dSurfaceWaterMass
           = x + 0.5 * st_dDt s * f1
        /\ dbl (tmpBody (Evolve (st_control s2)) !!! 0%nat) dSurfaceWaterMass
           = x + st_dDt s * f2
        /\ dbl (st_body s !!! 0%nat) dSurfaceWaterMass
           == x + st_dDt s * (f0 + 2 * f1 + 2 * f2 + f3) / 6)
    /\ dbl (st_body s !!! 0%nat) dRadius = StageSum 1 [upd1] s0 0 1
    /\ derivative_on eq fns1 sys [upd1] [b1] 0 1 0 (slots s0 0 1 !!! 0%nat)
    /\ dbl (tmpBody (Evolve (st_control s2)) !!! 0%nat) dRadius = StageSum 1 [upd1] s2 0 1
    /\ derivative_on eq fns1 sys [upd1] (aux_bodies [upd1] s2) 0 1 0 (slots s3 0 1 !!! 0%nat).
Proof.
  assert (Hlen : match RungeKutta4Step [b1] ctl1 sys [upd1] fns1 1 with
                 | Ret s => length (st_body s)
                 | Exit _ _ => 0%nat
                 end = 1%nat) by (vm_compute; reflexivity).
  (* the scratch bodies are in place after each of the first three stages *)
  assert (Htmp : match rk4_start [b1] ctl1 sys [upd1] fns1 1 with
                 | Ret s0 =>
                     match rk4_midpoint 1 (fun d => 0.5 * st_dDt s0 * d) sys fns1 1 s0 with
                     | Ret s1 =>
                         match rk4_midpoint 2 (fun d => st_dDt s1 * d) sys fns1 1 s1 with
                         | Ret s2 =>
                             [length (tmpBody (Evolve (st_control s0)));
                              length (tmpBody (Evolve (st_control s1)));
                              length (tmpBody (Evolve (st_control s2)))]
                         | Exit _ _ => []
                         end
                     | Exit _ _ => []
                     end
                 | Exit _ _ => []
                 end = [1; 1; 1]%nat) by (vm_compute; reflexivity).
  destruct (RungeKutta4Step [b1] ctl1 sys [upd1] fns1 1) as [s|] eqn:E; [|discriminate Hlen].
  assert (Hready : update_ready 1 (st_body s) [upd1]) by (apply update_ready_upd1; lia).
  destruct (RungeKutta4Step_writes_back [b1] ctl1 sys [upd1] fns1 1 s eq E has_room_ev1
              Hready tmp_ready_upd1 fns1_respects)
    as (s0 & s1 & s2 & s3 & E0 & E1 & E2 & E3 & _ & _ & Hvars).
  rewrite E0, E1, E2 in Htmp. injection Htmp as L0 L1 L2.
  exists s, s0, s1, s2, s3. split; [reflexivity|]. split; [exact has_room_ev1|].
  split; [exact Hready|]. split; [exact tmp_ready_upd1|]. split; [exact fns1_respects|].
  do 4 (split; [assumption|]).
  pose proof (Hvars 0%nat 0%nat) as Hwater. pose proof (Hvars 0%nat 1%nat) as Hradius.
  clear Hvars. cbv zeta in Hwater, Hradius.
  change (is_value_type [upd1] 0 0) with false in Hwater.
  change (is_value_type [upd1] 0 1) with true in Hradius. cbv iota in Hwater, Hradius.
  destruct Hwater as (Hev & Hm0 & Hm1 & Hm2 & Hback); [vm_compute; lia..|].
  destruct Hradius as (Hev' & _ & _ & Hm2' & Hassign & _ & Hval & _); [vm_compute; lia..|].
  destruct (Hev 0%nat) as (H0 & H1 & H2 & H3); [vm_compute; lia|].
  destruct (Hev' 0%nat) as (_ & _ & _ & H3'); [vm_compute; lia|].
  split; [|split; [exact Hassign|split; [|split; [apply Hm2'; lia|exact H3']]]].
  - cbv zeta. split; [exact H0|]. do 3 (split; [assumption|]).
    split; [apply Hm0; lia|]. split; [apply Hm1; lia|]. split; [apply Hm2; lia|].
    exact Hback.
  - apply Hval; [discriminate|vm_compute; lia].
Defined.

(** The claim of C3 fails in four ways, shown on the matrix of
    [StepExamples], where the step is 1.  The semi-major axis, of kind
    EXPLICIT, is assigned the 2 that its scratch slot held, although its
    contributor returns 3 on the bodies at the start of the step.  The
    position, of kind NBODY, is moved by [(7 + 2*5 + 2*5 + 5) / 6], the 7
    being what its scratch slot held, although its contributor returns 5
    on any bodies: under these flags [fdGetTimeStep] does not call it.  The
    radius, of kind VALUE, is assigned the 1 of the first evaluation, and
    after the step its scratch slot holds 9/10, a tenth of the surface
    water at the end of the step: the fourth evaluation has called its
    contributor.  And with [iDir = -1] the surface water, whose contributor
    returns -1 wherever it is called, goes from 10 to 11, not to 9. *)
Lemma RungeKutta4Step_not_as_claimed :
  iaType upd1 = [[1%Z]; [0%Z]; [10%Z]; [7%Z]]
  /\ pdVar upd1 = [dSurfaceWaterMass; dRadius; dSemi; dPositionX]
  /\ daDerivProc (tmpUpdate (Evolve ctl1) !!! 0%nat) = [[0]; [0]; [2]; [7]]
  /\ bSpiNBodyDistOrb (Evolve ctl1) = 1%Z /\ bUsingSpiNBody (Evolve ctl1) = 0%Z
  /\ (forall body, (((fns1 !!! 0%nat) !!! 0%nat) !!! 0%nat) body sys [0%nat] = Ret (-1, body))
  /\ (forall body, (((fns1 !!! 0%nat) !!! 1%nat) !!! 0%nat) body sys [0%nat]
                   = Ret (dbl (body !!! 0%nat) dSurfaceWaterMass / 10, body))
  /\ (((fns1 !!! 0%nat) !!! 2%nat) !!! 0%nat) [b1] sys [0%nat] = Ret (3, [b1])
  /\ (forall body, (((fns1 !!! 0%nat) !!! 3%nat) !!! 0%nat) body sys [0%nat] = Ret (5, body))
  /\ dbl b1 dSurfaceWaterMass == 10 /\ dbl b1 dPositionX == 4
  /\ (exists s,
        RungeKutta4Step [b1] ctl1 sys [upd1] fns1 1 = Ret s
        /\ st_dDt s == 1
        /\ dbl (st_body s !!! 0%nat) dSurfaceWaterMass == 9
        /\ dbl (st_body s !!! 0%nat) dSemi == 2
        /\ ~ dbl (st_body s !!! 0%nat) dSemi == 3
        /\ dbl (st_body s !!! 0%nat) dPositionX == 4 + 1 * (7 + 2 * 5 + 2 * 5 + 5) / 6
        /\ ~ dbl (st_body s !!! 0%nat) dPositionX == 4 + 1 * (5 + 2 * 5 + 2 * 5 + 5) / 6
        /\ dbl (st_body s !!! 0%nat) dRadius == 1
        /\ slots s 0 1 !!! 0%nat == 9 / 10)
  /\ (exists s,
        RungeKutta4Step [b1] ctl1 sys [upd1] fns1 (-1) = Ret s
        /\ st_dDt s == 1
        /\ dbl (st_body s !!! 0%nat) dSurfaceWaterMass == 11
        /\ ~ dbl (st_body s !!! 0%nat) dSurfaceWaterMass
             == 10 + 1 * (-1 + 2 * -1 + 2 * -1 + -1) / 6).
Proof.
  do 11 (split; [first [reflexivity | by vm_compute]|]). split.
  - assert (Hval : match RungeKutta4Step [b1] ctl1 sys [upd1] fns1 1 with
                   | Ret s =>
                       Qeq_bool (st_dDt s) 1
                       && Qeq_bool (dbl (st_body s !!! 0%nat) dSurfaceWaterMass) 9
                       && Qeq_bool (dbl (st_body s !!! 0%nat) dSemi) 2
                       && Qeq_bool (dbl (st_body s !!! 0%nat) dPositionX)
                                   (4 + 1 * (7 + 2 * 5 + 2 * 5 + 5) / 6)
                       && Qeq_bool (dbl (st_body s !!! 0%nat) dRadius) 1
                       && Qeq_bool (slots s 0 1 !!! 0%nat) (9 / 10)
                   | Exit _ _ => false
                   end = true) by (vm_compute; reflexivity).
    destruct (RungeKutta4Step [b1] ctl1 sys [upd1] fns1 1) as [s|] eqn:E; [|discriminate Hval].
    repeat (apply andb_true_iff in Hval as [Hval ?]).
    repeat match goal with Hq : Qeq_bool _ _ = true |- _ => apply Qeq_bool_iff in Hq end.
    exists s. split; [reflexivity|]. do 3 (split; [assumption|]).
    split; [intros Hx; by rewrite Hx in *|]. split; [assumption|].
    split; [intros Hx; by rewrite Hx in *|]. split; assumption.
  - assert (Hval : match RungeKutta4Step [b1] ctl1 sys [upd1] fns1 (-1) with
                   | Ret s =>
                       Qeq_bool (st_dDt s) 1
                       && Qeq_bool (dbl (st_body s !!! 0%nat) dSurfaceWaterMass) 11
                   | Exit _ _ => false
                   end = true) by (vm_compute; reflexivity).
    destruct (RungeKutta4Step [b1] ctl1 sys [upd1] fns1 (-1)) as [s|] eqn:E;
      [|discriminate Hval].
    apply andb_true_iff in Hval as [H1 H2]. apply Qeq_bool_iff in H1, H2.
    exists s. split; [reflexivity|]. do 2 (split; [assumption|]).
    intros Hx. by rewrite Hx in H2.
Qed.

(** [fdDEnvelopeMassDt_expired] on a body without envelope *)
Lemma fdDEnvelopeMassDt_expired_witness :
  dbl blank dEnvelopeMass <= 0 /\ fdDEnvelopeMassDt [blank] sys [0%nat] = dTINY.
Proof.
  split; [by vm_compute|].
  apply (fdDEnvelopeMassDt_expired [blank] sys [0%nat]). left. by vm_compute.
Defined.

(** The claim of C5 fails on a body without envelope: the derivative is
    [dTINY], which is not 0. *)
Lemma fdDEnvelopeMassDt_not_zero :
  dbl blank dEnvelopeMass <= 0
  /\ fdDEnvelopeMassDt [blank] sys [0%nat] = dTINY
  /\ ~ fdDEnvelopeMassDt [blank] sys [0%nat] == 0.
Proof. split; [by vm_compute|]. split; [reflexivity|by vm_compute]. Qed.

(** [fdGetTimeStep_value_variable] on the radius of the matrix of
    [Examples], when the running minimum is the 10 of the surface water:
    the radius lowers it to 1 *)
Lemma fdGetTimeStep_value_variable_witness :
  let st := mkTimeStepState [b0] ctl [upd0] 10 in
  (iaType (ts_update st !!! 0%nat) !!! 1%nat) !!! 0%nat = 0%Z
  /\ exists st',
       fdGetTimeStep_var InBodyArgument (Evolve ctl) sys fns 0 1 st = Ret st'
       /\ ts_dMin st' == 1.
Proof.
  intros st. split; [reflexivity|].
  assert (Hret : returned (EvalEqns fns sys 0 1 (ts_body st, ts_update st)) = true)
    by (vm_compute; reflexivity).
  assert (Hsum : match EvalEqns fns sys 0 1 (ts_body st, ts_update st) with
                 | Ret bu => Qeq_bool (SumEqns bu.2 0 1) 2
                 | Exit _ _ => false
                 end = true) by (vm_compute; reflexivity).
  destruct (EvalEqns fns sys 0 1 (ts_body st, ts_update st)) as [[body' update']|] eqn:E;
    [|discriminate Hret].
  apply Qeq_bool_iff in Hsum. cbn [snd] in Hsum.
  destruct (fdGetTimeStep_value_variable InBodyArgument (Evolve ctl) sys fns 0 1 st
              body' update' eq_refl E) as (st' & Hrun & _ & _ & _ & Hlater).
  exists st'. split; [exact Hrun|].
  destruct Hlater as (_ & Hmin & _); [reflexivity|].
  change (deref InBodyArgument (ts_body st) (ts_update st) 0 1) with (dbl b0 dRadius) in Hmin.
  destruct Hmin as [Hmin _].
  { rewrite Hsum. by vm_compute. }
  rewrite Hmin, Hsum. by vm_compute.
Defined.

(** The claim of C6 fails on the matrix of [Examples]: the minimum that
    [fdGetTimeStep] returns is 1, the time [|1 / ((1 - 2) / 1)|] of the
    radius, a variable of kind VALUE; with the radius out of the matrix
    it is 10. *)
Lemma fdGetTimeStep_value_variable_decides :
  (iaType upd0 !!! 1%nat) !!! 0%nat = 0%Z
  /\ Qabs (dbl b0 dRadius / ((dbl b0 dRadius - 2) / dTimeStep (Evolve ctl))) == 1
  /\ (exists dMin body control update,
        fdGetTimeStep [b0] InBodyArgument ctl sys [upd0] fns
          = Ret (dMin, body, control, update)
        /\ dMin == 1)
  /\ (exists dMin body control update,
        fdGetTimeStep [b0] InBodyArgument ctl sys [upd_norad] fns_norad
          = Ret (dMin, body, control, update)
        /\ dMin == 10).
Proof.
  split; [reflexivity|]. split; [by vm_compute|]. split.
  - assert (Hval : match fdGetTimeStep [b0] InBodyArgument ctl sys [upd0] fns with
                   | Ret r => Qeq_bool r.1.1.1 1
                   | Exit _ _ => false
                   end = true) by (vm_compute; reflexivity).
    destruct (fdGetTimeStep [b0] InBodyArgument ctl sys [upd0] fns)
      as [[[[dMin body] control] update]|]; [|discriminate Hval].
    exists dMin, body, control, update. split; [reflexivity|]. by apply Qeq_bool_iff.
  - assert (Hval : match fdGetTimeStep [b0] InBodyArgument ctl sys [upd_norad] fns_norad with
                   | Ret r => Qeq_bool r.1.1.1 10
                   | Exit _ _ => false
                   end = true) by (vm_compute; reflexivity).
    destruct (fdGetTimeStep [b0] InBodyArgument ctl sys [upd_norad] fns_norad)
      as [[[[dMin body] control] update]|]; [|discriminate Hval].
    exists dMin, body, control, update. split; [reflexivity|]. by apply Qeq_bool_iff.
Qed.

(** [stellar_track_out_of_bounds] on a star whose lookup reports NaN *)
Lemma stellar_track_out_of_bounds_witness :
  (0 < length [star_baraffe])%nat
  /\ iStellarModel star_baraffe = STELLAR_MODEL_BARAFFE
  /\ (fdBaraffe (VplanetH := VplanetH_nan) STELLAR_L (dbl star_baraffe dAge)
                (dbl star_baraffe dMass) 3).2 = STELLAR_ERR_ISNAN
  /\ fdLuminosity (H1 := VplanetH_nan) [star_baraffe] sys_nan [0%nat]
     = Ret (dbl star_baraffe dLuminosity,
            [set_iStellarModel STELLAR_MODEL_CONST star_baraffe]).
Proof.
  split; [cbn; lia|]. split; [reflexivity|]. split; [reflexivity|].
  destruct (stellar_track_out_of_bounds (H1 := VplanetH_nan) [star_baraffe] sys_nan [0%nat])
    as (Hhi & _ & _); [cbn; lia|reflexivity|].
  destruct (Hhi STELLAR_ERR_ISNAN) as (HL & _); [by right|].
  by apply HL.
Defined.

(** The claim of C7 fails when the lookup reports NaN: [fdLuminosity]
    returns the stored luminosity and sets the model to CONST; the program
    goes on. *)
Lemma fdLuminosity_nan_not_fatal :
  iStellarModel star_baraffe = STELLAR_MODEL_BARAFFE
  /\ (fdBaraffe (VplanetH := VplanetH_nan) STELLAR_L (dbl star_baraffe dAge)
                (dbl star_baraffe dMass) 3).2 = STELLAR_ERR_ISNAN
  /\ fdLuminosity (H1 := VplanetH_nan) [star_baraffe] sys_nan [0%nat]
     = Ret (dbl star_baraffe dLuminosity,
            [set_iStellarModel STELLAR_MODEL_CONST star_baraffe])
  /\ ~ exists status msg,
         fdLuminosity (H1 := VplanetH_nan) [star_baraffe] sys_nan [0%nat] = Exit status msg.
Proof.
  split; [reflexivity|]. split; [reflexivity|]. split; [reflexivity|].
  intros (status & msg & Hx). discriminate Hx.
Qed.

(** [oxygen_routing] on a planet that loses water and has no instant
    sink: nothing goes to the mantle *)
Lemma oxygen_routing_witness :
  truthy (int ([star; planet_runaway] !!! 1%nat) bRunaway) = true
  /\ 0 < dbl ([star; planet_runaway] !!! 1%nat) dSurfaceWaterMass
  /\ fdDOxygenMantleMassDt [star; planet_runaway] sys [1%nat] = 0.
Proof.
  split; [reflexivity|]. split; [by vm_compute|].
  destruct (oxygen_routing [star; planet_runaway] sys [1%nat]) as (_ & Hclear);
    [reflexivity|by vm_compute|].
  by apply Hclear.
Defined.

(** [fdAtomicOxygenMixingRatio_cases] on a unit of water and a unit of
    oxygen *)
Lemma fdAtomicOxygenMixingRatio_cases_witness :
  0 <= 1 /\ 0 <= fdAtomicOxygenMixingRatio 1 1 <= 1.
Proof.
  split; [by vm_compute|].
  apply (fdAtomicOxygenMixingRatio_cases 1 1); by vm_compute.
Defined.

(** [PropertiesAuxiliary_age] on a star with the hook of stellar.c and a
    planet with the hook of atmesc.c: after the pass the planet, whose age
    was 7, has the 100 of the star *)
Lemma PropertiesAuxiliary_age_witness :
  (iNumBodies (Evolve ctl_hooks) <= length bodies)%nat
  /\ (fnPropsAux ctl_hooks !!! 1%nat) !!! 0%nat = fnPropsAuxAtmEsc
  /\ dbl ((PropertiesAuxiliary bodies ctl_hooks []).1 !!! 1%nat) dAge
     = dbl (bodies !!! 0%nat) dAge.
Proof.
  split; [cbn; lia|]. split; [reflexivity|].
  destruct (PropertiesAuxiliary_age bodies ctl_hooks [] 1 0) as (_ & Hage & _);
    [..|exact Hage].
  - cbn. lia.
  - intros i' m' Hi Hm. destruct i' as [|[|i']]; [| |cbn in Hi; lia].
    + destruct m' as [|m']; [|cbn in Hm; lia]. right. apply fnPropsAuxStellar_keeps_ages.
    + destruct m' as [|m']; [|cbn in Hm; lia]. by left.
  - intros i' m' Hi Hm. destruct i' as [|[|i']]; cbn in Hi, Hm; lia.
  - cbn. lia.
  - cbn. lia.
  - reflexivity.
Defined.

(** * The further properties on concrete inputs *)

#[local] Existing Instance MoreExamples.VplanetH_more'.

Import MoreExamples.

(** [fnPropsAuxAtmEsc_no_escape] on the planet under an envelope *)
Lemma fnPropsAuxAtmEsc_no_escape_witness :
  (1 < length [star; planet_env])%nat
  /\ 0 < dbl ([star; planet_env] !!! 1%nat) dEnvelopeMass
  /\ fdDSurfaceWaterMassDt (fnPropsAuxAtmEsc [star; planet_env] evolve0 io0 [] 1).1
                           sys [1%nat] = 0.
Proof.
  split; [cbn; lia|]. split; [by vm_compute|].
  destruct (fnPropsAuxAtmEsc_no_escape [star; planet_env] evolve0 io0 [] sys 1 [1%nat])
    as (_ & _ & _ & Hw & _); [cbn; lia|reflexivity|left; by vm_compute|].
  exact Hw.
Defined.

(** [fnPropsAuxAtmEsc_warns_once] on the star and the planet *)
Lemma fnPropsAuxAtmEsc_warns_once_witness :
  (1 < length bodies)%nat
  /\ ((fnPropsAuxAtmEsc bodies evolve0 io0 [] 1).2 = []
      \/ (fnPropsAuxAtmEsc bodies evolve0 io0 [] 1).2
         = [RocheWarning (cName (bodies !!! 1%nat))]).
Proof.
  split; [cbn; lia|].
  destruct (fnPropsAuxAtmEsc_warns_once bodies evolve0 evolve0 io0 io0 [] [] 1)
    as (_ & Hone & _); [cbn; lia|].
  exact Hone.
Defined.

(** [fdAtomicOxygenMixingRatio_monotone] on a planet that had 1 of water
    and 2 of oxygen, and has 0.5 and 3: the ratio was above 0.6 and is
    above it *)
Lemma fdAtomicOxygenMixingRatio_monotone_witness :
  0 < ATOMMASS /\ 0 < 0.5 /\ 0.5 <= 1 /\ 0 <= 2 /\ 2 <= 3
  /\ 0.6 < fdAtomicOxygenMixingRatio 1 2
  /\ fdAtomicOxygenMixingRatio 1 2 <= fdAtomicOxygenMixingRatio 0.5 3
  /\ 0.6 < fdAtomicOxygenMixingRatio 0.5 3.
Proof.
  do 6 (split; [by vm_compute|]).
  destruct (fdAtomicOxygenMixingRatio_monotone 1 0.5 2 3) as (_ & Hle & Hkeep);
    [by vm_compute..|].
  split; [exact Hle|]. apply Hkeep. by vm_compute.
Defined.

(** [fbDoesWaterEscape_duration_once] on the planet *)
Lemma fbDoesWaterEscape_duration_once_witness :
  (1 < length bodies)%nat
  /\ (~ dbl (bodies !!! 1%nat) dRGDuration == 0 -> (fbDoesWaterEscape bodies 1).2 = bodies).
Proof.
  split; [cbn; lia|].
  destruct (fbDoesWaterEscape_duration_once bodies 1) as (Hkeep & _); [cbn; lia|].
  exact Hkeep.
Defined.

(** [fnForceBehaviorAtmEsc_thresholds] on the planet with a thin envelope *)
Lemma fnForceBehaviorAtmEsc_thresholds_witness :
  (1 < length [star; planet_thin])%nat
  /\ forall j, j <> 1%nat ->
       (fnForceBehaviorAtmEsc [star; planet_thin] evolve0 io0 sys [] [] 1 0).1.1 !!! j
       = [star; planet_thin] !!! j.
Proof.
  split; [cbn; lia|].
  destruct (fnForceBehaviorAtmEsc_thresholds [star; planet_thin] evolve0 io0 sys [] [] 1 0)
    as (_ & _ & _ & _ & Ho); [cbn; lia|].
  exact Ho.
Defined.

(** [fnForceBehaviorAtmEsc_twice] on the planet with a thin envelope *)
Lemma fnForceBehaviorAtmEsc_twice_witness :
  (1 < length [star; planet_thin])%nat
  /\ let r := fnForceBehaviorAtmEsc [star; planet_thin] evolve0 io0 sys [] [] 1 0 in
     fnForceBehaviorAtmEsc r.1.1 evolve0 io0 sys [] r.1.2 1 0 = (r.1.1, r.1.2, []).
Proof.
  split; [cbn; lia|].
  exact (fnForceBehaviorAtmEsc_twice [star; planet_thin] evolve0 evolve0 io0 io0 sys [] []
           [] 1 0 0 ltac:(cbn; lia)).
Defined.

(** [fnForceBehaviorAtmEsc_halts] on the planet with a thin envelope *)
Lemma fnForceBehaviorAtmEsc_halts_witness :
  (1 < length [star; planet_thin])%nat
  /\ let r := fnForceBehaviorAtmEsc [star; planet_thin] evolve0 io0 sys [] [] 1 0 in
     (fbHaltEnvelopeGone r.1.1 evolve0 [] io0 [] 1).1
     = (fbHaltEnvelopeGone [star; planet_thin] evolve0 [] io0 [] 1).1.
Proof.
  split; [cbn; lia|].
  destruct (fnForceBehaviorAtmEsc_halts [star; planet_thin] evolve0 io0 sys [] [] 1 0 [])
    as (_ & He); [cbn; lia|].
  exact He.
Defined.

(** [fnForceBehaviorAtmEsc_radius] on the planet with a thin envelope *)
Lemma fnForceBehaviorAtmEsc_radius_witness :
  (1 < length [star; planet_thin])%nat
  /\ iPlanetRadiusModel ([star; planet_thin] !!! 1%nat) = ATMESC_LOP12
  /\ 0 < dbl ([star; planet_thin] !!! 1%nat) dEnvelopeMass
  /\ dbl ([star; planet_thin] !!! 1%nat) dEnvelopeMass
     <= dbl ([star; planet_thin] !!! 1%nat) dMinEnvelopeMass
  /\ dbl ((fnForceBehaviorAtmEsc [star; planet_thin] evolve0 io0 sys [] [] 1 0).1.1
          !!! 1%nat) dRadius
     = fdMassToRad_Sotin07 (dbl ([star; planet_thin] !!! 1%nat) dMass).
Proof.
  split; [cbn; lia|]. split; [reflexivity|]. split; [by vm_compute|].
  split; [by vm_compute|].
  destruct (fnForceBehaviorAtmEsc_radius [star; planet_thin] evolve0 io0 sys [] [] 1 0
              [1%nat]) as (_ & Hr & _);
    [cbn; lia|reflexivity|reflexivity|by vm_compute|by vm_compute|].
  exact Hr.
Defined.

(** [BodyCopyAtmEsc_rates]: the planet copied over a blank body *)
Lemma BodyCopyAtmEsc_rates_witness :
  (1 < length [star; blank])%nat
  /\ fdDSurfaceWaterMassDt (BodyCopyAtmEsc [star; blank] bodies 0 2 1) sys [1%nat]
     = fdDSurfaceWaterMassDt bodies sys [1%nat].
Proof.
  split; [cbn; lia|].
  destruct (BodyCopyAtmEsc_rates [star; blank] bodies 0 2 1 sys [1%nat])
    as (_ & _ & _ & _ & _ & Hw & _); [cbn; lia|reflexivity|].
  exact Hw.
Defined.

(** [fvLinearFit_exact] on three points of [y = 2 x + 1] *)
Lemma fvLinearFit_exact_witness :
  (forall i, (i < 3)%nat -> line_y !!! i == 2 * line_x !!! i + 1)
  /\ (exists j k, (j < 3)%nat /\ (k < 3)%nat /\ ~ line_x !!! j == line_x !!! k)
  /\ fvLinearFit line_x line_y 3 !!! 0%nat == 2
  /\ fvLinearFit line_x line_y 3 !!! 1%nat == 1.
Proof.
  assert (Hline : forall i, (i < 3)%nat -> line_y !!! i == 2 * line_x !!! i + 1).
  { intros [|[|[|i]]] Hi; [by vm_compute..|lia]. }
  assert (Hdiff : exists j k, (j < 3)%nat /\ (k < 3)%nat /\ ~ line_x !!! j == line_x !!! k).
  { exists 0%nat, 1%nat. split; [lia|]. split; [lia|]. by vm_compute. }
  split; [exact Hline|]. split; [exact Hdiff|].
  exact (fvLinearFit_exact line_x line_y 3 2 1 Hline Hdiff).
Defined.

(** [fbHaltEndBaraffeGrid_after_lookup] on a star whose lookup reports
    NaN: the halt fires after the call *)
Lemma fbHaltEndBaraffeGrid_after_lookup_witness :
  (0 < length [star_baraffe])%nat
  /\ In (dLuminosity, fdLuminosity (H1 := VplanetH_nan)) (stellar_values (H1 := VplanetH_nan))
  /\ fdLuminosity (H1 := VplanetH_nan) [star_baraffe] sys_nan [0%nat]
     = Ret (dbl star_baraffe dLuminosity,
            [set_iStellarModel STELLAR_MODEL_CONST star_baraffe])
  /\ fbHaltEndBaraffeGrid [set_iStellarModel STELLAR_MODEL_CONST star_baraffe] 0 = 1%Z.
Proof.
  split; [cbn; lia|]. split; [by left|]. split; [reflexivity|].
  destruct (fbHaltEndBaraffeGrid_after_lookup (H1 := VplanetH_nan)
              dLuminosity (fdLuminosity (H1 := VplanetH_nan)) [star_baraffe] sys_nan
              [0%nat] (dbl star_baraffe dLuminosity)
              [set_iStellarModel STELLAR_MODEL_CONST star_baraffe])
    as (Hhalt & _); [cbn; lia|by left|reflexivity|].
  apply Hhalt. right. discriminate.
Defined.

(** [contraction_conserves_angular_momentum] on a star that contracts:
    its radius falls at the rate 1 and its radius of gyration at the rate
    1e-12, and it spins up *)
Lemma contraction_conserves_angular_momentum_witness :
  iStellarModel ([star_contracting] !!! 0%nat) = STELLAR_MODEL_BARAFFE
  /\ ~ dbl ([star_contracting] !!! 0%nat) dRadius == 0
  /\ ~ dbl ([star_contracting] !!! 0%nat) dRadGyra == 0
  /\ exists dR dRG wc wr ec er,
       fdDRadiusDtStellar (H1 := VplanetH_contracting) (H2 := VplanetH_more_contracting)
         [star_contracting] sys_contracting [0%nat] = Ret (Some dR)
       /\ fdDRadGyraDtStellar (H1 := VplanetH_contracting) (H2 := VplanetH_more_contracting)
            [star_contracting] sys_contracting [0%nat] = Ret (Some dRG)
       /\ dR == -1 /\ dRG == - 1e-12
       /\ fdDRotRateDtCon (H1 := VplanetH_contracting) (H2 := VplanetH_more_contracting)
            [star_contracting] sys_contracting [0%nat] = Ret (Some wc)
       /\ fdDRotRateDtRadGyra (H1 := VplanetH_contracting) (H2 := VplanetH_more_contracting)
            [star_contracting] sys_contracting [0%nat] = Ret (Some wr)
       /\ fdDEDtRotConStellar (H1 := VplanetH_contracting) (H2 := VplanetH_more_contracting)
            [star_contracting] sys_contracting [0%nat] = Ret (Some ec)
       /\ fdDEDtRotRadGyraStellar (H1 := VplanetH_contracting)
            (H2 := VplanetH_more_contracting)
            [star_contracting] sys_contracting [0%nat] = Ret (Some er)
       /\ 0 < wc /\ 0 < wr /\ DMomInDt star_contracting dR dRG < 0
       /\ MomIn star_contracting * (wc + wr)
          + dbl star_contracting dRotRate * DMomInDt star_contracting dR dRG == 0
       /\ ec + er == - (MomIn star_contracting * dbl star_contracting dRotRate * (wc + wr)
                        + dbl star_contracting dRotRate * dbl star_contracting dRotRate / 2
                          * DMomInDt star_contracting dR dRG).
Proof.
  split; [reflexivity|]. split; [by vm_compute|]. split; [by vm_compute|].
  assert (HR : match fdDRadiusDtStellar (H1 := VplanetH_contracting)
                       (H2 := VplanetH_more_contracting)
                       [star_contracting] sys_contracting [0%nat] with
               | Ret (Some d) => Qeq_bool d (-1)
               | _ => false
               end = true) by (vm_compute; reflexivity).
  assert (HRG : match fdDRadGyraDtStellar (H1 := VplanetH_contracting)
                        (H2 := VplanetH_more_contracting)
                        [star_contracting] sys_contracting [0%nat] with
                | Ret (Some d) => Qeq_bool d (- 1e-12)
                | _ => false
                end = true) by (vm_compute; reflexivity).
  assert (Hwc : match fdDRotRateDtCon (H1 := VplanetH_contracting)
                        (H2 := VplanetH_more_contracting)
                        [star_contracting] sys_contracting [0%nat] with
                | Ret (Some w) => Qltb 0 w
                | _ => false
                end = true) by (vm_compute; reflexivity).
  assert (Hwr : match fdDRotRateDtRadGyra (H1 := VplanetH_contracting)
                        (H2 := VplanetH_more_contracting)
                        [star_contracting] sys_contracting [0%nat] with
                | Ret (Some w) => Qltb 0 w
                | _ => false
                end = true) by (vm_compute; reflexivity).
  destruct (fdDRadiusDtStellar _ _ _) as [[dR|]|] eqn:ER; try discriminate HR.
  destruct (fdDRadGyraDtStellar _ _ _) as [[dRG|]|] eqn:ERG; try discriminate HRG.
  apply Qeq_bool_iff in HR, HRG.
  destruct (contraction_conserves_angular_momentum (H1 := VplanetH_contracting)
              (H2 := VplanetH_more_contracting)
              [star_contracting] sys_contracting [0%nat] dR dRG)
    as (wc & wr & ec & er & Hc & Hr & Hec & Her & HJ & HE);
    [reflexivity|by vm_compute|by vm_compute|exact ER|exact ERG|].
  rewrite Hc in Hwc. rewrite Hr in Hwr. apply Qltb_true in Hwc, Hwr.
  exists dR, dRG, wc, wr, ec, er.
  do 2 (split; [reflexivity|]). do 2 (split; [done|]). do 4 (split; [done|]).
  do 2 (split; [done|]). split; [|split; [exact HJ|exact HE]].
  unfold DMomInDt. rewrite HR, HRG. by vm_compute.
Defined.

(** [fdDRadiusDtStellar_off_grid] on a star whose lookups report NaN *)
Lemma fdDRadiusDtStellar_off_grid_witness :
  iStellarModel ([star_baraffe] !!! 0%nat) = STELLAR_MODEL_BARAFFE
  /\ fdDRotRateDtCon (H1 := VplanetH_nan) (H2 := VplanetH_more_nan)
       [star_baraffe] sys_nan [0%nat] = Ret None.
Proof.
  split; [reflexivity|].
  destruct (fdDRadiusDtStellar_off_grid (H1 := VplanetH_nan) (H2 := VplanetH_more_nan)
              [star_baraffe] sys_nan [0%nat]) as (_ & Hnan); [reflexivity|].
  apply Hnan; [right; right; by right|by right|].
  right. by left.
Defined.


(** [PropsAuxGeneral_mean_motion] on the star and the planet *)
Lemma PropsAuxGeneral_mean_motion_witness :
  (iNumBodies (Evolve ctl_hooks) <= length bodies)%nat
  /\ PropsAuxGeneral bodies ctl_hooks !!! 0%nat = bodies !!! 0%nat.
Proof.
  split; [cbn; lia|].
  destruct (PropsAuxGeneral_mean_motion bodies ctl_hooks) as (_ & _ & _ & Hz & _);
    [cbn; lia|].
  exact Hz.
Defined.

(** The functions of the matrix of [Examples] only read the bodies *)
Lemma fns_keeps_bodies : matrix_keeps_bodies fns.
Proof.
  intros i v e body system iaBody d body' Hrun.
  destruct i as [|i];
    [destruct v as [|[|[|v]]]; destruct e as [|e]|];
    cbv in Hrun; by injection Hrun as _ <-.
Qed.

Lemma upd0_no_ice_sheets : no_ice_sheets 1 [upd0].
Proof.
  intros i v e Hi Hv He. assert (i = 0%nat) as -> by lia.
  change (iNumVars ([upd0] !!! 0%nat)) with 3%nat in Hv.
  destruct v as [|[|[|v]]]; [..|lia];
    (destruct e as [|e]; [by vm_compute|]); vm_compute in He; lia.
Qed.

(** [RungeKutta4Step_constant_rates] on the matrix of [Examples]: the
    surface water, lost at the rate 1, goes down by the step *)
Lemma RungeKutta4Step_constant_rates_witness :
  exists s,
    RungeKutta4Step [b0] ctl sys [upd0] fns 1 = Ret s
    /\ has_room 1 (nvars [upd0]) (evolve_daDeriv (Evolve ctl))
    /\ update_ready 1 (st_body s) [upd0]
    /\ copied [upd0] (tmpUpdate (Evolve ctl)) 0 0
    /\ returns_constant (((fns !!! 0%nat) !!! 0%nat) !!! 0%nat) ([-1] !!! 0%nat)
    /\ dbl (st_body s !!! 0%nat) dSurfaceWaterMass
       == dbl b0 dSurfaceWaterMass + st_dDt s * DirSum 1 [-1] 1.
Proof.
  assert (Hlen : match RungeKutta4Step [b0] ctl sys [upd0] fns 1 with
                 | Ret s => length (st_body s)
                 | Exit _ _ => 0%nat
                 end = 1%nat) by (vm_compute; reflexivity).
  destruct (RungeKutta4Step [b0] ctl sys [upd0] fns 1) as [s|] eqn:E; [|discriminate Hlen].
  assert (Hready : update_ready 1 (st_body s) [upd0]) by (apply update_ready_upd0; lia).
  assert (Hcopied : copied [upd0] (tmpUpdate (Evolve ctl)) 0 0).
  { repeat split; vm_compute; lia. }
  assert (Hconst : forall e, (e < 1)%nat ->
            returns_constant (((fns !!! 0%nat) !!! 0%nat) !!! e) ([-1] !!! e)).
  { intros e He. assert (e = 0%nat) as -> by lia.
    intros body system iaBody d body' Hrun. cbv in Hrun. by injection Hrun as <- _. }
  exists s. split; [reflexivity|]. split; [exact has_room_ev|]. split; [exact Hready|].
  split; [exact Hcopied|]. split; [apply Hconst; lia|].
  destruct (RungeKutta4Step_constant_rates [b0] ctl sys [upd0] fns 1 s 0 0 [-1]
              E has_room_ev Hready)
    as (dMin & body0 & control1 & tmp1 & _ & _ & Hx & Hsame);
    [vm_compute; lia|vm_compute; lia|vm_compute; lia|exact Hcopied| |exact Hconst|].
  { intros e He. assert (e = 0%nat) as -> by (vm_compute in He; lia). reflexivity. }
  rewrite (Hsame fns_keeps_bodies) in Hx. exact Hx.
Defined.

(** [fdGetTimeStep_resolves] on the matrix of [Examples]: the timescale is
    at most the 10 in which the surface water would be gone *)
Lemma fdGetTimeStep_resolves_witness :
  exists dMin body' control' update',
    fdGetTimeStep [b0] InBodyArgument ctl sys [upd0] fns
      = Ret (dMin, body', control', update')
    /\ matrix_keeps_bodies fns
    /\ no_ice_sheets (iNumBodies (Evolve ctl)) [upd0]
    /\ truthy (bFirstStep (Evolve ctl)) = false
    /\ body' = [b0]
    /\ dMin <= 10.
Proof.
  assert (Hd : match fdGetTimeStep [b0] InBodyArgument ctl sys [upd0] fns with
               | Ret (_, _, _, update') => Qeq_bool (row update' 0 0 !!! 0%nat) (-1)
               | Exit _ _ => false
               end = true) by (vm_compute; reflexivity).
  destruct (fdGetTimeStep [b0] InBodyArgument ctl sys [upd0] fns)
    as [[[[dMin body'] control'] update']|] eqn:E; [|discriminate Hd].
  apply Qeq_bool_iff in Hd.
  exists dMin, body', control', update'. split; [reflexivity|].
  split; [exact fns_keeps_bodies|]. split; [exact upd0_no_ice_sheets|].
  split; [reflexivity|].
  destruct (fdGetTimeStep_resolves [b0] InBodyArgument ctl sys [upd0] fns
              dMin body' control' update' E fns_keeps_bodies upd0_no_ice_sheets
              (or_introl eq_refl)) as (_ & Hb & Hres).
  split; [exact Hb|].
  specialize (Hres 0%nat 0%nat 0%nat). cbv zeta in Hres.
  assert (Hz : truthy (bFloatComparison (row update' 0 0 !!! 0%nat) 0) = false).
  { change (truthy (if Qeq_bool (row update' 0 0 !!! 0%nat) 0 then 1%Z else 0%Z) = false).
    destruct (Qeq_bool (row update' 0 0 !!! 0%nat) 0) eqn:Ez; [|reflexivity].
    apply Qeq_bool_iff in Ez. rewrite Hd in Ez. discriminate Ez. }
  assert (Hle : dMin <= Qabs (deref InBodyArgument [b0] [upd0] 0 0 / row update' 0 0 !!! 0%nat)).
  { apply Hres; try (vm_compute; lia); try (vm_compute; congruence); exact Hz. }
  rewrite Hd in Hle. exact Hle.
Defined.

(** [EulerStep_writes_back] on the matrix of [Examples]: the surface
    water, lost at the rate 1, goes down by the step *)
Lemma EulerStep_writes_back_witness :
  exists s,
    EulerStep [b0] ctl sys [upd0] fns 0 1 = Ret s
    /\ update_ready (iNumBodies (Evolve ctl)) (st_body s) (st_update s)
    /\ exists x,
         dbl (st_body s !!! 0%nat) dSurfaceWaterMass
         = EulerVar 1 (st_dDt s) (st_update s !!! 0%nat) 0 x.
Proof.
  assert (Hshape : match EulerStep [b0] ctl sys [upd0] fns 0 1 with
                   | Ret s =>
                       (length (st_body s) =? 1)%nat
                       && bool_decide (length (st_update s) = 1%nat)
                       && bool_decide (iNumVars (st_update s !!! 0%nat) = 3%nat)
                       && bool_decide (pdVar (st_update s !!! 0%nat)
                                       = [dSurfaceWaterMass; dRadius; dSemi])
                       && bool_decide (length (daDeriv (st_update s !!! 0%nat)) = 3%nat)
                   | Exit _ _ => false
                   end = true) by (vm_compute; reflexivity).
  destruct (EulerStep [b0] ctl sys [upd0] fns 0 1) as [s|] eqn:E; [|discriminate Hshape].
  apply andb_prop in Hshape as [Hshape Hd]. apply andb_prop in Hshape as [Hshape Hp].
  apply andb_prop in Hshape as [Hshape Hv]. apply andb_prop in Hshape as [Hb Hu].
  apply Nat.eqb_eq in Hb. apply bool_decide_eq_true in Hu, Hv, Hp, Hd.
  assert (Hready : update_ready (iNumBodies (Evolve ctl)) (st_body s) (st_update s)).
  { change (iNumBodies (Evolve ctl)) with 1%nat.
    split; [lia|]. split; [lia|]. intros i Hi. assert (i = 0%nat) as -> by lia.
    rewrite Hv, Hd, Hp. split; [lia|]. split; [cbn; lia|].
    apply (bool_decide_unpack _). by vm_compute. }
  exists s. split; [reflexivity|]. split; [exact Hready|].
  destruct (EulerStep_writes_back [b0] ctl sys [upd0] fns 0 1 s E Hready)
    as (body0 & _ & _ & Hvars).
  exists (dbl (body0 !!! 0%nat) dSurfaceWaterMass).
  destruct (Hvars 0%nat 0%nat) as [Hx _]; [vm_compute; lia|rewrite Hv; lia|].
  rewrite Hp in Hx. exact Hx.
Defined.

(** [PropertiesAuxiliary_keeps_members] on the star and the planet with
    their hooks *)
Lemma PropertiesAuxiliary_keeps_members_witness :
  ~ In dMeanMotion matrix_members
  /\ forall j g, In g matrix_members ->
       dbl ((PropertiesAuxiliary bodies ctl_hooks []).1 !!! j) g = dbl (bodies !!! j) g.
Proof.
  assert (Hno : ~ In dMeanMotion matrix_members).
  { cbn. intros Hin. repeat (destruct Hin as [Hin|Hin]; [discriminate Hin|]). exact Hin. }
  split; [exact Hno|].
  destruct (PropertiesAuxiliary_keeps_members bodies ctl_hooks [] matrix_members Hno)
    as ((_ & Hkeep) & _).
  - intros i m Hi Hm. change (iNumBodies (Evolve ctl_hooks)) with 2%nat in Hi.
    destruct i as [|[|i]]; [| |lia];
      (destruct m as [|m]; [|vm_compute in Hm; lia]).
    + apply fnPropsAuxStellar_keeps_members.
    + apply fnPropsAuxAtmEsc_keeps_members.
  - intros i m Hi Hm. change (iNumBodies (Evolve ctl_hooks)) with 2%nat in Hi.
    destruct i as [|[|i]]; [| |lia]; vm_compute in Hm; lia.
  - exact Hkeep.
Defined.
